(* ===== verification/_CoqProject ===== *)
-Q . S2P
Prelude.v
Json.v
ProcessRegistry.v
Termination.v
Supervisor.v
Requests.v
Framing.v
Bus.v
Scheduler.v
StringUtils.v
Config.v
Provider.v
Sse.v
LlmRequest.v
ServiceConfig.v
Adapters.v
Streams.v
Sessions.v
Storage.v
JsonStorage.v
Prompt.v
Conversations.v
Histories.v
SessionManager.v
DiskStore.v
Compaction.v
SessionControl.v
Tools.v
SessionQuery.v
Inference.v
Paths.v
EditDistance.v
FileText.v
FileTools.v
Skills.v
AgentTools.v
ThreadPool.v
Sha256.v
Runtime.v
Executioner.v
Preparation.v
Sdk.v
SdkLlm.v
SdkContract.v
ExecContract.v
Scenarios.v
SessionScenarios.v
SdkScenarios.v
DiskScenarios.v
ExecScenarios.v
FileScenarios.v
SkillScenarios.v
