(* ===== verification/Prelude.v ===== *)
(** * Velix: a verification of the kernel of an agentic runtime

    Velix runs language-model agents as operating-system processes.  A supervisor keeps
    the registry of processes and trees and kills what breaks its limits; an executioner
    prepares packages and starts processes; a bus carries messages between the processes; a
    scheduler queues their requests to language models, talks to the providers through
    adapters, and keeps the conversations; an SDK is what a process uses to talk to all of
    them.  This library models these services and proves what they promise, and where they
    do not keep it, that they do not.

    ** Parts and files

    Each file names the source it models at its head; definitions keep the source's names.
    The files are listed by service; [_CoqProject] has the order of their dependencies.

    Shared:
    - [Prelude]: machine integers with their wrap-around, doubles (IEEE 754 through
      [SpecFloat]), the monad [exc] of code that may throw or run into undefined
      behaviour, multimaps, and the invariant rule for reachable states.
    - [Json]: the part of [nlohmann::json] that the services call, with its type errors.
      An object is an association list.
    - [StringUtils], [Paths], [Config] (src/utils/{string_utils,config_utils}.hpp and the
      operations of [std::string] and [std::filesystem::path] in use), [EditDistance].
    - [ThreadPool] (src/utils/thread_pool.hpp): the pool that serves the connections, as a step
      relation on what happens under its lock and on notifications.

    The supervisor (src/core):
    - [ProcessRegistry] (process_registry.{hpp,cpp}): the process table, the tree table and
      the two indexes; an operation is a function of the registry, [reg_step] their
      interleaving, one per critical section of [registry_mutex_].
    - [Termination] (termination_engine.{hpp,cpp}): [kill_processes] and an iteration of the
      watchdog engine, with the signals, messages and waits they perform as an ordered list
      of [effect]s.
    - [Supervisor] (supervisor.cpp): validation, authentication, the message handlers, the
      whole tick of the watchdog, the respawn of the handler and [stop] over the service's
      state; [Requests] states what each request does.

    The bus (src/communication, src/core):
    - [Framing] (asio_framing.hpp, recv.cpp, send.cpp): frames with a length in front, over
      sockets that cut them anywhere.
    - [Bus] (bus.cpp): sessions with their strands and write queues, the routing maps and
      every message handler, as a step relation on completions.

    The scheduler and the providers (src/llm/scheduler.cpp, src/llm/adapters):
    - [Scheduler]: the queues per conversation, the candidates and their priorities, the
      workers' picks and ends, cancellation and the clients' waits.  [MaxQueue] is the
      interface of [std::priority_queue], with an implementation.
    - [LlmRequest]: the validation of a request, the context guard, the assembly of a chat
      request, the reassembly of a streamed answer and [undo]; [Inference]: the worker's
      whole treatment of a request; [SessionControl], [SessionQuery], [ServiceConfig],
      [Tools]: the commands and queries, the dispatch of a connection, the configuration and
      the registry of tools.
    - [Provider]: the data between scheduler and adapters; a chunk is given to a callback on
      a state of its own.  [Sse]: endpoints, requests and the parser of server-sent events.
      [Adapters]: payloads, responses and streams of the three adapters.  [Streams] follows a
      streamed answer from the wire to the scheduler.

    Conversations (src/llm):
    - [Storage] (storage/, session_io.hpp): [IStorageProvider], the interface of the
      providers, with the laws its clients rely on as classes ([ConversationStore], and
      [OwnedStore] for the sessions' owners), and the provider over SQLite, which satisfies
      both.  [JsonStorage] is the default provider, over JSON files on a disk, which satisfies
      [ConversationStore] (and not [OwnedStore]) where what is written reaches the file;
      [DiskStore] says what it does when calls, writes and removals fail.
    - [Sessions], [Prompt], [Conversations], [Histories] (session_io.cpp): names, the system
      prompt, the operations on conversations and what they guarantee over any provider that
      satisfies the interface.
    - [SessionManager], [Compaction] (session_manager.cpp, compacter.cpp): the sessions of
      the users, and the replacement of old turns by a summary.

    Processes (src/execution, src/runtime, src/utils):
    - [Sha256], [Runtime], [Executioner] (executioner.cpp, runtime_adapters.cpp,
      prepare_runner.cpp, run_launcher.cpp): the handling of a request to start a process,
      alone and together with others; [Preparation] has the invariants of the latter.
    - [Sdk], [SdkLlm] (velix_process.cpp): what a process does through the C++ SDK.
      [SdkContract] and [ExecContract] compose it with the services it talks to.
    - [FileText], [FileTools] (file_tools.cpp): the files that the agents read and patch;
      [Skills] (src/llm/skills): the instructions they can look up; [AgentTools] (src/tools):
      the tools through which they do so.

    The files whose names end in [Scenarios] are concrete runs, at which the hypotheses of
    the theorems hold.

    The supervisor calls the registry and the termination engine and is called over frames;
    the bus asks the supervisor with frames of its own; the scheduler calls an adapter,
    whose chunks come back to [LlmRequest.on_chunk], and keeps the turns through
    [Conversations]; a process asks the executioner for another, which registers with the
    supervisor through its own SDK and answers over the bus.

    ** What the theorems show

    Registry: the indexes agree with the tables in every reachable state, and each
    operation's effect.  Supervisor: it implements the set of the live processes - each
    request adds, removes or leaves exactly those that its type says, a tick keeps exactly
    those within their limits, a stop leaves none; every request is handled and its reply sent
    unless the sends fail, nothing is done without the token, there is one handler, each
    limit is enforced; and four ways in which processes or trees are treated wrongly.  Framing:
    round trips for every segmentation.  Bus: frames leave in the order in which they were
    posted, a relayed message names its true sender, and flaws of closing and heartbeats.

    Scheduler: one request per key at a time, first come first served within a key, what a
    pick returns, and what cancellation answers.  Requests: what is accepted, and that the
    context guard leaves room for the answer.  Streams: the parser of events inverts the
    protocol under every segmentation, interleaved fragments of tool calls are put together.
    Inference: a session is the list of its turns, answered or not.  Conversations: the
    records keep their shape, a request reaches only conversations of its owner, what is sent to the model is
    what was kept and what is new.  Storage: the provider over files refines a finite map
    whatever fails underneath, and what a write that fails loses is said.  Compaction: what it writes, that it runs alone per session
    and that its worker ends; and where messages are lost.

    Executioner: a request is launched only after its package was prepared, one thread
    prepares it at a time, those who wait are released; the digest does not depend on how
    the input is cut.  Contracts: the tool that a process launches registers as its child in
    its tree, its result reaches the call that waits for it, the requests of the SDK are
    accepted by the scheduler; and the termination notices that nobody receives.  Files: a
    patch is applied as a whole or not at all but for a flush that fails unseen, pages cover
    a file that is read whole, appends serialise under their lock, cut short or not; the
    repair of UTF-8 and the distance between names are what they should be.
    Skills: what is shown is what was written, and names that contain what was asked for are
    suggested.  Thread pool: a bounded queue that comes to rest with nothing left in it.

    ** Conventions

    A C++ exception is [Throw] with its text, undefined behaviour is [UB].  Clock readings,
    answers of the operating system, random identifiers, JSON text and HTTP are arguments
    of the definitions; no property of them is assumed but where a theorem names it.
    Fuel appears where a loop consumes its input, and the lemmas beside the definitions show
    that it is enough: the length of the buffer in [Sse.process_lines],
    [Adapters.ollama_lines], [StringUtils.replace_loop] and the UTF-8 functions, the bytes
    that are missing in [Framing.recv_chunks], the size of the queue in
    [Scheduler.pick_loop], the number of processes in the registry's walks.  Loops that the
    code bounds have the code's bound: the iterations of [SdkLlm.llm_loop], the attempts at a
    launch, a lock or a summary.  Locks are represented by the choice of what is one step;
    memory is not represented but where it goes wrong.  In [Executioner] the end of a shared
    preparation settles its slot and frees its key in one step, and the removal of a package's
    status is taken to succeed.  In [FileTools] and [JsonStorage] a write may reach its file in
    part, as the system answers; a temporary file has one writer.

    ** Not modelled

    The accept loops, the sockets and the entry point of the kernel, which are wiring; the
    process spawner and the internals of the file lock, which are system calls; the persistent
    applications with their pseudo-terminals and the terminal tool; the chat handler, a
    program of its own on top of the SDK; the SDKs in other languages, the Windows branches
    and the vendored libraries. *)

From stdpp Require Export base gmap sets list strings pretty relations.
From Stdlib Require Export ZArith Lia.
From Stdlib Require Export SpecFloat.

#[export] Set Warnings "-clear-no-such-hyp".

#[export] Set Default Goal Selector "!".
#[global] Open Scope Z_scope.

(** ** Machine integers

    A C++ integer of width [w] is a [Z]; arithmetic that may leave the range is
    followed by the wrap-around of its type. *)

(** [static_cast<uint64_t>] and the result of [uint64_t] arithmetic. *)
Definition u64 (x : Z) : Z := x mod 2 ^ 64.

(** [static_cast<uint32_t>]. *)
Definition u32 (x : Z) : Z := x mod 2 ^ 32.

(** [static_cast<int>] of an integer (two's complement). *)
Definition i32 (x : Z) : Z := (x + 2 ^ 31) mod 2 ^ 32 - 2 ^ 31.

(** [static_cast<long long>] of an integer. *)
Definition i64 (x : Z) : Z := (x + 2 ^ 63) mod 2 ^ 64 - 2 ^ 63.

(** [std::numeric_limits<int>::max()]. *)
Definition INT_MAX : Z := 2147483647.

Lemma u64_range x : 0 ≤ u64 x < 2 ^ 64.
Proof. apply Z.mod_pos_bound. lia. Qed.

Lemma u32_range x : 0 ≤ u32 x < 2 ^ 32.
Proof. apply Z.mod_pos_bound. lia. Qed.

Lemma i32_range x : - 2 ^ 31 ≤ i32 x ≤ INT_MAX.
Proof.
  unfold i32, INT_MAX. pose proof (Z.mod_pos_bound (x + 2 ^ 31) (2 ^ 32)). lia.
Qed.

Lemma u64_id x : 0 ≤ x < 2 ^ 64 → u64 x = x.
Proof. intros. by apply Z.mod_small. Qed.

Lemma u32_id x : 0 ≤ x < 2 ^ 32 → u32 x = x.
Proof. intros. by apply Z.mod_small. Qed.

Lemma i32_id x : - 2 ^ 31 ≤ x ≤ INT_MAX → i32 x = x.
Proof.
  unfold i32, INT_MAX. intros. rewrite Z.mod_small; lia.
Qed.

Lemma i64_id x : - 2 ^ 63 ≤ x < 2 ^ 63 → i64 x = x.
Proof. unfold i64. intros. rewrite Z.mod_small; lia. Qed.

(** A round trip through the signed type. *)
Lemma u64_i64 x : 0 ≤ x < 2 ^ 64 → u64 (i64 x) = x.
Proof.
  unfold u64, i64. intros Hx. destruct (decide (x < 2 ^ 63)).
  - rewrite (Z.mod_small (x + 2 ^ 63)) by lia. rewrite Z.mod_small; lia.
  - replace (x + 2 ^ 63) with (x - 2 ^ 63 + 1 * 2 ^ 64) by lia.
    rewrite Z.mod_add, (Z.mod_small (x - 2 ^ 63)) by lia.
    replace (x - 2 ^ 63 - 2 ^ 63) with (x + (-1) * 2 ^ 64) by lia.
    rewrite Z.mod_add, Z.mod_small by lia. done.
Qed.

(** A subtraction of [uint64_t] that underflows wraps to a huge value. *)
Lemma u64_sub_underflow a b :
  0 ≤ a < b → b < 2 ^ 64 → u64 (a - b) = 2 ^ 64 - (b - a).
Proof.
  intros ??. unfold u64. symmetry.
  apply (Z.mod_unique_pos _ _ (-1)); lia.
Qed.

Lemma u64_sub_id a b : 0 ≤ b ≤ a → a < 2 ^ 64 → u64 (a - b) = a - b.
Proof. intros. apply u64_id. lia. Qed.

(** ** Doubles

    A C++ [double] is an IEEE 754 binary64 datum, computed with the executable
    reference operations of the Standard Library ([SpecFloat]). *)

Abbreviation double := spec_float.

Definition d_prec : Z := 53.
Definition d_emax : Z := 1024.

Definition d_add (x y : double) : double := SFadd d_prec d_emax x y.
Definition d_mul (x y : double) : double := SFmul d_prec d_emax x y.
Definition d_div (x y : double) : double := SFdiv d_prec d_emax x y.

(** [static_cast<double>] of an integer. *)
Definition d_of_Z (z : Z) : double := binary_normalize d_prec d_emax z 0 false.

(** The literals 0.2, 0.7 and 0.9. *)
Definition d_0_2 : double := S754_finite false 7205759403792794 (-55).
Definition d_0_7 : double := S754_finite false 6305039478318694 (-53).
Definition d_0_9 : double := S754_finite false 8106479329266893 (-53).

(** [x > y] on doubles. *)
Definition d_gtb (x y : double) : bool := SFltb y x.

Definition d_zero : double := S754_zero false.

Definition d_is_nan (x : double) : bool := if x is S754_nan then true else false.

(** The order of doubles that are numbers is that of a triple of integers. *)
Definition d_key (x : double) : Z * Z * Z :=
  match x with
  | S754_infinity s => (if s then -2 else 2, 0, 0)
  | S754_finite s m e => if s then (-1, - e, Z.neg m) else (1, e, Z.pos m)
  | S754_zero _ | S754_nan => (0, 0, 0)
  end.

Definition key_lt (a b : Z * Z * Z) : Prop :=
  a.1.1 < b.1.1 ∨ (a.1.1 = b.1.1 ∧ (a.1.2 < b.1.2 ∨ (a.1.2 = b.1.2 ∧ a.2 < b.2))).

Lemma d_ltb_key x y :
  d_is_nan x = false → d_is_nan y = false →
  SFltb x y = true ↔ key_lt (d_key x) (d_key y).
Proof.
  unfold SFltb, SFcompare, key_lt.
  destruct x as [sx|sx| |sx mx ex], y as [sy|sy| |sy my ey]; try done; intros _ _;
    destruct sx, sy; simpl; try (split; [done|lia]); try (split; [lia|done]).
  all: fold (Pos.compare mx my); destruct (Z.compare_spec ex ey); subst; simpl;
    try (split; [done|lia]); try (split; [lia|done]).
  all: destruct (Pos.compare_spec mx my); subst; simpl;
    try (split; [done|lia]); try (split; [lia|done]).
Qed.

(** Not being below is transitive on numbers. *)
Lemma d_ltb_trans_false x y z :
  d_is_nan x = false → d_is_nan y = false → d_is_nan z = false →
  SFltb x y = false → SFltb y z = false → SFltb x z = false.
Proof.
  intros Hx Hy Hz. rewrite <-!not_true_iff_false, !d_ltb_key by done.
  unfold key_lt. lia.
Qed.

Lemma d_ltb_asym x y :
  d_is_nan x = false → d_is_nan y = false → SFltb x y = true → SFltb y x = false.
Proof.
  intros Hx Hy. rewrite <-not_true_iff_false, !d_ltb_key by done. unfold key_lt. lia.
Qed.

(** ** Exceptions

    A C++ function returns normally, throws an exception with a [what()] text, or
    has undefined behaviour (which no [catch] intercepts). *)

Inductive exc (A : Type) : Type :=
  | Ok (a : A)
  | Throw (what : string)
  | UB.
Arguments Ok {A} _.
Arguments Throw {A} _.
Arguments UB {A}.

#[export] Instance exc_ret : MRet exc := λ A a, Ok a.
#[export] Instance exc_bind : MBind exc := λ A B f m,
  match m with Ok a => f a | Throw w => Throw w | UB => UB end.
#[export] Instance exc_fmap : FMap exc := λ A B f m,
  match m with Ok a => Ok (f a) | Throw w => Throw w | UB => UB end.

(** [try { m } catch (const std::exception &e) { h(e.what()) }]. *)
Definition try_catch {A} (m : exc A) (h : string → exc A) : exc A :=
  match m with Throw w => h w | _ => m end.

(** The mapping over a list of a computation that may throw, in list order: the
    loops of the source that build one result per element. *)
Fixpoint exc_map {A B} (f : A → exc B) (l : list A) : exc (list B) :=
  match l with
  | [] => mret []
  | x :: l => y ← f x; ys ← exc_map f l; mret (y :: ys)
  end.

Lemma exc_bind_ok {A B} (f : A → exc B) a : (Ok a ≫= f) = f a.
Proof. done. Qed.

Lemma exc_bind_Ok_inv {A B} (m : exc A) (f : A → exc B) b :
  (m ≫= f) = Ok b → ∃ a, m = Ok a ∧ f a = Ok b.
Proof. destruct m; naive_solver. Qed.

Lemma exc_fmap_Ok_inv {A B} (f : A → B) (m : exc A) b :
  (f <$> m) = Ok b → ∃ a, m = Ok a ∧ b = f a.
Proof. destruct m; naive_solver. Qed.

(** Follow one branch of a computation that returned: each bind, test and match of
    [H : m = Ok b] is inverted in turn, from the outside in. *)
Ltac exc_step H :=
  cbv beta zeta in H;
  lazymatch type of H with
  | (_ ≫= _) = Ok _ =>
      let a := fresh "a" in let E := fresh "E" in
      apply exc_bind_Ok_inv in H as (a & E & H)
  | (_ <$> _) = Ok _ =>
      let a := fresh "a" in let E := fresh "E" in
      apply exc_fmap_Ok_inv in H as (a & H & E)
  | mret _ = Ok _ => unfold mret, exc_ret in H; simplify_eq
  | Ok _ = Ok _ => simplify_eq
  | Throw _ = Ok _ => discriminate H
  | UB = Ok _ => discriminate H
  | (if ?b then _ else _) = Ok _ =>
      lazymatch type of b with bool => destruct b eqn:? | _ => destruct b end
  | (let '(_, _) := ?p in _) = Ok _ => destruct p eqn:?
  | match ?x with _ => _ end = Ok _ => destruct x eqn:?
  end.

Ltac exc_run H := repeat exc_step H.

(** ** State and exceptions

    A handler that throws half-way keeps the stores it made before. *)

Definition ST (St A : Type) : Type := St → exc A * St.

#[export] Instance ST_ret {St} : MRet (ST St) := λ A a s, (Ok a, s).
#[export] Instance ST_bind {St} : MBind (ST St) := λ A B f m s,
  match m s with
  | (Ok a, s) => f a s
  | (Throw w, s) => (Throw w, s)
  | (UB, s) => (UB, s)
  end.

Definition lift {St A} (e : exc A) : ST St A := λ s, (e, s).
Definition modify {St} (f : St → St) : ST St () := λ s, (Ok tt, f s).
Definition gets {St A} (f : St → A) : ST St A := λ s, (Ok (f s), s).

(** [try { m } catch (const std::exception &e) { h }]. *)
Definition st_catch {St A} (m : ST St A) (h : string → ST St A) : ST St A := λ s,
  match m s with (Throw w, s) => h w s | r => r end.

(** [for (x : l) f(x)] *)
Fixpoint st_iter {St A} (f : A → ST St ()) (l : list A) : ST St () :=
  match l with
  | [] => mret tt
  | x :: l => f x;; st_iter f l
  end.

Lemma st_bind_Ok_inv {St A B} (m : ST St A) (f : A → ST St B) s b s' :
  (m ≫= f) s = (Ok b, s') → ∃ a s1, m s = (Ok a, s1) ∧ f a s1 = (Ok b, s').
Proof. unfold mbind, ST_bind. destruct (m s) as [[a| |] s1]; [|done..]. by exists a, s1. Qed.

Lemma st_lift_Ok_inv {St A} (e : exc A) (s : St) a s' :
  lift e s = (Ok a, s') → e = Ok a ∧ s' = s.
Proof. by intros [= -> ->]. Qed.

Section keeps.
Context {St : Type} (I : St → Prop).

(** From a state where [I] holds, [m] ends in one where it holds, and what it returns
    satisfies [Q]. *)
Definition keeps {A} (m : ST St A) (Q : A → Prop) : Prop :=
  ∀ s, I s → I (m s).2 ∧ ∀ a, (m s).1 = Ok a → Q a.

Lemma keeps_ret {A} (a : A) (Q : A → Prop) : Q a → keeps (mret a) Q.
Proof. intros Ha s Hs. split; [done|]. by intros ? [= <-]. Qed.

Lemma keeps_bind {A B} (m : ST St A) (f : A → ST St B) Q R :
  keeps m Q → (∀ a, Q a → keeps (f a) R) → keeps (m ≫= f) R.
Proof.
  intros Hm Hf s Hs. destruct (Hm s Hs) as [Hs' Ha]. unfold mbind, ST_bind.
  destruct (m s) as [[a|w|] s']; simpl in *; [|done..]. apply Hf; [by apply Ha|done].
Qed.

Lemma keeps_lift {A} (e : exc A) (Q : A → Prop) : (∀ a, e = Ok a → Q a) → keeps (lift e) Q.
Proof. intros He s Hs. split; [done|]. exact He. Qed.

Lemma keeps_gets {A} (f : St → A) (Q : A → Prop) : (∀ s, I s → Q (f s)) → keeps (gets f) Q.
Proof. intros Hf s Hs. split; [done|]. intros a [= <-]. by apply Hf. Qed.

Lemma keeps_modify (f : St → St) (Q : () → Prop) :
  (∀ s, I s → I (f s)) → Q tt → keeps (modify f) Q.
Proof. intros Hf HQ s Hs. split; [by apply Hf|]. by intros [] _. Qed.

Lemma keeps_catch {A} (m : ST St A) h Q :
  keeps m Q → (∀ w, keeps (h w) Q) → keeps (st_catch m h) Q.
Proof.
  intros Hm Hh s Hs. destruct (Hm s Hs) as [Hs' Ha]. unfold st_catch.
  destruct (m s) as [[a|w|] s']; simpl in *; [by split| |by split]. by apply Hh.
Qed.

Lemma keeps_iter {A} (f : A → ST St ()) l :
  (∀ x, x ∈ l → keeps (f x) (λ _, True)) → keeps (st_iter f l) (λ _, True).
Proof.
  induction l as [|x l IH]; intros Hf; simpl; [by apply keeps_ret|].
  eapply keeps_bind; [apply Hf; by left|]. intros _ _. apply IH. intros y Hy. apply Hf. by right.
Qed.

Lemma keeps_mono {A} (m : ST St A) (Q R : A → Prop) :
  (∀ a, Q a → R a) → keeps m Q → keeps m R.
Proof. intros HQ Hm s Hs. destruct (Hm s Hs). split; [done|]. intros. by apply HQ; auto. Qed.
End keeps.

(** ** Decimal text

    [std::to_string] of a nonnegative integer is stdpp's [pretty]. *)

(** [std::isdigit] in the C locale. *)
Definition isdigit (c : Ascii.ascii) : bool :=
  (48 <=? Ascii.N_of_ascii c)%N && (Ascii.N_of_ascii c <=? 57)%N.

Fixpoint all_digits (s : string) : bool :=
  match s with
  | EmptyString => true
  | String c s => isdigit c && all_digits s
  end.

Lemma pretty_N_char_digit x : isdigit (pretty_N_char x) = true.
Proof. unfold pretty_N_char. by repeat case_match. Qed.

Lemma pretty_N_go_digits x s :
  all_digits s = true → all_digits (pretty_N_go x s) = true.
Proof.
  revert s. induction (N.lt_wf_0 x) as [x _ IH]; intros s Hs.
  assert (x = 0 ∨ 0 < x)%N as [->|?] by lia; [by rewrite pretty_N_go_0|].
  rewrite pretty_N_go_step by done. apply IH; [by apply N.div_lt|].
  simpl. by rewrite pretty_N_char_digit.
Qed.

Lemma pretty_N_digits (x : N) : all_digits (pretty x) = true.
Proof. unfold pretty, pretty_N. case_decide; [done|by apply pretty_N_go_digits]. Qed.

Lemma pretty_Z_digits (z : Z) : 0 ≤ z → all_digits (pretty z) = true.
Proof. destruct z; [done|intros; apply pretty_N_digits|lia]. Qed.

(** ** Invariants of transition systems *)

Section invariants.
Context {A : Type} (R : relation A) (I : A → Prop).

(** A property that every transition preserves holds of every state reachable
    from one where it holds. *)
Lemma rtc_invariant x y :
  (∀ x y, I x → R x y → I y) → rtc R x y → I x → I y.
Proof. intros Hstep Hrtc. induction Hrtc; eauto. Qed.
End invariants.

(** ** Multimaps: [std::unordered_map<K, std::unordered_set<V>>]

    The registry keeps two such indexes, with the discipline that an empty set is
    never kept. *)

Section multimap.
Context {K V : Type} {eqK : EqDecision K} {cntK : Countable K}.
Context {eqV : EqDecision V} {cntV : Countable V}.
Implicit Types (m : gmap K (gset V)) (k : K) (v : V).

Definition mm_get m k : gset V := default ∅ (m !! k).

(** [m[k].insert(v)] *)
Definition mm_insert k v m : gmap K (gset V) := <[k := {[v]} ∪ mm_get m k]> m.

(** [it = m.find(k); if (it != end) { it->second.erase(v);
    if (it->second.empty()) m.erase(it); }] *)
Definition mm_erase k v m : gmap K (gset V) :=
  match m !! k with
  | None => m
  | Some s =>
      let s' := s ∖ {[v]} in
      if decide (s' = ∅) then delete k m else <[k := s']> m
  end.

(** No empty set is kept. *)
Definition mm_wf m : Prop := map_Forall (λ _ s, s ≠ ∅) m.

Lemma elem_of_mm_insert k v m k' v' :
  v' ∈ mm_get (mm_insert k v m) k' ↔ (k' = k ∧ v' = v) ∨ v' ∈ mm_get m k'.
Proof.
  unfold mm_insert, mm_get. rewrite lookup_insert.
  case_decide; subst; simpl; set_solver.
Qed.

Lemma elem_of_mm_erase k v m k' v' :
  v' ∈ mm_get (mm_erase k v m) k' ↔ v' ∈ mm_get m k' ∧ ¬ (k' = k ∧ v' = v).
Proof.
  unfold mm_erase, mm_get. destruct (m !! k) as [s|] eqn:Hk.
  2:{ destruct (decide (k' = k)) as [->|]; [rewrite Hk|]; set_solver. }
  destruct (decide (k' = k)) as [->|Hne].
  - rewrite Hk; simpl. case_decide as Hs.
    + rewrite lookup_delete_eq; simpl.
      assert (v' ∉ s ∖ {[v]}) by (rewrite Hs; set_solver). set_solver.
    + rewrite lookup_insert_eq; simpl. set_solver.
  - case_decide; [rewrite lookup_delete_ne by done|rewrite lookup_insert_ne by done];
      set_solver.
Qed.

Lemma elem_of_mm_delete k m k' v' :
  v' ∈ mm_get (delete k m) k' ↔ k' ≠ k ∧ v' ∈ mm_get m k'.
Proof.
  unfold mm_get. rewrite lookup_delete. case_decide; subst; simpl; set_solver.
Qed.

Lemma mm_wf_empty : mm_wf ∅.
Proof. apply map_Forall_empty. Qed.

Lemma mm_wf_insert k v m : mm_wf m → mm_wf (mm_insert k v m).
Proof. intros. apply map_Forall_insert_2; [set_solver|done]. Qed.

Lemma mm_wf_erase k v m : mm_wf m → mm_wf (mm_erase k v m).
Proof.
  unfold mm_erase. intros Hm. destruct (m !! k) eqn:?; [|done].
  case_decide; [by apply map_Forall_delete|by apply map_Forall_insert_2].
Qed.

Lemma mm_wf_delete k m : mm_wf m → mm_wf (delete k m).
Proof. apply map_Forall_delete. Qed.

(** With no empty set kept, a key is absent exactly when its set is empty. *)
Lemma mm_wf_lookup_None m k : mm_wf m → m !! k = None ↔ mm_get m k = ∅.
Proof.
  intros Hm. unfold mm_get. destruct (m !! k) as [s|] eqn:Hk; simpl; [|done].
  split; [done|]. intros ->. by destruct (Hm k ∅ Hk).
Qed.
End multimap.

(** ** Automation *)

Create HintDb velix.
#[export] Hint Resolve mm_wf_empty mm_wf_insert mm_wf_erase mm_wf_delete : velix.
#[export] Hint Resolve u64_range u32_range i32_range : velix.

Create Rewrite HintDb velix_mm.
#[export] Hint Rewrite @elem_of_mm_insert @elem_of_mm_erase @elem_of_mm_delete : velix_mm.

(** Case analysis on every [if decide] and [match] of the goal. *)
Ltac case_all := repeat (case_match; simplify_eq/=; try done).
