(* ===== verification/Json.v ===== *)
(** * JSON values as the services use them

    The messages of the kernel are [nlohmann::json] values (src/vendor/nlohmann).
    This file models the part of that interface the modelled code calls:
    [contains], the [is_*] tests, [get<T>], [value(key, default)] with its type
    errors, and the construction of objects.  Parsing and [dump] are left to the
    library. *)

From S2P Require Import Prelude.

(** A JSON value; an object keeps its members as an association list with the
    first binding of a key in force.  [number_integer] and [number_unsigned] are
    one constructor, whose integer is in the union of their ranges. *)
Inductive json : Type :=
  | JNull
  | JBool (b : bool)
  | JInt (z : Z)
  | JFloat (f : double)
  | JString (s : string)
  | JArray (l : list json)
  | JObject (kvs : list (string * json)).

(** [json::type_name] *)
Definition type_name (j : json) : string :=
  match j with
  | JNull => "null"
  | JBool _ => "boolean"
  | JInt _ | JFloat _ => "number"
  | JString _ => "string"
  | JArray _ => "array"
  | JObject _ => "object"
  end.

Definition is_object (j : json) : bool := if j is JObject _ then true else false.
Definition is_array (j : json) : bool := if j is JArray _ then true else false.
Definition is_string (j : json) : bool := if j is JString _ then true else false.
Definition is_number_integer (j : json) : bool := if j is JInt _ then true else false.
Definition is_null (j : json) : bool := if j is JNull then true else false.

(** [j.empty()] *)
Definition json_empty (j : json) : bool :=
  match j with JNull | JArray [] | JObject [] => true | _ => false end.

(** [type_error::create(id, what)] *)
Definition type_error {A} (id : Z) (what : string) : exc A :=
  Throw ("[json.exception.type_error." +:+ pretty id +:+ "] " +:+ what).

(** The first binding of a key. *)
Fixpoint assoc (key : string) (kvs : list (string * json)) : option json :=
  match kvs with
  | [] => None
  | (k, v) :: kvs => if decide (k = key) then Some v else assoc key kvs
  end.

(** [find(key)] on an object; nothing is found in another value. *)
Definition find (j : json) (key : string) : option json :=
  if j is JObject kvs then assoc key kvs else None.

Definition contains (j : json) (key : string) : bool :=
  bool_decide (is_Some (find j key)).

(** The integer a finite double truncates to. *)
Definition d_trunc (f : double) : option Z :=
  match f with
  | S754_zero _ => Some 0
  | S754_finite s m e =>
      let a := if decide (0 ≤ e) then Z.pos m * 2 ^ e else Z.pos m / 2 ^ (- e) in
      Some (if s then - a else a)
  | _ => None
  end.

(** [get<int>]: integers wrap, booleans count, a double that does not fit is
    undefined behaviour. *)
Definition get_int (j : json) : exc Z :=
  match j with
  | JInt z => Ok (i32 z)
  | JBool b => Ok (if b then 1 else 0)
  | JFloat f =>
      match d_trunc f with
      | Some z => if decide (- 2 ^ 31 ≤ z ≤ INT_MAX) then Ok z else UB
      | None => UB
      end
  | _ => type_error 302 ("type must be number, but is " +:+ type_name j)
  end.

(** [get<long>] and [get<uint64_t>]. *)
Definition get_integer (wrap : Z → Z) (lo hi : Z) (j : json) : exc Z :=
  match j with
  | JInt z => Ok (wrap z)
  | JBool b => Ok (if b then 1 else 0)
  | JFloat f =>
      match d_trunc f with
      | Some z => if decide (lo ≤ z ≤ hi) then Ok z else UB
      | None => UB
      end
  | _ => type_error 302 ("type must be number, but is " +:+ type_name j)
  end.

Definition get_long : json → exc Z := get_integer i64 (- 2 ^ 63) (2 ^ 63 - 1).
Definition get_uint64 : json → exc Z := get_integer u64 0 (2 ^ 64 - 1).

(** [get<double>] *)
Definition get_double (j : json) : exc double :=
  match j with
  | JInt z => Ok (d_of_Z z)
  | JFloat f => Ok f
  | _ => type_error 302 ("type must be number, but is " +:+ type_name j)
  end.

(** [get<bool>] *)
Definition get_bool (j : json) : exc bool :=
  match j with
  | JBool b => Ok b
  | _ => type_error 302 ("type must be boolean, but is " +:+ type_name j)
  end.

(** [get<std::string>] *)
Definition get_string (j : json) : exc string :=
  match j with
  | JString s => Ok s
  | _ => type_error 302 ("type must be string, but is " +:+ type_name j)
  end.

(** [j.value(key, default_value)], for the type whose [get<T>] is [get]. *)
Definition value {A} (get : json → exc A) (j : json) (key : string) (default_value : A) :
    exc A :=
  match j with
  | JObject kvs =>
      match assoc key kvs with
      | Some v => get v
      | None => Ok default_value
      end
  | _ => type_error 306 ("cannot use value() with " +:+ type_name j)
  end.

Definition value_int := value get_int.
Definition value_long := value get_long.
Definition value_uint64 := value get_uint64.
Definition value_double := value get_double.
Definition value_bool := value get_bool.
Definition value_string := value get_string.
Definition value_json := value (A:=json) Ok.

(** [j[key] = v] on a value that is an object: the binding is replaced, or added. *)
Fixpoint assoc_set (key : string) (v : json) (kvs : list (string * json)) :
    list (string * json) :=
  match kvs with
  | [] => [(key, v)]
  | (k, w) :: kvs =>
      if decide (k = key) then (k, v) :: kvs else (k, w) :: assoc_set key v kvs
  end.

(** [j[key] = v]: a null becomes an object, another value throws. *)
Definition set_field (key : string) (v : json) (j : json) : exc json :=
  match j with
  | JObject kvs => Ok (JObject (assoc_set key v kvs))
  | JNull => Ok (JObject [(key, v)])
  | _ => type_error 305 ("cannot use operator[] with a string argument with "
                         +:+ type_name j)
  end.

(** The response [{{"status", "error"}, {"error", text}}] of every service. *)
Definition error_response (text : string) : json :=
  JObject [("status", JString "error"); ("error", JString text)].

(** ** Laws *)

Lemma assoc_set_eq key v kvs : assoc key (assoc_set key v kvs) = Some v.
Proof.
  induction kvs as [|[k w] kvs IH]; simpl; repeat (case_decide; simpl); naive_solver.
Qed.

Lemma assoc_set_ne key key' v kvs :
  key' ≠ key → assoc key' (assoc_set key v kvs) = assoc key' kvs.
Proof.
  intros. induction kvs as [|[k w] kvs IH]; simpl; repeat (case_decide; simpl);
    naive_solver.
Qed.

Lemma set_field_find key v j j' :
  set_field key v j = Ok j' → find j' key = Some v.
Proof.
  destruct j; simpl; unfold type_error; intros; simplify_eq; simpl.
  - by rewrite decide_True.
  - apply assoc_set_eq.
Qed.

Lemma set_field_find_ne key key' v j j' :
  set_field key v j = Ok j' → key' ≠ key → find j' key' = find j key'.
Proof.
  destruct j; simpl; unfold type_error; intros; simplify_eq; simpl.
  - by rewrite decide_False.
  - by apply assoc_set_ne.
Qed.

(** [value] with a default never throws on an object without the key. *)
Lemma value_absent {A} (get : json → exc A) j key d :
  is_object j → find j key = None → value get j key d = Ok d.
Proof. destruct j; simpl; try done. by intros _ ->. Qed.

Lemma value_present {A} (get : json → exc A) j key d v :
  find j key = Some v → value get j key d = get v.
Proof. destruct j; simpl; try done. by intros ->. Qed.

Lemma value_string_defined j k d : value_string j k d ≠ UB.
Proof. unfold value_string, value, get_string, type_error. by repeat case_match. Qed.

Lemma get_int_range j z : get_int j = Ok z → - 2 ^ 31 ≤ z ≤ INT_MAX.
Proof.
  destruct j; simpl; unfold type_error; intros; simplify_eq.
  - unfold INT_MAX. destruct b; lia.
  - apply i32_range.
  - repeat case_match; by simplify_eq.
Qed.

Lemma value_int_range j key d z :
  value_int j key d = Ok z → - 2 ^ 31 ≤ d ≤ INT_MAX → - 2 ^ 31 ≤ z ≤ INT_MAX.
Proof.
  unfold value_int, value, type_error. intros Hv Hd.
  repeat case_match; simplify_eq; [by eapply get_int_range|done].
Qed.

Create Rewrite HintDb velix_json.
#[export] Hint Rewrite @value_absent @value_present using done : velix_json.

(** What [value] returned: the member of the key, or the default. *)
Lemma value_string_inv j key d s :
  value_string j key d = Ok s →
  find j key = Some (JString s) ∨ (find j key = None ∧ s = d).
Proof.
  unfold value_string, value, find. destruct j; try done.
  destruct (assoc key kvs) as [[]|]; simpl; intros; simplify_eq; auto.
Qed.

Lemma value_json_inv j key d v :
  value_json j key d = Ok v → find j key = Some v ∨ (find j key = None ∧ v = d).
Proof.
  unfold value_json, value, find. destruct j; try done.
  destruct (assoc key kvs); intros; simplify_eq; auto.
Qed.

Lemma value_double_inv j key d x :
  value_double j key d = Ok x →
  (∃ v, find j key = Some v ∧ get_double v = Ok x) ∨ (find j key = None ∧ x = d).
Proof.
  unfold value_double, value, find. destruct j; try done.
  destruct (assoc key kvs); intros; simplify_eq; eauto.
Qed.

Lemma value_int_inv j key d n :
  value_int j key d = Ok n →
  (∃ v, find j key = Some v ∧ get_int v = Ok n) ∨ (find j key = None ∧ n = d).
Proof.
  unfold value_int, value, find. destruct j; try done.
  destruct (assoc key kvs); intros; simplify_eq; eauto.
Qed.
