(* ===== verification/ProcessRegistry.v ===== *)
(** * The process registry (src/core/process_registry.{hpp,cpp})

    The single owner of process and tree state: the process table, the tree table
    and the two indexes derived from them.  Every public method runs under
    [registry_mutex_] (or on atomics), so each is one function of the registry
    here; a reading of the system clock is an argument.  A [std::shared_ptr] to a
    [ProcessInfo] is its pid: pids are never reused, and the record it points to is
    the table's. *)

From S2P Require Import Prelude.

(** ** Data *)

Inductive ProcessStatus :=
  | STARTING | RUNNING | WAITING_LLM | WAITING_EXEC | FINISHED | ERROR | KILLED.

Inductive TreeStatus := T_ACTIVE | T_COMPLETED | T_FAILED | T_KILLED.

#[export] Instance ProcessStatus_eq_dec : EqDecision ProcessStatus.
Proof. solve_decision. Defined.
#[export] Instance TreeStatus_eq_dec : EqDecision TreeStatus.
Proof. solve_decision. Defined.

Record ProcessInfo := {
  p_pid : Z;
  p_os_pid : Z;
  p_parent_pid : Z;
  p_tree_id : string;
  p_role : string;
  p_trace_id : string;
  p_status : ProcessStatus;
  p_memory_mb : double;
  p_last_heartbeat_ms : Z;
  p_alive : bool;
  p_termination_time_ms : Z;
}.

Record ProcessInfoSnapshot := {
  s_pid : Z;
  s_os_pid : Z;
  s_tree_id : string;
  s_parent_pid : Z;
  s_role : string;
  s_status : ProcessStatus;
  s_memory_mb : double;
}.

Record TreeInfo := {
  t_tree_id : string;
  t_root_pid : Z;
  t_created_at_ms : Z;
  t_status : TreeStatus;
  t_llm_request_count : Z;
}.

Record WatchdogEntry := {
  w_pid : Z;
  w_os_pid : Z;
  w_tree_id : string;
  w_parent_pid : Z;
  w_trace_id : string;
  w_last_heartbeat_ms : Z;
  w_tree_created_at_ms : Z;
  w_memory_mb : double;
  w_status : ProcessStatus;
  w_alive : bool;
}.

Record Registry := {
  process_table : gmap Z ProcessInfo;
  tree_table : gmap string TreeInfo;
  tree_process_index : gmap string (gset Z);
  process_children : gmap Z (gset Z);
  process_counter : Z;
  tree_counter : Z;
}.

(** [ProcessRegistry::ProcessRegistry() = default] with the initialisers of the
    members. *)
Definition ProcessRegistry_init : Registry := {|
  process_table := ∅;
  tree_table := ∅;
  tree_process_index := ∅;
  process_children := ∅;
  process_counter := 1000;
  tree_counter := 1;
|}.

(** ** Stores to the fields *)

Definition set_status (st : ProcessStatus) (p : ProcessInfo) : ProcessInfo := {|
  p_pid := p_pid p; p_os_pid := p_os_pid p; p_parent_pid := p_parent_pid p;
  p_tree_id := p_tree_id p; p_role := p_role p; p_trace_id := p_trace_id p;
  p_status := st; p_memory_mb := p_memory_mb p;
  p_last_heartbeat_ms := p_last_heartbeat_ms p; p_alive := p_alive p;
  p_termination_time_ms := p_termination_time_ms p |}.

Definition set_alive (b : bool) (p : ProcessInfo) : ProcessInfo := {|
  p_pid := p_pid p; p_os_pid := p_os_pid p; p_parent_pid := p_parent_pid p;
  p_tree_id := p_tree_id p; p_role := p_role p; p_trace_id := p_trace_id p;
  p_status := p_status p; p_memory_mb := p_memory_mb p;
  p_last_heartbeat_ms := p_last_heartbeat_ms p; p_alive := b;
  p_termination_time_ms := p_termination_time_ms p |}.

Definition set_termination_time (t : Z) (p : ProcessInfo) : ProcessInfo := {|
  p_pid := p_pid p; p_os_pid := p_os_pid p; p_parent_pid := p_parent_pid p;
  p_tree_id := p_tree_id p; p_role := p_role p; p_trace_id := p_trace_id p;
  p_status := p_status p; p_memory_mb := p_memory_mb p;
  p_last_heartbeat_ms := p_last_heartbeat_ms p; p_alive := p_alive p;
  p_termination_time_ms := t |}.

Definition set_heartbeat (st : ProcessStatus) (mem : double) (now : Z)
    (p : ProcessInfo) : ProcessInfo := {|
  p_pid := p_pid p; p_os_pid := p_os_pid p; p_parent_pid := p_parent_pid p;
  p_tree_id := p_tree_id p; p_role := p_role p; p_trace_id := p_trace_id p;
  p_status := st; p_memory_mb := mem; p_last_heartbeat_ms := now;
  p_alive := p_alive p; p_termination_time_ms := p_termination_time_ms p |}.

Definition set_tree_status (st : TreeStatus) (t : TreeInfo) : TreeInfo := {|
  t_tree_id := t_tree_id t; t_root_pid := t_root_pid t;
  t_created_at_ms := t_created_at_ms t; t_status := st;
  t_llm_request_count := t_llm_request_count t |}.

Definition set_root_pid (pid : Z) (t : TreeInfo) : TreeInfo := {|
  t_tree_id := t_tree_id t; t_root_pid := pid;
  t_created_at_ms := t_created_at_ms t; t_status := t_status t;
  t_llm_request_count := t_llm_request_count t |}.

Definition incr_llm_count (t : TreeInfo) : TreeInfo := {|
  t_tree_id := t_tree_id t; t_root_pid := t_root_pid t;
  t_created_at_ms := t_created_at_ms t; t_status := t_status t;
  t_llm_request_count := i32 (t_llm_request_count t + 1) |}.

Definition with_process_table (f : gmap Z ProcessInfo → gmap Z ProcessInfo)
    (R : Registry) : Registry := {|
  process_table := f (process_table R); tree_table := tree_table R;
  tree_process_index := tree_process_index R; process_children := process_children R;
  process_counter := process_counter R; tree_counter := tree_counter R |}.

Definition with_tree_table (f : gmap string TreeInfo → gmap string TreeInfo)
    (R : Registry) : Registry := {|
  process_table := process_table R; tree_table := f (tree_table R);
  tree_process_index := tree_process_index R; process_children := process_children R;
  process_counter := process_counter R; tree_counter := tree_counter R |}.

Definition with_indexes (fi : gmap string (gset Z) → gmap string (gset Z))
    (fc : gmap Z (gset Z) → gmap Z (gset Z)) (R : Registry) : Registry := {|
  process_table := process_table R; tree_table := tree_table R;
  tree_process_index := fi (tree_process_index R);
  process_children := fc (process_children R);
  process_counter := process_counter R; tree_counter := tree_counter R |}.

Definition with_counters (pc tc : Z) (R : Registry) : Registry := {|
  process_table := process_table R; tree_table := tree_table R;
  tree_process_index := tree_process_index R; process_children := process_children R;
  process_counter := pc; tree_counter := tc |}.

(** ** Trees *)

(** The [TreeInfo] of a tree created at time [now]: both branches of
    [create_tree_locked] store exactly these fields. *)
Definition fresh_tree (tree_id : string) (now : Z) : TreeInfo := {|
  t_tree_id := tree_id; t_root_pid := -1; t_created_at_ms := now;
  t_status := T_ACTIVE; t_llm_request_count := 0 |}.

Definition create_tree_locked (now : Z) (explicit_id : string) (R : Registry) :
    string * Registry :=
  if decide (explicit_id ≠ "") then
    (explicit_id, with_tree_table (<[explicit_id := fresh_tree explicit_id now]>) R)
  else
    let tree_id := "TREE_" +:+ pretty (tree_counter R) in
    let R := with_counters (process_counter R) (u64 (tree_counter R + 1)) R in
    (tree_id, with_tree_table (<[tree_id := fresh_tree tree_id now]>) R).

Definition create_tree (now : Z) (explicit_id : string) (R : Registry) :
    string * Registry :=
  create_tree_locked now explicit_id R.

(** ** Index maintenance *)

Definition on_process_registered_unlocked_ (p : ProcessInfo) (R : Registry) : Registry :=
  with_indexes
    (mm_insert (p_tree_id p) (p_pid p))
    (λ ch, if decide (p_parent_pid p > 0)
           then mm_insert (p_parent_pid p) (p_pid p) ch else ch) R.

(** The removal of a process from both indexes, and of its own children entry: the
    common part of [terminate_process] and [on_process_terminal_unlocked_]. *)
Definition remove_from_indexes (p : ProcessInfo) (pid : Z) (R : Registry) : Registry :=
  with_indexes
    (mm_erase (p_tree_id p) pid)
    (λ ch, delete pid
             (if decide (p_parent_pid p > 0)
              then mm_erase (p_parent_pid p) pid ch else ch)) R.

Definition on_process_terminal_unlocked_ (pid : Z) (R : Registry) : Registry :=
  match process_table R !! pid with
  | None => R
  | Some p => remove_from_indexes p pid R
  end.

(** ** Registration *)

Record RegisterResult := {
  r_success : bool;
  r_error : string;
  r_process : option ProcessInfo;
  r_tree_id : string;
}.

Definition new_process (pid os_pid parent_pid : Z) (tree_id role trace_id : string)
    (st : ProcessStatus) (mem : double) (now : Z) : ProcessInfo := {|
  p_pid := pid; p_os_pid := os_pid; p_parent_pid := parent_pid; p_tree_id := tree_id;
  p_role := role; p_trace_id := trace_id; p_status := st; p_memory_mb := mem;
  p_last_heartbeat_ms := now; p_alive := true; p_termination_time_ms := 0 |}.

(** The choice of the tree: its id, whether the process is its root, or the error. *)
Definition choose_tree (now : Z) (tree_id : string) (is_system_handler : bool)
    (R : Registry) : (string * bool * Registry) + (string * string) :=
  if is_system_handler then inl ("TREE_HANDLER", true, R)
  else if decide (tree_id = "") then
    let '(tid, R') := create_tree_locked now "" R in inl (tid, true, R')
  else
    match tree_table R !! tree_id with
    | None => inr ("tree not found", tree_id)
    | Some t =>
        if decide (t_status t = T_ACTIVE) then inl (tree_id, false, R)
        else inr ("tree is not active", tree_id)
    end.

Definition register_process (now : Z) (os_pid : Z) (tree_id : string) (parent_pid : Z)
    (role trace_id : string) (initial_status : ProcessStatus)
    (initial_memory_mb : double) (is_system_handler : bool) (R : Registry) :
    RegisterResult * Registry :=
  let pid := process_counter R in
  let R := with_counters (u64 (pid + 1)) (tree_counter R) R in
  if decide (pid > INT_MAX) then
    ({| r_success := false; r_error := "pid space exhausted";
        r_process := None; r_tree_id := "" |}, R)
  else
    match choose_tree now tree_id is_system_handler R with
    | inr (err, tid) =>
        ({| r_success := false; r_error := err; r_process := None; r_tree_id := tid |}, R)
    | inl (tid, is_tree_root, R) =>
        let p := new_process pid os_pid parent_pid tid role trace_id
                   initial_status initial_memory_mb now in
        let R := with_process_table (<[pid := p]>) R in
        let R := on_process_registered_unlocked_ p R in
        let R := if is_tree_root then with_tree_table (alter (set_root_pid pid) tid) R
                 else R in
        ({| r_success := true; r_error := ""; r_process := Some p; r_tree_id := tid |}, R)
    end.

(** ** Lookups *)

Definition get_process (pid : Z) (R : Registry) : option ProcessInfo :=
  process_table R !! pid.

Definition get_process_children (pid : Z) (R : Registry) : list Z :=
  elements (mm_get (process_children R) pid).

Definition get_process_snapshot (R : Registry) : list ProcessInfoSnapshot :=
  (λ '(pid, p), {| s_pid := pid; s_os_pid := p_os_pid p; s_tree_id := p_tree_id p;
                   s_parent_pid := p_parent_pid p; s_role := p_role p;
                   s_status := p_status p; s_memory_mb := p_memory_mb p |})
    <$> map_to_list (process_table R).

Record TreeStatusResult := {
  ts_found : bool;
  ts_status : TreeStatus;
  ts_root_pid : Z;
  ts_llm_request_count : Z;
}.

Definition get_tree_status (tree_id : string) (R : Registry) : TreeStatusResult :=
  match tree_table R !! tree_id with
  | None => {| ts_found := false; ts_status := T_FAILED; ts_root_pid := -1;
               ts_llm_request_count := 0 |}
  | Some t => {| ts_found := true; ts_status := t_status t; ts_root_pid := t_root_pid t;
                 ts_llm_request_count := t_llm_request_count t |}
  end.

Definition get_tree_llm_request_count (tree_id : string) (R : Registry) : Z :=
  match tree_table R !! tree_id with
  | None => 0
  | Some t => t_llm_request_count t
  end.

Definition get_tree_processes (tree_id : string) (R : Registry) : list Z :=
  elements (mm_get (tree_process_index R) tree_id).

Definition get_tree_process_count (tree_id : string) (R : Registry) : nat :=
  size (mm_get (tree_process_index R) tree_id).

Definition compute_tree_memory_mb (tree_id : string) (R : Registry) : double :=
  fold_left (λ total pid,
      match process_table R !! pid with
      | Some p => d_add total (p_memory_mb p)
      | None => total
      end)
    (get_tree_processes tree_id R) d_zero.

Definition snapshot_for_watchdog (R : Registry) : list WatchdogEntry :=
  (λ '(pid, p), {| w_pid := pid; w_os_pid := p_os_pid p; w_tree_id := p_tree_id p;
      w_parent_pid := p_parent_pid p; w_trace_id := p_trace_id p;
      w_last_heartbeat_ms := p_last_heartbeat_ms p;
      w_tree_created_at_ms :=
        match tree_table R !! p_tree_id p with
        | Some t => t_created_at_ms t
        | None => 0
        end;
      w_memory_mb := p_memory_mb p; w_status := p_status p; w_alive := true |})
    <$> filter (λ '(_, p), p_alive p = true) (map_to_list (process_table R)).

Definition get_all_tree_ids (R : Registry) : list string :=
  (map_to_list (tree_table R)).*1.

Definition get_all_tree_ids_with_created_at (R : Registry) : list (string * Z) :=
  (λ '(id, t), (id, t_created_at_ms t)) <$> map_to_list (tree_table R).

Definition get_all_pids (R : Registry) : list Z := (map_to_list (process_table R)).*1.

(** ** Telemetry *)

Definition update_heartbeat (pid : Z) (st : ProcessStatus) (mem : double) (now_ms : Z)
    (R : Registry) : Registry :=
  match get_process pid R with
  | None => R
  | Some p =>
      if p_alive p
      then with_process_table (alter (set_heartbeat st mem now_ms) pid) R
      else R
  end.

Definition increment_llm_request (tree_id : string) (R : Registry) : Registry :=
  with_tree_table (alter incr_llm_count tree_id) R.

(** ** Termination *)

(** [get_process(pid)] is non-null and its [alive] flag is set. *)
Definition is_alive (R : Registry) (pid : Z) : bool :=
  match get_process pid R with Some p => p_alive p | None => false end.

(** The members of a tree that [kill_tree] returns: indexed, in the table, alive. *)
Definition live_tree_pids (tree_id : string) (R : Registry) : list Z :=
  filter (λ pid, is_alive R pid = true) (get_tree_processes tree_id R).

Definition kill_tree (tree_id : string) (R : Registry) : list Z * Registry :=
  let R := with_tree_table (alter (set_tree_status T_KILLED) tree_id) R in
  let pids := live_tree_pids tree_id R in
  (pids, with_process_table (λ tb, foldr (alter (set_status KILLED)) tb pids) R).

Definition mark_process_killed (pid : Z) (R : Registry) : Registry :=
  with_process_table (alter (λ p, set_alive false (set_status KILLED p)) pid) R.

Definition terminate_process (now : Z) (pid : Z) (R : Registry) : Registry :=
  match process_table R !! pid with
  | None => R
  | Some p =>
      if p_alive p then
        let R := with_process_table (alter (set_alive false) pid) R in
        let R := remove_from_indexes p pid R in
        with_process_table (alter (set_termination_time now) pid) R
      else R
  end.

Definition is_historical (now_ms retention_ms : Z) (p : ProcessInfo) : bool :=
  negb (p_alive p) && bool_decide (0 < p_termination_time_ms p) &&
  bool_decide (retention_ms < u64 (now_ms - p_termination_time_ms p)).

Definition cleanup_historical_processes (now_ms retention_ms : Z) (R : Registry) :
    Registry :=
  with_process_table (filter (λ '(_, p), is_historical now_ms retention_ms p = false)) R.

(** ** Tree status *)

Definition is_terminal_status (st : ProcessStatus) : bool :=
  match st with FINISHED | KILLED | ERROR => true | _ => false end.

(** The scan of [mark_tree_completed_if_done] over the process table. *)
Definition all_terminal_in_tree (tree_id : string) (R : Registry) : bool :=
  forallb (λ '(_, p), negb (bool_decide (p_tree_id p = tree_id)) ||
                      is_terminal_status (p_status p))
    (map_to_list (process_table R)).

Definition mark_tree_completed_if_done (tree_id : string) (R : Registry) :
    bool * Registry :=
  match tree_table R !! tree_id with
  | None => (false, R)
  | Some t =>
      if decide (tree_id = "TREE_HANDLER") then (false, R)
      else if decide (t_status t ≠ T_ACTIVE) then (false, R)
      else if decide (mm_get (tree_process_index R) tree_id ≠ ∅) then (false, R)
      else if all_terminal_in_tree tree_id R
      then (true, with_tree_table (alter (set_tree_status T_COMPLETED) tree_id) R)
      else (false, R)
  end.

Definition mark_tree_failed (tree_id : string) (R : Registry) : Registry :=
  with_tree_table
    (alter (λ t, if decide (t_status t = T_ACTIVE) then set_tree_status T_FAILED t else t)
       tree_id) R.

(** ** Transitions

    The registry as its clients drive it: one transition per public method that
    changes state.  Clock readings are positive, and fewer than 2^64 registrations
    have been attempted, so that [process_counter_] has not wrapped. *)

Inductive reg_step : relation Registry :=
  | step_register R now os_pid tree_id parent_pid role trace_id st mem handler :
      process_counter R < 2 ^ 64 - 1 →
      reg_step R (register_process now os_pid tree_id parent_pid role trace_id
                    st mem handler R).2
  | step_heartbeat R pid st mem now : reg_step R (update_heartbeat pid st mem now R)
  | step_llm R tree_id : reg_step R (increment_llm_request tree_id R)
  | step_kill_tree R tree_id : reg_step R (kill_tree tree_id R).2
  | step_mark_killed R pid : reg_step R (mark_process_killed pid R)
  | step_terminate R now pid : 0 < now → reg_step R (terminate_process now pid R)
  | step_cleanup R now retention :
      reg_step R (cleanup_historical_processes now retention R)
  | step_completed R tree_id : reg_step R (mark_tree_completed_if_done tree_id R).2
  | step_failed R tree_id : reg_step R (mark_tree_failed tree_id R).

(** The registry once the supervisor's constructor has created the handler's tree. *)
Definition registry_boot (now : Z) : Registry :=
  (create_tree now "TREE_HANDLER" ProcessRegistry_init).2.

Definition reg_reachable (R : Registry) : Prop :=
  ∃ now, rtc reg_step (registry_boot now) R.

(** ** The registry invariant *)

Record registry_wf (R : Registry) : Prop := {
  wf_counters : 1000 ≤ process_counter R < 2 ^ 64 ∧
                1 ≤ tree_counter R ≤ process_counter R - 999;
  wf_table pid p : process_table R !! pid = Some p →
    p_pid p = pid ∧ 1000 ≤ pid < process_counter R ∧ pid ≤ INT_MAX;
  wf_alive pid p : process_table R !! pid = Some p →
    p_alive p = true → p_termination_time_ms p = 0;
  wf_index t pid : pid ∈ mm_get (tree_process_index R) t ↔
    ∃ p, process_table R !! pid = Some p ∧ p_tree_id p = t ∧ p_termination_time_ms p = 0;
  wf_children q c : c ∈ mm_get (process_children R) q →
    ∃ p, process_table R !! c = Some p ∧ p_parent_pid p = q ∧ 0 < q ∧
         p_termination_time_ms p = 0;
  wf_children_complete q c p : process_table R !! c = Some p →
    p_parent_pid p = q → 0 < q → p_termination_time_ms p = 0 →
    (process_counter R ≤ q ∨
     ∃ pq, process_table R !! q = Some pq ∧ p_termination_time_ms pq = 0) →
    c ∈ mm_get (process_children R) q;
  wf_index_mm : mm_wf (tree_process_index R);
  wf_children_mm : mm_wf (process_children R);
  wf_tree t ti : tree_table R !! t = Some ti →
    t_tree_id ti = t ∧
    (t = "TREE_HANDLER" ∨ ∃ k, 1 ≤ k < tree_counter R ∧ t = "TREE_" +:+ pretty k);
  wf_process_tree pid p : process_table R !! pid = Some p →
    is_Some (tree_table R !! p_tree_id p);
  wf_handler_tree : is_Some (tree_table R !! "TREE_HANDLER");
}.

(** What a store to a table entry may change without touching the indexes: not the
    identity of the process, and [alive] only towards [false]. *)
Record same_core (p q : ProcessInfo) : Prop := {
  core_pid : p_pid q = p_pid p;
  core_tree : p_tree_id q = p_tree_id p;
  core_parent : p_parent_pid q = p_parent_pid p;
  core_term : p_termination_time_ms q = p_termination_time_ms p;
  core_alive : p_alive q = true → p_alive p = true;
}.

Definition tb_core (tb tb' : gmap Z ProcessInfo) : Prop :=
  ∀ pid, option_Forall2 same_core (tb !! pid) (tb' !! pid).

(** ** Vocabulary of the properties *)

(** The entry of a live process after [terminate_process]. *)
Definition terminated (now : Z) (p : ProcessInfo) : ProcessInfo :=
  set_termination_time now (set_alive false p).

(** A process that was marked dead without being removed from the indexes. *)
Definition zombie (R : Registry) (pid : Z) (tree_id : string) : Prop :=
  ∃ p, process_table R !! pid = Some p ∧ p_tree_id p = tree_id ∧
       p_alive p = false ∧ p_termination_time_ms p = 0.

(** The statuses a tree may move between; [kill_tree] may overwrite any status. *)
Definition tree_transition (a b : TreeStatus) : bool :=
  match a, b with
  | T_ACTIVE, _ => true
  | _, T_KILLED => true
  | _, _ => bool_decide (a = b)
  end.

(** The reference definition of the processes of a tree: a scan of the table. *)
Definition scan_tree_processes (tree_id : string) (R : Registry) : list Z :=
  (filter (λ '(_, p), p_tree_id p = tree_id ∧ p_termination_time_ms p = 0)
     (map_to_list (process_table R))).*1.

(** ** Lemmas on table updates *)

#[export] Instance same_core_preorder : PreOrder same_core.
Proof.
  split; [intros p; by constructor|].
  intros p q r [] []; constructor; try congruence; auto.
Qed.

#[export] Instance tb_core_preorder : PreOrder tb_core.
Proof.
  split; [intros tb pid; reflexivity|].
  intros tb1 tb2 tb3 H1 H2 pid. etrans; [apply H1|apply H2].
Qed.

Lemma tb_core_alter f pid tb :
  (∀ p, same_core p (f p)) → tb_core tb (alter f pid tb).
Proof.
  intros Hf pid'. rewrite lookup_alter. case_decide; subst; [|reflexivity].
  destruct (tb !! pid'); constructor; apply Hf.
Qed.

Lemma tb_core_foldr_alter f pids tb :
  (∀ p, same_core p (f p)) → tb_core tb (foldr (alter f) tb pids).
Proof.
  intros Hf. induction pids as [|pid pids IH]; simpl; [reflexivity|].
  etrans; [apply IH|by apply tb_core_alter].
Qed.

Lemma tb_core_fw tb tb' pid p :
  tb_core tb tb' → tb !! pid = Some p → ∃ q, tb' !! pid = Some q ∧ same_core p q.
Proof. intros Htb Hp. specialize (Htb pid). rewrite Hp in Htb. inversion Htb; eauto. Qed.

Lemma tb_core_bw tb tb' pid q :
  tb_core tb tb' → tb' !! pid = Some q → ∃ p, tb !! pid = Some p ∧ same_core p q.
Proof. intros Htb Hq. specialize (Htb pid). rewrite Hq in Htb. inversion Htb; eauto. Qed.

Lemma same_core_status st p : same_core p (set_status st p).
Proof. by constructor. Qed.
Lemma same_core_kill p : same_core p (set_alive false (set_status KILLED p)).
Proof. by constructor. Qed.
Lemma same_core_heartbeat st mem now p : same_core p (set_heartbeat st mem now p).
Proof. by constructor. Qed.
#[export] Hint Resolve same_core_status same_core_kill same_core_heartbeat
  tb_core_alter tb_core_foldr_alter : velix.

(** Stores to telemetry preserve the invariant. *)
Lemma wf_with_process_table f R :
  tb_core (process_table R) (f (process_table R)) → registry_wf R →
  registry_wf (with_process_table f R).
Proof.
  intros Hc Hwf.
  assert (Hbw := λ pid q, tb_core_bw _ _ pid q Hc).
  assert (Hfw := λ pid p, tb_core_fw _ _ pid p Hc).
  destruct Hwf as [? Htab Hal Hidx Hch Hchc ?? ? Hpt ?]. split; simpl; try done.
  - intros pid q (p & Hp & [])%Hbw. destruct (Htab _ _ Hp). split; [congruence|done].
  - intros pid q (p & Hp & [])%Hbw Hq. rewrite core_term0. eauto.
  - intros t pid. rewrite Hidx. split.
    + intros (p & (q & Hq & [])%Hfw & ? & ?). exists q. split_and!; congruence.
    + intros (q & (p & Hp & [])%Hbw & ? & ?). exists p. split_and!; congruence.
  - intros q c (p & (p' & Hp' & [])%Hfw & ? & ? & ?)%Hch.
    exists p'. split_and!; congruence.
  - intros q c p' (p & Hp & [])%Hbw ? ? ? Hq. eapply Hchc; [done|congruence|done|congruence|].
    destruct Hq as [?|(pq' & (pq & Hpq & [])%Hbw & ?)]; [by left|right].
    exists pq. split; congruence.
  - intros pid q (p & Hp & [])%Hbw. rewrite core_tree0. eauto.
Qed.

(** Stores to a tree entry preserve the invariant. *)
Lemma wf_with_tree_table_alter f t R :
  (∀ ti, t_tree_id (f ti) = t_tree_id ti) → registry_wf R →
  registry_wf (with_tree_table (alter f t) R).
Proof.
  intros Hf [? Htab Hal Hidx Hch Hchc ?? Htree Hpt Hh]. split; simpl; try done.
  - intros t' ti. rewrite lookup_alter. case_decide; subst; [|apply Htree].
    intros (ti' & Hti & ->)%fmap_Some. rewrite Hf. by apply Htree.
  - intros pid p Hp. rewrite lookup_alter. case_decide; subst; [apply fmap_is_Some|]; eauto.
  - rewrite lookup_alter. case_decide; subst; [by apply fmap_is_Some|done].
Qed.

Lemma terminate_process_alive now pid R p :
  process_table R !! pid = Some p → p_alive p = true →
  terminate_process now pid R =
    with_process_table (<[pid := terminated now p]>) (remove_from_indexes p pid R).
Proof.
  intros Hp Hal. unfold terminate_process. rewrite Hp, Hal.
  unfold with_process_table, remove_from_indexes, with_indexes; simpl. f_equal.
  apply map_eq. intros pid'. rewrite lookup_insert, !lookup_alter.
  case_decide; subst; [|done]. by rewrite decide_True, Hp.
Qed.

(** Removal from the indexes followed by the store of a termination time. *)
Lemma wf_terminate now pid R :
  0 < now → registry_wf R → registry_wf (terminate_process now pid R).
Proof.
  intros Hnow Hwf. destruct (process_table R !! pid) as [p|] eqn:Hp.
  2:{ unfold terminate_process. by rewrite Hp. }
  destruct (p_alive p) eqn:Hal.
  2:{ unfold terminate_process. by rewrite Hp, Hal. }
  rewrite (terminate_process_alive _ _ _ _ Hp Hal).
  destruct Hwf as [? Htab Halive Hidx Hch Hchc ?? Htree Hpt Hh]. split; simpl; try done.
  - intros pid' q [[<- <-]|[? Hq]]%lookup_insert_Some; [by apply (Htab _ _ Hp)|eauto].
  - intros pid' q [[<- <-]|[? Hq]]%lookup_insert_Some; [done|eauto].
  - intros t pid'. autorewrite with velix_mm. rewrite Hidx. setoid_rewrite lookup_insert_Some.
    split.
    + intros [(q & ? & ? & ?) Hne]. exists q. split_and!; [right|done..]. naive_solver.
    + intros (q & [[<- <-]|[? ?]] & ? & ?); simpl in *; [lia|naive_solver].
  - intros q c. autorewrite with velix_mm. intros [Hq Hc].
    assert (c ∈ mm_get (process_children R) q ∧ c ≠ pid) as [Hc' Hne].
    { case_decide as Hd; autorewrite with velix_mm in Hc.
      - destruct Hc as [Hc Hnot]. split; [done|]. intros ->.
        apply Hch in Hc as (? & ? & ? & _). apply Hnot. naive_solver.
      - split; [done|]. intros ->. apply Hch in Hc as (? & ? & ? & ? & _).
        simplify_eq. lia. }
    rewrite lookup_insert_ne by done. eauto.
  - intros q c p' [[<- <-]|[? Hc]]%lookup_insert_Some; [simpl; lia|].
    intros Hpar Hpos Hterm Hq. setoid_rewrite lookup_insert_Some in Hq.
    assert (q ≠ pid) as Hqp.
    { intros ->. destruct (Htab _ _ Hp). destruct Hq as [?|(? & [[? <-]|[]] & ?)];
        simpl in *; try done; lia. }
    autorewrite with velix_mm. split; [done|].
    assert (c ∈ mm_get (process_children R) q) by (eapply Hchc; naive_solver).
    case_decide; autorewrite with velix_mm; naive_solver.
  - by apply mm_wf_erase.
  - apply mm_wf_delete. case_decide; [by apply mm_wf_erase|done].
  - intros pid' q [[<- <-]|[? Hq]]%lookup_insert_Some; [by apply (Hpt _ _ Hp)|eauto].
Qed.

Lemma wf_cleanup now retention R :
  registry_wf R → registry_wf (cleanup_historical_processes now retention R).
Proof.
  intros [? Htab Halive Hidx Hch Hchc ?? Htree Hpt Hh].
  assert (∀ p, p_termination_time_ms p = 0 → is_historical now retention p = false) as Hlive.
  { intros p Hp. unfold is_historical. rewrite Hp. by rewrite andb_false_r. }
  split; simpl; try done; setoid_rewrite map_lookup_filter_Some.
  - intros pid p [? _]. eauto.
  - intros pid p [? _]. eauto.
  - intros t pid. rewrite Hidx. naive_solver.
  - intros q c Hc%Hch. naive_solver.
  - intros q c p [? _] ??? Hq. eapply Hchc; naive_solver.
  - intros pid p [? _]. eauto.
Qed.

(** ** Registration preserves the invariant *)

Lemma tree_name_inj (j k : Z) : "TREE_" +:+ pretty j = "TREE_" +:+ pretty k → j = k.
Proof. intros H%(inj (String.append _)). by apply (inj pretty). Qed.

Lemma tree_name_not_handler (k : Z) : 0 ≤ k → "TREE_" +:+ pretty k ≠ "TREE_HANDLER".
Proof.
  intros Hk H. change "TREE_HANDLER" with ("TREE_" +:+ "HANDLER") in H.
  apply (inj (String.append _)) in H. pose proof (pretty_Z_digits k Hk) as Hd.
  by rewrite H in Hd.
Qed.

(** The id of an automatically created tree is new. *)
Lemma wf_fresh_tree_id R :
  registry_wf R → tree_table R !! ("TREE_" +:+ pretty (tree_counter R)) = None.
Proof.
  intros Hwf. apply eq_None_not_Some. intros [ti Hti].
  pose proof (wf_counters _ Hwf).
  destruct (wf_tree _ Hwf _ _ Hti) as [_ [Ht|(k & ? & Ht)]].
  - by apply tree_name_not_handler in Ht; [|lia].
  - apply tree_name_inj in Ht. lia.
Qed.

Lemma wf_fresh_pid R : registry_wf R → process_table R !! process_counter R = None.
Proof.
  intros Hwf. apply eq_None_not_Some. intros [p Hp].
  destruct (wf_table _ Hwf _ _ Hp). lia.
Qed.

(** The process counter has advanced past [pid]; the tables are those of [R]. *)
Lemma wf_count R :
  process_counter R < 2 ^ 64 - 1 → registry_wf R →
  registry_wf (with_counters (u64 (process_counter R + 1)) (tree_counter R) R).
Proof.
  intros Hc [? Htab ?? Hch Hchc ?? Htree ??]. rewrite u64_id by lia.
  split; simpl; try done; try lia.
  - intros pid p Hp. destruct (Htab _ _ Hp). lia.
  - intros q c p ???? Hq. eapply Hchc; try done. destruct Hq; [left; lia|by right].
Qed.

Lemma wf_create_tree_auto now R :
  registry_wf R → tree_counter R ≤ process_counter R - 1000 →
  registry_wf (create_tree_locked now "" R).2.
Proof.
  intros Hwf Htc. pose proof (wf_fresh_tree_id _ Hwf) as Hfresh.
  unfold create_tree_locked. rewrite decide_False by naive_solver.
  pose proof (wf_counters _ Hwf). rewrite u64_id by lia.
  destruct Hwf as [? ??????? Htree Hpt Hh]. split; simpl; try done; try lia.
  - intros t ti. rewrite lookup_insert_Some. intros [[<- <-]|[? Ht]].
    + simpl. split; [done|right]. exists (tree_counter R). split; [lia|done].
    + destruct (Htree _ _ Ht) as [? [?|(k & ? & ?)]]; split; eauto.
      right. exists k. split; [lia|done].
  - intros pid p Hp. rewrite lookup_insert_is_Some'. right. eauto.
  - rewrite lookup_insert_is_Some'. by right.
Qed.

(** The insertion of a new process, with its index entries. *)
Lemma wf_insert_process p R :
  registry_wf R → process_table R !! p_pid p = None →
  1000 ≤ p_pid p < process_counter R → p_pid p ≤ INT_MAX →
  p_termination_time_ms p = 0 → is_Some (tree_table R !! p_tree_id p) →
  (∀ c q, process_table R !! c = Some q → p_parent_pid q = p_pid p →
     p_termination_time_ms q = 0 → c ∈ mm_get (process_children R) (p_pid p)) →
  registry_wf (on_process_registered_unlocked_ p
                 (with_process_table (<[p_pid p := p]>) R)).
Proof.
  intros [? Htab Halive Hidx Hch Hchc ?? Htree Hpt Hh] Hnew Hpid Hmax Hterm Ht Hwait.
  split; simpl; try done.
  - intros pid q [[<- <-]|[? Hq]]%lookup_insert_Some; [done|eauto].
  - intros pid q [[<- <-]|[? Hq]]%lookup_insert_Some; [done|eauto].
  - intros t pid. autorewrite with velix_mm. setoid_rewrite lookup_insert_Some.
    rewrite Hidx. split; [|naive_solver].
    intros [[-> ->]|(q & Hq & ?)]; [naive_solver|]. exists q. split; [right|done].
    split; [congruence|done].
  - intros q c. setoid_rewrite lookup_insert_Some. intros Hc.
    assert ((q = p_parent_pid p ∧ c = p_pid p ∧ 0 < q) ∨
            c ∈ mm_get (process_children R) q) as [(-> & -> & ?)|Hold].
    { case_decide; autorewrite with velix_mm in Hc; [|by right].
      destruct Hc as [[-> ->]|?]; [left; split_and!; [done..|lia]|by right]. }
    + exists p. naive_solver.
    + apply Hch in Hold as (pc & Hpc & ?). exists pc. split; [right|done].
      split; [congruence|done].
  - intros q c pc Hc Hpar Hpos Htc Hq.
    assert (c ∈ mm_get (process_children R) q ∨ (q = p_parent_pid p ∧ c = p_pid p))
      as Hin.
    { apply lookup_insert_Some in Hc as [[<- <-]|[? Hc]]; [by right; naive_solver|left].
      destruct (decide (q = p_pid p)) as [->|Hqp]; [by eapply Hwait|].
      eapply Hchc; try done. destruct Hq as [?|(pq & Hpq & ?)]; [by left|right].
      rewrite lookup_insert_ne in Hpq by done. eauto. }
    case_decide; autorewrite with velix_mm; [tauto|].
    destruct Hin as [?|[-> ->]]; [done|lia].
  - by apply mm_wf_insert.
  - case_decide; [by apply mm_wf_insert|done].
  - intros pid q [[<- <-]|[? Hq]]%lookup_insert_Some; [done|eauto].
Qed.

(** What [choose_tree] returns, and that it touches the trees only. *)
Lemma choose_tree_spec now tree_id handler R tid root R' :
  choose_tree now tree_id handler R = inl (tid, root, R') →
  process_table R' = process_table R ∧ process_children R' = process_children R ∧
  tree_process_index R' = tree_process_index R ∧ process_counter R' = process_counter R ∧
  (root = true ∨ tree_table R' = tree_table R) ∧
  ((handler = true ∧ tid = "TREE_HANDLER" ∧ R' = R) ∨
   (handler = false ∧ tree_id = "" ∧ (tid, R') = create_tree_locked now "" R) ∨
   (handler = false ∧ tree_id ≠ "" ∧ tid = tree_id ∧ R' = R ∧
    ∃ t, tree_table R !! tree_id = Some t ∧ t_status t = T_ACTIVE)).
Proof.
  unfold choose_tree. intros H.
  destruct handler; [simplify_eq; split_and!; auto|].
  case_decide as Ht.
  - destruct (create_tree_locked _ _ _) as [t R2] eqn:Hct. simplify_eq.
    rewrite <-Hct. pose proof Hct as Hct2. unfold create_tree_locked in Hct2.
    rewrite decide_False in Hct2 by naive_solver. simplify_eq/=.
    split_and!; auto.
  - destruct (tree_table R !! tree_id) as [t|] eqn:Htt; [|done].
    case_decide; simplify_eq. split_and!; auto. right; right. eauto 10.
Qed.

Lemma wf_choose_tree now tree_id handler R tid root R' :
  choose_tree now tree_id handler R = inl (tid, root, R') →
  registry_wf R → tree_counter R ≤ process_counter R - 1000 →
  registry_wf R' ∧ is_Some (tree_table R' !! tid).
Proof.
  intros (_ & _ & _ & _ & _ & Hcase)%choose_tree_spec Hwf Htc.
  destruct Hcase as [(-> & -> & ->)|[(-> & -> & Hct)|(-> & ? & -> & -> & t & ? & _)]].
  - split; [done|by apply wf_handler_tree].
  - pose proof (wf_create_tree_auto now R Hwf Htc) as Hwf'. rewrite <-Hct in Hwf'.
    split; [done|]. unfold create_tree_locked in Hct.
    rewrite decide_False in Hct by naive_solver. simplify_eq/=.
    rewrite lookup_insert_eq. eauto.
  - eauto.
Qed.

Lemma wf_register now os_pid tree_id parent_pid role trace_id st mem handler R :
  process_counter R < 2 ^ 64 - 1 → registry_wf R →
  registry_wf (register_process now os_pid tree_id parent_pid role trace_id st mem
                 handler R).2.
Proof.
  intros Hc Hwf. pose proof (wf_count R Hc Hwf) as Hwf1.
  pose proof (wf_counters _ Hwf) as Hcnt. unfold register_process. case_decide as Hmax; [done|].
  destruct (choose_tree _ _ _ _) as [[[tid root] R2]|[err tid]] eqn:Hct; [|done].
  pose proof (choose_tree_spec _ _ _ _ _ _ _ Hct) as (Htb & Hchl & _ & Hpc & _).
  assert (u64 (process_counter R + 1) = process_counter R + 1) as Hu by (apply u64_id; lia).
  destruct (wf_choose_tree _ _ _ _ _ _ _ Hct Hwf1) as [Hwf2 Ht].
  { simpl. rewrite Hu. lia. }
  simpl in *. set (p := new_process _ _ _ _ _ _ _ _ _).
  assert (registry_wf (on_process_registered_unlocked_ p
            (with_process_table (<[p_pid p := p]>) R2))) as Hwf3.
  { apply wf_insert_process; subst p; simpl; rewrite ?Htb, ?Hchl, ?Hpc, ?Hu; simpl; try done.
    - by apply wf_fresh_pid.
    - lia.
    - intros c q Hq Hpar Hterm. eapply wf_children_complete; eauto; [lia|by left]. }
  destruct root; [|done]. by apply (wf_with_tree_table_alter _ _ _).
Qed.

Lemma wf_boot now : registry_wf (registry_boot now).
Proof.
  unfold registry_boot, create_tree, create_tree_locked. rewrite decide_True by done.
  split; simpl; try done; try (intros; set_solver).
  intros t ti [[<- <-]|[]]%lookup_insert_Some; [|done]. split; [done|by left].
Qed.

#[export] Hint Resolve wf_boot wf_register wf_terminate wf_cleanup
  wf_with_tree_table_alter wf_with_process_table : velix.

Lemma wf_step R R' : registry_wf R → reg_step R R' → registry_wf R'.
Proof.
  intros Hwf Hstep.
  destruct Hstep; unfold update_heartbeat, increment_llm_request, kill_tree,
    mark_process_killed, mark_tree_completed_if_done, mark_tree_failed; simpl;
    repeat case_match; simpl; eauto with velix.
  apply wf_with_tree_table_alter; [|done]. intros ti. by case_decide.
Qed.

Lemma wf_reachable R : reg_reachable R → registry_wf R.
Proof.
  intros [now Hr]. eapply rtc_invariant; [apply wf_step|done|apply wf_boot].
Qed.

(** ** Frames: what each transition leaves alone *)

Lemma tb_core_refl tb : tb_core tb tb.
Proof. reflexivity. Qed.
#[export] Hint Resolve tb_core_refl : velix.

(** The transitions that only store to telemetry or to trees. *)
Lemma step_frame R R' pid p :
  registry_wf R → reg_step R R' → process_table R !! pid = Some p →
  p_alive p = false → p_termination_time_ms p = 0 →
  ∃ p', process_table R' !! pid = Some p' ∧ same_core p p'.
Proof.
  intros Hwf Hstep Hp Hal Hterm.
  assert (∀ tb', tb_core (process_table R) tb' →
    ∃ p', tb' !! pid = Some p' ∧ same_core p p') as Hcore.
  { intros tb' Htb. by eapply tb_core_fw. }
  destruct Hstep as [R now os_pid tree_id parent_pid role trace_id st mem handler Hc
    |R ???? |R|R|R|R now pid'|R now ret|R|R].
  - pose proof (wf_fresh_pid _ Hwf) as Hfresh. unfold register_process.
    case_decide; [simpl; eauto using same_core_preorder with velix|].
    destruct (choose_tree _ _ _ _) as [[[tid root] R2]|[err tid]] eqn:Hct.
    2:{ simpl. apply Hcore. reflexivity. }
    apply choose_tree_spec in Hct as (Htb & _). simpl in Htb.
    assert (∀ q, ∃ p', <[process_counter R := q]> (process_table R2) !! pid = Some p' ∧
              same_core p p') as Hins.
    { intros q. rewrite lookup_insert_ne, Htb by congruence. apply Hcore. reflexivity. }
    destruct root; apply Hins.
  - unfold update_heartbeat. repeat case_match; simpl; eauto with velix.
  - simpl. eauto with velix.
  - simpl. eauto with velix.
  - simpl. eauto with velix.
  - unfold terminate_process. destruct (process_table R !! pid') as [q|] eqn:Hq;
      [|simpl; eauto with velix].
    destruct (p_alive q) eqn:Hqa; [simpl|simpl; eauto with velix].
    rewrite !lookup_alter_ne by congruence. eauto with velix.
  - simpl. exists p. split; [|reflexivity]. apply map_lookup_filter_Some. split; [done|].
    unfold is_historical. by rewrite Hterm, andb_false_r.
  - unfold mark_tree_completed_if_done. repeat case_match; simpl; eauto with velix.
  - simpl. eauto with velix.
Qed.

Lemma zombie_step R R' pid t :
  registry_wf R → reg_step R R' → zombie R pid t → zombie R' pid t.
Proof.
  intros Hwf Hstep (p & Hp & <- & Hal & Hterm).
  destruct (step_frame _ _ _ _ Hwf Hstep Hp Hal Hterm) as (p' & Hp' & []).
  exists p'. split_and!; try congruence. destruct (p_alive p') eqn:?; [|done].
  rewrite core_alive0 in Hal; done.
Qed.

Lemma zombie_steps R R' pid t :
  registry_wf R → rtc reg_step R R' → zombie R pid t → registry_wf R' ∧ zombie R' pid t.
Proof.
  intros Hwf Hsteps Hz.
  apply (rtc_invariant reg_step (λ R, registry_wf R ∧ zombie R pid t) R R'); [|done..].
  intros x y [??] ?. eauto using wf_step, zombie_step.
Qed.

Lemma zombie_indexed R pid t :
  registry_wf R → zombie R pid t → pid ∈ mm_get (tree_process_index R) t.
Proof. intros Hwf (p & Hp & Ht & _ & Hterm). apply (wf_index _ Hwf). eauto. Qed.

Lemma tree_transition_refl a : tree_transition a a = true.
Proof. by destruct a. Qed.

Lemma elem_of_scan t R pid :
  pid ∈ scan_tree_processes t R ↔
  ∃ p, process_table R !! pid = Some p ∧ p_tree_id p = t ∧ p_termination_time_ms p = 0.
Proof.
  unfold scan_tree_processes. rewrite list_elem_of_fmap. split.
  - intros ([pid' p] & -> & [[] Hp]%list_elem_of_filter). simpl in *.
    apply elem_of_map_to_list in Hp. eauto.
  - intros (p & Hp & Ht). exists (pid, p). split; [done|].
    apply list_elem_of_filter. by rewrite elem_of_map_to_list.
Qed.

Lemma NoDup_scan t R : NoDup (scan_tree_processes t R).
Proof.
  unfold scan_tree_processes. pose proof (NoDup_fst_map_to_list (process_table R)) as Hnd.
  induction (map_to_list (process_table R)) as [|[pid p] l IH]; [constructor|].
  apply NoDup_cons in Hnd as [Hni Hnd]. rewrite filter_cons. case_decide; [|auto].
  apply NoDup_cons. split; [|auto]. intros ([? ?] & ? & [_ ?]%list_elem_of_filter)%list_elem_of_fmap.
  apply Hni. apply list_elem_of_fmap. eauto.
Qed.

Lemma alter_lookup_status t t' f (tb : gmap string TreeInfo) ti :
  tb !! t = Some ti → (∀ ti, tree_transition (t_status ti) (t_status (f ti)) = true) →
  ∃ ti', alter f t' tb !! t = Some ti' ∧
         tree_transition (t_status ti) (t_status ti') = true.
Proof.
  intros Hti Hf. rewrite lookup_alter. case_decide; subst; rewrite Hti; simpl; [eauto|].
  exists ti. by rewrite tree_transition_refl.
Qed.

Lemma tree_forward R R' t ti :
  registry_wf R → reg_step R R' → tree_table R !! t = Some ti →
  ∃ ti', tree_table R' !! t = Some ti' ∧
         tree_transition (t_status ti) (t_status ti') = true.
Proof.
  intros Hwf Hstep Hti.
  assert (∃ ti', tree_table R !! t = Some ti' ∧
            tree_transition (t_status ti) (t_status ti') = true) as Hsame.
  { exists ti. by rewrite tree_transition_refl. }
  destruct Hstep as [R now os_pid tree_id parent_pid role trace_id st mem handler Hc
    |R ????|R ?|R ?|R ?|R now pid'|R now ret|R t'|R t']; try done.
  - pose proof (wf_fresh_tree_id _ Hwf) as Hft. unfold register_process.
    case_decide; [done|]. destruct (choose_tree _ _ _ _) as [[[tid root] R2]|[? ?]] eqn:Hct;
      [|done].
    pose proof (choose_tree_spec _ _ _ _ _ _ _ Hct) as (_ & _ & _ & _ & _ & Hcase).
    assert (tree_table R2 !! t = Some ti) as Ht2.
    { destruct Hcase as [(_ & _ & ->)|[(_ & _ & Hcl)|(_ & _ & _ & -> & _)]]; [done| |done].
      unfold create_tree_locked in Hcl. rewrite decide_False in Hcl by naive_solver.
      simplify_eq/=. rewrite lookup_insert_ne; [done|]. intros <-. by rewrite Hti in Hft. }
    destruct root; [|simpl; exists ti; by rewrite tree_transition_refl].
    apply alter_lookup_status; [done|]. intros. apply tree_transition_refl.
  - unfold update_heartbeat. by repeat case_match.
  - apply alter_lookup_status; [done|]. intros. apply tree_transition_refl.
  - apply alter_lookup_status; [done|]. intros ti'. by destruct (t_status ti').
  - unfold terminate_process. by repeat case_match.
  - unfold mark_tree_completed_if_done. destruct (tree_table R !! t') as [t1|] eqn:Ht1; [|done].
    do 3 (case_decide; [done|]). case_match; [|done]. simpl.
    rewrite lookup_alter. case_decide; subst; [|done]. rewrite Hti. simplify_eq/=.
    exists (set_tree_status T_COMPLETED ti). split; [done|]. simpl.
    by match goal with H : t_status ti = T_ACTIVE |- _ => rewrite H end.
  - apply alter_lookup_status; [done|]. intros ti'. case_decide as Hs; [by rewrite Hs|].
    apply tree_transition_refl.
Qed.

(** A killed tree stays killed. *)
Lemma tree_killed_steps R R' t :
  registry_wf R → rtc reg_step R R' →
  (∃ ti, tree_table R !! t = Some ti ∧ t_status ti = T_KILLED) →
  ∃ ti, tree_table R' !! t = Some ti ∧ t_status ti = T_KILLED.
Proof.
  intros Hwf Hsteps Hti.
  apply (rtc_invariant reg_step (λ R, registry_wf R ∧
    ∃ ti, tree_table R !! t = Some ti ∧ t_status ti = T_KILLED) R R'); [|done..].
  intros x y [Hx (ti & Ht & Hk)] Hs. split; [by eapply wf_step|].
  destruct (tree_forward _ _ _ _ Hx Hs Ht) as (ti' & ? & Htr).
  exists ti'. split; [done|]. rewrite Hk in Htr. by destruct (t_status ti').
Qed.

(** ** Properties *)

(** C2 The process registry keeps its structural invariant in every reachable state:
    entries carry their own pid, pids are below the counter, both indexes hold exactly
    the processes that were not removed from them, no index keeps an empty set, every
    process belongs to a known tree, and every tree id is [TREE_HANDLER] or
    [TREE_<k>] for a [k] already drawn. *)
Theorem registry_invariant R : reg_reachable R → registry_wf R.
Proof. intros [now Hr]. eapply rtc_invariant; [apply wf_step|done|apply wf_boot]. Qed.

(** [register_process] succeeds exactly when the pid space is not exhausted and the
    requested tree is the handler's, a new one, or an active one; it then adds one
    process under a pid never used before, indexed in its tree, and changes no other
    process; when it fails nothing but the pid counter moves. *)
Lemma register_process_spec R now os_pid tree_id parent_pid role trace_id st mem handler :
  reg_reachable R → process_counter R < 2 ^ 64 - 1 →
  let '(res, R') := register_process now os_pid tree_id parent_pid role trace_id st mem
                      handler R in
  let pid := process_counter R in
  process_counter R' = pid + 1 ∧
  (r_success res = true ↔
     pid ≤ INT_MAX ∧ (handler = true ∨ tree_id = "" ∨
                      ∃ t, tree_table R !! tree_id = Some t ∧ t_status t = T_ACTIVE)) ∧
  (r_success res = true →
     process_table R !! pid = None ∧
     r_process res = Some (new_process pid os_pid parent_pid (r_tree_id res) role trace_id
                             st mem now) ∧
     process_table R' =
       <[pid := new_process pid os_pid parent_pid (r_tree_id res) role trace_id st mem now]>
         (process_table R) ∧
     pid ∈ mm_get (tree_process_index R') (r_tree_id res) ∧
     (handler = false → tree_id = "" → tree_table R !! r_tree_id res = None) ∧
     (handler = false → tree_id ≠ "" → r_tree_id res = tree_id)) ∧
  (r_success res = false →
     process_table R' = process_table R ∧ tree_table R' = tree_table R ∧
     tree_process_index R' = tree_process_index R ∧
     process_children R' = process_children R).
Proof.
  intros Hr%wf_reachable Hc. pose proof (wf_counters _ Hr) as Hcnt.
  unfold register_process. rewrite u64_id by lia.
  case_decide as Hmax; [simpl; split_and!; try done; naive_solver lia|].
  pose proof (wf_fresh_pid _ Hr). pose proof (wf_fresh_tree_id _ Hr) as Hft.
  destruct (choose_tree _ _ _ _) as [[[tid root] R2]|[err tid]] eqn:Hct.
  - pose proof (choose_tree_spec _ _ _ _ _ _ _ Hct) as (Htb & _ & Hix & Hpc & _ & Hcase).
    simpl in *.
    assert (∀ g, let R' := if root then with_tree_table g (on_process_registered_unlocked_
         (new_process (process_counter R) os_pid parent_pid tid role trace_id st mem now)
         (with_process_table <[process_counter R:=new_process (process_counter R) os_pid
            parent_pid tid role trace_id st mem now]> R2))
       else on_process_registered_unlocked_
         (new_process (process_counter R) os_pid parent_pid tid role trace_id st mem now)
         (with_process_table <[process_counter R:=new_process (process_counter R) os_pid
            parent_pid tid role trace_id st mem now]> R2) in
       process_counter R' = process_counter R2 ∧
       process_table R' = <[process_counter R:=new_process (process_counter R) os_pid
            parent_pid tid role trace_id st mem now]> (process_table R2) ∧
       tree_process_index R' = mm_insert tid (process_counter R) (tree_process_index R2))
      as HR' by (intros; destruct root; done).
    destruct (HR' (alter (set_root_pid (process_counter R)) tid)) as (-> & -> & ->).
    rewrite Hpc, Htb. split_and!; try done.
    + split; [|done]. intros _. split; [lia|]. naive_solver.
    + intros _. split_and!; try done.
      * autorewrite with velix_mm. by left.
      * intros -> ->. destruct Hcase as [?|[(_ & _ & Hcl)|?]]; [naive_solver| |naive_solver].
        unfold create_tree_locked in Hcl. rewrite decide_False in Hcl by naive_solver.
        by simplify_eq/=.
      * naive_solver.
  - simpl. split_and!; try done. split; [done|].
    unfold choose_tree in Hct. intros [_ Hok]. destruct handler; [done|].
    case_decide; [by destruct (create_tree_locked _ _ _)|].
    destruct Hok as [?|[?|(t & Ht & Hs)]]; [done..|].
    simpl in Hct. rewrite Ht, decide_True in Hct by done. done.
Qed.

(** The two indexes are only an optimisation: in every reachable state the
    processes [get_tree_processes] reports for a tree are those a scan of the whole
    process table finds there, each once. *)
Lemma get_tree_processes_scan R tree_id :
  reg_reachable R → get_tree_processes tree_id R ≡ₚ scan_tree_processes tree_id R.
Proof.
  intros Hwf%wf_reachable. apply NoDup_Permutation.
  - apply NoDup_elements.
  - apply NoDup_scan.
  - intros pid. unfold get_tree_processes.
    by rewrite elem_of_elements, (wf_index _ Hwf), elem_of_scan.
Qed.

(** [terminate_process] of a live process removes it from its tree and from every
    children set, drops its own children entry, keeps its table entry, marked dead
    with the time of death, and changes no other entry; calling it again, at any
    time, does nothing. *)
Lemma terminate_process_spec R now pid p :
  reg_reachable R → 0 < now → process_table R !! pid = Some p → p_alive p = true →
  let R' := terminate_process now pid R in
  process_table R' = <[pid := terminated now p]> (process_table R) ∧
  (∀ t, pid ∉ mm_get (tree_process_index R') t) ∧
  (∀ q, pid ∉ mm_get (process_children R') q) ∧
  mm_get (process_children R') pid = ∅ ∧
  (∀ t pid', pid' ≠ pid →
     pid' ∈ mm_get (tree_process_index R') t ↔ pid' ∈ mm_get (tree_process_index R) t) ∧
  (∀ now', terminate_process now' pid R' = R').
Proof.
  intros Hwf%wf_reachable Hnow Hp Hal. cbv zeta.
  rewrite (terminate_process_alive _ _ _ _ Hp Hal). simpl. split_and!; try done.
  - intros t. autorewrite with velix_mm. intros [Hin Hne].
    apply (wf_index _ Hwf) in Hin as (? & ? & ? & _). naive_solver.
  - intros q. autorewrite with velix_mm. intros [Hq Hin].
    case_decide; autorewrite with velix_mm in Hin.
    + destruct Hin as [(p' & ? & ? & _)%(wf_children _ Hwf) Hne]. naive_solver.
    + apply (wf_children _ Hwf) in Hin as (p' & ? & ? & ? & _). simplify_eq. lia.
  - apply set_eq. intros c. autorewrite with velix_mm. set_solver.
  - intros t pid' Hne. autorewrite with velix_mm. naive_solver.
  - intros now'. unfold terminate_process. simpl. by rewrite lookup_insert_eq.
Qed.

(** A tree's status only moves forward: from [ACTIVE] to anything, from any status
    to [KILLED], and never back to [ACTIVE]; no transition removes a tree. *)
Lemma tree_status_forward R R' t ti :
  reg_reachable R → reg_step R R' → tree_table R !! t = Some ti →
  ∃ ti', tree_table R' !! t = Some ti' ∧
         tree_transition (t_status ti) (t_status ti') = true.
Proof. intros Hwf%wf_reachable. by apply tree_forward. Qed.

(** A tree is marked [COMPLETED] exactly when it is an active tree other than the
    handler's, no process of it is left in the indexes, and every retained process of
    it has a terminal status; nothing else changes, and on refusal nothing does. *)
Lemma mark_tree_completed_spec R t :
  reg_reachable R →
  let '(done, R') := mark_tree_completed_if_done t R in
  (done = true ↔
     t ≠ "TREE_HANDLER" ∧ (∃ ti, tree_table R !! t = Some ti ∧ t_status ti = T_ACTIVE) ∧
     ∀ pid p, process_table R !! pid = Some p → p_tree_id p = t →
       p_termination_time_ms p ≠ 0 ∧ is_terminal_status (p_status p) = true) ∧
  R' = (if done then with_tree_table (alter (set_tree_status T_COMPLETED) t) R else R).
Proof.
  intros Hwf%wf_reachable. unfold mark_tree_completed_if_done.
  assert (mm_get (tree_process_index R) t = ∅ ↔
          ∀ pid p, process_table R !! pid = Some p → p_tree_id p = t →
                   p_termination_time_ms p ≠ 0) as Hidx.
  { split.
    - intros He pid p Hp Ht Hterm. assert (pid ∈ mm_get (tree_process_index R) t);
        [|set_solver]. apply (wf_index _ Hwf). eauto.
    - intros Hall. apply set_eq. intros pid. split; [|set_solver].
      intros (p & ? & ? & ?)%(wf_index _ Hwf). by edestruct Hall. }
  assert (all_terminal_in_tree t R = true ↔
          ∀ pid p, process_table R !! pid = Some p → p_tree_id p = t →
                   is_terminal_status (p_status p) = true) as Hterm.
  { unfold all_terminal_in_tree. rewrite forallb_forall. split.
    - intros Hall pid p Hp Ht. specialize (Hall (pid, p)). simpl in Hall.
      rewrite bool_decide_true in Hall by done. apply Hall.
      by apply list_elem_of_In, elem_of_map_to_list.
    - intros Hall [pid p] Hin%list_elem_of_In%elem_of_map_to_list.
      destruct (bool_decide_reflect (p_tree_id p = t)); [|done]. simpl. eauto. }
  destruct (tree_table R !! t) as [ti|] eqn:Hti; [|naive_solver].
  case_decide; [naive_solver|]. case_decide as Hst; [naive_solver|].
  case_decide as He.
  { split; [|done]. split; [done|]. intros (_ & _ & Hall). destruct He. apply Hidx.
    naive_solver. }
  pose proof (proj1 Hidx He) as Hdone. destruct (all_terminal_in_tree t R) eqn:Ha.
  - split; [|done]. pose proof (proj1 Hterm eq_refl) as Hfin. split; [|done].
    intros _. split_and!; eauto.
  - split; [|done]. split; [done|]. intros (_ & _ & Hall).
    assert (false = true); [|done]. apply Hterm. naive_solver.
Qed.
