(* ===== verification/Termination.v ===== *)
(** * Termination and watchdog engines (src/core/termination_engine.{hpp,cpp})

    [TerminationEngine] is stateless: [kill_processes] acts on the registry and on
    the operating system.  What it does outside the registry is the list of effects
    it performs, in order.  [WatchdogEngine] is one iteration of its loop over a
    registry, a configuration and a clock reading. *)

From S2P Require Import Prelude Json ProcessRegistry.

(** ** Effects *)

Definition SIGTERM : Z := 15.
Definition SIGKILL : Z := 9.

Inductive effect :=
  | SendBus (msg : json)          (* a message to the bus, best effort *)
  | Kill (os_pid signal : Z)      (* [::kill(os_pid, signal)] *)
  | Sleep (ms : Z)                (* [std::this_thread::sleep_for] *)
  | WaitPid (os_pid : Z)          (* [::waitpid(os_pid, nullptr, WNOHANG)] *)
  | ForkExec (argv : list string). (* [::fork] and, in the child, [::execv] *)

(** ** TerminationEngine *)

Record TerminationTarget := {
  tt_velix_pid : Z;
  tt_os_pid : Z;
  tt_tree_id : string;
  tt_trace_id : string;
  tt_parent_pid : Z;
}.

(** [ESRCH] *)
Definition ESRCH : Z := 3.

(** The result of [send_signal_to_os_process], given what [::kill] returns: the
    return value and [errno]. *)
Definition send_signal_to_os_process (os_pid signal kill_ret errno : Z) :
    list effect * bool :=
  if decide (os_pid ≤ 0) then ([], false)
  else ([Kill os_pid signal],
        if decide (kill_ret = -1) then bool_decide (errno = ESRCH) else true).

(** The message of [notify_bus_child_terminated]. *)
Definition termination_msg (target : TerminationTarget) (reason : string) : json :=
  JObject [("message_type", JString "CHILD_TERMINATED");
           ("source_pid", JInt 0);
           ("target_pid", JInt (tt_parent_pid target));
           ("trace_id", JString (tt_trace_id target));
           ("payload", JObject [("status", JString "error");
                                ("error", JString "child_terminated");
                                ("reason", JString reason);
                                ("pid", JInt (tt_velix_pid target))])].

Definition notify_bus_child_terminated (target : TerminationTarget) (reason : string) :
    list effect :=
  if decide (tt_trace_id target = "" ∨ tt_parent_pid target ≤ 0) then []
  else [SendBus (termination_msg target reason)].

(** The signal steps ignore the result of [send_signal_to_os_process]. *)
Definition signal_effects (os_pid signal : Z) : list effect :=
  if decide (os_pid > 0) then (send_signal_to_os_process os_pid signal 0 0).1 else [].

(** One iteration of [kill_processes]; [clock] is read by step 6. *)
Definition kill_process (clock : Z) (reason : string) (grace_ms : Z)
    (target : TerminationTarget) (R : Registry) : list effect * Registry :=
  let R1 := mark_process_killed (tt_velix_pid target) R in
  let eff := notify_bus_child_terminated target reason ++
             signal_effects (tt_os_pid target) SIGTERM ++
             [Sleep grace_ms] ++
             signal_effects (tt_os_pid target) SIGKILL in
  (eff, terminate_process clock (tt_velix_pid target) R1).

Fixpoint kill_processes (clock : Z) (targets : list TerminationTarget)
    (reason : string) (grace_ms : Z) (R : Registry) : list effect * Registry :=
  match targets with
  | [] => ([], R)
  | t :: targets =>
      let '(e1, R1) := kill_process clock reason grace_ms t R in
      let '(e2, R2) := kill_processes clock targets reason grace_ms R1 in
      (e1 ++ e2, R2)
  end.

(** The target built from a registered, live process. *)
Definition target_of (tree_id : string) (pid : Z) (p : ProcessInfo) : TerminationTarget :=
  {| tt_velix_pid := pid; tt_os_pid := p_os_pid p; tt_tree_id := tree_id;
     tt_trace_id := p_trace_id p; tt_parent_pid := p_parent_pid p |}.

(** The loop that turns pids into targets, skipping those no longer alive. *)
Definition target_of_pid (tree_id : string) (R : Registry) (pid : Z) :
    option TerminationTarget :=
  match get_process pid R with
  | Some p => if p_alive p then Some (target_of tree_id pid p) else None
  | None => None
  end.

Definition targets_of_pids (tree_id : string) (pids : list Z) (R : Registry) :
    list TerminationTarget :=
  omap (target_of_pid tree_id R) pids.

(** ** WatchdogEngine *)

Record WatchdogConfig := {
  heartbeat_timeout_sec : Z;
  max_tree_runtime_sec : Z;
  max_memory_per_tree_mb : double;
  max_llm_requests_per_tree : Z;
  watchdog_interval_ms : Z;
  terminate_grace_ms : Z;
  exempt_system_tree_limits : bool;
}.

Definition should_exempt_tree (tree_id : string) : bool :=
  bool_decide (tree_id = "TREE_HANDLER").

(** [uint64_t] arithmetic: the difference wraps, the negative timeout too. *)
Definition is_heartbeat_timeout (cfg : WatchdogConfig) (last_heartbeat_ms now_ms : Z) : bool :=
  bool_decide (u64 (now_ms - last_heartbeat_ms) >
               u64 (u64 (heartbeat_timeout_sec cfg) * 1000)).

Definition is_tree_runtime_exceeded (cfg : WatchdogConfig) (tree_id : string)
    (tree_created_ms now_ms : Z) : bool :=
  if decide (max_tree_runtime_sec cfg ≤ 0) then false
  else if should_exempt_tree tree_id then false
  else bool_decide (u64 (now_ms - tree_created_ms) >
                    u64 (u64 (max_tree_runtime_sec cfg) * 1000)).

Definition is_tree_memory_exceeded (cfg : WatchdogConfig) (tree_id : string)
    (R : Registry) : bool :=
  if SFleb (max_memory_per_tree_mb cfg) d_zero then false
  else if should_exempt_tree tree_id then false
  else d_gtb (compute_tree_memory_mb tree_id R) (max_memory_per_tree_mb cfg).

(** The limit is never enforced here: every path returns [false]. *)
Definition is_tree_llm_limit_exceeded (cfg : WatchdogConfig) (tree_id : string)
    (R : Registry) : bool :=
  if decide (max_llm_requests_per_tree cfg ≤ 0) then false
  else if should_exempt_tree tree_id then false
  else if ts_found (get_tree_status tree_id R) then false else false.

Definition has_failure (cfg : WatchdogConfig) (now_ms : Z) (R : Registry)
    (e : WatchdogEntry) : bool :=
  is_heartbeat_timeout cfg (w_last_heartbeat_ms e) now_ms ||
  is_tree_memory_exceeded cfg (w_tree_id e) R ||
  is_tree_llm_limit_exceeded cfg (w_tree_id e) R.

(** [pids_by_tree]: the violating pids of the snapshot, grouped by tree. *)
Definition pids_by_tree (cfg : WatchdogConfig) (now_ms : Z) (R : Registry) :
    gmap string (list Z) :=
  foldl (λ m e, if has_failure cfg now_ms R e
                then <[w_tree_id e := default [] (m !! w_tree_id e) ++ [w_pid e]]> m
                else m)
    ∅ (snapshot_for_watchdog R).

(** Step 5 of the loop: every tree, in the order of [get_all_tree_ids]. *)
Definition complete_trees (tree_ids : list string) (R : Registry) : Registry :=
  foldl (λ R t, (mark_tree_completed_if_done t R).2) R tree_ids.

(** One iteration of [WatchdogEngine::watchdog_loop]; the loop over tree runtimes has
    no effect in the source. *)
Definition watchdog_iteration (cfg : WatchdogConfig) (now_ms clock : Z) (R : Registry) :
    list effect * Registry :=
  let by_tree := pids_by_tree cfg now_ms R in
  let R1 := foldl (λ R t, mark_tree_failed t R) R (map_to_list by_tree).*1 in
  let targets :=
    mjoin ((λ '(t, pids), targets_of_pids t pids R1) <$> map_to_list by_tree) in
  let '(eff, R2) := kill_processes clock targets "watchdog_policy"
                      (terminate_grace_ms cfg) R1 in
  (eff, complete_trees (get_all_tree_ids R2) R2).

(** ** Lemmas *)

(** Step 6 does nothing: step 1 has cleared the flag [terminate_process] tests. *)
Lemma terminate_after_mark clock pid R :
  terminate_process clock pid (mark_process_killed pid R) = mark_process_killed pid R.
Proof.
  unfold terminate_process, mark_process_killed. simpl.
  rewrite lookup_alter, decide_True by done. by destruct (process_table R !! pid).
Qed.

Definition mark_all_killed (targets : list TerminationTarget) (R : Registry) : Registry :=
  foldl (λ R t, mark_process_killed (tt_velix_pid t) R) R targets.

Lemma kill_processes_registry clock targets reason grace R :
  (kill_processes clock targets reason grace R).2 = mark_all_killed targets R.
Proof.
  revert R. induction targets as [|t targets IH]; intros R; [done|]. simpl.
  rewrite terminate_after_mark.
  destruct (kill_processes _ _ _ _ _) as [e R2] eqn:E. simpl.
  by rewrite <-IH, E.
Qed.

Lemma mark_all_killed_steps targets R :
  rtc reg_step R (mark_all_killed targets R).
Proof.
  revert R. induction targets as [|t targets IH]; intros R; [done|]. simpl.
  eapply rtc_l; [apply step_mark_killed|apply IH].
Qed.

(** The entry of a process after some targets were killed. *)
Lemma mark_all_killed_lookup targets R pid :
  process_table (mark_all_killed targets R) !! pid =
    (if decide (pid ∈ tt_velix_pid <$> targets)
     then (λ p, set_alive false (set_status KILLED p)) <$> process_table R !! pid
     else process_table R !! pid).
Proof.
  revert R. induction targets as [|t targets IH]; intros R; [done|].
  simpl. rewrite IH. simpl. rewrite lookup_alter.
  destruct (decide (tt_velix_pid t = pid)) as [<-|Hne].
  - rewrite (decide_True (P:=_ ∈ _ :: _)) by set_solver.
    case_decide; [|done]. by destruct (process_table R !! _).
  - destruct (decide (pid ∈ tt_velix_pid <$> targets));
      [rewrite decide_True by set_solver|rewrite decide_False by set_solver]; done.
Qed.

Lemma mark_all_killed_index targets R :
  tree_process_index (mark_all_killed targets R) = tree_process_index R ∧
  process_children (mark_all_killed targets R) = process_children R ∧
  tree_table (mark_all_killed targets R) = tree_table R ∧
  process_counter (mark_all_killed targets R) = process_counter R.
Proof.
  revert R. induction targets as [|t targets IH]; intros R; [done|]. simpl.
  destruct (IH (mark_process_killed (tt_velix_pid t) R)) as (-> & -> & -> & ->). done.
Qed.

Lemma reg_reachable_steps R R' : reg_reachable R → rtc reg_step R R' → reg_reachable R'.
Proof. intros [now ?] ?. exists now. by etrans. Qed.

Lemma mark_all_killed_zombie targets R pid p :
  process_table R !! pid = Some p → pid ∈ tt_velix_pid <$> targets →
  p_termination_time_ms p = 0 → zombie (mark_all_killed targets R) pid (p_tree_id p).
Proof.
  intros Hp Hin Hterm. exists (set_alive false (set_status KILLED p)).
  rewrite mark_all_killed_lookup, decide_True, Hp by done. done.
Qed.

(** Every signal goes to a target. *)
Lemma kill_processes_kills clock targets reason grace R os_pid sig :
  Kill os_pid sig ∈ (kill_processes clock targets reason grace R).1 →
  0 < os_pid ∧ (sig = SIGTERM ∨ sig = SIGKILL) ∧ os_pid ∈ tt_os_pid <$> targets.
Proof.
  revert R. induction targets as [|t targets IH]; intros R; [set_solver|].
  cbn [kill_processes kill_process].
  destruct (kill_processes _ _ _ _ _) as [e2 R2] eqn:E. cbn [fst].
  intros [Hin|Hin]%elem_of_app.
  - assert (∀ s, Kill os_pid sig ∈ signal_effects (tt_os_pid t) s →
      0 < os_pid ∧ sig = s ∧ os_pid = tt_os_pid t) as Hsig.
    { intros s. unfold signal_effects, send_signal_to_os_process.
      case_decide; [|by intros ?%not_elem_of_nil]. rewrite decide_False by lia. simpl.
      rewrite list_elem_of_singleton. intros. simplify_eq. lia. }
    rewrite !elem_of_app, list_elem_of_singleton in Hin.
    destruct Hin as [Hin|[Hin|[Hin|Hin]]].
    + unfold notify_bus_child_terminated in Hin.
      case_decide; [by apply not_elem_of_nil in Hin|by apply list_elem_of_singleton in Hin].
    + apply Hsig in Hin as (? & -> & ->). split_and!; [done|by left|by left].
    + done.
    + apply Hsig in Hin as (? & -> & ->). split_and!; [done|by right|by left].
  - specialize (IH (terminate_process clock (tt_velix_pid t)
      (mark_process_killed (tt_velix_pid t) R))). rewrite E in IH.
    destruct (IH Hin) as (? & ? & ?). split_and!; [done..|by right].
Qed.

(** ** Properties *)

(** [kill_processes] never reaps: a target that was still indexed ends up marked
    dead but kept in its tree, and in every later state of the registry it is still in
    the process table and in its tree, which therefore never completes. *)
Lemma kill_processes_leaves_zombies R clock targets reason grace pid p R' :
  reg_reachable R → process_table R !! pid = Some p → p_alive p = true →
  pid ∈ tt_velix_pid <$> targets →
  rtc reg_step (kill_processes clock targets reason grace R).2 R' →
  zombie R' pid (p_tree_id p) ∧
  pid ∈ get_tree_processes (p_tree_id p) R' ∧
  (mark_tree_completed_if_done (p_tree_id p) R').1 = false.
Proof.
  intros Hwf%wf_reachable Hp Hal Hin Hsteps. rewrite kill_processes_registry in Hsteps.
  pose proof (mark_all_killed_zombie targets R pid p Hp Hin (wf_alive _ Hwf _ _ Hp Hal)) as Hz.
  pose proof (rtc_invariant _ _ _ _ wf_step (mark_all_killed_steps targets R) Hwf) as Hwf1.
  destruct (zombie_steps _ _ _ _ Hwf1 Hsteps Hz) as [Hwf' Hz'].
  pose proof (zombie_indexed _ _ _ Hwf' Hz') as Hix.
  split_and!; [done|by apply elem_of_elements|].
  unfold mark_tree_completed_if_done. destruct (tree_table R' !! _); [|done].
  do 3 (case_decide; [done|]). exfalso. set_solver.
Qed.

(** [kill_processes] signals only the OS processes of its targets, never a
    non-positive pid (which [::kill] would take for a group), and only with [SIGTERM] and
    [SIGKILL]; in the registry it marks exactly the targets killed and dead. *)
Lemma kill_processes_only_targets R clock targets reason grace os_pid sig :
  Kill os_pid sig ∈ (kill_processes clock targets reason grace R).1 →
  (0 < os_pid ∧ (sig = SIGTERM ∨ sig = SIGKILL) ∧ os_pid ∈ tt_os_pid <$> targets) ∧
  ∀ pid, process_table (kill_processes clock targets reason grace R).2 !! pid =
    (if decide (pid ∈ tt_velix_pid <$> targets)
     then (λ p, set_alive false (set_status KILLED p)) <$> process_table R !! pid
     else process_table R !! pid).
Proof.
  intros Hin. split; [by eapply kill_processes_kills|].
  intros. by rewrite kill_processes_registry, mark_all_killed_lookup.
Qed.
