(* ===== verification/Supervisor.v ===== *)
(** * The supervisor (src/core/supervisor.cpp)

    The message handlers and the watchdog of [SupervisorService] over the process
    registry.  A handler is a function of the request and of the service's state; a
    C++ exception that leaves it is [Throw], and since no handler throws after its
    first store the state is then unchanged.  Logging is not modelled. *)

From S2P Require Import Prelude Json ProcessRegistry Termination.

(** ** Configuration *)

Record SupervisorConfig := {
  c_heartbeat_timeout_sec : Z;
  c_watchdog_interval_ms : Z;
  c_terminate_grace_ms : Z;
  c_require_auth_token : bool;
  c_auth_token : string;
  c_exempt_system_tree_limits : bool;
  c_max_processes_per_tree : Z;
  c_max_tree_runtime_sec : Z;
  c_max_memory_per_tree_mb : double;
  c_max_llm_requests_per_tree : Z;
  c_conversation_enabled : bool;
  c_max_active_process_convos_per_pid : Z;
  c_process_convo_ttl_sec : Z;
  c_handler_binary : string;
  c_handler_args : list string;
  c_handler_auto_restart : bool;
  c_handler_restart_delay_ms : Z;
}.

(** The defaults of [struct SupervisorConfig]. *)
Definition default_config : SupervisorConfig := {|
  c_heartbeat_timeout_sec := 15;
  c_watchdog_interval_ms := 1000;
  c_terminate_grace_ms := 1500;
  c_require_auth_token := false;
  c_auth_token := "";
  c_exempt_system_tree_limits := true;
  c_max_processes_per_tree := 64;
  c_max_tree_runtime_sec := 3600;
  c_max_memory_per_tree_mb := d_of_Z 2048;
  c_max_llm_requests_per_tree := 1000;
  c_conversation_enabled := true;
  c_max_active_process_convos_per_pid := 100;
  c_process_convo_ttl_sec := 86400;
  c_handler_binary := "";
  c_handler_args := [];
  c_handler_auto_restart := true;
  c_handler_restart_delay_ms := 2000;
|}.

(** ** Status texts *)

Definition process_status_to_string (st : ProcessStatus) : string :=
  match st with
  | STARTING => "STARTING" | RUNNING => "RUNNING" | WAITING_LLM => "WAITING_LLM"
  | WAITING_EXEC => "WAITING_EXEC" | FINISHED => "FINISHED" | ERROR => "ERROR"
  | KILLED => "KILLED"
  end.

Definition tree_status_to_string (st : TreeStatus) : string :=
  match st with
  | T_ACTIVE => "ACTIVE" | T_COMPLETED => "COMPLETED" | T_FAILED => "FAILED"
  | T_KILLED => "KILLED"
  end.

Definition parse_process_status (s : string) : ProcessStatus :=
  if decide (s = "STARTING") then STARTING
  else if decide (s = "RUNNING") then RUNNING
  else if decide (s = "WAITING_LLM") then WAITING_LLM
  else if decide (s = "WAITING_EXEC") then WAITING_EXEC
  else if decide (s = "FINISHED") then FINISHED
  else if decide (s = "KILLED") then KILLED
  else ERROR.

Definition is_valid_process_status_text (s : string) : bool :=
  bool_decide (s = "STARTING" ∨ s = "RUNNING" ∨ s = "WAITING_LLM" ∨ s = "WAITING_EXEC" ∨
               s = "FINISHED" ∨ s = "ERROR" ∨ s = "KILLED").

Definition is_limit_enabled (v : Z) : bool := bool_decide (v > 0).

(** [err.find(text) != npos] *)
Definition str_contains (needle s : string) : bool :=
  match String.index 0 needle s with Some _ => true | None => false end.

Definition is_expected_disconnect_error (err : string) : bool :=
  str_contains "Broken pipe" err || str_contains "connection closed" err ||
  str_contains "Connection reset" err || str_contains "errno 32" err ||
  str_contains "errno 104" err.

(** ** The service's state *)

Record ConvMetadata := {
  cm_convo_id : string;
  cm_user_id : string;
  cm_creator_pid : Z;
  cm_created_at_ms : Z;
}.

Record Supervisor := {
  config_ : SupervisorConfig;
  registry_ : Registry;
  process_convos_ : gmap Z (gset string);
  convo_metadata_ : gmap string ConvMetadata;
  handler_os_pid_ : Z;
  handler_velix_pid_ : Z;
  handler_needs_restart_ : bool;
  handler_dead_since_ : Z;      (* steady-clock milliseconds *)
}.

(** [SupervisorService()], with the clock reading of [create_tree]. *)
Definition Supervisor_init (now : Z) (cfg : SupervisorConfig) : Supervisor := {|
  config_ := cfg;
  registry_ := registry_boot now;
  process_convos_ := ∅;
  convo_metadata_ := ∅;
  handler_os_pid_ := -1;
  handler_velix_pid_ := -1;
  handler_needs_restart_ := false;
  handler_dead_since_ := 0;
|}.

Definition with_registry (R : Registry) (S : Supervisor) : Supervisor := {|
  config_ := config_ S; registry_ := R; process_convos_ := process_convos_ S;
  convo_metadata_ := convo_metadata_ S; handler_os_pid_ := handler_os_pid_ S;
  handler_velix_pid_ := handler_velix_pid_ S;
  handler_needs_restart_ := handler_needs_restart_ S;
  handler_dead_since_ := handler_dead_since_ S |}.

Definition with_convos (pc : gmap Z (gset string)) (cm : gmap string ConvMetadata)
    (S : Supervisor) : Supervisor := {|
  config_ := config_ S; registry_ := registry_ S; process_convos_ := pc;
  convo_metadata_ := cm; handler_os_pid_ := handler_os_pid_ S;
  handler_velix_pid_ := handler_velix_pid_ S;
  handler_needs_restart_ := handler_needs_restart_ S;
  handler_dead_since_ := handler_dead_since_ S |}.

Definition with_handler (os_pid velix_pid : Z) (needs_restart : bool) (dead_since : Z)
    (S : Supervisor) : Supervisor := {|
  config_ := config_ S; registry_ := registry_ S; process_convos_ := process_convos_ S;
  convo_metadata_ := convo_metadata_ S; handler_os_pid_ := os_pid;
  handler_velix_pid_ := velix_pid; handler_needs_restart_ := needs_restart;
  handler_dead_since_ := dead_since |}.

(** ** Request validation *)

Definition validate_auth (S : Supervisor) (message : json) : exc (bool * string) :=
  if c_require_auth_token (config_ S) then
    metadata ← value_json message "metadata" (JObject []);
    auth_token ← value_string metadata "auth_token" "";
    if decide (auth_token = "" ∨ auth_token ≠ c_auth_token (config_ S))
    then mret (false, "auth failed")
    else mret (true, "")
  else mret (true, "").

Definition allowed_types : list string :=
  ["REGISTER_PID"; "HEARTBEAT"; "LLM_REQUEST"; "TREE_STATUS"; "TREE_KILL"].

(** [!message.contains(key) || !message[key].is_number_integer() ||
    message[key].get<int>() <= 0] *)
Definition lacks_positive_int (message : json) (key : string) : exc bool :=
  match find message key with
  | None => mret true
  | Some v =>
      if is_number_integer v then n ← get_int v; mret (bool_decide (n ≤ 0))
      else mret true
  end.

Definition validate_message_shape (message : json) : exc (bool * string) :=
  if negb (is_object message) then mret (false, "message must be a JSON object")
  else
    match find message "message_type" with
    | Some (JString message_type) =>
        if decide (message_type ∉ allowed_types)
        then mret (false, "unsupported message_type: " +:+ message_type)
        else
          bad_pid ← (if decide (message_type = "HEARTBEAT")
                     then lacks_positive_int message "pid" else mret false);
          if bad_pid : bool
          then mret (false, message_type +:+ " requires positive integer pid")
          else if decide (message_type = "REGISTER_PID") then
            payload ← value_json message "payload" (JObject []);
            register_intent ← value_string payload "register_intent" "";
            role ← value_string payload "role" "unknown";
            if decide (register_intent = "JOIN_PARENT_TREE") then
              if decide (role = "handler") then mret (true, "")
              else
                bad ← lacks_positive_int message "source_pid";
                if bad : bool
                then mret (false, "REGISTER_PID JOIN_PARENT_TREE requires source_pid")
                else mret (true, "")
            else mret (true, "")
          else mret (true, "")
    | _ => mret (false, "missing or invalid message_type")
    end.

(** ** Responses *)

Definition build_process_json (p : ProcessInfo) : json :=
  JObject [("pid", JInt (p_pid p)); ("os_pid", JInt (p_os_pid p));
           ("tree_id", JString (p_tree_id p)); ("parent_pid", JInt (p_parent_pid p));
           ("role", JString (p_role p));
           ("status", JString (process_status_to_string (p_status p)))].

Definition build_tree_json (tree_id : string) (st : TreeStatus) (root_pid : Z) : json :=
  JObject [("tree_id", JString tree_id); ("status", JString (tree_status_to_string st));
           ("root_pid", JInt root_pid)].

Definition error_with (text : string) (extra : list (string * json)) : json :=
  JObject (("status", JString "error") :: ("error", JString text) :: extra).

(** ** REGISTER_PID *)

(** The choice of the tree and of the parent: the registration's
    [(tree_id, source_pid, is_tree_root, is_handler_process)], or the error response. *)
Definition resolve_registration (register_intent role : string) (source_pid os_pid : Z)
    (S : Supervisor) : (string * Z * bool * bool) + json :=
  let handler_tree_empty :=
    bool_decide (get_tree_processes "TREE_HANDLER" (registry_ S) = []) in
  if bool_decide (role = "handler") && handler_tree_empty then
    let expected := handler_os_pid_ S in
    if decide (expected > 0 ∧ os_pid ≠ expected)
    then inr (error_with "handler_os_pid_mismatch"
                [("expected_os_pid", JInt expected); ("actual_os_pid", JInt os_pid)])
    else inl ("TREE_HANDLER", -1, true, true)
  else if decide (role = "handler") then
    inr (error_with "handler_role_reserved_for_bootstrap" [])
  else if decide (register_intent = "NEW_TREE") then inl ("", source_pid, true, false)
  else if decide (source_pid ≤ 0) then
    inr (error_with "JOIN_PARENT_TREE requires valid source_pid" [])
  else
    match get_process source_pid (registry_ S) with
    | None => inr (error_with "source_pid not registered" [("source_pid", JInt source_pid)])
    | Some parent =>
        if is_terminal_status (p_status parent)
        then inr (error_with "source_pid is not active" [("source_pid", JInt source_pid)])
        else inl (p_tree_id parent, source_pid, false, false)
    end.

Definition handle_register_pid (now : Z) (message : json) (S : Supervisor) :
    exc (json * Supervisor) :=
  payload ← value_json message "payload" (JObject []);
  register_intent ← value_string payload "register_intent" "";
  role ← value_string payload "role" "unknown";
  source_pid ← value_int message "source_pid" (-1);
  os_pid ← value_int payload "os_pid" (-1);
  status_text ← value_string payload "status" "STARTING";
  if negb (is_valid_process_status_text status_text) then
    mret (error_with "invalid process status in REGISTER_PID"
            [("status_value", JString status_text)], S)
  else
    memory_mb ← value_double payload "memory_mb" d_zero;
    if decide (os_pid ≤ 0) then
      mret (error_with "REGISTER_PID requires payload.os_pid" [], S)
    else if decide (register_intent ≠ "NEW_TREE" ∧ register_intent ≠ "JOIN_PARENT_TREE") then
      mret (error_with ("REGISTER_PID requires register_intent = NEW_TREE or " +:+
                        "JOIN_PARENT_TREE") [], S)
    else
      match resolve_registration register_intent role source_pid os_pid S with
      | inr response => mret (response, S)
      | inl (tree_id, parent_pid, is_tree_root, is_handler_process) =>
          trace_id ← value_string payload "trace_id" "";
          let '(result, R) :=
            register_process now os_pid tree_id parent_pid role trace_id
              (parse_process_status status_text) memory_mb
              (bool_decide (role = "handler")) (registry_ S) in
          let S := with_registry R S in
          match r_process result with
          | None => mret (error_with (r_error result) [], S)
          | Some p =>
              let S := if decide (role = "handler")
                       then with_handler (handler_os_pid_ S) (p_pid p) false 0 S else S in
              mret (JObject [("status", JString "ok");
                             ("tree_id", JString (r_tree_id result));
                             ("register_intent", JString register_intent);
                             ("is_root", JBool is_tree_root);
                             ("is_handler", JBool is_handler_process);
                             ("process", build_process_json p)], S)
          end
      end.

(** ** HEARTBEAT *)

Definition handle_heartbeat (now clock : Z) (message : json) (S : Supervisor) :
    exc (json * Supervisor) :=
  pid ← value_int message "pid" (-1);
  if decide (pid ≤ 0) then mret (error_with "HEARTBEAT requires valid pid" [], S)
  else
    payload ← value_json message "payload" (JObject []);
    status_text ← value_string payload "status" "";
    memory_mb ← value_double payload "memory_mb" (d_of_Z (-1));
    match get_process pid (registry_ S) with
    | None => mret (error_with "pid not registered" [], S)
    | Some process =>
        if bool_decide (status_text ≠ "") && negb (is_valid_process_status_text status_text)
        then mret (error_with "invalid process status in HEARTBEAT"
                     [("status_value", JString status_text)], S)
        else
          let previous_status := p_status process in
          let new_status :=
            if decide (status_text = "") then previous_status
            else parse_process_status status_text in
          let R := update_heartbeat pid new_status memory_mb now (registry_ S) in
          let R := if negb (is_terminal_status previous_status) &&
                      is_terminal_status new_status
                   then terminate_process clock pid R else R in
          mret (JObject [("status", JString "ok"); ("pid", JInt pid)], with_registry R S)
    end.

(** ** LLM_REQUEST *)

(** The checks of [handle_llm_request] that depend on the mode. *)
Definition llm_mode_error (mode convo_id user_id : string) (source : ProcessInfo) :
    option string :=
  if decide (mode = "simple") then
    if decide (convo_id ≠ "" ∨ user_id ≠ "")
    then Some "simple mode requires empty convo_id and user_id" else None
  else if decide (mode = "conversation") then
    if decide (user_id ≠ "") then Some "conversation mode requires empty user_id" else None
  else if decide (mode = "user_conversation") then
    if decide (p_role source ≠ "handler")
    then Some "user_conversation only allowed for handler process"
    else if decide (user_id = "") then Some "user_conversation requires user_id" else None
  else None.

Definition handle_llm_request (message : json) (S : Supervisor) : exc (json * Supervisor) :=
  mode ← value_string message "mode" "";
  _ ← value_string message "tree_id" "";
  convo_id ← value_string message "convo_id" "";
  user_id ← value_string message "user_id" "";
  source_pid ← value_int message "source_pid" (-1);
  if decide (mode ≠ "simple" ∧ mode ≠ "conversation" ∧ mode ≠ "user_conversation") then
    mret (error_with "unsupported LLM mode" [], S)
  else if negb (c_conversation_enabled (config_ S)) && bool_decide (mode ≠ "simple") then
    mret (error_with "conversation mode is disabled" [], S)
  else if decide (source_pid ≤ 0) then
    mret (error_with "LLM_REQUEST requires valid source_pid" [], S)
  else
    match get_process source_pid (registry_ S) with
    | None => mret (error_with "LLM_REQUEST source_pid not registered" [], S)
    | Some source =>
        match llm_mode_error mode convo_id user_id source with
        | Some e => mret (error_with e [], S)
        | None =>
            mret (JObject [("status", JString "ok");
                           ("is_handler", JBool (bool_decide (p_role source = "handler")))],
                  with_registry (increment_llm_request (p_tree_id source) (registry_ S)) S)
        end
    end.

(** ** TREE_STATUS and TREE_KILL *)

(** [payload.value("tree_id", message.value("tree_id", ""))]: the inner lookup is
    evaluated, and may throw, even when the payload names the tree. *)
Definition message_tree_id (message : json) : exc string :=
  payload ← value_json message "payload" (JObject []);
  dflt ← value_string message "tree_id" "";
  value_string payload "tree_id" dflt.

Definition handle_tree_status (message : json) (S : Supervisor) : exc (json * Supervisor) :=
  tree_id ← message_tree_id message;
  if decide (tree_id = "") then
    let trees := omap (λ tid, let status := get_tree_status tid (registry_ S) in
                   if ts_found status
                   then Some (build_tree_json tid (ts_status status) (ts_root_pid status))
                   else None) (get_all_tree_ids (registry_ S)) in
    mret (JObject [("status", JString "ok"); ("trees", JArray trees)], S)
  else
    let status := get_tree_status tree_id (registry_ S) in
    if negb (ts_found status) then mret (error_with "tree not found" [], S)
    else
      let processes := omap (λ pid, build_process_json <$> get_process pid (registry_ S))
                         (get_tree_processes tree_id (registry_ S)) in
      mret (JObject [("status", JString "ok");
                     ("tree", build_tree_json tree_id (ts_status status) (ts_root_pid status));
                     ("processes", JArray processes)], S).

(** [kill_tree], then the termination of its live processes when there are any: the
    body of [handle_tree_kill] and of each limit of the watchdog. *)
Definition kill_tree_and_processes (clock : Z) (reason tree_id : string) (grace_ms : Z)
    (R : Registry) : list effect * Registry :=
  let '(pids, R1) := kill_tree tree_id R in
  if decide (pids = []) then ([], R1)
  else kill_processes clock (targets_of_pids tree_id pids R1) reason grace_ms R1.

Definition handle_tree_kill (clock : Z) (message : json) (S : Supervisor) :
    exc (json * Supervisor * list effect) :=
  tree_id ← message_tree_id message;
  _ ← value_int message "source_pid" (-1);
  if decide (tree_id = "") then mret (error_with "TREE_KILL requires tree_id" [], S, [])
  else
    let '(eff, R) := kill_tree_and_processes clock "tree_kill" tree_id
                       (c_terminate_grace_ms (config_ S)) (registry_ S) in
    mret (JObject [("status", JString "ok"); ("tree_id", JString tree_id);
                   ("tree_status", JString "KILLED")], with_registry R S, eff).

(** ** Dispatch *)

(** [now] and [clock] are the clock readings of the handler: the first one and the one
    a termination takes. *)
Definition handle_message (now clock : Z) (message : json) (S : Supervisor) :
    exc (json * Supervisor * list effect) :=
  shape ← validate_message_shape message;
  if negb (fst shape) then mret (error_with (snd shape) [], S, [])
  else
    auth ← validate_auth S message;
    if negb (fst auth) then mret (error_with (snd auth) [], S, [])
    else
      message_type ← value_string message "message_type" "";
      if decide (message_type = "REGISTER_PID") then
        (λ rs, (fst rs, snd rs, [])) <$> handle_register_pid now message S
      else if decide (message_type = "HEARTBEAT") then
        (λ rs, (fst rs, snd rs, [])) <$> handle_heartbeat now clock message S
      else if decide (message_type = "LLM_REQUEST") then
        (λ rs, (fst rs, snd rs, [])) <$> handle_llm_request message S
      else if decide (message_type = "TREE_STATUS") then
        (λ rs, (fst rs, snd rs, [])) <$> handle_tree_status message S
      else if decide (message_type = "TREE_KILL") then handle_tree_kill clock message S
      else mret (error_with ("unsupported message_type: " +:+ message_type) [], S, []).

(** The [catch] of [handle_client]: nothing is sent for a text that reads as a
    disconnection, and a failure of the second send is swallowed. *)
Definition report_error (send_error : json → option string) (err : string) : option json :=
  if is_expected_disconnect_error err then None
  else match send_error (error_response err) with
       | None => Some (error_response err)
       | Some _ => None
       end.

(** [handle_client]: the reply that reaches the client, if one does.  [send] and
    [send_error] are the two calls of [send_json] with the [dump] of their argument: nothing
    when the reply is sent, the text of the exception when it is not.  The send is in the
    same [try] as the handling, and what the request did to the state stays. *)
Definition handle_client (now clock : Z) (send send_error : json → option string)
    (request : exc json) (S : Supervisor) : exc (option json * Supervisor * list effect) :=
  match (message ← request; handle_message now clock message S) with
  | Ok (response, S', eff) =>
      match send response with
      | None => Ok (Some response, S', eff)
      | Some err => Ok (report_error send_error err, S', eff)
      end
  | Throw err => Ok (report_error send_error err, S, [])
  | UB => UB
  end.

(** ** The watchdog *)

(** What the operating system answers when the handler is respawned: [::kill],
    [::waitpid] (after the grace period) and [::fork]. *)
Record os_answers := { kill_ret : Z; waitpid_ret : Z; fork_ret : Z }.

(** [spawn_handler_process] (POSIX). *)
Definition spawn_handler_process (os : os_answers) (S : Supervisor) :
    list effect * Supervisor :=
  if decide (c_handler_binary (config_ S) = "") then ([], S)
  else
    let prev := handler_os_pid_ S in
    let '(e1, os_pid) :=
      if decide (prev > 0) then
        ([Kill prev SIGTERM] ++
         (if decide (kill_ret os = 0)
          then [Sleep 500; WaitPid prev] ++
               (if decide (waitpid_ret os = 0) then [Kill prev SIGKILL] else [])
          else []) ++ [WaitPid prev], -1)
      else ([], prev) in
    let e2 := [ForkExec (c_handler_binary (config_ S) :: c_handler_args (config_ S))] in
    let os_pid := if decide (fork_ret os < 0) then os_pid else fork_ret os in
    (e1 ++ e2, with_handler os_pid (handler_velix_pid_ S) (handler_needs_restart_ S)
                 (handler_dead_since_ S) S).

(** A process of the snapshot whose last heartbeat is too old. *)
Definition heartbeat_expired (S : Supervisor) (now_ms : Z) (e : WatchdogEntry) : bool :=
  bool_decide (u64 (now_ms - w_last_heartbeat_ms e) >
               u64 (u64 (c_heartbeat_timeout_sec (config_ S)) * 1000)).

Definition target_of_entry (e : WatchdogEntry) : TerminationTarget :=
  {| tt_velix_pid := w_pid e; tt_os_pid := w_os_pid e; tt_tree_id := w_tree_id e;
     tt_trace_id := w_trace_id e; tt_parent_pid := w_parent_pid e |}.

Definition timeout_targets (S : Supervisor) (now_ms : Z) (R : Registry) :
    list TerminationTarget :=
  target_of_entry <$> filter (λ e, heartbeat_expired S now_ms e = true)
                        (snapshot_for_watchdog R).

(** [(now_ms - created_at_ms) / 1000] *)
Definition tree_runtime_sec (now_ms created_at_ms : Z) : Z :=
  u64 (now_ms - created_at_ms) / 1000.

(** One limit of a tree: nothing while it is respected. *)
Definition enforce_limit (violated : bool) (clock : Z) (reason tree_id : string)
    (grace_ms : Z) (R : Registry) : list effect * Registry :=
  if violated then kill_tree_and_processes clock reason tree_id grace_ms R else ([], R).

Definition runtime_exceeded (cfg : SupervisorConfig) (now_ms created_at_ms : Z) : bool :=
  bool_decide (tree_runtime_sec now_ms created_at_ms > u64 (c_max_tree_runtime_sec cfg)).

Definition memory_exceeded (cfg : SupervisorConfig) (tree_id : string) (R : Registry) : bool :=
  d_gtb (compute_tree_memory_mb tree_id R) (c_max_memory_per_tree_mb cfg).

Definition llm_exceeded (cfg : SupervisorConfig) (tree_id : string) (R : Registry) : bool :=
  let status := get_tree_status tree_id R in
  ts_found status && is_limit_enabled (c_max_llm_requests_per_tree cfg) &&
  bool_decide (ts_llm_request_count status > c_max_llm_requests_per_tree cfg).

(** The three limits of one tree, in order; each reads the registry the previous left. *)
Definition enforce_tree_limits (cfg : SupervisorConfig) (now_ms clock : Z)
    (tree_id : string) (created_at_ms : Z) (R : Registry) : list effect * Registry :=
  if decide (tree_id = "TREE_HANDLER") then ([], R)
  else
    let grace := c_terminate_grace_ms cfg in
    let '(e1, R1) := enforce_limit (runtime_exceeded cfg now_ms created_at_ms) clock
                       "tree_runtime_limit" tree_id grace R in
    let '(e2, R2) := enforce_limit (memory_exceeded cfg tree_id R1) clock
                       "tree_memory_limit" tree_id grace R1 in
    let '(e3, R3) := enforce_limit (llm_exceeded cfg tree_id R2) clock
                       "tree_llm_limit" tree_id grace R2 in
    (e1 ++ e2 ++ e3, R3).

Fixpoint enforce_limits (cfg : SupervisorConfig) (now_ms clock : Z)
    (trees : list (string * Z)) (R : Registry) : list effect * Registry :=
  match trees with
  | [] => ([], R)
  | (t, created) :: trees =>
      let '(e1, R1) := enforce_tree_limits cfg now_ms clock t created R in
      let '(e2, R2) := enforce_limits cfg now_ms clock trees R1 in
      (e1 ++ e2, R2)
  end.

(** The conversations past their time to live leave both maps. *)
Definition convo_expired (cfg : SupervisorConfig) (now_ms : Z) (m : ConvMetadata) : bool :=
  bool_decide (u64 (now_ms - cm_created_at_ms m) / 1000 > u64 (c_process_convo_ttl_sec cfg)).

Definition expire_convos (now_ms : Z) (S : Supervisor) : Supervisor :=
  let expired :=
    (filter (λ '(_, m), convo_expired (config_ S) now_ms m = true)
       (map_to_list (convo_metadata_ S))).*1 in
  with_convos ((λ ids, ids ∖ list_to_set expired) <$> process_convos_ S)
    (foldr delete (convo_metadata_ S) expired) S.

Definition handler_alive (S : Supervisor) : bool :=
  bool_decide (handler_velix_pid_ S > 0) && is_alive (registry_ S) (handler_velix_pid_ S).

(** The restart monitor; [steady] is the reading of the steady clock. *)
Definition handler_monitor (steady : Z) (os : os_answers) (S : Supervisor) :
    list effect * Supervisor :=
  if c_handler_auto_restart (config_ S) && bool_decide (c_handler_binary (config_ S) ≠ "")
  then
    if handler_alive S then
      ([], with_handler (handler_os_pid_ S) (handler_velix_pid_ S) false
             (handler_dead_since_ S) S)
    else if negb (handler_needs_restart_ S) then
      ([], with_handler (handler_os_pid_ S) (handler_velix_pid_ S) true steady S)
    else if decide (c_handler_restart_delay_ms (config_ S) ≤ steady - handler_dead_since_ S)
    then
      let '(e, S1) := spawn_handler_process os S in
      (e, with_handler (handler_os_pid_ S1) (handler_velix_pid_ S1) false
            (handler_dead_since_ S1) S1)
    else ([], S)
  else ([], S).

(** One iteration of [watchdog_loop] after its sleep.  [now_ms] is read first: the
    registry may by then hold heartbeats of a later reading. *)
Definition watchdog_tick (now_ms clock steady : Z) (os : os_answers) (S : Supervisor) :
    list effect * Supervisor :=
  let cfg := config_ S in
  let R := cleanup_historical_processes now_ms 60000 (registry_ S) in
  let '(e1, R) := kill_processes clock (timeout_targets S now_ms R) "heartbeat_timeout"
                    (c_terminate_grace_ms cfg) R in
  let trees := get_all_tree_ids_with_created_at R in
  let '(e2, R) := enforce_limits cfg now_ms clock trees R in
  let R := complete_trees trees.*1 R in
  let '(e3, S1) := handler_monitor steady os (expire_convos now_ms (with_registry R S)) in
  (e1 ++ e2 ++ e3, S1).

(** [stop]: every process of the snapshot is terminated. *)
Definition stop_kill_all (clock : Z) (S : Supervisor) : list effect * Supervisor :=
  let '(e, R) := kill_processes clock (target_of_entry <$> snapshot_for_watchdog (registry_ S))
                   "supervisor_shutdown" (c_terminate_grace_ms (config_ S)) (registry_ S) in
  (e, with_registry R S).

(** ** Transitions of the service *)

Inductive sup_step : relation Supervisor :=
  | sup_client S now clock send send_error request reply S' eff :
      0 < clock → process_counter (registry_ S) < 2 ^ 64 - 1 →
      handle_client now clock send send_error request S = Ok (reply, S', eff) → sup_step S S'
  | sup_watchdog S now_ms clock steady os :
      sup_step S (watchdog_tick now_ms clock steady os S).2
  | sup_stop S clock : sup_step S (stop_kill_all clock S).2.

Definition sup_reachable (S : Supervisor) : Prop :=
  ∃ now cfg, rtc sup_step (Supervisor_init now cfg) S.

(** The field of a response that says how the request went. *)
Definition response_status (r : json) : option json := find r "status".

(** ** Lemmas: the service drives the registry through its transitions *)

Lemma kill_processes_steps clock targets reason grace R :
  rtc reg_step R (kill_processes clock targets reason grace R).2.
Proof. rewrite kill_processes_registry. apply mark_all_killed_steps. Qed.

Lemma kill_tree_and_processes_steps clock reason t grace R :
  rtc reg_step R (kill_tree_and_processes clock reason t grace R).2.
Proof.
  unfold kill_tree_and_processes. destruct (kill_tree t R) as [pids R1] eqn:Hk.
  assert (reg_step R R1) as Hs by (pose proof (step_kill_tree R t) as H; by rewrite Hk in H).
  eapply rtc_l; [exact Hs|]. case_decide; [done|]. apply kill_processes_steps.
Qed.

Lemma enforce_limit_steps b clock reason t grace R :
  rtc reg_step R (enforce_limit b clock reason t grace R).2.
Proof. destruct b; [apply kill_tree_and_processes_steps|done]. Qed.

(** The registry after the limits of one tree, as a composition. *)
Lemma enforce_tree_limits_registry cfg now_ms clock t created R :
  t ≠ "TREE_HANDLER" →
  let lim b reason R := (enforce_limit b clock reason t (c_terminate_grace_ms cfg) R).2 in
  let R1 := lim (runtime_exceeded cfg now_ms created) "tree_runtime_limit" R in
  let R2 := lim (memory_exceeded cfg t R1) "tree_memory_limit" R1 in
  (enforce_tree_limits cfg now_ms clock t created R).2 =
    lim (llm_exceeded cfg t R2) "tree_llm_limit" R2.
Proof.
  intros Ht. unfold enforce_tree_limits. rewrite decide_False by done. cbv zeta.
  destruct (enforce_limit (runtime_exceeded _ _ _) _ _ _ _ _) as [e1 R1]. simpl.
  destruct (enforce_limit (memory_exceeded _ _ _) _ _ _ _ _) as [e2 R2]. simpl.
  by destruct (enforce_limit (llm_exceeded _ _ _) _ _ _ _ _) as [e3 R3].
Qed.

Lemma enforce_tree_limits_steps cfg now_ms clock t created R :
  rtc reg_step R (enforce_tree_limits cfg now_ms clock t created R).2.
Proof.
  destruct (decide (t = "TREE_HANDLER")) as [->|Ht]; [done|].
  rewrite enforce_tree_limits_registry by done.
  etrans; [|etrans]; apply enforce_limit_steps.
Qed.

Lemma enforce_limits_steps cfg now_ms clock trees R :
  rtc reg_step R (enforce_limits cfg now_ms clock trees R).2.
Proof.
  revert R. induction trees as [|[t created] trees IH]; intros R; [done|]. simpl.
  pose proof (enforce_tree_limits_steps cfg now_ms clock t created R) as H1.
  destruct (enforce_tree_limits _ _ _ _ _ _) as [e1 R1].
  pose proof (IH R1) as H2. destruct (enforce_limits _ _ _ _ _) as [e2 R2].
  simpl in *. by etrans.
Qed.

Lemma complete_trees_steps ids R : rtc reg_step R (complete_trees ids R).
Proof.
  revert R. induction ids as [|t ids IH]; intros R; [done|]. simpl.
  eapply rtc_l; [apply (step_completed R t)|apply IH].
Qed.

Lemma spawn_registry os S : registry_ (spawn_handler_process os S).2 = registry_ S.
Proof. unfold spawn_handler_process. by repeat case_match; simplify_eq/=. Qed.

Lemma handler_monitor_registry steady os S :
  registry_ (handler_monitor steady os S).2 = registry_ S.
Proof.
  unfold handler_monitor. repeat case_match; simplify_eq/=; try done.
  match goal with H : spawn_handler_process _ _ = _ |- _ =>
    pose proof (spawn_registry os S) as Hs; by rewrite H in Hs end.
Qed.

(** The registry after the timeouts of a tick. *)
Definition registry_after_timeouts (now_ms : Z) (S : Supervisor) : Registry :=
  let R := cleanup_historical_processes now_ms 60000 (registry_ S) in
  mark_all_killed (timeout_targets S now_ms R) R.

Lemma registry_after_timeouts_steps now_ms S :
  rtc reg_step (registry_ S) (registry_after_timeouts now_ms S).
Proof. eapply rtc_l; [apply step_cleanup|apply mark_all_killed_steps]. Qed.

Lemma watchdog_tick_registry now_ms clock steady os S :
  let R := registry_after_timeouts now_ms S in
  let trees := get_all_tree_ids_with_created_at R in
  registry_ (watchdog_tick now_ms clock steady os S).2 =
    complete_trees trees.*1 (enforce_limits (config_ S) now_ms clock trees R).2.
Proof.
  cbv zeta. unfold watchdog_tick, registry_after_timeouts.
  set (R0 := cleanup_historical_processes now_ms 60000 (registry_ S)).
  rewrite <-(kill_processes_registry clock (timeout_targets S now_ms R0)
               "heartbeat_timeout" (c_terminate_grace_ms (config_ S)) R0).
  destruct (kill_processes _ _ _ _ _) as [e1 R1]. simpl.
  destruct (enforce_limits _ _ _ _ _) as [e2 R2]. simpl.
  pose proof (handler_monitor_registry steady os (expire_convos now_ms
    (with_registry (complete_trees (get_all_tree_ids_with_created_at R1).*1 R2) S))) as Hm.
  destruct (handler_monitor _ _ _) as [e3 S1]. done.
Qed.

Lemma watchdog_tick_steps now_ms clock steady os S :
  rtc reg_step (registry_after_timeouts now_ms S)
    (registry_ (watchdog_tick now_ms clock steady os S).2).
Proof.
  rewrite watchdog_tick_registry. etrans; [apply enforce_limits_steps|].
  apply complete_trees_steps.
Qed.

Lemma handle_heartbeat_steps now clock m S r S' :
  0 < clock → handle_heartbeat now clock m S = Ok (r, S') →
  rtc reg_step (registry_ S) (registry_ S').
Proof.
  intros Hclock H. unfold handle_heartbeat in H. exc_run H; try done; simpl.
  eapply rtc_l; [by apply step_heartbeat|].
  case_match; [by apply rtc_once, step_terminate|done].
Qed.

Lemma handle_register_pid_steps now m S r S' :
  process_counter (registry_ S) < 2 ^ 64 - 1 → handle_register_pid now m S = Ok (r, S') →
  rtc reg_step (registry_ S) (registry_ S').
Proof.
  intros Hc H. unfold handle_register_pid in H. exc_run H; try done; simpl.
  all: match goal with
       | H : register_process ?n ?o ?t ?pp ?ro ?tr ?st ?mem ?h ?R = (_, ?R') |- _ =>
           pose proof (step_register R n o t pp ro tr st mem h Hc) as Hs;
           rewrite H in Hs; simpl in Hs
       end.
  all: try case_decide; simpl; by apply rtc_once.
Qed.

Lemma handle_llm_request_steps m S r S' :
  handle_llm_request m S = Ok (r, S') → rtc reg_step (registry_ S) (registry_ S').
Proof.
  intros H. unfold handle_llm_request in H. exc_run H; try done; simpl.
  apply rtc_once, step_llm.
Qed.

Lemma handle_tree_status_state m S r S' : handle_tree_status m S = Ok (r, S') → S' = S.
Proof. intros H. unfold handle_tree_status in H. by exc_run H. Qed.

Lemma handle_tree_kill_steps clock m S r S' eff :
  handle_tree_kill clock m S = Ok (r, S', eff) → rtc reg_step (registry_ S) (registry_ S').
Proof.
  intros H. unfold handle_tree_kill in H. exc_run H; try done; simpl.
  match goal with H : kill_tree_and_processes ?c ?re ?t ?g ?R = _ |- _ =>
    pose proof (kill_tree_and_processes_steps c re t g R) as Hs; by rewrite H in Hs end.
Qed.

Lemma handle_message_steps now clock m S r S' eff :
  0 < clock → process_counter (registry_ S) < 2 ^ 64 - 1 →
  handle_message now clock m S = Ok (r, S', eff) →
  rtc reg_step (registry_ S) (registry_ S').
Proof.
  intros ?? H. unfold handle_message in H.
  exc_run H; try done;
    repeat match goal with p : json * Supervisor |- _ => destruct p end; simplify_eq/=;
    eauto using handle_register_pid_steps, handle_heartbeat_steps,
      handle_llm_request_steps, handle_tree_kill_steps.
  match goal with H : handle_tree_status _ _ = _ |- _ =>
    by apply handle_tree_status_state in H as -> end.
Qed.

(** Whatever becomes of the reply, the state is the one the handling left. *)
Lemma handle_client_inv now clock send send_error request S r S' eff :
  handle_client now clock send send_error request S = Ok (r, S', eff) →
  (∃ message response, request = Ok message ∧
     handle_message now clock message S = Ok (response, S', eff)) ∨ (S' = S ∧ eff = []).
Proof.
  unfold handle_client. destruct request as [m| |]; simpl; [|intros; simplify_eq; by right|done].
  destruct (handle_message now clock m S) as [[[r0 S0] e0]| |] eqn:E;
    [|intros; simplify_eq; by right|done].
  intros H. left. exists m, r0. split; [done|]. destruct (send r0); by simplify_eq.
Qed.

Lemma handle_client_steps now clock send send_error request S r S' eff :
  0 < clock → process_counter (registry_ S) < 2 ^ 64 - 1 →
  handle_client now clock send send_error request S = Ok (r, S', eff) →
  rtc reg_step (registry_ S) (registry_ S').
Proof.
  intros Hclock Hc [(m & r0 & _ & H)|[-> _]]%handle_client_inv; [|done].
  by eapply handle_message_steps.
Qed.

Lemma sup_step_registry S S' : sup_step S S' → rtc reg_step (registry_ S) (registry_ S').
Proof.
  intros [S0 now clock send send_error request reply S1 eff Hclock Hc H|S0 now_ms clock steady os
    |S0 clock].
  - by eapply handle_client_steps.
  - etrans; [apply registry_after_timeouts_steps|apply watchdog_tick_steps].
  - unfold stop_kill_all. pose proof (kill_processes_steps clock
      (target_of_entry <$> snapshot_for_watchdog (registry_ S0)) "supervisor_shutdown"
      (c_terminate_grace_ms (config_ S0)) (registry_ S0)) as Hk.
    by destruct (kill_processes _ _ _ _ _).
Qed.

Lemma sup_steps_registry S S' :
  rtc sup_step S S' → rtc reg_step (registry_ S) (registry_ S').
Proof. induction 1; [done|]. etrans; [by apply sup_step_registry|done]. Qed.

Lemma sup_registry_reachable S : sup_reachable S → reg_reachable (registry_ S).
Proof.
  intros (now & cfg & Hr). exists now. by apply sup_steps_registry in Hr.
Qed.

(** ** Lemmas: killing a tree *)

Lemma foldr_alter_lookup (f : ProcessInfo → ProcessInfo) (pids : list Z)
    (tb : gmap Z ProcessInfo) (pid : Z) :
  NoDup pids →
  foldr (alter f) tb pids !! pid =
    (if decide (pid ∈ pids) then f <$> tb !! pid else tb !! pid : option ProcessInfo).
Proof.
  induction 1 as [|x pids Hx Hnd IH]; simpl; [done|].
  rewrite lookup_alter, IH. destruct (decide (x = pid)) as [->|].
  - destruct (decide (pid ∈ pids)); [done|]. by rewrite IH, decide_True by set_solver.
  - destruct (decide (pid ∈ pids)); [rewrite decide_True by set_solver|
      rewrite decide_False by set_solver]; done.
Qed.

Lemma NoDup_live t R : NoDup (live_tree_pids t R).
Proof. apply NoDup_filter, NoDup_elements. Qed.

Lemma elem_of_live t R pid :
  registry_wf R →
  pid ∈ live_tree_pids t R ↔
  ∃ p, process_table R !! pid = Some p ∧ p_tree_id p = t ∧ p_alive p = true.
Proof.
  intros Hwf. unfold live_tree_pids, is_alive, get_process.
  rewrite list_elem_of_filter. unfold get_tree_processes.
  rewrite elem_of_elements, (wf_index _ Hwf). split.
  - intros (Hal & p & Hp & Ht & _). rewrite Hp in Hal. eauto.
  - intros (p & Hp & Ht & Hal). rewrite Hp. split; [done|].
    exists p. split_and!; try done. by eapply wf_alive.
Qed.

Lemma kill_tree_lookup t R pid :
  process_table (kill_tree t R).2 !! pid =
    (if decide (pid ∈ live_tree_pids t R)
     then set_status KILLED <$> process_table R !! pid else process_table R !! pid).
Proof. simpl. apply foldr_alter_lookup, (NoDup_live t R). Qed.

(** The targets of a tree's live processes are exactly these processes. *)
Lemma targets_of_live t R :
  registry_wf R →
  tt_velix_pid <$> targets_of_pids t (live_tree_pids t R) (kill_tree t R).2 =
    live_tree_pids t R.
Proof.
  intros Hwf. unfold targets_of_pids.
  assert (∀ pids : list Z, (∀ x, x ∈ pids → x ∈ live_tree_pids t R) →
    tt_velix_pid <$> omap (target_of_pid t (kill_tree t R).2) pids = pids) as Hall;
    [|by apply Hall].
  induction pids as [|x pids IH]; intros Hin; [done|].
  pose proof (Hin x ltac:(set_solver)) as Hx.
  assert (∃ p, target_of_pid t (kill_tree t R).2 x = Some (target_of t x p)) as [p Hp].
  { unfold target_of_pid, get_process. rewrite kill_tree_lookup, decide_True by done.
    apply elem_of_live in Hx as (p & -> & _ & Hal); [|done]. simpl. rewrite Hal. eauto. }
  cbn [omap list_omap]. rewrite Hp. cbn. f_equal. apply IH. set_solver.
Qed.

(** After a tree is killed, its live processes are marked killed and dead, and no
    other entry changes. *)
Lemma kill_tree_and_processes_lookup clock reason t grace R pid :
  registry_wf R →
  process_table (kill_tree_and_processes clock reason t grace R).2 !! pid =
    (if decide (pid ∈ live_tree_pids t R)
     then (λ p, set_alive false (set_status KILLED p)) <$> process_table R !! pid
     else process_table R !! pid).
Proof.
  intros Hwf. pose proof (targets_of_live t R Hwf) as Ht.
  pose proof (kill_tree_lookup t R) as Hl. unfold kill_tree_and_processes.
  destruct (kill_tree t R) as [pids R1] eqn:Hk.
  assert (pids = live_tree_pids t R) as -> by (by injection Hk).
  simpl in Ht, Hl. case_decide as Hnil; simpl.
  { rewrite Hl, Hnil. by rewrite decide_False by set_solver. }
  rewrite kill_processes_registry, mark_all_killed_lookup, Ht, Hl.
  case_decide; [|done]. by destruct (process_table R !! pid).
Qed.

Lemma kill_tree_and_processes_trees clock reason t grace R :
  tree_table (kill_tree_and_processes clock reason t grace R).2 =
    alter (set_tree_status T_KILLED) t (tree_table R).
Proof.
  unfold kill_tree_and_processes. destruct (kill_tree t R) as [pids R1] eqn:Hk.
  injection Hk as <- <-. case_decide; [done|].
  rewrite kill_processes_registry.
  match goal with |- context [mark_all_killed ?ts ?R0] =>
    by destruct (mark_all_killed_index ts R0) as (_ & _ & -> & _) end.
Qed.

(** ** Lemmas: what a tick preserves *)

(** What may become of a process: it keeps its tree and its role, and is neither revived
    nor re-indexed. *)
Record shrunk (p p' : ProcessInfo) : Prop := {
  shrunk_tree : p_tree_id p' = p_tree_id p;
  shrunk_role : p_role p' = p_role p;
  shrunk_alive : p_alive p' = true → p_alive p = true;
  shrunk_term : p_termination_time_ms p' = 0 → p_termination_time_ms p = 0;
}.

(** No process appears, and those that stay may only have shrunk. *)
Definition shrinks (R R' : Registry) : Prop :=
  ∀ pid p', process_table R' !! pid = Some p' →
    ∃ p, process_table R !! pid = Some p ∧ shrunk p p'.

#[export] Instance shrunk_preorder : PreOrder shrunk.
Proof.
  split; [by intros p|]. intros p q r [] []; constructor; try congruence; auto.
Qed.

#[export] Instance shrinks_preorder : PreOrder shrinks.
Proof.
  split.
  - intros R pid p Hp. exists p. by split.
  - intros R1 R2 R3 H12 H23 pid p3 Hp3. destruct (H23 _ _ Hp3) as (p2 & Hp2 & ?).
    destruct (H12 _ _ Hp2) as (p1 & ? & ?). exists p1. split; [done|by etrans].
Qed.

Lemma shrunk_kill p : shrunk p (set_alive false (set_status KILLED p)).
Proof. by constructor. Qed.
#[export] Hint Resolve shrunk_kill : velix.

(** A tree with no live process. *)
Definition no_live (R : Registry) (t : string) : Prop :=
  ∀ pid p, process_table R !! pid = Some p → p_tree_id p = t → p_alive p = false.

Lemma no_live_shrinks R R' t : shrinks R R' → no_live R t → no_live R' t.
Proof.
  intros Hs Hn pid p' Hp' Ht. destruct (Hs _ _ Hp') as (p & Hp & [Hpt _ Hal _]).
  destruct (p_alive p') eqn:E; [|done]. rewrite (Hn pid p) in Hal; [by specialize (Hal eq_refl)|done|].
  congruence.
Qed.

Lemma kill_tree_and_processes_shrinks clock reason t grace R :
  registry_wf R → shrinks R (kill_tree_and_processes clock reason t grace R).2.
Proof.
  intros Hwf pid p'. rewrite kill_tree_and_processes_lookup by done.
  case_decide; [|intros; by eexists]. intros (p & Hp & ->)%fmap_Some. eauto with velix.
Qed.

Lemma kill_tree_and_processes_no_live clock reason t grace R :
  registry_wf R → no_live (kill_tree_and_processes clock reason t grace R).2 t.
Proof.
  intros Hwf pid p'. rewrite kill_tree_and_processes_lookup by done.
  case_decide as Hd; [by intros (p & _ & ->)%fmap_Some|].
  intros Hp Ht. destruct (p_alive p') eqn:E; [|done]. destruct Hd.
  apply elem_of_live; eauto.
Qed.

Lemma mark_all_killed_shrinks targets R : shrinks R (mark_all_killed targets R).
Proof.
  intros pid p'. rewrite mark_all_killed_lookup. case_decide; [|intros; by eexists].
  intros (p & Hp & ->)%fmap_Some. eauto with velix.
Qed.

Lemma enforce_limit_shrinks b clock reason t grace R :
  registry_wf R → shrinks R (enforce_limit b clock reason t grace R).2.
Proof. destruct b; [apply kill_tree_and_processes_shrinks|reflexivity]. Qed.

Lemma steps_wf R R' : rtc reg_step R R' → registry_wf R → registry_wf R'.
Proof. apply rtc_invariant, wf_step. Qed.

Lemma enforce_tree_limits_shrinks cfg now_ms clock t created R :
  registry_wf R → shrinks R (enforce_tree_limits cfg now_ms clock t created R).2.
Proof.
  intros Hwf. destruct (decide (t = "TREE_HANDLER")) as [->|Ht]; [done|].
  rewrite enforce_tree_limits_registry by done.
  etrans; [|etrans]; apply enforce_limit_shrinks;
    eauto using steps_wf, enforce_limit_steps.
Qed.

Lemma enforce_limits_shrinks cfg now_ms clock trees R :
  registry_wf R → shrinks R (enforce_limits cfg now_ms clock trees R).2.
Proof.
  revert R. induction trees as [|[t created] trees IH]; intros R Hwf; [reflexivity|]. simpl.
  pose proof (enforce_tree_limits_shrinks cfg now_ms clock t created R Hwf) as H1.
  pose proof (steps_wf _ _ (enforce_tree_limits_steps cfg now_ms clock t created R) Hwf) as H2.
  destruct (enforce_tree_limits _ _ _ _ _ _) as [e1 R1]. simpl in *.
  pose proof (IH R1 H2). destruct (enforce_limits _ _ _ _ _) as [e2 R2]. simpl in *. by etrans.
Qed.

Lemma complete_trees_table ids R : process_table (complete_trees ids R) = process_table R.
Proof.
  unfold complete_trees. revert R. induction ids as [|t ids IH]; intros R; [done|].
  simpl. rewrite IH. unfold mark_tree_completed_if_done.
  destruct (tree_table R !! t); [|done]. repeat case_decide; try done. by case_match.
Qed.

Lemma registry_after_timeouts_shrinks now_ms S :
  shrinks (registry_ S) (registry_after_timeouts now_ms S).
Proof.
  etrans; [|apply mark_all_killed_shrinks]. intros pid' p'. simpl.
  rewrite map_lookup_filter_Some. intros [? _]. by eexists.
Qed.

Lemma watchdog_tick_shrinks now_ms clock steady os S :
  registry_wf (registry_ S) →
  shrinks (registry_after_timeouts now_ms S)
    (registry_ (watchdog_tick now_ms clock steady os S).2).
Proof.
  intros Hwf. rewrite watchdog_tick_registry.
  etrans; [apply enforce_limits_shrinks, (steps_wf _ _ (registry_after_timeouts_steps _ _) Hwf)|].
  intros pid p. rewrite complete_trees_table. intros. by eexists.
Qed.

Lemma elem_of_snapshot R e :
  e ∈ snapshot_for_watchdog R ↔
  ∃ pid p, process_table R !! pid = Some p ∧ p_alive p = true ∧
    e = {| w_pid := pid; w_os_pid := p_os_pid p; w_tree_id := p_tree_id p;
           w_parent_pid := p_parent_pid p; w_trace_id := p_trace_id p;
           w_last_heartbeat_ms := p_last_heartbeat_ms p;
           w_tree_created_at_ms := match tree_table R !! p_tree_id p with
                                   | Some t => t_created_at_ms t | None => 0 end;
           w_memory_mb := p_memory_mb p; w_status := p_status p; w_alive := true |}.
Proof.
  unfold snapshot_for_watchdog. rewrite list_elem_of_fmap. split.
  - intros ([pid p] & -> & [Hal Hin%elem_of_map_to_list]%list_elem_of_filter). eauto 10.
  - intros (pid & p & Hp & Hal & ->). exists (pid, p). split; [done|].
    apply list_elem_of_filter. by rewrite elem_of_map_to_list.
Qed.

Lemma cleanup_live now retention R pid p :
  p_alive p = true →
  process_table (cleanup_historical_processes now retention R) !! pid = Some p ↔
  process_table R !! pid = Some p.
Proof.
  intros Hal. simpl. rewrite map_lookup_filter_Some. unfold is_historical. rewrite Hal.
  naive_solver.
Qed.

(** The targets of a tick: the live processes whose heartbeat reads as expired. *)
Lemma elem_of_timeout_targets S now_ms pid :
  pid ∈ tt_velix_pid <$> timeout_targets S now_ms
          (cleanup_historical_processes now_ms 60000 (registry_ S)) ↔
  ∃ p, process_table (registry_ S) !! pid = Some p ∧ p_alive p = true ∧
       u64 (now_ms - p_last_heartbeat_ms p) >
       u64 (u64 (c_heartbeat_timeout_sec (config_ S)) * 1000).
Proof.
  unfold timeout_targets. rewrite <-list_fmap_compose, list_elem_of_fmap. split.
  - intros (e & -> & [He (pid' & p & Hp & Hal & ->)%elem_of_snapshot]%list_elem_of_filter).
    apply cleanup_live in Hp; [|done]. apply bool_decide_eq_true_1 in He. eauto.
  - intros (p & Hp & Hal & Hexp). eexists. split; [|apply list_elem_of_filter; split;
      [|apply elem_of_snapshot; exists pid, p; split_and!; [|done|done]]]; [done| |].
    + by apply bool_decide_eq_true_2.
    + by apply cleanup_live.
Qed.

(** ** Lemmas: the limits of a tick *)

Lemma kill_tree_and_processes_index clock reason t grace R :
  tree_process_index (kill_tree_and_processes clock reason t grace R).2 =
    tree_process_index R.
Proof.
  unfold kill_tree_and_processes. destruct (kill_tree t R) as [pids R1] eqn:Hk.
  injection Hk as <- <-. case_decide; [done|].
  rewrite kill_processes_registry.
  match goal with |- context [mark_all_killed ?ts ?R0] =>
    by destruct (mark_all_killed_index ts R0) as (-> & _ & _ & _) end.
Qed.

Lemma compute_tree_memory_ext t R R' :
  tree_process_index R' = tree_process_index R →
  (∀ pid, p_memory_mb <$> process_table R' !! pid = p_memory_mb <$> process_table R !! pid) →
  compute_tree_memory_mb t R' = compute_tree_memory_mb t R.
Proof.
  intros Hix Hmem. unfold compute_tree_memory_mb, get_tree_processes. rewrite Hix.
  generalize d_zero. induction (elements (mm_get (tree_process_index R) t)) as [|pid l IH];
    intros total; [done|].
  simpl. pose proof (Hmem pid) as Hp.
  destruct (process_table R' !! pid), (process_table R !! pid); simplify_eq/=;
    [|apply IH]. rewrite Hp. apply IH.
Qed.

Lemma enforce_limit_memory b clock reason t t' grace R :
  registry_wf R →
  compute_tree_memory_mb t' (enforce_limit b clock reason t grace R).2 =
    compute_tree_memory_mb t' R.
Proof.
  intros Hwf. destruct b; [|done]. simpl. apply compute_tree_memory_ext.
  - apply kill_tree_and_processes_index.
  - intros pid. rewrite kill_tree_and_processes_lookup by done.
    case_decide; [|done]. by destruct (process_table R !! pid).
Qed.

Lemma enforce_limit_llm cfg b clock reason t t' grace R :
  llm_exceeded cfg t' (enforce_limit b clock reason t grace R).2 = llm_exceeded cfg t' R.
Proof.
  destruct b; [|done]. unfold llm_exceeded, get_tree_status. simpl.
  rewrite kill_tree_and_processes_trees, lookup_alter. case_decide; [|done]. subst.
  by destruct (tree_table R !! t').
Qed.

(** What condemns a tree at a tick. *)
Definition violates (cfg : SupervisorConfig) (now_ms : Z) (t : string) (created : Z)
    (R : Registry) : bool :=
  runtime_exceeded cfg now_ms created || memory_exceeded cfg t R || llm_exceeded cfg t R.

Lemma violates_enforce_limit cfg now_ms t created b clock reason t' grace R :
  registry_wf R →
  violates cfg now_ms t created (enforce_limit b clock reason t' grace R).2 =
    violates cfg now_ms t created R.
Proof.
  intros Hwf. unfold violates, memory_exceeded.
  by rewrite enforce_limit_memory, enforce_limit_llm.
Qed.

Lemma enforce_limit_wf b clock reason t grace R :
  registry_wf R → registry_wf (enforce_limit b clock reason t grace R).2.
Proof. eauto using steps_wf, enforce_limit_steps. Qed.
#[local] Hint Resolve enforce_limit_wf : velix.

Lemma violates_enforce_tree_limits cfg now_ms clock t created t' created' R :
  registry_wf R →
  violates cfg now_ms t created (enforce_tree_limits cfg now_ms clock t' created' R).2 =
    violates cfg now_ms t created R.
Proof.
  intros Hwf. destruct (decide (t' = "TREE_HANDLER")) as [->|Ht]; [done|].
  rewrite enforce_tree_limits_registry by done.
  by rewrite !violates_enforce_limit by eauto with velix.
Qed.

(** A killed tree: no live process, and its entry, if any, says so. *)
Definition tree_dead (R : Registry) (t : string) : Prop :=
  no_live R t ∧ ∀ ti, tree_table R !! t = Some ti → t_status ti = T_KILLED.

Lemma tree_dead_enforce_limit b clock reason t t' grace R :
  registry_wf R → tree_dead R t → tree_dead (enforce_limit b clock reason t' grace R).2 t.
Proof.
  intros Hwf [Hn Hk]. split; [by eapply no_live_shrinks, Hn; apply enforce_limit_shrinks|].
  destruct b; [|done]. simpl. rewrite kill_tree_and_processes_trees. intros ti.
  rewrite lookup_alter. case_decide; [|apply Hk]. by intros (? & _ & ->)%fmap_Some.
Qed.

Lemma enforce_limit_kills clock reason t grace R :
  registry_wf R → tree_dead (enforce_limit true clock reason t grace R).2 t.
Proof.
  intros Hwf. split; [by apply kill_tree_and_processes_no_live|].
  simpl. rewrite kill_tree_and_processes_trees. intros ti.
  rewrite lookup_alter_eq. by intros (? & _ & ->)%fmap_Some.
Qed.

Lemma enforce_tree_limits_kills cfg now_ms clock t created R :
  registry_wf R → t ≠ "TREE_HANDLER" → violates cfg now_ms t created R = true →
  tree_dead (enforce_tree_limits cfg now_ms clock t created R).2 t.
Proof.
  intros Hwf Ht Hv. rewrite enforce_tree_limits_registry by done.
  set (R1 := (enforce_limit (runtime_exceeded _ _ _) _ _ _ _ _).2).
  set (R2 := (enforce_limit (memory_exceeded _ _ _) _ _ _ _ _).2).
  assert (registry_wf R1) by (subst R1; eauto with velix).
  assert (registry_wf R2) by (subst R2; eauto with velix).
  destruct (llm_exceeded cfg t R2) eqn:Hl; [by apply enforce_limit_kills|].
  apply tree_dead_enforce_limit; [done|]. subst R2.
  destruct (memory_exceeded cfg t R1) eqn:Hm; [by apply enforce_limit_kills|].
  apply tree_dead_enforce_limit; [done|]. subst R1.
  destruct (runtime_exceeded cfg now_ms created) eqn:Hr; [by apply enforce_limit_kills|].
  unfold violates in Hv. rewrite enforce_limit_llm in Hl. rewrite Hr in Hv.
  simpl in *. by rewrite Hm, Hl in Hv.
Qed.

Lemma tree_dead_enforce_tree_limits cfg now_ms clock t t' created R :
  registry_wf R → tree_dead R t →
  tree_dead (enforce_tree_limits cfg now_ms clock t' created R).2 t.
Proof.
  intros Hwf Hd. destruct (decide (t' = "TREE_HANDLER")) as [->|Ht]; [done|].
  rewrite enforce_tree_limits_registry by done.
  repeat apply tree_dead_enforce_limit; eauto with velix.
Qed.

Lemma enforce_limits_kills cfg now_ms clock trees t created R :
  registry_wf R → t ≠ "TREE_HANDLER" →
  tree_dead R t ∨ (violates cfg now_ms t created R = true ∧ (t, created) ∈ trees) →
  tree_dead (enforce_limits cfg now_ms clock trees R).2 t.
Proof.
  revert R. induction trees as [|[t' created'] trees IH]; intros R Hwf Ht Hcase.
  { destruct Hcase as [?|[_ []%elem_of_nil]]; done. }
  simpl. pose proof (steps_wf _ _ (enforce_tree_limits_steps cfg now_ms clock t' created' R) Hwf)
    as Hwf1.
  pose proof (tree_dead_enforce_tree_limits cfg now_ms clock t t' created' R Hwf) as Hkeep.
  pose proof (violates_enforce_tree_limits cfg now_ms clock t created t' created' R Hwf) as Hv1.
  pose proof (enforce_tree_limits_kills cfg now_ms clock t created R Hwf Ht) as Hkill.
  destruct (enforce_tree_limits cfg now_ms clock t' created' R) as [e1 R1] eqn:E. simpl in *.
  pose proof (IH R1 Hwf1 Ht) as HIH. destruct (enforce_limits _ _ _ _ _) as [e2 R2]. simpl in *.
  apply HIH. destruct Hcase as [Hd|[Hv [[= <- <-]|Hin]%elem_of_cons]].
  - left. auto.
  - left. specialize (Hkill Hv). by rewrite E in Hkill.
  - right. split; [congruence|done].
Qed.

Lemma tree_dead_complete ids R t :
  registry_wf R → tree_dead R t → is_Some (tree_table R !! t) → tree_dead (complete_trees ids R) t.
Proof.
  intros Hwf [Hn Hk] [ti Hti]. split.
  - intros pid p. rewrite complete_trees_table. apply Hn.
  - destruct (tree_killed_steps _ _ t Hwf (complete_trees_steps ids R)) as (ti' & Ht' & Hs);
      [by eauto|]. intros ti2. rewrite Ht'. by intros [= <-].
Qed.

Lemma registry_after_timeouts_trees now_ms S :
  tree_table (registry_after_timeouts now_ms S) = tree_table (registry_ S).
Proof.
  unfold registry_after_timeouts. match goal with |- context [mark_all_killed ?ts ?R0] =>
    by destruct (mark_all_killed_index ts R0) as (_ & _ & -> & _) end.
Qed.

Lemma all_tree_ids_elem R t ti :
  tree_table R !! t = Some ti →
  (t, t_created_at_ms ti) ∈ get_all_tree_ids_with_created_at R.
Proof.
  intros Hti. unfold get_all_tree_ids_with_created_at. apply list_elem_of_fmap.
  exists (t, ti). split; [done|by apply elem_of_map_to_list].
Qed.

Lemma tree_present_steps R R' t :
  registry_wf R → is_Some (tree_table R !! t) → rtc reg_step R R' →
  is_Some (tree_table R' !! t).
Proof.
  intros Hwf Ht Hs.
  apply (rtc_invariant reg_step (λ R, registry_wf R ∧ is_Some (tree_table R !! t)) R R');
    [|done|done].
  intros x y [Hx [tx Htx]] Hxy. split; [by eapply wf_step|].
  destruct (tree_forward _ _ _ _ Hx Hxy Htx) as (? & ? & _). eauto.
Qed.

(** Every tree that violates a limit when the limits are checked is dead after the tick. *)
Lemma tick_kills_violators S now_ms clock steady os t ti :
  registry_wf (registry_ S) → t ≠ "TREE_HANDLER" → tree_table (registry_ S) !! t = Some ti →
  violates (config_ S) now_ms t (t_created_at_ms ti) (registry_after_timeouts now_ms S)
    = true →
  tree_dead (registry_ (watchdog_tick now_ms clock steady os S).2) t.
Proof.
  intros Hwf Ht Hti Hv. rewrite watchdog_tick_registry.
  pose proof (steps_wf _ _ (registry_after_timeouts_steps now_ms S) Hwf) as Hwf'.
  assert (tree_table (registry_after_timeouts now_ms S) !! t = Some ti) as Hti'
    by by rewrite registry_after_timeouts_trees.
  apply tree_dead_complete.
  - eauto using steps_wf, enforce_limits_steps.
  - eapply enforce_limits_kills; eauto using all_tree_ids_elem.
  - eapply tree_present_steps; [exact Hwf'|by eauto|apply enforce_limits_steps].
Qed.

(** ** Properties *)

(** Refinement: whatever requests the supervisor serves and whatever ticks its
    watchdog makes, its registry only moves by the registry's own transitions from the
    state the constructor builds, so that every registry invariant holds in it. *)
Lemma supervisor_refines_registry S S' :
  sup_reachable S → sup_step S S' →
  rtc reg_step (registry_ S) (registry_ S') ∧ reg_reachable (registry_ S') ∧
  registry_wf (registry_ S').
Proof.
  intros Hr Hs. pose proof (sup_step_registry _ _ Hs) as Hsteps. split; [done|].
  pose proof (reg_reachable_steps _ _ (sup_registry_reachable _ Hr) Hsteps) as Hr'.
  split; [done|by apply wf_reachable].
Qed.

(** C38 A tick enforces every limit: a tree other than the handler's whose runtime, memory
    or LLM count exceeds its limit when the limits are checked has no live process
    after the tick, and its status is [KILLED]. *)
Theorem watchdog_enforces_limits S now_ms clock steady os t ti :
  sup_reachable S → t ≠ "TREE_HANDLER" →
  tree_table (registry_ S) !! t = Some ti →
  violates (config_ S) now_ms t (t_created_at_ms ti) (registry_after_timeouts now_ms S)
    = true →
  tree_dead (registry_ (watchdog_tick now_ms clock steady os S).2) t.
Proof. intros Hr%sup_registry_reachable%wf_reachable. by apply tick_kills_violators. Qed.

(** A tick never revives or adds a process, and kills for its heartbeat exactly the
    live processes whose last heartbeat is more than the timeout old, as long as no
    heartbeat carries a later time than the tick and the timeout is not negative. *)
Lemma watchdog_timeout_exact S now_ms clock steady os pid p :
  sup_reachable S → process_table (registry_ S) !! pid = Some p → p_alive p = true →
  0 ≤ p_last_heartbeat_ms p ≤ now_ms → now_ms < 2 ^ 64 →
  0 ≤ c_heartbeat_timeout_sec (config_ S) ≤ INT_MAX →
  (is_alive (registry_after_timeouts now_ms S) pid = false ↔
   now_ms - p_last_heartbeat_ms p > c_heartbeat_timeout_sec (config_ S) * 1000) ∧
  (now_ms - p_last_heartbeat_ms p > c_heartbeat_timeout_sec (config_ S) * 1000 →
   is_alive (registry_ (watchdog_tick now_ms clock steady os S).2) pid = false) ∧
  shrinks (registry_ S) (registry_ (watchdog_tick now_ms clock steady os S).2).
Proof.
  intros Hr%sup_registry_reachable%wf_reachable Hp Hal Hhb Hnow Hto. unfold INT_MAX in Hto.
  pose proof (elem_of_timeout_targets S now_ms pid) as Htg.
  assert (pid ∈ tt_velix_pid <$> timeout_targets S now_ms
            (cleanup_historical_processes now_ms 60000 (registry_ S)) ↔
          now_ms - p_last_heartbeat_ms p > c_heartbeat_timeout_sec (config_ S) * 1000) as Hexp.
  { rewrite Htg. rewrite (u64_id (c_heartbeat_timeout_sec _)) by lia.
    rewrite (u64_id (_ * _)) by lia. split.
    - intros (p' & Hp' & _ & Hgt). simplify_eq. rewrite u64_sub_id in Hgt by lia. lia.
    - intros Hgt. exists p. split_and!; [done|done|]. rewrite u64_sub_id by lia. lia. }
  assert (is_alive (registry_after_timeouts now_ms S) pid = false ↔
          now_ms - p_last_heartbeat_ms p > c_heartbeat_timeout_sec (config_ S) * 1000) as Ha.
  { rewrite <-Hexp. unfold is_alive, get_process, registry_after_timeouts.
    rewrite mark_all_killed_lookup, (proj2 (cleanup_live now_ms 60000 _ _ _ Hal) Hp).
    case_decide; simpl; [done|]. by rewrite Hal. }
  pose proof (registry_after_timeouts_shrinks now_ms S) as Hs1.
  pose proof (watchdog_tick_shrinks now_ms clock steady os S Hr) as Hs2.
  split_and!; [done| |by etrans].
  intros Hgt%Ha. unfold is_alive, get_process in *.
  destruct (process_table (registry_ (watchdog_tick _ _ _ _ _).2) !! pid) as [p'|] eqn:Hp';
    [|done]. destruct (Hs2 _ _ Hp') as (p1 & Hp1 & [_ _ Hal1 _]). rewrite Hp1 in Hgt.
  destruct (p_alive p'); [|done]. by rewrite Hal1 in Hgt.
Qed.

(** A heartbeat recorded after the tick read its clock but before its snapshot is
    taken for an ancient one: the unsigned difference wraps, and the tick kills the
    process that has just reported. *)
Lemma watchdog_kills_fresh_heartbeat S now_ms clock steady os pid p :
  sup_reachable S → process_table (registry_ S) !! pid = Some p → p_alive p = true →
  0 ≤ now_ms < p_last_heartbeat_ms p → p_last_heartbeat_ms p < 2 ^ 63 →
  0 ≤ c_heartbeat_timeout_sec (config_ S) ≤ INT_MAX →
  is_alive (registry_ (watchdog_tick now_ms clock steady os S).2) pid = false.
Proof.
  intros Hr%sup_registry_reachable%wf_reachable Hp Hal Hnow Hhb Hto. unfold INT_MAX in Hto.
  assert (pid ∈ tt_velix_pid <$> timeout_targets S now_ms
            (cleanup_historical_processes now_ms 60000 (registry_ S))) as Hin.
  { apply elem_of_timeout_targets. exists p. split_and!; [done|done|].
    rewrite (u64_id (c_heartbeat_timeout_sec _)), (u64_id (_ * _)) by lia.
    rewrite u64_sub_underflow by lia. lia. }
  unfold is_alive, get_process.
  destruct (process_table (registry_ (watchdog_tick _ _ _ _ _).2) !! pid) as [p'|] eqn:Hp';
    [|done].
  destruct (watchdog_tick_shrinks now_ms clock steady os S Hr _ _ Hp') as (p1 & Hp1 & [_ _ Hal1 _]).
  unfold registry_after_timeouts in Hp1.
  rewrite mark_all_killed_lookup, decide_True, (proj2 (cleanup_live now_ms 60000 _ _ _ Hal) Hp)
    in Hp1 by done.
  simplify_eq/=. destruct (p_alive p'); [|done]. by specialize (Hal1 eq_refl).
Qed.

(** A tree that completed normally is re-labelled [KILLED] by a later tick, once its
    age passes the runtime limit: age is counted from creation, and the limit is
    checked without looking at the tree's status. *)
Lemma completed_tree_relabelled_killed S now_ms clock steady os t ti :
  sup_reachable S → t ≠ "TREE_HANDLER" →
  tree_table (registry_ S) !! t = Some ti → t_status ti = T_COMPLETED →
  0 ≤ t_created_at_ms ti ≤ now_ms → now_ms < 2 ^ 64 →
  0 ≤ c_max_tree_runtime_sec (config_ S) ≤ INT_MAX →
  (now_ms - t_created_at_ms ti) / 1000 > c_max_tree_runtime_sec (config_ S) →
  ∃ ti', tree_table (registry_ (watchdog_tick now_ms clock steady os S).2) !! t = Some ti' ∧
         t_status ti' = T_KILLED.
Proof.
  intros Hr%sup_registry_reachable%wf_reachable Ht Hti _ Hc Hnow Hmax Hage.
  unfold INT_MAX in Hmax.
  assert (is_Some (tree_table (registry_ (watchdog_tick now_ms clock steady os S).2) !! t))
    as [ti' Hti'].
  { eapply tree_present_steps; [exact Hr|by eauto|]. etrans;
      [apply registry_after_timeouts_steps|apply watchdog_tick_steps]. }
  exists ti'. split; [done|].
  assert (tree_dead (registry_ (watchdog_tick now_ms clock steady os S).2) t) as [_ Hd];
    [|by apply Hd].
  apply (tick_kills_violators _ _ _ _ _ _ ti); [done..|].
  unfold violates, runtime_exceeded, tree_runtime_sec.
  rewrite u64_sub_id, u64_id by lia. by rewrite bool_decide_eq_true_2.
Qed.
