(* ===== verification/Requests.v ===== *)
(** * What the supervisor promises for each request

    The theorems on [handle_message] and [handle_client] of [Supervisor]: totality,
    the errors that change nothing, authentication, and the effect of each request
    on the registry.  The definitions here are the vocabulary of those statements. *)

From S2P Require Import Prelude Json ProcessRegistry Termination Supervisor.

(** ** Vocabulary *)

(** The same processes and trees: only the pid counter may differ. *)
Definition same_tables (R R' : Registry) : Prop :=
  process_table R' = process_table R ∧ tree_table R' = tree_table R ∧
  tree_process_index R' = tree_process_index R ∧
  process_children R' = process_children R.

Definition is_ok (r : json) : Prop := response_status r = Some (JString "ok").

(** A request of the given type, as the dispatcher reads it. *)
Definition has_type (message : json) (ty : string) : Prop :=
  find message "message_type" = Some (JString ty).

(** A registration whose payload claims the handler's role. *)
Definition asks_for_handler (message : json) : Prop :=
  ∃ payload, value_json message "payload" (JObject []) = Ok payload ∧
    value_string payload "role" "unknown" = Ok "handler".

(** Where the supervisor places a process it registers: the handler alone in its tree and
    with the OS pid that was spawned, a new root in a fresh tree, or a child in the tree of
    a registered parent that has not ended. *)
Inductive placed (S : Supervisor) (p : ProcessInfo) : Prop :=
  | placed_handler :
      p_role p = "handler" → p_tree_id p = "TREE_HANDLER" → p_parent_pid p = -1 →
      get_tree_processes "TREE_HANDLER" (registry_ S) = [] →
      (handler_os_pid_ S > 0 → p_os_pid p = handler_os_pid_ S) → placed S p
  | placed_new_tree :
      p_role p ≠ "handler" → tree_table (registry_ S) !! p_tree_id p = None → placed S p
  | placed_join parent ti :
      p_role p ≠ "handler" → 0 < p_parent_pid p →
      process_table (registry_ S) !! p_parent_pid p = Some parent →
      is_terminal_status (p_status parent) = false → p_tree_id parent = p_tree_id p →
      tree_table (registry_ S) !! p_tree_id p = Some ti → t_status ti = T_ACTIVE →
      placed S p.

(** A registration that succeeded: the process that was added, and nothing else. *)
Record registration (S S' : Supervisor) (r : json) (p : ProcessInfo) : Prop := {
  rg_reply : find r "process" = Some (build_process_json p);
  rg_fresh : process_table (registry_ S) !! p_pid p = None;
  rg_table : process_table (registry_ S') = <[p_pid p := p]> (process_table (registry_ S));
  rg_index : p_pid p ∈ get_tree_processes (p_tree_id p) (registry_ S');
  rg_live : p_alive p = true ∧ p_termination_time_ms p = 0;
  rg_os_pid : 0 < p_os_pid p;
  rg_placed : placed S p;
}.

(** ** Lemmas *)

Lemma same_tables_refl R : same_tables R R.
Proof. by split_and!. Qed.
#[export] Hint Resolve same_tables_refl : velix.

Lemma is_ok_ok kvs : is_ok (JObject (("status", JString "ok") :: kvs)).
Proof. done. Qed.

Lemma not_ok_error text extra : ¬ is_ok (error_with text extra).
Proof. done. Qed.
#[export] Hint Resolve is_ok_ok not_ok_error : velix.

Lemma parse_to_string st : parse_process_status (process_status_to_string st) = st.
Proof. by destruct st. Qed.

Lemma valid_status_image s :
  is_valid_process_status_text s = true ↔ ∃ st, process_status_to_string st = s.
Proof.
  unfold is_valid_process_status_text. rewrite bool_decide_eq_true. split.
  - intros [->|[->|[->|[->|[->|[->| ->]]]]]];
      [by exists STARTING|by exists RUNNING|by exists WAITING_LLM|by exists WAITING_EXEC
      |by exists FINISHED|by exists ERROR|by exists KILLED].
  - intros [st <-]. destruct st; naive_solver.
Qed.

(** A registration that fails has stored nothing. *)
Lemma register_failure now os_pid t parent role trace st mem h R res R' :
  register_process now os_pid t parent role trace st mem h R = (res, R') →
  r_process res = None → same_tables R R'.
Proof.
  unfold register_process. intros H Hr. case_decide; [by simplify_eq|].
  destruct (choose_tree _ _ _ _) as [[[tid root] R1]|[err tid]] eqn:Hc; by simplify_eq/=.
Qed.

(** A registration that succeeds, with every store it makes. *)
Lemma register_success now os_pid t parent role trace st mem h R res R' p :
  register_process now os_pid t parent role trace st mem h R = (res, R') →
  r_process res = Some p →
  p = new_process (process_counter R) os_pid parent (r_tree_id res) role trace st mem now ∧
  process_table R' = <[p_pid p := p]> (process_table R) ∧
  p_pid p ∈ get_tree_processes (r_tree_id res) R' ∧
  (h = true → r_tree_id res = "TREE_HANDLER") ∧
  (h = false → t = "" → r_tree_id res = "TREE_" +:+ pretty (tree_counter R)) ∧
  (h = false → t ≠ "" → r_tree_id res = t ∧
     ∃ ti, tree_table R !! t = Some ti ∧ t_status ti = T_ACTIVE).
Proof.
  unfold register_process. intros H Hr. case_decide; [by simplify_eq|].
  destruct (choose_tree _ _ _ _) as [[[tid root] R1]|[err tid]] eqn:Hc; [|by simplify_eq].
  simplify_eq/=. apply choose_tree_spec in Hc as (Ht & _ & _ & _ & _ & Hcase).
  simpl in Ht. unfold get_tree_processes. split_and!; [done| |..].
  - destruct root; simpl; by rewrite Ht.
  - rewrite elem_of_elements. destruct root; simpl; autorewrite with velix_mm; auto.
  - intros ->. destruct Hcase as [(_ & -> & _)|[(? & _)|(? & _)]]; done.
  - intros -> ->. destruct Hcase as [(? & _)|[(_ & _ & Hl)|(_ & ? & _)]]; try done.
    by injection Hl.
  - intros -> Hne. destruct Hcase as [(? & _)|[(_ & ? & _)|(_ & _ & -> & _ & ti & ? & ?)]];
      [done|done|eauto].
Qed.

(** *** A reply that is not [ok] goes with unchanged tables *)

Lemma register_pid_error now m S r S' :
  handle_register_pid now m S = Ok (r, S') → ¬ is_ok r →
  same_tables (registry_ S) (registry_ S').
Proof.
  intros H Hok. unfold handle_register_pid in H.
  exc_run H; try apply same_tables_refl; simpl.
  - by destruct Hok.
  - by eapply register_failure.
Qed.

Lemma heartbeat_error now clock m S r S' :
  handle_heartbeat now clock m S = Ok (r, S') → ¬ is_ok r → S' = S.
Proof.
  intros H Hok. unfold handle_heartbeat in H. exc_run H; try done; by destruct Hok.
Qed.

Lemma llm_request_error m S r S' :
  handle_llm_request m S = Ok (r, S') → ¬ is_ok r → S' = S.
Proof.
  intros H Hok. unfold handle_llm_request in H. exc_run H; try done; by destruct Hok.
Qed.

Lemma tree_kill_error clock m S r S' eff :
  handle_tree_kill clock m S = Ok (r, S', eff) → ¬ is_ok r → S' = S ∧ eff = [].
Proof.
  intros H Hok. unfold handle_tree_kill in H. exc_run H; try done; by destruct Hok.
Qed.

Lemma handle_message_error now clock m S r S' eff :
  handle_message now clock m S = Ok (r, S', eff) → ¬ is_ok r →
  same_tables (registry_ S) (registry_ S') ∧ eff = [].
Proof.
  intros H Hok. unfold handle_message in H. exc_run H; auto with velix;
    repeat match goal with p : json * Supervisor |- _ => destruct p end; simplify_eq/=.
  - eauto using register_pid_error.
  - match goal with H : handle_heartbeat _ _ _ _ = _ |- _ =>
      apply heartbeat_error in H as ->; [auto with velix|done] end.
  - match goal with H : handle_llm_request _ _ = _ |- _ =>
      apply llm_request_error in H as ->; [auto with velix|done] end.
  - match goal with H : handle_tree_status _ _ = _ |- _ =>
      apply handle_tree_status_state in H as ->; auto with velix end.
  - match goal with H : handle_tree_kill _ _ _ = _ |- _ =>
      apply tree_kill_error in H as [-> ->]; [auto with velix|done] end.
Qed.

(** *** What a request of each type runs *)

Definition typed_handler (now clock : Z) (ty : string) (m : json) (S : Supervisor) :
    exc (json * Supervisor * list effect) :=
  if decide (ty = "REGISTER_PID") then
    (λ rs, (fst rs, snd rs, [])) <$> handle_register_pid now m S
  else if decide (ty = "HEARTBEAT") then
    (λ rs, (fst rs, snd rs, [])) <$> handle_heartbeat now clock m S
  else if decide (ty = "LLM_REQUEST") then
    (λ rs, (fst rs, snd rs, [])) <$> handle_llm_request m S
  else if decide (ty = "TREE_STATUS") then
    (λ rs, (fst rs, snd rs, [])) <$> handle_tree_status m S
  else handle_tree_kill clock m S.

(** An [ok] reply comes from the handler of the message's type, past both checks. *)
Lemma handle_message_ok_inv now clock m S r S' eff :
  handle_message now clock m S = Ok (r, S', eff) → is_ok r →
  ∃ ty, has_type m ty ∧ ty ∈ allowed_types ∧
    validate_message_shape m = Ok (true, "") ∧ validate_auth S m = Ok (true, "") ∧
    typed_handler now clock ty m S = Ok (r, S', eff).
Proof.
  intros H Hok. unfold handle_message in H.
  exc_step H. destruct a as [shape err]. exc_step H; [by exc_run H|].
  exc_step H. destruct a as [auth err']. exc_step H; [by exc_run H|].
  destruct shape, auth; try done. simpl in *.
  assert (∃ ty, has_type m ty ∧ ty ∈ allowed_types ∧ err = "") as (ty & Hty & Hin & ->).
  { unfold validate_message_shape in E. exc_run E; try done.
    all: match goal with H : find _ "message_type" = Some (JString ?t) |- _ => exists t end.
    all: split_and!; [done|by apply dec_stable|done]. }
  assert (err' = "") as -> by (unfold validate_auth in E0; by exc_run E0).
  exists ty. split_and!; try done.
  unfold value_string, value in H. destruct m as [| | | | | |kvs]; try done.
  unfold has_type in Hty. simpl in Hty. rewrite Hty in H. simpl in H.
  unfold typed_handler. repeat case_decide; try done. exfalso.
  unfold mret, exc_ret in H. by simplify_eq.
Qed.

Lemma handle_message_type now clock m S r S' eff ty :
  handle_message now clock m S = Ok (r, S', eff) → is_ok r → has_type m ty →
  typed_handler now clock ty m S = Ok (r, S', eff).
Proof.
  intros H Hok Hty. destruct (handle_message_ok_inv _ _ _ _ _ _ _ H Hok)
    as (ty' & Hty' & _ & _ & _ & ?). unfold has_type in *. by simplify_eq.
Qed.

(** *** Effects of the handlers *)

Lemma kill_tree_and_processes_targets clock reason t grace R os_pid sig :
  registry_wf R →
  Kill os_pid sig ∈ (kill_tree_and_processes clock reason t grace R).1 →
  ∃ pid p, process_table R !! pid = Some p ∧ p_tree_id p = t ∧ p_alive p = true ∧
           p_os_pid p = os_pid.
Proof.
  intros Hwf. unfold kill_tree_and_processes.
  pose proof (kill_tree_lookup t R) as Hl.
  destruct (kill_tree t R) as [pids R1] eqn:Hk.
  assert (pids = live_tree_pids t R) as -> by (by injection Hk).
  case_decide; [by intros ?%not_elem_of_nil|]. intros (_ & _ & Hin)%kill_processes_kills.
  apply list_elem_of_fmap in Hin as (tt & -> & (pid & Hpid & Htt)%list_elem_of_omap).
  pose proof (proj1 (elem_of_live _ _ _ Hwf) Hpid) as (p & Hp & Ht & Hal).
  exists pid, p. split_and!; [done..|].
  unfold target_of_pid, get_process in Htt. simpl in Hl.
  rewrite Hl, decide_True, Hp in Htt by done. simpl in Htt. rewrite Hal in Htt.
  by simplify_eq.
Qed.

(** *** One handler at a time *)

(** The processes of role ["handler"] that are still indexed are at most one, and it is
    in the handler's tree. *)
Record one_handler (R : Registry) : Prop := {
  oh_unique pid pid' p p' :
    process_table R !! pid = Some p → process_table R !! pid' = Some p' →
    p_role p = "handler" → p_role p' = "handler" →
    p_termination_time_ms p = 0 → p_termination_time_ms p' = 0 → pid = pid';
  oh_tree pid p :
    process_table R !! pid = Some p → p_role p = "handler" → p_tree_id p = "TREE_HANDLER";
}.

Lemma one_handler_shrinks R R' : shrinks R R' → one_handler R → one_handler R'.
Proof.
  intros Hs [Hu Ht]. split.
  - intros pid pid' p p' (q & Hq & [_ Hr _ Hz])%Hs (q' & Hq' & [_ Hr' _ Hz'])%Hs ????.
    eapply Hu; eauto; congruence.
  - intros pid p (q & Hq & [Htr Hr _ _])%Hs ?. rewrite Htr. eapply Ht; [done|congruence].
Qed.

Lemma heartbeat_shrinks pid st mem now R : shrinks R (update_heartbeat pid st mem now R).
Proof.
  unfold update_heartbeat. repeat case_match; try reflexivity.
  intros pid' p'. simpl. rewrite lookup_alter. case_decide; subst; [|intros; by eexists].
  intros (q & Hq & ->)%fmap_Some. exists q. split; [done|]. by constructor.
Qed.

Lemma terminate_shrinks clock pid R : 0 < clock → shrinks R (terminate_process clock pid R).
Proof.
  intros Hc. destruct (process_table R !! pid) as [p|] eqn:Hp.
  2: { unfold terminate_process. by rewrite Hp. }
  destruct (p_alive p) eqn:Hal.
  2: { unfold terminate_process. by rewrite Hp, Hal. }
  rewrite (terminate_process_alive _ _ _ _ Hp Hal). intros pid' p'. simpl.
  rewrite lookup_insert. case_decide; subst; [|intros; by eexists].
  intros [= <-]. exists p. split; [done|]. constructor; simpl; try done. lia.
Qed.

Lemma tree_name_nonempty R t : registry_wf R → is_Some (tree_table R !! t) → t ≠ "".
Proof. intros Hwf [ti Ht] ->. by destruct (wf_tree _ Hwf _ _ Ht) as (_ & [?|(k & _ & ?)]). Qed.

(** The placement decided by [resolve_registration] is the one that is stored. *)
Lemma resolve_placed ri role src os_pid S t parent root hd now st trace mem res R' p :
  registry_wf (registry_ S) →
  resolve_registration ri role src os_pid S = inl (t, parent, root, hd) →
  register_process now os_pid t parent role trace st mem (bool_decide (role = "handler"))
    (registry_ S) = (res, R') →
  r_process res = Some p → placed S p.
Proof.
  intros Hwf Hres Hreg Hp.
  destruct (register_success _ _ _ _ _ _ _ _ _ _ _ _ _ Hreg Hp)
    as (-> & _ & _ & Hh & Hnew & Hjoin).
  unfold resolve_registration in Hres.
  destruct (decide (role = "handler")) as [->|Hr].
  - destruct (bool_decide (get_tree_processes _ _ = [])) eqn:He; simpl in Hres; [|done].
    apply bool_decide_eq_true in He. case_decide as Hos; [done|]. simplify_eq.
    apply placed_handler; try done; [by apply Hh|]. simpl. intros Hgt.
    destruct (decide (os_pid = handler_os_pid_ S)); [done|]. by destruct Hos.
  - rewrite (bool_decide_eq_false_2 _ Hr) in Hres. simpl in Hres.
    rewrite (bool_decide_eq_false_2 _ Hr) in Hnew, Hjoin.
    case_decide as Hri; [simplify_eq|].
    { apply placed_new_tree; [done|]. simpl. rewrite Hnew by done. by apply wf_fresh_tree_id. }
    case_decide as Hsrc; [done|]. destruct (get_process src (registry_ S)) as [q|] eqn:Hq; [|done].
    destruct (is_terminal_status (p_status q)) eqn:Hterm; [done|]. simplify_eq.
    pose proof (wf_process_tree _ Hwf _ _ Hq) as Htree.
    destruct (Hjoin eq_refl (tree_name_nonempty _ _ Hwf Htree)) as (Heq & ti & Hti & Hact).
    apply (placed_join _ _ q ti); simpl; try done; [lia|congruence..].
Qed.

Lemma resolve_error ri role src os_pid S r :
  resolve_registration ri role src os_pid S = inr r → response_status r = Some (JString "error").
Proof. unfold resolve_registration. intros H. repeat case_match; by simplify_eq/=. Qed.

(** Every reply of [handle_register_pid]: an error that stores nothing, or a registration. *)
Lemma register_pid_cases now m S r S' :
  registry_wf (registry_ S) → handle_register_pid now m S = Ok (r, S') →
  (¬ is_ok r ∧ same_tables (registry_ S) (registry_ S')) ∨
  (is_ok r ∧ ∃ p, registration S S' r p ∧
     handler_velix_pid_ S' =
       (if decide (p_role p = "handler") then p_pid p else handler_velix_pid_ S)).
Proof.
  intros Hwf H. unfold handle_register_pid in H.
  exc_run H; try (by left); simpl.
  - right. match goal with Hr : register_process _ _ _ _ _ _ _ _ _ _ = _,
      Hp : r_process _ = Some ?p, Hres : resolve_registration _ _ _ _ _ = _ |- _ =>
      pose proof (resolve_placed _ _ _ _ _ _ _ _ _ _ _ _ _ _ _ _ Hwf Hres Hr Hp) as Hpl;
      destruct (register_success _ _ _ _ _ _ _ _ _ _ _ _ _ Hr Hp)
        as (-> & Htb & Hix & _); split; [done|]; eexists; split; [split; try exact Hpl|] end.
    all: try case_decide; simpl; try done; try by apply wf_fresh_pid.
    1, 2: lia. all: by case_decide.
  - left. split; [done|by eapply register_failure].
  - left. split; [|done]. unfold is_ok. by erewrite resolve_error.
Qed.

Lemma heartbeat_handler_shrinks now clock m S r S' :
  0 < clock → handle_heartbeat now clock m S = Ok (r, S') →
  shrinks (registry_ S) (registry_ S').
Proof.
  intros Hc H. unfold handle_heartbeat in H. exc_run H; try reflexivity. simpl.
  case_match; [|apply heartbeat_shrinks].
  etrans; [apply heartbeat_shrinks|by apply terminate_shrinks].
Qed.

Lemma llm_request_shrinks m S r S' :
  handle_llm_request m S = Ok (r, S') → shrinks (registry_ S) (registry_ S').
Proof.
  intros H. unfold handle_llm_request in H. exc_run H; try reflexivity.
  intros ? ?. simpl. by eexists.
Qed.

Lemma tree_kill_shrinks clock m S r S' eff :
  registry_wf (registry_ S) → handle_tree_kill clock m S = Ok (r, S', eff) →
  shrinks (registry_ S) (registry_ S').
Proof.
  intros Hwf H. unfold handle_tree_kill in H. exc_run H; try reflexivity. simpl.
  match goal with H : kill_tree_and_processes ?c ?re ?t ?g ?R = _ |- _ =>
    pose proof (kill_tree_and_processes_shrinks c re t g R Hwf) as Hs; by rewrite H in Hs end.
Qed.

Lemma register_pid_one_handler now m S r S' :
  registry_wf (registry_ S) → one_handler (registry_ S) →
  handle_register_pid now m S = Ok (r, S') → one_handler (registry_ S').
Proof.
  intros Hwf Hoh H.
  destruct (register_pid_cases _ _ _ _ _ Hwf H) as [(_ & Ht & _)|(_ & p & [] & _)].
  { eapply one_handler_shrinks, Hoh. intros pid q. rewrite Ht. by eexists. }
  assert (∀ pid q, process_table (registry_ S) !! pid = Some q → p_role q = "handler" →
    p_termination_time_ms q = 0 → p_role p ≠ "handler") as Hexcl.
  { intros pid q Hq Hr Hz Hp. destruct rg_placed0 as [_ _ _ Hempty _|?|??????]; try done.
    apply (not_elem_of_nil pid). rewrite <-Hempty. apply elem_of_elements, (wf_index _ Hwf).
    exists q. split_and!; try done. by eapply oh_tree. }
  split.
  - intros pid1 pid2 p1 p2. rewrite rg_table0, !lookup_insert.
    repeat case_decide; intros; simplify_eq; [done|naive_solver..|].
    by eapply oh_unique.
  - intros pid q. rewrite rg_table0, lookup_insert. case_decide; intros; simplify_eq.
    + by destruct rg_placed0.
    + by eapply oh_tree.
Qed.

Lemma one_handler_step S S' :
  registry_wf (registry_ S) → sup_step S S' → one_handler (registry_ S) →
  one_handler (registry_ S').
Proof.
  intros Hwf Hs. revert Hwf.
  destruct Hs as [S0 now clock send send_error request reply S1 eff Hclock Hc H
    |S0 now_ms clock steady os|S0 clock]; intros Hwf Hoh.
  - apply handle_client_inv in H as [(m & r & _ & E)|[-> _]]; [|done].
    unfold handle_message in E. exc_run E; try done;
      repeat match goal with p : json * Supervisor |- _ => destruct p end; simplify_eq/=.
    + by eapply register_pid_one_handler.
    + match goal with H : handle_heartbeat _ _ _ _ = _ |- _ =>
        apply heartbeat_handler_shrinks in H; [by eapply one_handler_shrinks|done..] end.
    + match goal with H : handle_llm_request _ _ = _ |- _ =>
        apply llm_request_shrinks in H; [by eapply one_handler_shrinks|done..] end.
    + match goal with H : handle_tree_status _ _ = _ |- _ =>
        by apply handle_tree_status_state in H as -> end.
    + match goal with H : handle_tree_kill _ _ _ = _ |- _ =>
        apply tree_kill_shrinks in H; [by eapply one_handler_shrinks|done..] end.
  - eapply one_handler_shrinks, Hoh. etrans; [|by apply watchdog_tick_shrinks].
    apply registry_after_timeouts_shrinks.
  - eapply one_handler_shrinks, Hoh. unfold stop_kill_all.
    destruct (kill_processes _ _ _ _ _) as [e R] eqn:Hk. simpl.
    assert (R = (kill_processes clock (target_of_entry <$> snapshot_for_watchdog
      (registry_ S0)) "supervisor_shutdown" (c_terminate_grace_ms (config_ S0))
      (registry_ S0)).2) as -> by (by rewrite Hk).
    rewrite kill_processes_registry. apply mark_all_killed_shrinks.
Qed.

Lemma one_handler_boot now : one_handler (registry_boot now).
Proof.
  assert (∀ pid, process_table (registry_boot now) !! pid = None) as Hn by done.
  split; intros *; rewrite Hn; intros; by simplify_eq.
Qed.

Lemma one_handler_reachable S : sup_reachable S → one_handler (registry_ S).
Proof.
  intros (now & cfg & Hs).
  assert (registry_wf (registry_ S) ∧ one_handler (registry_ S)) as [_ ?]; [|done].
  apply (rtc_invariant sup_step (λ S, registry_wf (registry_ S) ∧ one_handler (registry_ S))
    (Supervisor_init now cfg)); [|done|split; [apply wf_boot|apply one_handler_boot]].
  intros x y [Hwf Hoh] Hxy. split; [|by eapply one_handler_step].
  by eapply steps_wf, Hwf; apply sup_step_registry.
Qed.

Lemma resolve_handler_refused ri src os_pid S :
  get_tree_processes "TREE_HANDLER" (registry_ S) ≠ [] →
  resolve_registration ri "handler" src os_pid S =
    inr (error_with "handler_role_reserved_for_bootstrap" []).
Proof.
  intros Hne. unfold resolve_registration. by rewrite (bool_decide_eq_false_2 (_ = [])).
Qed.

(** While the handler's tree is not empty no handler registers. *)
Lemma register_handler_refused now m S r S' payload :
  handle_register_pid now m S = Ok (r, S') →
  value_json m "payload" (JObject []) = Ok payload →
  value_string payload "role" "unknown" = Ok "handler" →
  get_tree_processes "TREE_HANDLER" (registry_ S) ≠ [] →
  response_status r = Some (JString "error") ∧ S' = S.
Proof.
  intros H Hp Hrole Hne. unfold handle_register_pid in H.
  rewrite Hp in H. simpl in H. exc_step H. rewrite Hrole in H. simpl in H.
  exc_run H; try done;
    rewrite resolve_handler_refused in * by done; by simplify_eq.
Qed.

(** *** Replies are [ok] or errors *)

Lemma reply_status now clock m S r S' eff :
  handle_message now clock m S = Ok (r, S', eff) →
  is_ok r ∨ response_status r = Some (JString "error").
Proof.
  intros H. unfold handle_message in H. exc_run H; try by right.
  - match goal with H : handle_register_pid _ _ _ = _ |- _ =>
      unfold handle_register_pid in H; exc_run H; try (by left); try (by right) end.
    right. by eapply resolve_error.
  - match goal with H : handle_heartbeat _ _ _ _ = _ |- _ =>
      unfold handle_heartbeat in H; exc_run H; try (by left); try (by right) end.
  - match goal with H : handle_llm_request _ _ = _ |- _ =>
      unfold handle_llm_request in H; exc_run H; try (by left); try (by right) end.
  - match goal with H : handle_tree_status _ _ = _ |- _ =>
      unfold handle_tree_status in H; exc_run H; try (by left); try (by right) end.
  - match goal with H : handle_tree_kill _ _ _ = _ |- _ =>
      unfold handle_tree_kill in H; exc_run H; try (by left); try (by right) end.
Qed.

(** What a kill of a tree does to the registry, in the words of its table. *)
Lemma kill_tree_dead clock reason t grace R :
  registry_wf R → tree_dead (kill_tree_and_processes clock reason t grace R).2 t.
Proof. apply (enforce_limit_kills clock reason t grace R). Qed.

(** The stores of a heartbeat, with the termination it may cause. *)
Definition heartbeat_stores (clock now pid : Z) (st : ProcessStatus) (mem : double)
    (p : ProcessInfo) (R : Registry) : Registry :=
  let R1 := update_heartbeat pid st mem now R in
  if negb (is_terminal_status (p_status p)) && is_terminal_status st
  then terminate_process clock pid R1 else R1.

Lemma heartbeat_stores_spec clock now pid st mem p R :
  registry_wf R → process_table R !! pid = Some p →
  let R' := heartbeat_stores clock now pid st mem p R in
  tree_table R' = tree_table R ∧
  process_table R' =
    (if p_alive p then
       <[pid := if negb (is_terminal_status (p_status p)) && is_terminal_status st
                then terminated clock (set_heartbeat st mem now p)
                else set_heartbeat st mem now p]> (process_table R)
     else process_table R) ∧
  (p_alive p = true → is_terminal_status (p_status p) = false →
   is_terminal_status st = true → ∀ t, pid ∉ get_tree_processes t R').
Proof.
  intros Hwf Hp R'. subst R'. unfold heartbeat_stores, update_heartbeat, get_process.
  rewrite Hp. destruct (p_alive p) eqn:Hal.
  2: { unfold terminate_process. rewrite Hp, Hal. by destruct (negb _ && _). }
  set (R1 := with_process_table (alter (set_heartbeat st mem now) pid) R).
  assert (process_table R1 = <[pid := set_heartbeat st mem now p]> (process_table R)) as Htb.
  { apply map_eq. intros i. unfold R1. simpl. rewrite lookup_alter, lookup_insert.
    case_decide; subst; [by rewrite Hp|done]. }
  assert (process_table R1 !! pid = Some (set_heartbeat st mem now p)) as Hp1
    by (by rewrite Htb, lookup_insert_eq).
  destruct (negb _ && _) eqn:Hb; [|split_and!; [done|done|]].
  - rewrite (terminate_process_alive _ _ _ _ Hp1 Hal).
    split_and!; [done|cbn [process_table with_process_table remove_from_indexes with_indexes];
      by rewrite Htb, insert_insert_eq|].
    intros _ _ _ t. unfold get_tree_processes. rewrite elem_of_elements. simpl.
    autorewrite with velix_mm. intros [Hin Hne]. apply Hne. split; [|done].
    apply (wf_index _ Hwf) in Hin as (q & Hq & <- & _). by simplify_eq.
  - intros _ H1 H2. by rewrite H1, H2 in Hb.
Qed.

(** *** The live processes *)

(** The abstract state of the supervisor: the live processes, each with its tree. *)
Definition live_set (R : Registry) : gmap Z string :=
  omap (λ p, if p_alive p then Some (p_tree_id p) else None) (process_table R).

(** What the end of the tree [t] leaves of it. *)
Definition without_tree (t : string) (L : gmap Z string) : gmap Z string :=
  filter (λ e, e.2 ≠ t) L.

Lemma lookup_live_set R pid t :
  live_set R !! pid = Some t ↔
  ∃ p, process_table R !! pid = Some p ∧ p_alive p = true ∧ p_tree_id p = t.
Proof.
  unfold live_set. rewrite lookup_omap. destruct (process_table R !! pid) as [p|]; simpl.
  - destruct (p_alive p) eqn:Hal; split; [intros [= <-]; eauto|naive_solver|done|].
    intros (q & [= <-] & ? & _). congruence.
  - split; [done|naive_solver].
Qed.

Lemma live_set_table R R' : process_table R' = process_table R → live_set R' = live_set R.
Proof. unfold live_set. by intros ->. Qed.

(** A tree is left by all its processes at once. *)
Lemma live_set_kill clock reason t grace R :
  registry_wf R →
  live_set (kill_tree_and_processes clock reason t grace R).2 = without_tree t (live_set R).
Proof.
  intros Hwf. apply map_eq. intros pid. apply option_eq. intros t'.
  unfold without_tree. rewrite map_lookup_filter_Some, !lookup_live_set,
    kill_tree_and_processes_lookup by done. simpl. case_decide as Hin.
  - apply elem_of_live in Hin as (p & Hp & Ht & Hal); [|done]. rewrite Hp. simpl.
    split; [by intros (q & [= <-] & ? & _)|intros [(q & [= <-] & _ & <-) ?]; done].
  - split; [|naive_solver]. intros (p & Hp & Hal & Ht). split; [eauto|]. intros ->.
    apply Hin, elem_of_live; eauto.
Qed.

Lemma live_set_enforce_limit b clock reason t grace R :
  registry_wf R →
  live_set (enforce_limit b clock reason t grace R).2 =
    (if b then without_tree t (live_set R) else live_set R).
Proof. intros Hwf. destruct b; [by apply live_set_kill|done]. Qed.

Lemma without_tree_twice t L : without_tree t (without_tree t L) = without_tree t L.
Proof.
  unfold without_tree. rewrite map_filter_filter. apply map_filter_ext. naive_solver.
Qed.

(** The trees a tick leaves alone. *)
Definition within_limits (cfg : SupervisorConfig) (now_ms : Z) (R : Registry)
    (t : string) (created : Z) : Prop :=
  t = "TREE_HANDLER" ∨ violates cfg now_ms t created R = false.

Lemma live_set_tree_limits cfg now_ms clock t created R :
  registry_wf R →
  live_set (enforce_tree_limits cfg now_ms clock t created R).2 =
    (if bool_decide (t ≠ "TREE_HANDLER") && violates cfg now_ms t created R
     then without_tree t (live_set R) else live_set R).
Proof.
  intros Hwf. destruct (decide (t = "TREE_HANDLER")) as [->|Ht]; [done|].
  rewrite (bool_decide_eq_true_2 _ Ht). simpl. rewrite enforce_tree_limits_registry by done.
  unfold violates, memory_exceeded.
  rewrite !live_set_enforce_limit, enforce_limit_llm, enforce_limit_llm,
    enforce_limit_memory by eauto using enforce_limit_wf.
  by destruct (runtime_exceeded _ _ _), (d_gtb _ _), (llm_exceeded _ _ _);
    simpl; rewrite ?without_tree_twice.
Qed.

Lemma live_set_limits cfg now_ms clock trees R pid t :
  registry_wf R →
  live_set (enforce_limits cfg now_ms clock trees R).2 !! pid = Some t ↔
  live_set R !! pid = Some t ∧
  ∀ created, (t, created) ∈ trees → within_limits cfg now_ms R t created.
Proof.
  revert R. induction trees as [|[t0 c0] trees IH]; intros R Hwf; simpl; [set_solver|].
  pose proof (steps_wf _ _ (enforce_tree_limits_steps cfg now_ms clock t0 c0 R) Hwf) as Hwf1.
  pose proof (live_set_tree_limits cfg now_ms clock t0 c0 R Hwf) as Hl.
  pose proof (λ t c, violates_enforce_tree_limits cfg now_ms clock t c t0 c0 R Hwf) as Hv.
  destruct (enforce_tree_limits _ _ _ _ _ _) as [e1 R1]. simpl in Hwf1, Hl, Hv.
  pose proof (IH R1 Hwf1) as HIH. destruct (enforce_limits _ _ _ _ _) as [e2 R2].
  simpl in *. rewrite HIH, Hl. clear HIH IH. unfold within_limits.
  setoid_rewrite Hv. setoid_rewrite elem_of_cons.
  destruct (bool_decide (t0 ≠ "TREE_HANDLER") && violates cfg now_ms t0 c0 R) eqn:Hb.
  - apply andb_true_iff in Hb as [Hne%bool_decide_eq_true_1 Hvio].
    unfold without_tree. rewrite map_lookup_filter_Some. simpl. split.
    + intros [[Hp Ht] Hin]. split; [done|]. intros c [[= -> ->]|?]; [done|auto].
    + intros [Hp Hin]. split; [split; [done|]|auto]. intros ->.
      destruct (Hin c0) as [?|?]; [by left|done|congruence].
  - split; intros [Hp Hin]; (split; [done|]); [|auto].
    intros c [[= -> ->]|?]; [|auto]. apply andb_false_iff in Hb as [Hb|?]; [|by right].
    left. apply bool_decide_eq_false in Hb. by apply dec_stable.
Qed.

Lemma all_tree_ids_inv R t created :
  (t, created) ∈ get_all_tree_ids_with_created_at R ↔
  ∃ ti, tree_table R !! t = Some ti ∧ t_created_at_ms ti = created.
Proof.
  split.
  - unfold get_all_tree_ids_with_created_at.
    intros ([t' ti] & [= -> ->] & Hti%elem_of_map_to_list)%list_elem_of_fmap. eauto.
  - intros (ti & Hti & <-). by apply all_tree_ids_elem.
Qed.

(** The live processes after a tick: the timeouts first, then the limits. *)
Lemma live_set_timeouts now_ms S pid t :
  live_set (registry_after_timeouts now_ms S) !! pid = Some t ↔
  ∃ p, process_table (registry_ S) !! pid = Some p ∧ p_alive p = true ∧ p_tree_id p = t ∧
       u64 (now_ms - p_last_heartbeat_ms p) ≤
       u64 (u64 (c_heartbeat_timeout_sec (config_ S)) * 1000).
Proof.
  rewrite lookup_live_set. unfold registry_after_timeouts. rewrite mark_all_killed_lookup.
  pose proof (elem_of_timeout_targets S now_ms pid) as Htg. case_decide as Hin.
  - apply Htg in Hin as (p & Hp & Hal & Hgt).
    rewrite (proj2 (cleanup_live now_ms 60000 _ _ _ Hal) Hp). split; [naive_solver|].
    intros (q & Hq & _ & _ & Hle). simplify_eq. lia.
  - split.
    + intros (p & Hp & Hal & Ht). apply cleanup_live in Hp; [|done].
      exists p. split_and!; [done..|].
      destruct (Z_le_gt_dec (u64 (now_ms - p_last_heartbeat_ms p))
        (u64 (u64 (c_heartbeat_timeout_sec (config_ S)) * 1000))); [done|].
      destruct Hin. apply Htg. eauto.
    + intros (p & Hp & Hal & Ht & _). exists p.
      split_and!; [by apply cleanup_live|done..].
Qed.

Lemma live_set_tick S now_ms clock steady os pid t :
  registry_wf (registry_ S) →
  live_set (registry_ (watchdog_tick now_ms clock steady os S).2) !! pid = Some t ↔
  live_set (registry_after_timeouts now_ms S) !! pid = Some t ∧
  ∀ ti, tree_table (registry_ S) !! t = Some ti →
    within_limits (config_ S) now_ms (registry_after_timeouts now_ms S) t (t_created_at_ms ti).
Proof.
  intros Hwf. rewrite watchdog_tick_registry.
  rewrite (live_set_table _ (complete_trees _ _) (complete_trees_table _ _)).
  rewrite live_set_limits by exact (steps_wf _ _ (registry_after_timeouts_steps _ _) Hwf).
  setoid_rewrite all_tree_ids_inv. rewrite registry_after_timeouts_trees. naive_solver.
Qed.

Lemma live_set_stop S clock : live_set (registry_ (stop_kill_all clock S).2) = ∅.
Proof.
  apply map_empty. intros pid. apply eq_None_not_Some. intros [t Ht].
  unfold stop_kill_all in Ht.
  pose proof (kill_processes_registry clock (target_of_entry <$> snapshot_for_watchdog
    (registry_ S)) "supervisor_shutdown" (c_terminate_grace_ms (config_ S)) (registry_ S)) as Hk.
  destruct (kill_processes _ _ _ _ _) as [e R]. simpl in *. subst R.
  apply lookup_live_set in Ht as (p & Hp & Hal & _). rewrite mark_all_killed_lookup in Hp.
  case_decide as Hin; [by apply fmap_Some in Hp as (q & _ & ->)|]. apply Hin.
  rewrite <-list_fmap_compose. apply list_elem_of_fmap. eexists. split;
    [|apply elem_of_snapshot; by exists pid, p]. done.
Qed.

(** What an [ok] answer to a request of type [ty] did to the live processes. *)
Definition live_after (ty : string) (m r : json) (S : Supervisor) (L : gmap Z string) : Prop :=
  if decide (ty = "REGISTER_PID") then
    ∃ p, placed S p ∧ find r "process" = Some (build_process_json p) ∧
      process_table (registry_ S) !! p_pid p = None ∧
      L = <[p_pid p := p_tree_id p]> (live_set (registry_ S))
  else if decide (ty = "HEARTBEAT") then
    ∃ pid p payload text, value_int m "pid" (-1) = Ok pid ∧
      process_table (registry_ S) !! pid = Some p ∧
      value_json m "payload" (JObject []) = Ok payload ∧
      value_string payload "status" "" = Ok text ∧
      let st := if decide (text = "") then p_status p else parse_process_status text in
      L = if negb (is_terminal_status (p_status p)) && is_terminal_status st
          then delete pid (live_set (registry_ S)) else live_set (registry_ S)
  else if decide (ty = "TREE_KILL") then
    ∃ t, message_tree_id m = Ok t ∧ t ≠ "" ∧ L = without_tree t (live_set (registry_ S))
  else L = live_set (registry_ S).

Lemma live_set_heartbeat clock now pid st mem p R :
  registry_wf R → process_table R !! pid = Some p →
  live_set (heartbeat_stores clock now pid st mem p R) =
    (if negb (is_terminal_status (p_status p)) && is_terminal_status st
     then delete pid (live_set R) else live_set R).
Proof.
  intros Hwf Hp. destruct (heartbeat_stores_spec clock now pid st mem p R Hwf Hp)
    as (_ & Htb & _). unfold live_set. rewrite Htb.
  assert (p_alive p = false → delete pid (live_set R) = live_set R) as Hdead.
  { intros Hal. apply delete_id. unfold live_set. rewrite lookup_omap, Hp. simpl. by rewrite Hal. }
  destruct (p_alive p) eqn:Hal.
  2: { unfold live_set in Hdead. by case_match; [rewrite Hdead|]. }
  apply map_eq. intros i. destruct (negb _ && _);
    rewrite ?lookup_delete, !lookup_omap, lookup_insert; case_decide; subst; try done.
  by rewrite Hp; simpl; rewrite Hal.
Qed.

(** One lemma per handler would restate [live_after]: the dispatch is here. *)
Lemma live_after_ok now clock m S r S' eff ty :
  registry_wf (registry_ S) → ty ∈ allowed_types →
  typed_handler now clock ty m S = Ok (r, S', eff) → is_ok r →
  live_after ty m r S (live_set (registry_ S')).
Proof.
  intros Hwf Hty H Hok. unfold typed_handler in H. unfold live_after.
  case_decide as H1.
  { apply exc_fmap_Ok_inv in H as ([r0 S0] & H & [= -> -> _]).
    destruct (register_pid_cases _ _ _ _ _ Hwf H) as [[? _]|(_ & p & [] & _)]; [done|].
    exists p. split_and!; [done..|]. unfold live_set. rewrite rg_table0.
    rewrite omap_insert. by destruct rg_live0 as [-> _]. }
  case_decide as H2.
  { apply exc_fmap_Ok_inv in H as ([r0 S0] & H & [= -> -> _]).
    unfold handle_heartbeat in H. exc_run H; try done.
    do 4 eexists. split_and!; [done..|]. simpl. by apply live_set_heartbeat. }
  case_decide as H3.
  { apply exc_fmap_Ok_inv in H as ([r0 S0] & H & [= -> -> _]).
    rewrite decide_False by congruence. unfold handle_llm_request in H. exc_run H; try done. }
  case_decide as H4.
  { apply exc_fmap_Ok_inv in H as ([r0 S0] & H & [= -> -> _]).
    rewrite decide_False by congruence. by apply handle_tree_status_state in H as ->. }
  assert (ty = "TREE_KILL") as -> by (unfold allowed_types in Hty; set_solver).
  rewrite decide_True by done. unfold handle_tree_kill in H. exc_run H; try done.
  eexists. split_and!; [done..|]. simpl.
  match goal with H : kill_tree_and_processes ?c ?re ?t ?g ?R = _ |- _ =>
    pose proof (live_set_kill c re t g R Hwf) as Hs; by rewrite H in Hs end.
Qed.

(** ** Properties *)

(** C1 The supervisor implements the set of the live processes, each with its tree.  A request
    changes it only when its response is [ok], and then by its type alone, delivered response or
    not: [REGISTER_PID] adds one process, under a free pid and in the tree its role and intent
    ask for ([placed]); [HEARTBEAT] removes its process exactly when the status it reports is
    final and the recorded one was not; [TREE_KILL] removes the processes of the tree it names;
    [LLM_REQUEST] and [TREE_STATUS] change nothing.  A round of the watchdog keeps exactly the
    processes whose heartbeat has not expired (by the unsigned difference the code computes)
    and whose tree is the handler's or within its limits of time, memory and requests once the
    expired processes are marked.  A stop removes all.  [S] is any state the service reaches. *)
Theorem supervisor_refines_live_set S :
  sup_reachable S →
  (∀ now clock send send_error request reply S' eff,
     handle_client now clock send send_error request S = Ok (reply, S', eff) →
     live_set (registry_ S') = live_set (registry_ S) ∨
     ∃ m r ty, request = Ok m ∧ has_type m ty ∧
       handle_message now clock m S = Ok (r, S', eff) ∧ is_ok r) ∧
  (∀ now clock m r S' eff ty,
     handle_message now clock m S = Ok (r, S', eff) → is_ok r → has_type m ty →
     live_after ty m r S (live_set (registry_ S'))) ∧
  (∀ now_ms clock steady os pid t,
     live_set (registry_ (watchdog_tick now_ms clock steady os S).2) !! pid = Some t ↔
     ∃ p, process_table (registry_ S) !! pid = Some p ∧ p_alive p = true ∧ p_tree_id p = t ∧
       u64 (now_ms - p_last_heartbeat_ms p) ≤
         u64 (u64 (c_heartbeat_timeout_sec (config_ S)) * 1000) ∧
       ∀ ti, tree_table (registry_ S) !! t = Some ti →
         t = "TREE_HANDLER" ∨
         violates (config_ S) now_ms t (t_created_at_ms ti)
           (registry_after_timeouts now_ms S) = false) ∧
  (∀ clock, live_set (registry_ (stop_kill_all clock S).2) = ∅).
Proof.
  intros Hwf%sup_registry_reachable%wf_reachable. split_and!.
  - intros * [(m & r & -> & H)|[-> _]]%handle_client_inv; [|by left].
    destruct (reply_status _ _ _ _ _ _ _ H) as [Hok|Herr].
    + right. destruct (handle_message_ok_inv _ _ _ _ _ _ _ H Hok) as (ty & ? & _).
      by exists m, r, ty.
    + left. apply live_set_table. apply handle_message_error in H as [[Ht _] _]; [done|].
      unfold is_ok. by rewrite Herr.
  - intros * H Hok Hty.
    destruct (handle_message_ok_inv _ _ _ _ _ _ _ H Hok) as (ty' & Hty' & Hin & _ & _ & Hh).
    unfold has_type in *. simplify_eq. by eapply live_after_ok.
  - intros *. rewrite live_set_tick, live_set_timeouts by done. unfold within_limits.
    naive_solver.
  - intros clock. apply live_set_stop.
Qed.

(** C35 A request never kills the service: [handle_client] throws nothing, whatever the request
    and whatever the two sends do.  A request that was handled leaves exactly the state and
    the effects of its handling, sent reply or not, and when its response is not [ok] it is
    an error and no process, tree or index changed and nothing was done to the operating
    system; one that could not be received, or whose handling threw, changes nothing.  What
    reaches the client is the response when it is sent.  When its send fails, or when the
    handling threw, it is the error reply with the text of that failure - so that a client
    may be told [error] for a change that was made - and nothing at all when the text reads
    as a disconnection or when the error reply cannot be sent either. *)
Theorem handle_client_total S now clock send send_error request :
  let handled := message ← request; handle_message now clock message S in
  let reported err reply :=
    if is_expected_disconnect_error err then reply = None
    else match send_error (error_response err) with
         | None => reply = Some (error_response err)
         | Some _ => reply = None
         end in
  match handle_client now clock send send_error request S with
  | Ok (reply, S', eff) =>
      (∃ r, handled = Ok (r, S', eff) ∧
         (is_ok r ∨ (response_status r = Some (JString "error") ∧
                     same_tables (registry_ S) (registry_ S') ∧ eff = [])) ∧
         match send r with
         | None => reply = Some r
         | Some err => reported err reply
         end) ∨
      (∃ err, handled = Throw err ∧ S' = S ∧ eff = [] ∧ reported err reply)
  | Throw _ => False
  | UB => handled = UB
  end.
Proof.
  cbv zeta. unfold handle_client, report_error.
  destruct (message ← request; handle_message now clock message S) as [[[r S'] eff]|w|] eqn:H.
  - assert (is_ok r ∨ (response_status r = Some (JString "error") ∧
              same_tables (registry_ S) (registry_ S') ∧ eff = [])).
    { apply exc_bind_Ok_inv in H as (m & _ & H).
      destruct (reply_status _ _ _ _ _ _ _ H) as [?|Herr]; [by left|right].
      split; [done|]. eapply handle_message_error; [done|]. unfold is_ok. by rewrite Herr. }
    destruct (send r) as [err|] eqn:Hs; left; exists r; rewrite Hs; (split_and!; [done..|]);
      [|done].
    by repeat case_match.
  - right. exists w. split_and!; [done..|]. by repeat case_match.
  - done.
Qed.

(** With [require_auth_token] set, only a request whose metadata carries the configured
    token, which is not empty, is answered [ok], changes the state or acts on the
    operating system. *)
Lemma auth_required S now clock m r S' eff :
  c_require_auth_token (config_ S) = true →
  handle_message now clock m S = Ok (r, S', eff) →
  is_ok r ∨ S' ≠ S ∨ eff ≠ [] →
  ∃ metadata, find m "metadata" = Some metadata ∧
    find metadata "auth_token" = Some (JString (c_auth_token (config_ S))) ∧
    c_auth_token (config_ S) ≠ "".
Proof.
  intros Hreq H Hact. unfold handle_message in H. exc_step H.
  destruct a as [shape err]. exc_step H; [by exc_run H; destruct Hact as [?|[?|?]]|].
  exc_step H. destruct a as [auth err']. exc_step H; [by exc_run H; destruct Hact as [?|[?|?]]|].
  destruct auth; [|done]. clear H. unfold validate_auth in E0. rewrite Hreq in E0.
  exc_run E0; try done.
  apply value_json_inv in E1 as [?|[_ ->]]; apply value_string_inv in E2 as [?|[? ->]];
    simplify_eq/=; try naive_solver.
  exists a. destruct (decide (a0 = c_auth_token (config_ S))) as [->|]; naive_solver.
Qed.

(** What a [REGISTER_PID] that is answered [ok] has done: one process, under a pid that
    was free, was added to the table and to the index of its tree, and the reply describes
    it.  It is placed as its role and intent ask: a handler in the handler's tree, which
    was empty, with the OS pid that was spawned; a new root in a tree that did not exist;
    a child in the active tree of a registered parent that has not ended.  Any other reply
    has changed no table. *)
Lemma register_pid_spec S now m r S' :
  sup_reachable S → handle_register_pid now m S = Ok (r, S') →
  (is_ok r → ∃ p, registration S S' r p) ∧
  (¬ is_ok r → same_tables (registry_ S) (registry_ S')).
Proof.
  intros Hr%sup_registry_reachable%wf_reachable H.
  destruct (register_pid_cases _ _ _ _ _ Hr H) as [[? ?]|[? (p & ? & _)]]; split;
    eauto; done.
Qed.

(** Two handlers never coexist: in every state the service reaches, at most one process
    of role ["handler"] is still indexed, and every such process is in the handler's
    tree, whatever is registered, killed or restarted. *)
Lemma handler_unique S :
  sup_reachable S → one_handler (registry_ S).
Proof. apply one_handler_reachable. Qed.

(** A handler that misses its heartbeats locks the role for good: the tick kills it
    without taking it out of the index of its tree, so that in every later state of the
    service, a respawned handler included, a registration with role ["handler"] is
    refused. *)
Lemma handler_lockout S S' now_ms clock steady os pid p :
  sup_reachable S → process_table (registry_ S) !! pid = Some p → p_alive p = true →
  p_tree_id p = "TREE_HANDLER" →
  u64 (now_ms - p_last_heartbeat_ms p) > u64 (u64 (c_heartbeat_timeout_sec (config_ S)) * 1000) →
  rtc sup_step (watchdog_tick now_ms clock steady os S).2 S' →
  ∀ now m r S'',
    asks_for_handler m → handle_register_pid now m S' = Ok (r, S'') →
    response_status r = Some (JString "error") ∧ S'' = S'.
Proof.
  intros Hr%sup_registry_reachable%wf_reachable Hp Hal Ht Hexp Hs now m r S'' (payload & Hm & Hrole) H.
  assert (zombie (registry_after_timeouts now_ms S) pid "TREE_HANDLER") as Hz.
  { rewrite <-Ht. apply mark_all_killed_zombie.
    - by apply (cleanup_live _ _ _ _ _ Hal).
    - apply elem_of_timeout_targets. eauto.
    - by apply (wf_alive _ Hr _ _ Hp). }
  pose proof (steps_wf _ _ (registry_after_timeouts_steps now_ms S) Hr) as Hwf1.
  assert (rtc reg_step (registry_after_timeouts now_ms S) (registry_ S')) as Hsteps.
  { etrans; [apply watchdog_tick_steps|by apply sup_steps_registry]. }
  destruct (zombie_steps _ _ _ _ Hwf1 Hsteps Hz) as [Hwf' Hz'].
  eapply register_handler_refused; [done..|]. intros Hempty.
  apply (not_elem_of_nil pid). rewrite <-Hempty.
  by apply elem_of_elements, zombie_indexed.
Qed.

(** A [TREE_KILL] that names a tree is answered [ok] and has then left no live process
    in the tree, set its status to [KILLED] if it exists, signalled only OS processes of
    its live members, and touched no process of another tree and no other tree. *)
Lemma tree_kill_spec S clock m t source_pid :
  sup_reachable S → message_tree_id m = Ok t → t ≠ "" →
  value_int m "source_pid" (-1) = Ok source_pid →
  ∃ r S' eff, handle_tree_kill clock m S = Ok (r, S', eff) ∧ is_ok r ∧
    no_live (registry_ S') t ∧
    tree_table (registry_ S') = alter (set_tree_status T_KILLED) t (tree_table (registry_ S)) ∧
    (∀ pid p, process_table (registry_ S) !! pid = Some p → p_tree_id p ≠ t →
       process_table (registry_ S') !! pid = Some p) ∧
    (∀ os_pid sig, Kill os_pid sig ∈ eff →
       ∃ pid p, process_table (registry_ S) !! pid = Some p ∧ p_tree_id p = t ∧
                p_alive p = true ∧ p_os_pid p = os_pid).
Proof.
  intros Hwf%sup_registry_reachable%wf_reachable Ht Hne Hsrc. unfold handle_tree_kill.
  rewrite Ht, Hsrc. simpl. rewrite decide_False by done.
  set (g := c_terminate_grace_ms (config_ S)).
  destruct (kill_tree_and_processes clock "tree_kill" t g (registry_ S)) as [eff R] eqn:Hk.
  assert (R = (kill_tree_and_processes clock "tree_kill" t g (registry_ S)).2) as HR
    by (by rewrite Hk).
  assert (eff = (kill_tree_and_processes clock "tree_kill" t g (registry_ S)).1) as He
    by (by rewrite Hk).
  eexists _, _, _. split; [done|]. simpl. subst R. split_and!; [done|..].
  - by apply kill_tree_and_processes_no_live.
  - apply kill_tree_and_processes_trees.
  - intros pid p Hp Hpt. rewrite kill_tree_and_processes_lookup by done.
    rewrite decide_False; [done|]. intros (q & ? & ? & _)%elem_of_live; [by simplify_eq|done].
  - subst eff. intros os_pid sig. by apply kill_tree_and_processes_targets.
Qed.

(** A heartbeat stores its status, memory and time in the entry of a live process and
    nothing else; the transition to a final status also terminates the process, which
    leaves its tree; a process marked dead is left as it is.  A heartbeat without a
    [memory_mb] stores minus one megabyte. *)
Lemma heartbeat_spec S now clock m r S' :
  sup_reachable S → handle_heartbeat now clock m S = Ok (r, S') → is_ok r →
  ∃ pid p payload st mem,
    value_int m "pid" (-1) = Ok pid ∧ 0 < pid ∧
    process_table (registry_ S) !! pid = Some p ∧
    value_json m "payload" (JObject []) = Ok payload ∧
    (find payload "status" = None → st = p_status p) ∧
    (∀ s, find payload "status" = Some (JString (process_status_to_string s)) → st = s) ∧
    (find payload "memory_mb" = None → mem = d_of_Z (-1)) ∧
    tree_table (registry_ S') = tree_table (registry_ S) ∧
    process_table (registry_ S') =
      (if p_alive p then
         <[pid := if negb (is_terminal_status (p_status p)) && is_terminal_status st
                  then terminated clock (set_heartbeat st mem now p)
                  else set_heartbeat st mem now p]> (process_table (registry_ S))
       else process_table (registry_ S)) ∧
    (p_alive p = true → is_terminal_status (p_status p) = false →
     is_terminal_status st = true → ∀ t, pid ∉ get_tree_processes t (registry_ S')).
Proof.
  intros Hwf%sup_registry_reachable%wf_reachable H Hok. unfold handle_heartbeat in H.
  exc_run H; try done. simpl.
  match goal with H : get_process ?pid _ = Some ?p, E : value_string ?pl _ _ = Ok ?txt,
      E' : value_double ?pl _ _ = Ok ?mem |- _ =>
    pose proof (heartbeat_stores_spec clock now pid
      (if decide (txt = "") then p_status p else parse_process_status txt) mem p _ Hwf H)
      as Hst;
    exists pid, p, pl, (if decide (txt = "") then p_status p else parse_process_status txt), mem;
    apply value_string_inv in E; apply value_double_inv in E' end.
  split_and!; try done; [lia|..|apply Hst|apply Hst|apply Hst].
  - intros Hf. rewrite decide_True; [done|naive_solver].
  - intros st Hf. rewrite decide_False; [|destruct st; naive_solver].
    destruct E1 as [Hs|[Hs _]]; [|by rewrite Hf in Hs].
    rewrite Hf in Hs. injection Hs as <-. apply parse_to_string.
  - intros Hf. destruct E2 as [(v & Hv & _)|[_ ?]]; [by rewrite Hf in Hv|done].
Qed.

(** An [LLM_REQUEST] that is answered [ok] counts one request on the tree of its source
    and changes nothing else; the source is registered, and the mode [user_conversation]
    is granted to a handler that names its user only. *)
Lemma llm_request_spec S m r S' :
  handle_llm_request m S = Ok (r, S') → is_ok r →
  ∃ source_pid source mode,
    value_int m "source_pid" (-1) = Ok source_pid ∧ 0 < source_pid ∧
    get_process source_pid (registry_ S) = Some source ∧
    S' = with_registry (increment_llm_request (p_tree_id source) (registry_ S)) S ∧
    value_string m "mode" "" = Ok mode ∧
    (mode = "simple" ∨ (c_conversation_enabled (config_ S) = true ∧
       (mode = "conversation" ∨
        (mode = "user_conversation" ∧ p_role source = "handler" ∧
         ∃ user, find m "user_id" = Some (JString user) ∧ user ≠ "")))).
Proof.
  intros H Hok. unfold handle_llm_request in H. exc_run H; try done.
  do 3 eexists. split_and!; try done; [lia|].
  destruct (decide (a = "simple")) as [|Hs]; [by left|right].
  rewrite bool_decide_eq_true_2, andb_true_r in Heqb by done. apply negb_false_iff in Heqb.
  split; [done|]. destruct (decide (a = "conversation")) as [|Hc]; [by left|right].
  assert (a = "user_conversation") as -> by (apply dec_stable; naive_solver).
  unfold llm_mode_error in Heqo0. simpl in Heqo0. repeat case_decide; try done.
  split_and!; [done|done|]. exists a2. split; [|done].
  apply value_string_inv in E2. naive_solver.
Qed.
