(* ===== verification/Framing.v ===== *)
(** * Length-prefixed frames (src/communication)

    A message travels as a 4-byte big-endian length and its payload.
    [asio_framing.hpp] frames the traffic of the bus, [send.cpp] and [recv.cpp] the
    traffic of the blocking sockets.  A socket is what the peer sent, cut into the
    pieces the operating system hands over one [recv] at a time. *)

From S2P Require Import Prelude.
From Stdlib Require Import Ascii.

(** A buffer of [char]s. *)
Abbreviation bytes := (list ascii).

Definition to_byte (z : Z) : ascii := ascii_of_N (Z.to_N z).
Definition of_byte (c : ascii) : Z := Z.of_N (N_of_ascii c).

(** ** asio_framing.hpp *)

Definition decode_frame_length (header : bytes) : Z :=
  match header with
  | [h0; h1; h2; h3] =>
      Z.lor (Z.lor (Z.lor (Z.shiftl (of_byte h0) 24) (Z.shiftl (of_byte h1) 16))
               (Z.shiftl (of_byte h2) 8)) (of_byte h3)
  | _ => 0
  end.

Definition encode_frame_length (length : Z) : bytes :=
  [to_byte (Z.land (Z.shiftr length 24) 255); to_byte (Z.land (Z.shiftr length 16) 255);
   to_byte (Z.land (Z.shiftr length 8) 255); to_byte (Z.land length 255)].

(** The length field holds [static_cast<uint32_t>(payload.size())]. *)
Definition make_frame (payload : bytes) : bytes :=
  encode_frame_length (u32 (Z.of_nat (length payload))) ++ payload.

(** What [async_read_frame] hands to its handler once enough has arrived: a payload (with
    what follows it on the stream), or the error of a length out of bounds; while bytes
    are missing the read is pending. *)
Inductive read_result :=
  | Frame (payload : bytes) (rest : bytes)
  | MessageSize
  | Pending.

Definition async_read_frame (max_message_bytes : Z) (stream : bytes) : read_result :=
  if decide (length stream < 4)%nat then Pending
  else
    let length_ := decode_frame_length (take 4 stream) in
    let body := drop 4 stream in
    if decide (length_ = 0 ∨ length_ > max_message_bytes) then MessageSize
    else if decide (Z.of_nat (length body) < length_) then Pending
    else Frame (take (Z.to_nat length_) body) (drop (Z.to_nat length_) body).

(** ** recv.cpp *)

(** A blocking socket: the pieces still to be delivered; [None] is a failing [recv]. *)
Definition socket := list (option bytes).

(** [socket.recv(data, len)]: at most [len] bytes of the next piece, [0] bytes at the end
    of the stream. *)
Definition sock_recv (len : nat) (s : socket) : option bytes * socket :=
  match s with
  | [] => (Some [], [])
  | None :: s => (None, s)
  | Some piece :: s =>
      (Some (take len piece),
       if decide (drop len piece = []) then s else Some (drop len piece) :: s)
  end.

(** The loop of [recv_all]: each iteration makes progress or throws, so that as many
    iterations as bytes asked for are enough. *)
Fixpoint recv_all_loop (fuel : nat) (len : nat) (s : socket) : exc (bytes * socket) :=
  if decide (len = 0%nat) then mret ([], s)
  else
    match fuel with
    | O => UB
    | S fuel =>
        match sock_recv len s with
        | (None, _) => Throw "recv failed"
        | (Some [], _) => Throw "connection closed"
        | (Some bs, s) =>
            '(more, s) ← recv_all_loop fuel (len - length bs) s;
            mret (bs ++ more, s)
        end
    end.

Definition recv_all (len : nat) (s : socket) : exc (bytes * socket) :=
  recv_all_loop len len s.

Definition kChunkSize : nat := Z.to_nat (64 * 1024).

(** The loop of [recv_raw] over the chunks of the payload. *)
Fixpoint recv_chunks (fuel : nat) (len : nat) (s : socket) : exc (bytes * socket) :=
  if decide (len = 0%nat) then mret ([], s)
  else
    match fuel with
    | O => UB
    | S fuel =>
        let to_read := Nat.min kChunkSize len in
        '(chunk, s) ← recv_all to_read s;
        '(more, s) ← recv_chunks fuel (len - to_read) s;
        mret (chunk ++ more, s)
    end.

(** [recv_raw] on an open socket; [max_size] is the configured bound. *)
Definition recv_raw (max_size : Z) (s : socket) : exc (bytes * socket) :=
  '(header, s) ← recv_all 4 s;
  let len := decode_frame_length header in
  if decide (len = 0 ∨ len > max_size) then Throw "invalid message size"
  else recv_chunks (Z.to_nat len) (Z.to_nat len) s.

(** ** send.cpp *)

(** What [socket.send] and, when it would block, [select] answer. *)
Inductive send_answer :=
  | Sent (n : nat)              (* that many bytes were taken *)
  | WouldBlock (expired : bool) (select_ok : bool)
  | SendFailed.

(** How the loop of [send_all] ended; [Sending] once the answers are used up. *)
Inductive send_outcome := SendDone | SendThrow (what : string) | Sending.

(** The loop of [send_all] over the answers of the operating system: the bytes that left,
    and how it ended.  A [select] that timed out and one that found the socket writable
    both go round the loop; the text of a failing [select] ends in the system's. *)
Fixpoint send_all (answers : list send_answer) (data : bytes) : bytes * send_outcome :=
  if decide (data = []) then ([], SendDone)
  else
    match answers with
    | [] => ([], Sending)
    | Sent O :: _ => ([], SendThrow "send returned 0 (connection closed)")
    | Sent n :: answers =>
        let '(out, r) := send_all answers (drop n data) in (take n data ++ out, r)
    | WouldBlock true _ :: _ => ([], SendThrow "send timeout")
    | WouldBlock false true :: answers => send_all answers data
    | WouldBlock false false :: _ => ([], SendThrow "select failed: ")
    | SendFailed :: _ => ([], SendThrow "send failed")
    end.

(** [send_json] on an open socket, once the text was found to be JSON; the two calls of
    [send_all] have answers of their own. *)
Definition send_json (answers1 answers2 : list send_answer) (json : bytes) :
    bytes * send_outcome :=
  let '(out1, r1) :=
    send_all answers1 (encode_frame_length (u32 (Z.of_nat (length json)))) in
  match r1 with
  | SendDone => let '(out2, r2) := send_all answers2 json in (out1 ++ out2, r2)
  | _ => (out1, r1)
  end.

(** ** Lemmas *)

Lemma of_to_byte z : 0 ≤ z < 256 → of_byte (to_byte z) = z.
Proof.
  intros. unfold of_byte, to_byte. rewrite N_ascii_embedding by lia. apply Z2N.id. lia.
Qed.

Lemma byte_of_length l k : 0 ≤ Z.land (Z.shiftr l k) 255 < 256.
Proof. change 255 with (Z.ones 8). rewrite Z.land_ones by lia. by apply Z.mod_pos_bound. Qed.

Lemma testbit_byte l k i :
  0 ≤ i → 0 ≤ k →
  Z.testbit (Z.shiftl (Z.land (Z.shiftr l k) 255) k) i =
    (k <=? i) && (i <? k + 8) && Z.testbit l i.
Proof.
  intros Hi Hk. change 255 with (Z.ones 8). rewrite Z.shiftl_spec by done.
  destruct (Z.leb_spec k i) as [?|?]; simpl; [|by apply Z.testbit_neg_r; lia].
  rewrite Z.land_spec, Z.shiftr_spec, Z.testbit_ones_nonneg by lia.
  replace (i - k + k) with i by lia. rewrite andb_comm. f_equal.
  destruct (Z.ltb_spec (i - k) 8), (Z.ltb_spec i (k + 8)); lia.
Qed.

(** The four bytes give the length back. *)
Lemma decode_encode l : 0 ≤ l < 2 ^ 32 → decode_frame_length (encode_frame_length l) = l.
Proof.
  intros Hl. unfold decode_frame_length, encode_frame_length.
  replace (Z.land l 255) with (Z.land (Z.shiftr l 0) 255) by (by rewrite Z.shiftr_0_r).
  rewrite !of_to_byte by apply byte_of_length.
  replace (Z.land (Z.shiftr l 0) 255) with (Z.shiftl (Z.land (Z.shiftr l 0) 255) 0)
    by apply Z.shiftl_0_r.
  apply Z.bits_inj'. intros i Hi. rewrite !Z.lor_spec, !testbit_byte by lia.
  assert (32 ≤ i → Z.testbit l i = false) as Hhigh.
  { intros. destruct (decide (l = 0)) as [->|]; [apply Z.bits_0|].
    apply Z.bits_above_log2; [lia|]. apply Z.log2_lt_pow2; [lia|].
    apply Z.lt_le_trans with (2 ^ 32); [lia|]. by apply Z.pow_le_mono_r. }
  destruct (Z.testbit l i) eqn:E; [|by rewrite !andb_false_r].
  assert (i < 32) by (destruct (Z.lt_ge_cases i 32) as [|Hge]; [done|by specialize (Hhigh Hge)]).
  rewrite !andb_true_r.
  destruct (Z.leb_spec 24 i), (Z.leb_spec 16 i), (Z.leb_spec 8 i), (Z.leb_spec 0 i),
    (Z.ltb_spec i (24 + 8)), (Z.ltb_spec i (16 + 8)), (Z.ltb_spec i (8 + 8)),
    (Z.ltb_spec i (0 + 8)); simpl; lia.
Qed.

Lemma frame_header_length l : length (encode_frame_length l) = 4%nat.
Proof. done. Qed.

(** Everything a socket still delivers. *)
Definition delivered (s : socket) : bytes := mjoin (omap id s).

(** No piece is empty and no [recv] fails: the peer keeps the connection open. *)
Definition healthy (s : socket) : Prop :=
  Forall (λ a, ∃ piece, a = Some piece ∧ piece ≠ []) s.

Lemma sock_recv_healthy len s :
  healthy s → (0 < len)%nat → delivered s ≠ [] →
  ∃ bs s', sock_recv len s = (Some bs, s') ∧ bs ≠ [] ∧ (length bs ≤ len)%nat ∧
           healthy s' ∧ delivered s = bs ++ delivered s'.
Proof.
  intros Hs Hlen Hne. destruct s as [|a s]; [done|].
  apply Forall_cons in Hs as [(piece & -> & Hp) Hs]. simpl.
  eexists _, _. split; [done|]. destruct piece as [|c piece]; [done|].
  destruct len as [|len]; [lia|]. split_and!.
  - done.
  - rewrite length_take. lia.
  - case_decide; [done|]. constructor; [eauto|done].
  - unfold delivered. simpl. case_decide as Hd; simpl.
    + by rewrite <-(take_drop len piece) at 1; rewrite Hd, app_nil_r.
    + by rewrite app_assoc, take_drop.
Qed.

(** Enough bytes are coming: [recv_all] returns exactly the first [len] of them,
    however they are cut. *)
Lemma recv_all_loop_healthy fuel len s :
  (len ≤ fuel)%nat → healthy s → (len ≤ length (delivered s))%nat →
  ∃ s', recv_all_loop fuel len s = Ok (take len (delivered s), s') ∧ healthy s' ∧
        delivered s' = drop len (delivered s).
Proof.
  revert len s. induction fuel as [|fuel IH]; intros len s Hf Hs Hlen; simpl.
  { assert (len = 0%nat) as -> by lia. rewrite decide_True by done.
    exists s. by rewrite take_0, drop_0. }
  case_decide as H0; [subst; exists s; by rewrite take_0, drop_0|].
  destruct (sock_recv_healthy len s Hs) as (bs & s1 & -> & Hbs & Hle & Hs1 & Hd);
    [lia|intros E; rewrite E in Hlen; simpl in Hlen; lia|].
  destruct bs as [|c bs]; [done|].
  destruct (IH (len - length (c :: bs))%nat s1) as (s' & -> & Hs' & Hd');
    [simpl; lia|done|rewrite Hd, length_app in Hlen; lia|].
  exists s'. cbn [mbind exc_bind mret exc_ret]. rewrite Hd, Hd'. split_and!; [|done|].
  - f_equal. f_equal. by rewrite take_app_ge by lia.
  - by rewrite drop_app_ge by lia.
Qed.

(** The loop always ends: each iteration takes a byte or throws. *)
Lemma recv_all_loop_total fuel len s :
  (len ≤ fuel)%nat →
  (∃ bs s', recv_all_loop fuel len s = Ok (bs, s') ∧ length bs = len) ∨
  (∃ w, recv_all_loop fuel len s = Throw w).
Proof.
  revert len s. induction fuel as [|fuel IH]; intros len s Hf; simpl.
  { rewrite decide_True by lia. left. exists [], s. split; [done|simpl; lia]. }
  case_decide as H0; [left; exists [], s; split; [done|simpl; lia]|].
  destruct (sock_recv len s) as [[[|c bs]|] s1] eqn:Hr; [by eauto| |by eauto].
  assert (length (c :: bs) ≤ len)%nat as Hle.
  { destruct s as [|[piece|] s]; try done. simpl in Hr. injection Hr as Htk _.
    rewrite <-Htk, length_take. lia. }
  destruct (IH (len - length (c :: bs))%nat s1) as [(more & s2 & -> & Hl)|[w ->]];
    [simpl; lia| |right; by exists w].
  left. exists ((c :: bs) ++ more), s2. split; [done|]. rewrite length_app. lia.
Qed.

Lemma kChunkSize_pos : (0 < kChunkSize)%nat.
Proof. unfold kChunkSize. apply (Z2Nat.inj_lt 0); lia. Qed.
#[local] Opaque kChunkSize.

Lemma recv_chunks_total fuel len s :
  (len ≤ fuel)%nat →
  (∃ bs s', recv_chunks fuel len s = Ok (bs, s') ∧ length bs = len) ∨
  (∃ w, recv_chunks fuel len s = Throw w).
Proof.
  revert len s. induction fuel as [|fuel IH]; intros len s Hf; simpl.
  { rewrite decide_True by lia. left. exists [], s. split; [done|simpl; lia]. }
  case_decide as H0; [left; exists [], s; split; [done|simpl; lia]|].
  set (n := Nat.min kChunkSize len). assert (0 < n ≤ len)%nat as Hn by (pose proof kChunkSize_pos; lia).
  destruct (recv_all_loop_total n n s) as [(bs & s1 & Hr & Hl)|[w Hr]]; [done| |].
  2: { unfold recv_all. rewrite Hr. eauto. }
  unfold recv_all. rewrite Hr. cbn [mbind exc_bind].
  destruct (IH (len - n)%nat s1) as [(more & s2 & -> & Hl')|[w ->]]; [lia| |eauto].
  left. exists (bs ++ more), s2. split; [done|]. rewrite length_app. lia.
Qed.

Lemma recv_chunks_healthy fuel len s :
  (len ≤ fuel)%nat → healthy s → (len ≤ length (delivered s))%nat →
  ∃ s', recv_chunks fuel len s = Ok (take len (delivered s), s') ∧ healthy s' ∧
        delivered s' = drop len (delivered s).
Proof.
  revert len s. induction fuel as [|fuel IH]; intros len s Hf Hs Hlen; simpl.
  { assert (len = 0%nat) as -> by lia. rewrite decide_True by done.
    exists s. by rewrite take_0, drop_0. }
  case_decide as H0; [subst; exists s; by rewrite take_0, drop_0|].
  set (n := Nat.min kChunkSize len). assert (0 < n ≤ len)%nat as Hn by (pose proof kChunkSize_pos; lia).
  destruct (recv_all_loop_healthy n n s) as (s1 & Hr & Hs1 & Hd1); [done|done|lia|].
  unfold recv_all. rewrite Hr. cbn [mbind exc_bind mret exc_ret].
  destruct (IH (len - n)%nat s1) as (s2 & -> & Hs2 & Hd2);
    [lia|done|rewrite Hd1, length_drop; lia|].
  exists s2. cbn [mbind exc_bind]. rewrite Hd2, Hd1. split_and!; [|done|].
  - unfold mret, exc_ret. f_equal. f_equal. rewrite take_drop_commute.
    replace (n + (len - n))%nat with len by lia.
    replace (take n (delivered s)) with (take n (take len (delivered s)))
      by (rewrite take_take; f_equal; lia). apply take_drop.
  - rewrite drop_drop. f_equal. lia.
Qed.

Lemma make_frame_split payload :
  take 4 (make_frame payload) = encode_frame_length (u32 (Z.of_nat (length payload))) ∧
  drop 4 (make_frame payload) = payload.
Proof. done. Qed.

Lemma recv_raw_healthy max s payload rest :
  healthy s → delivered s = make_frame payload ++ rest →
  0 < Z.of_nat (length payload) ≤ max → Z.of_nat (length payload) < 2 ^ 32 →
  ∃ s', recv_raw max s = Ok (payload, s') ∧ healthy s' ∧ delivered s' = rest.
Proof.
  intros Hs Hd Hlen Hmax. unfold recv_raw, recv_all.
  destruct (recv_all_loop_healthy 4 4 s) as (s1 & -> & Hs1 & Hd1); [lia|done| |].
  { rewrite Hd. unfold make_frame. rewrite !length_app, frame_header_length. lia. }
  cbn [mbind exc_bind]. rewrite Hd in *. unfold make_frame in *. rewrite <-app_assoc in *.
  rewrite take_app_length' by done. rewrite drop_app_length' in Hd1 by done.
  rewrite decode_encode, u32_id by (lia || apply u32_range).
  rewrite decide_False by lia. rewrite Nat2Z.id.
  destruct (recv_chunks_healthy (length payload) (length payload) s1) as (s2 & -> & Hs2 & Hd2);
    [lia|done|rewrite Hd1, length_app; lia|].
  exists s2. rewrite Hd2, Hd1. by rewrite take_app_length, drop_app_length.
Qed.

Lemma send_all_prefix answers data :
  (send_all answers data).1 `prefix_of` data ∧
  ((send_all answers data).2 = SendDone → (send_all answers data).1 = data).
Proof.
  revert data. induction answers as [|[[|n]|[] []|] answers IH]; intros data; simpl;
    case_decide as Hd; subst; try (split; [apply prefix_nil|done]).
  - destruct (IH (drop (S n) data)) as (Hk & Hdone).
    destruct (send_all answers (drop (S n) data)) as [out r]. simpl in *. split.
    + rewrite <-(take_drop (S n) data) at 2. by apply prefix_app.
    + intros ->. rewrite Hdone by done. apply take_drop.
  - apply IH.
Qed.

(** ** Properties *)

(** Framing round trip: from the bytes of any sequence of frames, whatever follows
    them, the reader takes exactly the payload of the first one and leaves the rest, as
    long as the payload is not empty and within the bound; a payload over the bound, or
    an empty one, is refused; a proper prefix of a frame is waited on. *)
Lemma frame_roundtrip payload max rest :
  Z.of_nat (length payload) < 2 ^ 32 →
  async_read_frame max (make_frame payload ++ rest) =
    (if decide (payload = [] ∨ Z.of_nat (length payload) > max) then MessageSize
     else Frame payload rest) ∧
  (∀ n, (n < length (make_frame payload))%nat →
     async_read_frame max (take n (make_frame payload)) = Pending ∨
     async_read_frame max (take n (make_frame payload)) = MessageSize ∧
     (payload = [] ∨ Z.of_nat (length payload) > max)).
Proof.
  intros Hlen. assert (∀ l, async_read_frame max (make_frame payload ++ l) =
      if decide (payload = [] ∨ Z.of_nat (length payload) > max) then MessageSize
      else Frame payload l) as Hfull.
  { intros l. unfold async_read_frame, make_frame. rewrite <-app_assoc.
    rewrite decide_False by (rewrite length_app, frame_header_length; lia).
    rewrite take_app_length', drop_app_length', decode_encode by (done || apply u32_range).
    rewrite u32_id by lia.
    destruct (decide (payload = [] ∨ _)) as [Hbad|Hgood].
    - rewrite decide_True; [done|]. destruct Hbad as [->|?]; [by left|by right].
    - rewrite decide_False, decide_False.
      + by rewrite Nat2Z.id, take_app_length, drop_app_length.
      + rewrite length_app. lia.
      + intros [H0|?]; [|by destruct Hgood; right]. destruct Hgood. left.
        apply length_zero_iff_nil. lia. }
  split; [apply Hfull|]. intros n Hn. unfold make_frame in Hn.
  rewrite length_app, frame_header_length in Hn.
  destruct (decide (n < 4)%nat) as [Hshort|Hshort].
  { left. unfold async_read_frame. rewrite decide_True; [done|]. rewrite length_take. lia. }
  assert (async_read_frame max (take n (make_frame payload)) =
    if decide (Z.of_nat (length payload) = 0 ∨ Z.of_nat (length payload) > max)
    then MessageSize else Pending) as ->.
  { unfold async_read_frame.
    rewrite decide_False by (rewrite length_take; unfold make_frame;
      rewrite length_app, frame_header_length; lia).
    rewrite take_take, Nat.min_l by lia. rewrite (proj1 (make_frame_split payload)).
    rewrite decode_encode, u32_id by (lia || apply u32_range).
    assert (length (drop 4 (take n (make_frame payload))) < length payload)%nat.
    { rewrite length_drop, length_take. unfold make_frame.
      rewrite length_app, frame_header_length. lia. }
    repeat case_decide; done || lia. }
  match goal with |- context [if ?d then _ else _] => destruct d as [Hb|Hb] end;
    [right|by left]. split; [done|].
  destruct Hb as [?|?]; [left|by right]. apply length_zero_iff_nil. lia.
Qed.

(** C23 [recv_raw] does not depend on how the network cuts the stream: from a healthy
    connection that delivers a frame within the bound, in pieces of any size, it returns
    the payload and leaves the socket at the byte after it. *)
Theorem recv_raw_any_segmentation max s payload rest :
  healthy s → delivered s = make_frame payload ++ rest →
  0 < Z.of_nat (length payload) ≤ max → Z.of_nat (length payload) < 2 ^ 32 →
  ∃ s', recv_raw max s = Ok (payload, s') ∧ healthy s' ∧ delivered s' = rest.
Proof. apply recv_raw_healthy. Qed.

(** [recv_raw] ends on every connection, however hostile: it throws, or returns a
    payload of between one and [max] bytes, so that no more than that is ever allocated. *)
Lemma recv_raw_bounded max s :
  (∃ w, recv_raw max s = Throw w) ∨
  ∃ payload s', recv_raw max s = Ok (payload, s') ∧ 0 < Z.of_nat (length payload) ≤ max.
Proof.
  unfold recv_raw, recv_all.
  destruct (recv_all_loop_total 4 4 s) as [(bs & s1 & -> & Hl)|[w ->]]; [lia| |by left; exists w].
  cbn [mbind exc_bind]. set (n := decode_frame_length bs).
  assert (0 ≤ n) as Hn.
  { unfold n, decode_frame_length. do 5 (destruct bs as [|? bs]; try done).
    rewrite !Z.lor_nonneg. unfold of_byte. rewrite !Z.shiftl_nonneg. lia. }
  case_decide as Hb; [left; by eexists|].
  destruct (recv_chunks_total (Z.to_nat n) (Z.to_nat n) s1) as [(p & s2 & -> & Hp)|[w ->]];
    [lia| |left; by exists w].
  right. exists p, s2. split; [done|]. rewrite Hp. lia.
Qed.

(** What [send_json] puts on the wire is always a prefix of the frame of its text, and
    the whole frame when it returns, however the operating system splits the writes; the
    peer then reads the text back. *)
Lemma send_json_frame answers1 answers2 json max :
  let '(out, r) := send_json answers1 answers2 json in
  out `prefix_of` make_frame json ∧
  (r = SendDone → out = make_frame json ∧
     (0 < Z.of_nat (length json) ≤ max → Z.of_nat (length json) < 2 ^ 32 →
      ∀ s, healthy s → delivered s = out →
      ∃ s', recv_raw max s = Ok (json, s') ∧ delivered s' = [])).
Proof.
  unfold send_json. fold (make_frame json). set (h := encode_frame_length _).
  destruct (send_all_prefix answers1 h) as (Hk1 & Hd1).
  destruct (send_all answers1 h) as [out1 r1]. simpl in *.
  destruct r1; try (split; [by apply prefix_app_r|done]).
  specialize (Hd1 eq_refl). subst out1.
  destruct (send_all_prefix answers2 json) as (Hk2 & Hd2).
  destruct (send_all answers2 json) as [out2 r2]. cbn [fst snd] in *.
  split; [by apply (prefix_app h)|]. intros ->. rewrite Hd2 by done. split; [done|].
  intros Hlen Hmax s Hs Hdel.
  destruct (recv_raw_healthy max s json []) as (s' & ? & _ & ?); [done| |done|done|eauto].
  by rewrite app_nil_r.
Qed.
