(* ===== verification/Bus.v ===== *)
(** * The message bus (src/core/bus.cpp)

    [BusService] routes messages between the sessions of registered processes, and
    [BusSession] writes its frames one at a time.  The handlers of a session run one
    after the other on its strand; a handler is one transition here.  What asio owes the
    sessions - the tasks posted to a strand, an outstanding read or write, a heartbeat
    that travels to the supervisor - is part of the state.  Parsing and [dump] are those
    of the JSON library: parameters. *)

From S2P Require Import Prelude Json Framing.

(** ** Data *)

Inductive strand_task :=
  | EnqueueFrame (frame : bytes)   (* the closure posted by [enqueue_json] *)
  | Close.                         (* the closure posted by [close] *)

Record BusSession := {
  write_queue_ : list bytes;
  registered_pid_ : Z;
  registered_tree_id_ : string;
  registered_tree_root_ : bool;
  closed_ : bool;
  strand_ : list strand_task;
  reading : bool;                  (* an [async_read_frame] is outstanding *)
  writing : option bytes;          (* the frame of the outstanding [async_write] *)
  wire : list bytes;               (* the frames written so far *)
}.

Definition new_session : BusSession := {|
  write_queue_ := []; registered_pid_ := -1; registered_tree_id_ := "";
  registered_tree_root_ := false; closed_ := false; strand_ := []; reading := false;
  writing := None; wire := [] |}.

Record Bus := {
  sessions : gmap nat BusSession;  (* every [BusSession] object, by identity *)
  pid_sessions_ : gmap Z nat;
  tree_root_pid_map_ : gmap string Z;
  heartbeats : list (nat * json);  (* heartbeats on their way to the supervisor *)
  running_ : bool;
}.

Definition Bus_init : Bus := {|
  sessions := ∅; pid_sessions_ := ∅; tree_root_pid_map_ := ∅; heartbeats := [];
  running_ := true |}.

(** ** Stores *)

Definition set_queue (q : list bytes) (s : BusSession) : BusSession := {|
  write_queue_ := q; registered_pid_ := registered_pid_ s;
  registered_tree_id_ := registered_tree_id_ s;
  registered_tree_root_ := registered_tree_root_ s; closed_ := closed_ s;
  strand_ := strand_ s; reading := reading s; writing := writing s; wire := wire s |}.

Definition set_registration (pid : Z) (tree_id : string) (root : bool) (s : BusSession) :
    BusSession := {|
  write_queue_ := write_queue_ s; registered_pid_ := pid; registered_tree_id_ := tree_id;
  registered_tree_root_ := root; closed_ := closed_ s; strand_ := strand_ s;
  reading := reading s; writing := writing s; wire := wire s |}.

Definition set_closed (s : BusSession) : BusSession := {|
  write_queue_ := []; registered_pid_ := registered_pid_ s;
  registered_tree_id_ := registered_tree_id_ s;
  registered_tree_root_ := registered_tree_root_ s; closed_ := true;
  strand_ := strand_ s; reading := reading s; writing := writing s; wire := wire s |}.

Definition set_strand (l : list strand_task) (s : BusSession) : BusSession := {|
  write_queue_ := write_queue_ s; registered_pid_ := registered_pid_ s;
  registered_tree_id_ := registered_tree_id_ s;
  registered_tree_root_ := registered_tree_root_ s; closed_ := closed_ s;
  strand_ := l; reading := reading s; writing := writing s; wire := wire s |}.

Definition set_reading (b : bool) (s : BusSession) : BusSession := {|
  write_queue_ := write_queue_ s; registered_pid_ := registered_pid_ s;
  registered_tree_id_ := registered_tree_id_ s;
  registered_tree_root_ := registered_tree_root_ s; closed_ := closed_ s;
  strand_ := strand_ s; reading := b; writing := writing s; wire := wire s |}.

Definition set_writing (w : option bytes) (done : list bytes) (s : BusSession) :
    BusSession := {|
  write_queue_ := write_queue_ s; registered_pid_ := registered_pid_ s;
  registered_tree_id_ := registered_tree_id_ s;
  registered_tree_root_ := registered_tree_root_ s; closed_ := closed_ s;
  strand_ := strand_ s; reading := reading s; writing := w; wire := done |}.

Definition with_sessions (f : gmap nat BusSession → gmap nat BusSession) (B : Bus) : Bus := {|
  sessions := f (sessions B); pid_sessions_ := pid_sessions_ B;
  tree_root_pid_map_ := tree_root_pid_map_ B; heartbeats := heartbeats B;
  running_ := running_ B |}.

Definition with_maps (f : gmap Z nat → gmap Z nat) (g : gmap string Z → gmap string Z)
    (B : Bus) : Bus := {|
  sessions := sessions B; pid_sessions_ := f (pid_sessions_ B);
  tree_root_pid_map_ := g (tree_root_pid_map_ B); heartbeats := heartbeats B;
  running_ := running_ B |}.

Definition with_heartbeats (f : list (nat * json) → list (nat * json)) (B : Bus) : Bus := {|
  sessions := sessions B; pid_sessions_ := pid_sessions_ B;
  tree_root_pid_map_ := tree_root_pid_map_ B; heartbeats := f (heartbeats B);
  running_ := running_ B |}.

Definition stopped (B : Bus) : Bus := {|
  sessions := sessions B; pid_sessions_ := ∅; tree_root_pid_map_ := ∅;
  heartbeats := heartbeats B; running_ := false |}.

(** A store to the fields of one session. *)
Definition on_session (sid : nat) (f : BusSession → BusSession) (B : Bus) : Bus :=
  with_sessions (alter f sid) B.

(** ** BusSession: writing *)

(** [enqueue_json] posts to the strand. *)
Definition post (task : strand_task) (s : BusSession) : BusSession :=
  set_strand (strand_ s ++ [task]) s.

Definition enqueue_json (sid : nat) (payload : string) (B : Bus) : Bus :=
  on_session sid (post (EnqueueFrame (make_frame (String.list_ascii_of_string payload)))) B.

Definition close (sid : nat) (B : Bus) : Bus := on_session sid (post Close) B.

Definition write_next (s : BusSession) : BusSession :=
  match write_queue_ s with
  | [] => s
  | frame :: _ => if closed_ s then s else set_writing (Some frame) (wire s) s
  end.

(** The closure of [enqueue_json], on the strand. *)
Definition run_enqueue (frame : bytes) (s : BusSession) : BusSession :=
  let write_in_progress := bool_decide (write_queue_ s ≠ []) in
  let s := set_queue (write_queue_ s ++ [frame]) s in
  if write_in_progress then s else write_next s.

(** ** BusService: the maps *)

Definition unregister_session (sid : nat) (pid : Z) (tree_id : string) (B : Bus) : Bus :=
  if decide (pid ≤ 0) then B
  else
    with_maps
      (λ m, if decide (m !! pid = Some sid) then delete pid m else m)
      (λ m, if decide (tree_id ≠ "" ∧ m !! tree_id = Some pid) then delete tree_id m else m)
      B.

Definition close_on_strand (sid : nat) (B : Bus) : Bus :=
  match sessions B !! sid with
  | None => B
  | Some s =>
      if closed_ s then B
      else unregister_session sid (registered_pid_ s) (registered_tree_id_ s)
             (on_session sid set_closed B)
  end.

(** The completion of [async_write]; popping an empty deque is undefined behaviour. *)
Definition on_write_done (sid : nat) (failed : bool) (B : Bus) : exc Bus :=
  match sessions B !! sid with
  | None => mret B
  | Some s =>
      match writing s with
      | None => mret B
      | Some frame =>
          if failed
          then mret (on_session sid (set_writing None (wire s)) (close_on_strand sid B))
          else
            match write_queue_ s with
            | [] => UB
            | _ :: queue =>
                mret (on_session sid (λ s, write_next (set_queue queue
                        (set_writing None (wire s ++ [frame]) s))) B)
            end
      end
  end.

(** The strand of a session runs its next task. *)
Definition run_task (sid : nat) (B : Bus) : Bus :=
  match sessions B !! sid with
  | None => B
  | Some s =>
      match strand_ s with
      | [] => B
      | task :: tasks =>
          let B := on_session sid (set_strand tasks) B in
          match task with
          | EnqueueFrame frame => on_session sid (run_enqueue frame) B
          | Close => close_on_strand sid B
          end
      end
  end.

(** A handler. *)
Abbreviation M := (ST Bus).

Section bus.
Context (parse : string → exc json) (dump : json → exc string).

Definition session_of (sid : nat) (B : Bus) : BusSession :=
  default new_session (sessions B !! sid).

(** ** BusService: the messages *)

Definition register_session (sid : nat) (msg : json) : M () :=
  registered_pid ← lift (value_int msg "pid" (-1));
  if decide (registered_pid ≤ 0) then mret tt
  else
    modify (with_maps (<[registered_pid := sid]>) id);;
    tree_id ← lift (value_string msg "tree_id" "");
    is_root ← lift (value_bool msg "is_root" false);
    (if is_root && bool_decide (tree_id ≠ "")
     then modify (with_maps id (<[tree_id := registered_pid]>)) else mret tt);;
    text ← lift (dump (JObject [("status", JString "ok")]));
    modify (enqueue_json sid text).

Definition resolve_target_pid (msg : json) (requested_target_pid : Z) : M Z :=
  if decide (requested_target_pid ≠ -1) then mret requested_target_pid
  else
    roots ← gets tree_root_pid_map_;
    match roots !! "TREE_HANDLER" with
    | Some pid => mret pid
    | None =>
        tree_id ← lift (value_string msg "tree_id" "");
        mret (default (-1) (roots !! tree_id))
    end.

(** The message that is pushed: a copy with two fields overwritten. *)
Definition push_of (source_pid : Z) (msg : json) : exc json :=
  m ← set_field "message_type" (JString "IPM_PUSH") msg;
  set_field "source_pid" (JInt source_pid) m.

Definition relay_message (source_pid target_pid : Z) (msg : json) : M () :=
  targets ← gets pid_sessions_;
  match targets !! target_pid with
  | Some target =>
      push_msg ← lift (push_of source_pid msg);
      text ← lift (dump push_msg);
      modify (enqueue_json target text)
  | None => mret tt
  end.

(** [forward_heartbeat_to_supervisor]: the connection is started; its outcome comes
    later.  [invalid_host] says that the configured host is not an address. *)
Definition forward_heartbeat (invalid_host : bool) (sid : nat) (heartbeat : json) : M () :=
  _ ← lift (dump heartbeat);
  if invalid_host then
    _ ← lift (value_int heartbeat "pid" (-1));
    text ← lift (dump (error_response "supervisor_unreachable"));
    modify (enqueue_json sid text)
  else
    modify (with_heartbeats (λ l, l ++ [(sid, heartbeat)])).

Definition bus_handle_message (invalid_host : bool) (sid : nat) (msg : json) : M () :=
  msg_type ← lift (value_string msg "message_type" "");
  if decide (msg_type = "BUS_REGISTER") then register_session sid msg
  else if decide (msg_type = "IPM_RELAY") then
    requested_target_pid ← lift (value_int msg "target_pid" (-1));
    target_pid ← resolve_target_pid msg requested_target_pid;
    if decide (target_pid > 0) then
      source_pid ← gets (λ B, registered_pid_ (session_of sid B));
      relay_message source_pid target_pid msg
    else mret tt
  else if decide (msg_type = "HEARTBEAT") then forward_heartbeat invalid_host sid msg
  else mret tt.

(** ** BusSession: reading *)

(** The stores of [handle_payload] to its own fields, in order. *)
Definition store_registration (sid : nat) (msg : json) : M () :=
  let field f := modify (on_session sid f) in
  pid ← lift (value_int msg "pid" (-1));
  field (λ s, set_registration pid (registered_tree_id_ s) (registered_tree_root_ s) s);;
  tree_id ← lift (value_string msg "tree_id" "");
  field (λ s, set_registration (registered_pid_ s) tree_id (registered_tree_root_ s) s);;
  root ← lift (value_bool msg "is_root" false);
  field (λ s, set_registration (registered_pid_ s) (registered_tree_id_ s) root s).

Definition handle_payload_body (invalid_host : bool) (sid : nat) (payload : string) : M () :=
  msg ← lift (parse payload);
  msg_type ← lift (value_string msg "message_type" "");
  (if decide (msg_type = "BUS_REGISTER") then store_registration sid msg else mret tt);;
  bus_handle_message invalid_host sid msg.

(** Any exception closes the session. *)
Definition handle_payload (invalid_host : bool) (sid : nat) (payload : string) (B : Bus) :
    exc Bus :=
  match handle_payload_body invalid_host sid payload B with
  | (Ok _, B) => Ok B
  | (Throw _, B) => Ok (close_on_strand sid B)
  | (UB, _) => UB
  end.

(** The completion of [async_read_frame]: an error closes the session; otherwise the
    payload is handled and the next read starts, unless the session was closed. *)
Definition on_read (invalid_host : bool) (sid : nat) (result : option string) (B : Bus) :
    exc Bus :=
  let B := on_session sid (set_reading false) B in
  match result with
  | None => mret (close_on_strand sid B)
  | Some payload =>
      B ← handle_payload invalid_host sid payload B;
      mret (on_session sid (λ s, if closed_ s then s else set_reading true s) B)
  end.

(** A heartbeat comes back from the supervisor with its reply, or fails; in that case
    the log line reads the pid of the message, outside of any [try]. *)
Definition on_heartbeat_done (i : nat) (reply : option string) (B : Bus) : exc Bus :=
  match heartbeats B !! i with
  | None => mret B
  | Some (sid, heartbeat) =>
      let B := with_heartbeats (delete i) B in
      match reply with
      | Some payload => mret (enqueue_json sid payload B)
      | None =>
          _ ← value_int heartbeat "pid" (-1);
          text ← dump (error_response "supervisor_unreachable");
          mret (enqueue_json sid text B)
      end
  end.

(** [accept_next] has a connection: a session that starts reading. *)
Definition accept (sid : nat) (B : Bus) : Bus :=
  with_sessions (<[sid := set_reading true new_session]>) B.

(** [stop]: the registered sessions are asked to close. *)
Definition stop_bus (B : Bus) : Bus :=
  if running_ B
  then foldr close (stopped B) ((map_to_list (pid_sessions_ B)).*2)
  else B.

(** ** Transitions

    [Throw] is an exception that leaves a handler into [io_context::run], which ends
    the process; [UB] is undefined behaviour. *)

Inductive bus_step : Bus → exc Bus → Prop :=
  | bus_accept B sid : running_ B = true → sessions B !! sid = None → bus_step B (Ok (accept sid B))
  | bus_read B sid s invalid_host result :
      sessions B !! sid = Some s → reading s = true →
      bus_step B (on_read invalid_host sid result B)
  | bus_write_done B sid s frame failed :
      sessions B !! sid = Some s → writing s = Some frame →
      bus_step B (on_write_done sid failed B)
  | bus_task B sid s task tasks :
      sessions B !! sid = Some s → strand_ s = task :: tasks →
      bus_step B (Ok (run_task sid B))
  | bus_heartbeat B i reply : bus_step B (on_heartbeat_done i reply B)
  | bus_stop B : bus_step B (Ok (stop_bus B)).

Definition bus_reachable (B : Bus) : Prop :=
  rtc (λ B B', bus_step B (Ok B')) Bus_init B.
End bus.

(** ** The channel of a session *)

(** The frames of the tasks waiting on a strand, in order. *)
Definition posted_frames (l : list strand_task) : list bytes :=
  omap (λ t, match t with EnqueueFrame f => Some f | Close => None end) l.

(** Every frame given to [enqueue_json] of a session that is open, in order. *)
Definition history (s : BusSession) : list bytes :=
  wire s ++ write_queue_ s ++ posted_frames (strand_ s).

(** One write at a time: of the first frame of the queue, whenever there is one. *)
Definition session_wf (s : BusSession) : Prop :=
  closed_ s = false → writing s = head (write_queue_ s).

(** How a session may evolve: what was written stays written, a closed session stays
    closed, and an open one loses, duplicates and reorders nothing. *)
Record session_le (s s' : BusSession) : Prop := {
  le_wire : wire s `prefix_of` wire s';
  le_closed : closed_ s = true → closed_ s' = true;
  le_history : closed_ s' = false → history s `prefix_of` history s';
}.

Record bus_wf (B : Bus) : Prop := {
  wf_sessions sid s : sessions B !! sid = Some s → session_wf s;
  wf_pids pid sid : pid_sessions_ B !! pid = Some sid → is_Some (sessions B !! sid);
}.

Definition evolves (B B' : Bus) : Prop :=
  ∀ sid s, sessions B !! sid = Some s →
    ∃ s', sessions B' !! sid = Some s' ∧ session_le s s'.

(** ** Lemmas *)

#[export] Instance session_le_preorder : PreOrder session_le.
Proof.
  split; [by intros s|]. intros s1 s2 s3 [] []. constructor; [by etrans|auto|].
  intros H3. etrans; [|by auto]. apply le_history0.
  destruct (closed_ s2); [|done]. by rewrite le_closed1 in H3.
Qed.

#[export] Instance evolves_preorder : PreOrder evolves.
Proof.
  split; [intros B sid s Hs; by exists s|].
  intros B1 B2 B3 H12 H23 sid s Hs. destruct (H12 _ _ Hs) as (s2 & Hs2 & ?).
  destruct (H23 _ _ Hs2) as (s3 & Hs3 & ?). exists s3. split; [done|by etrans].
Qed.

Lemma on_session_lookup sid f B sid' :
  sessions (on_session sid f B) !! sid' =
    (if decide (sid = sid') then f <$> sessions B !! sid' else sessions B !! sid').
Proof.
  unfold on_session, with_sessions. simpl. rewrite lookup_alter.
  by case_decide; subst.
Qed.

(** A store to one session that respects its discipline. *)
Lemma on_session_good sid f B :
  (∀ s, sessions B !! sid = Some s → session_wf s → session_wf (f s) ∧ session_le s (f s)) →
  bus_wf B → bus_wf (on_session sid f B) ∧ evolves B (on_session sid f B).
Proof.
  intros Hf [Hs Hp]. split.
  - split.
    + intros sid' s'. rewrite on_session_lookup. case_decide; subst; [|by eauto].
      intros (s & Hss & ->)%fmap_Some. by apply Hf; eauto.
    + intros pid sid' Hpid. rewrite on_session_lookup. destruct (Hp pid sid' Hpid) as [s ->].
      case_decide; simpl; eauto.
  - intros sid' s' Hs'. rewrite on_session_lookup. case_decide; subst.
    + rewrite Hs'. simpl. eexists. split; [done|]. by apply Hf; eauto.
    + by exists s'.
Qed.

Lemma session_le_untouched s s' :
  write_queue_ s' = write_queue_ s → wire s' = wire s → closed_ s' = closed_ s →
  posted_frames (strand_ s) `prefix_of` posted_frames (strand_ s') → session_le s s'.
Proof.
  intros Hq Hw Hc Hp. constructor; [by rewrite Hw|by rewrite Hc|].
  intros _. unfold history. rewrite Hq, Hw. by do 2 apply prefix_app.
Qed.

Lemma posted_frames_app l1 l2 :
  posted_frames (l1 ++ l2) = posted_frames l1 ++ posted_frames l2.
Proof. apply omap_app. Qed.

(** Stores that leave the queue, the write and the flag alone. *)
Lemma untouched_good sid f B :
  (∀ s, write_queue_ (f s) = write_queue_ s ∧ wire (f s) = wire s ∧
        closed_ (f s) = closed_ s ∧ writing (f s) = writing s ∧
        posted_frames (strand_ s) `prefix_of` posted_frames (strand_ (f s))) →
  bus_wf B → bus_wf (on_session sid f B) ∧ evolves B (on_session sid f B).
Proof.
  intros Hf. apply on_session_good. intros s _ Hwf. destruct (Hf s) as (Hq & Hw & Hc & Hwr & Hp).
  split; [|by apply session_le_untouched].
  intros Hopen. rewrite Hwr, Hq. apply Hwf. by rewrite <-Hc.
Qed.

Lemma enqueue_json_good sid payload B :
  bus_wf B → bus_wf (enqueue_json sid payload B) ∧ evolves B (enqueue_json sid payload B).
Proof.
  apply untouched_good. intros s. simpl. split_and!; try done.
  rewrite posted_frames_app. by apply prefix_app_r.
Qed.

Lemma close_good sid B : bus_wf B → bus_wf (close sid B) ∧ evolves B (close sid B).
Proof.
  apply untouched_good. intros s. simpl. split_and!; try done.
  rewrite posted_frames_app. by apply prefix_app_r.
Qed.

(** Stores to the maps that only forget entries. *)
Lemma with_maps_good f g B :
  (∀ pid sid, f (pid_sessions_ B) !! pid = Some sid → is_Some (sessions B !! sid)) →
  bus_wf B → bus_wf (with_maps f g B) ∧ evolves B (with_maps f g B).
Proof. intros Hf [Hs Hp]. split; [by split|]. intros sid s ?. by exists s. Qed.

Lemma unregister_good sid pid tree B :
  bus_wf B →
  bus_wf (unregister_session sid pid tree B) ∧ evolves B (unregister_session sid pid tree B).
Proof.
  intros Hwf. unfold unregister_session. case_decide; [done|].
  apply with_maps_good; [|done]. intros pid' sid'. case_decide; [|by apply Hwf].
  intros [_ ?]%lookup_delete_Some. by eapply wf_pids.
Qed.

Lemma good_trans B1 B2 B3 :
  bus_wf B2 ∧ evolves B1 B2 → (bus_wf B2 → bus_wf B3 ∧ evolves B2 B3) →
  bus_wf B3 ∧ evolves B1 B3.
Proof. intros [H1 H2] H3. destruct (H3 H1). split; [done|by etrans]. Qed.

Lemma close_on_strand_good sid B :
  bus_wf B → bus_wf (close_on_strand sid B) ∧ evolves B (close_on_strand sid B).
Proof.
  intros Hwf. unfold close_on_strand. destruct (sessions B !! sid) as [s|] eqn:Hs; [|done].
  destruct (closed_ s) eqn:Hc; [done|].
  eapply good_trans; [|apply unregister_good].
  apply on_session_good; [|done]. intros s' _ _. split; [done|].
  by constructor.
Qed.

Lemma run_enqueue_good frame s :
  session_wf s →
  session_wf (run_enqueue frame s) ∧
  write_queue_ (run_enqueue frame s) = write_queue_ s ++ [frame] ∧
  wire (run_enqueue frame s) = wire s ∧ closed_ (run_enqueue frame s) = closed_ s ∧
  strand_ (run_enqueue frame s) = strand_ s.
Proof.
  intros Hwf. unfold run_enqueue, write_next. case_bool_decide as Hq; simpl.
  - split_and!; try done. intros Hc. simpl. rewrite (Hwf Hc).
    by destruct (write_queue_ s).
  - rewrite Hq. simpl.
    destruct (closed_ s) eqn:Hc; simpl; rewrite ?Hc; split_and!; try done.
    intros Hc'. simpl in Hc'. congruence.
Qed.

Lemma run_task_good sid B : bus_wf B → bus_wf (run_task sid B) ∧ evolves B (run_task sid B).
Proof.
  intros Hwf. unfold run_task. destruct (sessions B !! sid) as [s|] eqn:Hs; [|done].
  destruct (strand_ s) as [|[frame|] tasks] eqn:Hstrand; [done| |].
  - assert (on_session sid (run_enqueue frame) (on_session sid (set_strand tasks) B) =
            on_session sid (λ s, run_enqueue frame (set_strand tasks s)) B) as ->.
    { unfold on_session, with_sessions. simpl. f_equal. by rewrite alter_alter_eq. }
    apply on_session_good; [|done]. intros s' Hs' Hswf. simplify_eq.
    destruct (run_enqueue_good frame (set_strand tasks s)) as (H1 & Hq & Hw & Hc & Hst);
      [done|]. split; [done|].
    constructor; [by rewrite Hw|by rewrite Hc|].
    intros _. unfold history. rewrite Hq, Hw, Hst. simpl. rewrite Hstrand. simpl.
    by rewrite <-!(assoc_L (++)).
  - eapply good_trans; [|apply close_on_strand_good].
    apply on_session_good; [|done]. intros s' Hs' Hswf. simplify_eq. split; [done|].
    apply session_le_untouched; simpl; rewrite ?Hstrand; done.
Qed.

Lemma unregister_sessions sid pid tree B :
  sessions (unregister_session sid pid tree B) = sessions B.
Proof. unfold unregister_session. by case_decide. Qed.

Lemma close_on_strand_lookup sid B s :
  sessions B !! sid = Some s →
  sessions (close_on_strand sid B) !! sid = Some (if closed_ s then s else set_closed s).
Proof.
  intros Hs. unfold close_on_strand. rewrite Hs. destruct (closed_ s); [done|].
  rewrite unregister_sessions, on_session_lookup, decide_True, Hs by done. done.
Qed.

Lemma write_next_fields s :
  write_queue_ (write_next s) = write_queue_ s ∧ wire (write_next s) = wire s ∧
  closed_ (write_next s) = closed_ s ∧ strand_ (write_next s) = strand_ s ∧
  (closed_ s = false → writing s = None → session_wf (write_next s)).
Proof.
  unfold write_next. destruct (write_queue_ s) as [|f q] eqn:Hq.
  - split_and!; try done. intros _ Hw _. by rewrite Hw, Hq.
  - destruct (closed_ s) eqn:Hc; [done|]. split_and!; try done. intros _ _ _. simpl. by rewrite Hq.
Qed.

(** A write that completes on a closed session leaves it closed. *)
Lemma write_done_session_good s frame rest :
  session_wf s → writing s = Some frame → (closed_ s = false → write_queue_ s = frame :: rest) →
  let s' := write_next (set_queue (tail (write_queue_ s)) (set_writing None (wire s ++ [frame]) s)) in
  session_wf s' ∧ session_le s s'.
Proof.
  intros Hwf Hw Hq. cbv zeta. set (s0 := set_queue _ _).
  destruct (write_next_fields s0) as (Hq' & Hw' & Hc' & Hst' & Hwf').
  destruct (closed_ s) eqn:Hc.
  - split; [intros Ho; rewrite Hc' in Ho; simpl in Ho; congruence|].
    constructor; [rewrite Hw'; by apply prefix_app_r|by rewrite Hc'|].
    rewrite Hc'. simpl. congruence.
  - split; [by apply Hwf'|].
    constructor; [rewrite Hw'; by apply prefix_app_r|congruence|].
    intros _. unfold history. rewrite Hq', Hw', Hst'. simpl. rewrite (Hq eq_refl). simpl.
    by rewrite <-!(assoc_L (++)).
Qed.

Lemma on_write_done_good sid failed B B' :
  bus_wf B → on_write_done sid failed B = Ok B' → bus_wf B' ∧ evolves B B'.
Proof.
  intros Hwf H. unfold on_write_done in H.
  destruct (sessions B !! sid) as [s|] eqn:Hs; [|by injection H as <-].
  destruct (writing s) as [frame|] eqn:Hw; [|by injection H as <-].
  destruct failed.
  - injection H as <-. eapply good_trans; [by apply close_on_strand_good|].
    apply on_session_good. intros s' Hs' _. rewrite (close_on_strand_lookup _ _ _ Hs) in Hs'.
    assert (closed_ s' = true ∧ wire s' = wire s) as [Hc' Hw'].
    { simplify_eq. by destruct (closed_ s) eqn:?. }
    split; [by intros ?; simplify_eq/=; congruence|].
    apply session_le_untouched; simpl; done.
  - destruct (write_queue_ s) as [|f queue] eqn:Hq; [done|]. injection H as <-.
    apply on_session_good; [|done]. intros s' Hs' Hswf. simplify_eq.
    destruct (write_done_session_good s frame queue) as [? ?]; [done|done| |].
    { intros Hc. specialize (Hswf Hc). rewrite Hq, Hw in *. simpl in Hswf. by simplify_eq. }
    by rewrite Hq in *.
Qed.

(** *** Computations of a handler of session [sid] *)

Definition M_good {A} (sid : nat) (m : M A) : Prop :=
  ∀ B, bus_wf B → is_Some (sessions B !! sid) → bus_wf (m B).2 ∧ evolves B (m B).2.

Lemma evolves_is_Some B B' sid : evolves B B' → is_Some (sessions B !! sid) →
  is_Some (sessions B' !! sid).
Proof. intros He [s Hs]. destruct (He _ _ Hs) as (s' & ? & _). eauto. Qed.

Lemma M_good_ret {A} sid (a : A) : M_good sid (mret a).
Proof. intros B Hwf _. by split. Qed.

Lemma M_good_lift {A} sid (e : exc A) : M_good sid (lift e).
Proof. intros B Hwf _. by split. Qed.

Lemma M_good_gets {A} sid (f : Bus → A) : M_good sid (gets f).
Proof. intros B Hwf _. by split. Qed.

Lemma M_good_bind {A C} sid (m : M A) (f : A → M C) :
  M_good sid m → (∀ a, M_good sid (f a)) → M_good sid (m ≫= f).
Proof.
  intros Hm Hf B Hwf Hsid. destruct (Hm B Hwf Hsid) as [Hwf1 He1].
  unfold mbind, ST_bind. destruct (m B) as [[a|w|] B1]; simpl in *; [|done..].
  destruct (Hf a B1 Hwf1) as [? ?]; [by eapply evolves_is_Some|].
  split; [done|by etrans].
Qed.

Lemma M_good_modify sid f :
  (∀ B, bus_wf B → is_Some (sessions B !! sid) → bus_wf (f B) ∧ evolves B (f B)) →
  M_good sid (modify f).
Proof. intros Hf B Hwf Hsid. by apply Hf. Qed.

Lemma M_good_enqueue sid target text : M_good sid (modify (enqueue_json target text)).
Proof. apply M_good_modify. intros. by apply enqueue_json_good. Qed.

Lemma M_good_heartbeats sid f : M_good sid (modify (with_heartbeats f)).
Proof.
  apply M_good_modify. intros B [Hs Hp] _. split; [by split|]. intros sid' s Hs'. by exists s.
Qed.

Lemma M_good_register sid pid g : M_good sid (modify (with_maps (<[pid := sid]>) g)).
Proof.
  apply M_good_modify. intros B Hwf Hsid. apply with_maps_good; [|done].
  intros pid' sid' [[_ <-]|[_ ?]]%lookup_insert_Some; [done|by eapply wf_pids].
Qed.

Lemma M_good_roots sid g : M_good sid (modify (with_maps id g)).
Proof. apply M_good_modify. intros B Hwf _. apply with_maps_good; [|done]. by apply wf_pids. Qed.

Lemma M_good_field sid f :
  (∀ s, ∃ pid tree root, f s = set_registration pid tree root s) →
  M_good sid (modify (on_session sid f)).
Proof.
  intros Hf. apply M_good_modify. intros B Hwf _. apply untouched_good; [|done].
  intros s. destruct (Hf s) as (? & ? & ? & ->). by split_and!.
Qed.

#[export] Hint Resolve M_good_ret M_good_lift M_good_gets M_good_enqueue M_good_heartbeats
  M_good_register M_good_roots : velix.

(** Decompose a handler into its binds and branches. *)
Ltac M_good_tac :=
  repeat first
    [ solve [auto with velix]
    | apply M_good_bind; [|intros ?]
    | case_match
    | case_decide
    | apply M_good_field; intros ?; by do 3 eexists ].

Section handlers.
Context (parse : string → exc json) (dump : json → exc string).

Lemma resolve_target_good sid msg r : M_good sid (resolve_target_pid msg r).
Proof. unfold resolve_target_pid. M_good_tac. Qed.

Lemma bus_handle_message_good ih sid msg :
  M_good sid (bus_handle_message dump ih sid msg).
Proof.
  unfold bus_handle_message, register_session, relay_message, forward_heartbeat.
  pose proof (resolve_target_good sid). M_good_tac.
Qed.

Lemma handle_payload_body_good ih sid payload :
  M_good sid (handle_payload_body parse dump ih sid payload).
Proof.
  unfold handle_payload_body, store_registration. pose proof bus_handle_message_good.
  M_good_tac.
Qed.

Lemma handle_payload_good ih sid payload B B' :
  bus_wf B → is_Some (sessions B !! sid) →
  handle_payload parse dump ih sid payload B = Ok B' → bus_wf B' ∧ evolves B B'.
Proof.
  intros Hwf Hsid H. unfold handle_payload in H.
  pose proof (handle_payload_body_good ih sid payload B Hwf Hsid) as Hg.
  destruct (handle_payload_body _ _ _ _ _ B) as [[a|w|] B1]; simplify_eq/=; [done|].
  eapply good_trans; [exact Hg|]. apply close_on_strand_good.
Qed.

Lemma set_reading_good sid b B :
  bus_wf B → bus_wf (on_session sid (set_reading b) B) ∧
             evolves B (on_session sid (set_reading b) B).
Proof. by apply untouched_good. Qed.

Lemma on_read_good ih sid result B B' :
  bus_wf B → is_Some (sessions B !! sid) →
  on_read parse dump ih sid result B = Ok B' → bus_wf B' ∧ evolves B B'.
Proof.
  intros Hwf Hsid H. unfold on_read in H.
  pose proof (set_reading_good sid false B Hwf) as Hr.
  destruct result as [payload|].
  - apply exc_bind_Ok_inv in H as (B1 & Hp & [= <-]).
    eapply good_trans; [exact Hr|]. intros Hwf1. eapply good_trans.
    + eapply handle_payload_good; [exact Hwf1| |exact Hp].
      eapply evolves_is_Some; [apply Hr|done].
    + apply untouched_good. intros s. destruct (closed_ s) eqn:?; by split_and!.
  - injection H as <-. eapply good_trans; [exact Hr|]. apply close_on_strand_good.
Qed.

Lemma bus_step_good B B' :
  bus_wf B → bus_step parse dump B (Ok B') → bus_wf B' ∧ evolves B B'.
Proof.
  intros Hwf Hs. remember (Ok B') as o eqn:Ho.
  destruct Hs as [B sid _ Hn|B sid s ih result Hs _|B sid s frame failed _ _|B sid s task tasks
    _ _|B i reply|B].
  - injection Ho as <-. split.
    + split.
      * intros sid' s' Hs'. simpl in Hs'.
        apply lookup_insert_Some in Hs' as [[_ <-]|[_ Hs']]; [done|by eapply wf_sessions].
      * intros pid sid' Hp. simpl. apply lookup_insert_is_Some'. right. by eapply wf_pids.
    + intros sid' s' Hs'. exists s'. split; [|done]. simpl.
      rewrite lookup_insert_ne by congruence. done.
  - eapply on_read_good; eauto.
  - by eapply on_write_done_good.
  - injection Ho as <-. by apply run_task_good.
  - unfold on_heartbeat_done in Ho. destruct (heartbeats B !! i) as [[sid hb]|];
      [|by injection Ho as <-].
    assert (bus_wf (with_heartbeats (delete i) B) ∧
            evolves B (with_heartbeats (delete i) B)) as Hg.
    { destruct Hwf. split; [by split|]. intros sid' s Hs'. by exists s. }
    destruct reply as [payload|].
    + injection Ho as <-. eapply good_trans; [exact Hg|]. apply enqueue_json_good.
    + apply exc_bind_Ok_inv in Ho as (? & _ & Ho).
      apply exc_bind_Ok_inv in Ho as (text & _ & [= <-]).
      eapply good_trans; [exact Hg|]. apply enqueue_json_good.
  - injection Ho as <-. unfold stop_bus. destruct (running_ B); [|done].
    assert (bus_wf (stopped B) ∧ evolves B (stopped B)) as Hg.
    { destruct Hwf. split; [by split|]. intros sid' s Hs'. by exists s. }
    induction (map_to_list (pid_sessions_ B)).*2 as [|sid l IH]; [done|].
    simpl. eapply good_trans; [exact IH|]. apply close_good.
Qed.

Lemma bus_wf_init : bus_wf Bus_init.
Proof. split; intros ?? Hl; simpl in Hl; by apply lookup_empty_Some in Hl. Qed.

Lemma bus_wf_reachable B : bus_reachable parse dump B → bus_wf B.
Proof.
  intros Hr. refine (rtc_invariant _ bus_wf _ _ _ Hr bus_wf_init).
  intros x y Hx Hxy. by eapply bus_step_good.
Qed.
End handlers.

(** *** The effect of a relay *)

Lemma resolve_target_state msg r B : (resolve_target_pid msg r B).2 = B.
Proof.
  unfold resolve_target_pid. case_decide; [done|].
  unfold mbind, ST_bind, gets. destruct (tree_root_pid_map_ B !! _); [done|].
  unfold lift. by destruct (value_string msg "tree_id" "").
Qed.

(** What is pushed differs from the message in the two fields that are overwritten. *)
Lemma push_of_spec src msg push :
  push_of src msg = Ok push →
  find push "message_type" = Some (JString "IPM_PUSH") ∧
  find push "source_pid" = Some (JInt src) ∧
  (∀ k, k ≠ "message_type" → k ≠ "source_pid" → find push k = find msg k).
Proof.
  unfold push_of. intros H. apply exc_bind_Ok_inv in H as (m & Hm & H).
  assert (∀ key v j j', set_field key v j = Ok j' →
    find j' key = Some v ∧ ∀ k, k ≠ key → find j' k = find j k) as Hset.
  { intros key v [] j' Hj; simplify_eq/=.
    - rewrite decide_True by done. split; [done|]. intros k Hk. by rewrite decide_False.
    - split; [apply assoc_set_eq|]. intros. by apply assoc_set_ne. }
  destruct (Hset _ _ _ _ Hm) as [Hm1 Hm2]. destruct (Hset _ _ _ _ H) as [H1 H2].
  split_and!; [|done|].
  - by rewrite H2.
  - intros k ??. rewrite H2, Hm2; done.
Qed.

Lemma relay_message_spec dump src pid msg B e B' :
  relay_message dump src pid msg B = (e, B') →
  B' = B ∨ ∃ target push text, pid_sessions_ B !! pid = Some target ∧
    push_of src msg = Ok push ∧ dump push = Ok text ∧ B' = enqueue_json target text B.
Proof.
  unfold relay_message, mbind, mret, ST_bind, ST_ret, gets, lift, modify. intros H.
  destruct (pid_sessions_ B !! pid) as [target|] eqn:Ht; [|by left; simplify_eq].
  destruct (push_of src msg) as [push| |] eqn:Hp; [|by left; simplify_eq..].
  destruct (dump push) as [text| |] eqn:Hd; [|by left; simplify_eq..].
  right. exists target, push, text. by simplify_eq.
Qed.

(** ** Properties *)

Section properties.
Context (parse : string → exc json) (dump : json → exc string).

(** C7 The bus delivers in order: in every reachable state an open session writes the first
    frame of its queue and nothing else, and over any step what an open session was
    given - written, queued, or posted - only grows at the end: no frame is lost,
    duplicated or overtaken.  A closed session stays closed. *)
Theorem bus_fifo B B' :
  bus_reachable parse dump B → bus_step parse dump B (Ok B') →
  (∀ sid s, sessions B !! sid = Some s → session_wf s) ∧ evolves B B'.
Proof.
  intros Hr%bus_wf_reachable Hs. split; [by apply Hr|by eapply bus_step_good].
Qed.

(** The completion of a write on an open session: the frame is on the wire, the next one
    of the queue, if any, starts, and the session's channel is unchanged. *)
Lemma write_done_spec B sid s frame :
  bus_reachable parse dump B → sessions B !! sid = Some s → closed_ s = false →
  writing s = Some frame →
  ∃ B' s' queue, on_write_done sid false B = Ok B' ∧ sessions B' !! sid = Some s' ∧
    write_queue_ s = frame :: queue ∧ write_queue_ s' = queue ∧
    writing s' = head queue ∧ wire s' = wire s ++ [frame] ∧ history s' = history s.
Proof.
  intros Hr%bus_wf_reachable Hs Hc Hw.
  pose proof (wf_sessions _ Hr _ _ Hs Hc) as Hwf. rewrite Hw in Hwf.
  destruct (write_queue_ s) as [|f queue] eqn:Hq; simplify_eq/=.
  unfold on_write_done. rewrite Hs, Hw, Hq.
  eexists _, _, queue. split; [done|]. split.
  { rewrite on_session_lookup, decide_True, Hs by done. done. }
  set (s0 := set_queue queue (set_writing None (wire s ++ [f]) s)).
  destruct (write_next_fields s0) as (Hq' & Hw' & Hc' & Hst' & Hwf').
  split_and!; [done|done| |done|].
  - rewrite (Hwf' Hc eq_refl); [by rewrite Hq'|by rewrite Hc'].
  - unfold history. rewrite Hq', Hw', Hst', Hq. simpl. by rewrite <-(assoc_L (++)).
Qed.

(** Closing a session while its write is outstanding is undefined behaviour: when the
    peer's end of stream is handled before the completion of a write that succeeded,
    the completion pops the queue that the close has emptied. *)
Lemma close_during_write_ub B sid s frame :
  bus_reachable parse dump B → sessions B !! sid = Some s → closed_ s = false →
  reading s = true → writing s = Some frame →
  ∃ B1, bus_step parse dump B (Ok B1) ∧ bus_step parse dump B1 UB.
Proof.
  intros _ Hs Hc Hrd Hw. exists (close_on_strand sid (on_session sid (set_reading false) B)).
  split; [exact (bus_read parse dump B sid s false None Hs Hrd)|].
  assert (sessions (on_session sid (set_reading false) B) !! sid =
          Some (set_reading false s)) as Hs1
    by (rewrite on_session_lookup, decide_True, Hs by done; done).
  pose proof (close_on_strand_lookup _ _ _ Hs1) as Hs2. simpl in Hs2. rewrite Hc in Hs2.
  pose proof (bus_write_done parse dump _ sid _ frame false Hs2 Hw) as Hstep.
  unfold on_write_done in Hstep at 1. rewrite Hs2 in Hstep. simpl in Hstep.
  by rewrite Hw in Hstep.
Qed.

(** A relay cannot be forged: whatever the message claims, and whether or not its
    handling throws, either nothing changes or exactly one frame is posted, to the
    session registered under the resolved pid, and the pushed message is the sender's
    with the type [IPM_PUSH] and the pid the sender registered with. *)
Lemma relay_spec ih sid msg B e B' :
  value_string msg "message_type" "" = Ok "IPM_RELAY" →
  bus_handle_message dump ih sid msg B = (e, B') →
  B' = B ∨
  ∃ pid target push text, pid_sessions_ B !! pid = Some target ∧ 0 < pid ∧
    B' = enqueue_json target text B ∧ dump push = Ok text ∧
    find push "message_type" = Some (JString "IPM_PUSH") ∧
    find push "source_pid" = Some (JInt (registered_pid_ (session_of sid B))) ∧
    (∀ k, k ≠ "message_type" → k ≠ "source_pid" → find push k = find msg k).
Proof.
  intros Hty H.
  unfold bus_handle_message in H.
  unfold mbind, mret, ST_bind, ST_ret, lift, gets in H. rewrite Hty in H. simpl in H.
  destruct (value_int msg "target_pid" (-1)) as [r|w|]; [|by left; simplify_eq..].
  pose proof (resolve_target_state msg r B) as Hres.
  destruct (resolve_target_pid msg r B) as [[pid|w|] B1]; simpl in Hres; subst;
    [|by left; simplify_eq..].
  case_decide as Hpid; [|by left; simplify_eq].
  apply relay_message_spec in H as [->|(target & push & text & Ht & Hp & Hd & ->)];
    [by left|right]. apply push_of_spec in Hp as (? & ? & ?).
  exists pid, target, push, text. split_and!; [done|lia|done..].
Qed.

(** What a registration does: the pid now names this session, whatever it named before,
    the tree's root is this pid if the message says so, the session remembers what it
    registered, and [ok] is posted to it; nothing else changes. *)
Lemma bus_register_spec ih sid s payload msg pid tree root text B :
  sessions B !! sid = Some s →
  parse payload = Ok msg → value_string msg "message_type" "" = Ok "BUS_REGISTER" →
  value_int msg "pid" (-1) = Ok pid → 0 < pid →
  value_string msg "tree_id" "" = Ok tree → value_bool msg "is_root" false = Ok root →
  dump (JObject [("status", JString "ok")]) = Ok text →
  handle_payload parse dump ih sid payload B =
    Ok (enqueue_json sid text
          (with_maps (<[pid := sid]>)
             (λ m, if root && bool_decide (tree ≠ "") then <[tree := pid]> m else m)
             (on_session sid (set_registration pid tree root) B))).
Proof.
  intros Hs Hp Hty Hpid Hpos Htree Hroot Hd.
  unfold handle_payload, handle_payload_body, store_registration, bus_handle_message,
    register_session, mbind, ST_bind, lift, modify. rewrite Hp, Hty. simpl.
  rewrite Hpid, Htree, Hroot. simpl. rewrite decide_False by lia.
  destruct (root && bool_decide (tree ≠ "")); simpl; rewrite Hd.
  all: unfold enqueue_json, on_session, with_sessions, with_maps; simpl.
  all: by rewrite !alter_alter_eq.
Qed.

(** Closing a session only withdraws its own registration: the pid it registered with
    is forgotten if it still names this session, and kept if another session has
    registered it since; every other pid, and every other session, is untouched. *)
Lemma close_unregisters B sid s :
  sessions B !! sid = Some s → closed_ s = false →
  let B' := close_on_strand sid B in
  sessions B' = <[sid := set_closed s]> (sessions B) ∧
  (∀ pid, pid_sessions_ B' !! pid =
     if decide (pid = registered_pid_ s ∧ 0 < pid ∧ pid_sessions_ B !! pid = Some sid)
     then None else pid_sessions_ B !! pid).
Proof.
  intros Hs Hc B'. subst B'. unfold close_on_strand. rewrite Hs, Hc.
  rewrite unregister_sessions. split.
  { unfold on_session, with_sessions. simpl. apply map_eq. intros i.
    rewrite lookup_alter, lookup_insert. case_decide; subst; [by rewrite Hs|done]. }
  intros pid. unfold unregister_session. case_decide as Hpos.
  { rewrite decide_False; [done|]. intros (-> & ? & _). lia. }
  simpl. case_decide as Hm.
  - rewrite lookup_delete. repeat case_decide; subst; try done; [|naive_solver].
    exfalso. naive_solver lia.
  - rewrite decide_False; [done|]. by intros (-> & _ & ?).
Qed.

(** A reconnected root is lost: when a process has registered again on a new
    connection, closing the old one, which is what follows, deletes its tree's root
    entry, which is compared by pid and not by session; from then on messages to the
    root of the handler's tree are dropped although its session is open and
    registered. *)
Lemma stale_close_drops_root B old new s pid msg :
  sessions B !! old = Some s → closed_ s = false → registered_pid_ s = pid → 0 < pid →
  registered_tree_id_ s = "TREE_HANDLER" → old ≠ new →
  pid_sessions_ B !! pid = Some new → tree_root_pid_map_ B !! "TREE_HANDLER" = Some pid →
  find msg "tree_id" = Some (JString "TREE_HANDLER") →
  let B' := close_on_strand old B in
  resolve_target_pid msg (-1) B = (Ok pid, B) ∧
  sessions B' !! new = sessions B !! new ∧ pid_sessions_ B' !! pid = Some new ∧
  resolve_target_pid msg (-1) B' = (Ok (-1), B').
Proof.
  intros Hs Hc Hpid Hpos Htree Hne Hnew Hroot Hmsg B'.
  assert (tree_root_pid_map_ B' !! "TREE_HANDLER" = None) as Hr'.
  { unfold B', close_on_strand. rewrite Hs, Hc. unfold unregister_session.
    rewrite decide_False by lia. simpl. rewrite Htree, Hpid, decide_True by done.
    by rewrite lookup_delete_eq. }
  destruct (close_unregisters B old s Hs Hc) as [Hss Hps]. fold B' in Hss, Hps.
  unfold resolve_target_pid. simpl. split_and!.
  - unfold mbind, ST_bind, gets. by rewrite Hroot.
  - by rewrite Hss, lookup_insert_ne.
  - rewrite Hps, decide_False; [done|]. intros (_ & _ & ?). congruence.
  - unfold mbind, ST_bind, gets, lift. rewrite Hr'.
    destruct msg as [| | | | | |kvs]; try done. simpl in *. rewrite Hmsg. simpl. by rewrite Hr'.
Qed.

(** A heartbeat can end the bus: once a heartbeat whose pid is not a number is
    accepted, a failure to reach the supervisor throws outside of any handler. *)
Lemma heartbeat_crash B sid s payload msg txt :
  bus_reachable parse dump B → sessions B !! sid = Some s → reading s = true →
  parse payload = Ok msg → value_string msg "message_type" "" = Ok "HEARTBEAT" →
  find msg "pid" = Some (JString txt) → (∃ text, dump msg = Ok text) →
  ∃ B1 w, bus_step parse dump B (Ok B1) ∧ bus_step parse dump B1 (Throw w).
Proof.
  intros _ Hs Hrd Hp Hty Hpid [text Hd].
  pose proof (bus_read parse dump B sid s false (Some payload) Hs Hrd) as Hstep.
  unfold on_read, handle_payload, handle_payload_body, bus_handle_message,
    forward_heartbeat, mbind, mret, ST_bind, ST_ret, lift, modify in Hstep.
  rewrite Hp, Hty in Hstep. simpl in Hstep.
  rewrite Hd in Hstep. simpl in Hstep.
  match type of Hstep with bus_step _ _ _ (exc_ret _ ?B1) =>
    pose proof (bus_heartbeat parse dump B1 (length (heartbeats B)) None) as Hcrash;
    exists B1 end.
  unfold on_heartbeat_done in Hcrash. simpl in Hcrash.
  rewrite list_lookup_middle in Hcrash by done.
  destruct msg as [| | | | | |kvs]; try done. simpl in Hpid, Hcrash. rewrite Hpid in Hcrash.
  eexists. split; [exact Hstep|exact Hcrash].
Qed.
End properties.
