(* ===== verification/Scheduler.v ===== *)
(** * The LLM request scheduler (src/llm/scheduler.cpp): queues and workers

    Requests wait in one queue per key; a key has at most one request in a worker's
    hands.  The keys whose turn may have come are candidates in a priority queue, an
    interface ([MaxQueue]) as [std::priority_queue] documents it.  Each step runs under
    [queue_mutex] or on data of its own.  The inference itself, with everything it calls,
    is the argument [outcome] of the step that ends a request. *)

From S2P Require Import Prelude Json.

(** ** Data *)

Record PendingRequest := {
  request_id : string;
  trace_id : string;
  tree_id : string;
  queue_key : string;
  source_pid : Z;
  base_priority : Z;
  payload : json;
  enqueued_at : Z;          (* steady-clock milliseconds *)
  completion : nat;         (* the identity of its promise *)
}.

Record TreeQueue := {
  requests : list PendingRequest;
  has_active_key : bool;
  version : Z;
}.

Definition new_TreeQueue : TreeQueue :=
  {| requests := []; has_active_key := false; version := 0 |}.

Record TreeCandidate := {
  tc_queue_key : string;
  tc_score : double;
  tc_version : Z;
}.

(** ** The priority queue

    [pop] takes the elements of the queue, in any order, and returns its top with the
    others: some element that no other one is above ([TreeCandidateCompare]). *)

Class MaxQueue (pop : list TreeCandidate → option (TreeCandidate * list TreeCandidate)) := {
  pop_none l : pop l = None ↔ l = [];
  pop_perm l c l' : pop l = Some (c, l') → l ≡ₚ c :: l';
  pop_max l c l' : pop l = Some (c, l') →
    Forall (λ c, d_is_nan (tc_score c) = false) l →
    ∀ c', c' ∈ l → SFltb (tc_score c) (tc_score c') = false;
}.

(** An implementation of the interface: a scan for the top. *)
Fixpoint best (c : TreeCandidate) (l : list TreeCandidate) :
    TreeCandidate * list TreeCandidate :=
  match l with
  | [] => (c, [])
  | x :: l =>
      if SFltb (tc_score c) (tc_score x)
      then let '(b, r) := best x l in (b, c :: r)
      else let '(b, r) := best c l in (b, x :: r)
  end.

Definition scan_pop (l : list TreeCandidate) : option (TreeCandidate * list TreeCandidate) :=
  match l with [] => None | c :: l => Some (best c l) end.

Lemma best_perm c l : let '(b, r) := best c l in c :: l ≡ₚ b :: r.
Proof.
  revert c. induction l as [|x l IH]; intros c; [simpl; reflexivity|]. simpl.
  destruct (SFltb _ _); [specialize (IH x); destruct (best x l) as [b r]
    |specialize (IH c); destruct (best c l) as [b r]].
  - rewrite IH. by constructor.
  - rewrite (Permutation_swap x c l), IH. by constructor.
Qed.

Lemma best_max c l :
  Forall (λ c, d_is_nan (tc_score c) = false) (c :: l) →
  ∀ x, x ∈ c :: l → SFltb (tc_score (best c l).1) (tc_score x) = false.
Proof.
  revert c. induction l as [|y l IH]; intros c Hnan x Hx.
  { apply list_elem_of_singleton in Hx as ->. simpl.
    apply not_true_iff_false. intros H. apply Forall_cons in Hnan as [Hc _].
    by rewrite (d_ltb_asym _ _ Hc Hc H) in H. }
  apply Forall_cons in Hnan as [Hc Hl]. pose proof Hl as [Hy Hl']%Forall_cons. simpl.
  assert (∀ z, Forall (λ c, d_is_nan (tc_score c) = false) (z :: l) →
    d_is_nan (tc_score (best z l).1) = false) as Hb.
  { intros z Hz. pose proof (best_perm z l) as Hp. destruct (best z l) as [b r].
    rewrite Hp in Hz. by apply Forall_cons in Hz as [? _]. }
  destruct (SFltb (tc_score c) (tc_score y)) eqn:Hcy.
  - specialize (IH y Hl). specialize (Hb y Hl). destruct (best y l) as [b r]. simpl in *.
    apply elem_of_cons in Hx as [->|Hx]; [|by apply IH].
    apply (d_ltb_trans_false _ (tc_score y)); try done; [apply IH, list_elem_of_here|].
    by apply d_ltb_asym.
  - assert (Forall (λ c, d_is_nan (tc_score c) = false) (c :: l)) as Hcl by by constructor.
    specialize (IH c Hcl). specialize (Hb c Hcl). destruct (best c l) as [b r]. simpl in *.
    apply elem_of_cons in Hx as [->|[->|Hx]%elem_of_cons].
    + apply IH, list_elem_of_here.
    + apply (d_ltb_trans_false _ (tc_score c)); try done. apply IH, list_elem_of_here.
    + by apply IH, list_elem_of_further.
Qed.

#[export] Instance scan_pop_max : MaxQueue scan_pop.
Proof.
  split.
  - by intros [|c l].
  - intros [|c l] b r; [done|]. intros [= Hb]. pose proof (best_perm c l) as Hp.
    by rewrite Hb in Hp.
  - intros [|c l] b r; [done|]. intros [= Hb] Hnan. pose proof (best_max c l Hnan) as Hm.
    by rewrite Hb in Hm.
Qed.

Record Scheduler := {
  tree_queues : gmap string TreeQueue;
  ready_tree_queue : list TreeCandidate;
  shutting_down : bool;
  active_requests : gmap string string;      (* trace id to request id *)
  llm_request_counts : gmap string Z;
  completions : gmap nat json;               (* the promises that were set *)
  in_flight : gmap nat PendingRequest;       (* the request in each worker's hands *)
  checked : gmap nat bool;                   (* what its check of the client said, once made *)
}.

Definition Scheduler_init : Scheduler := {|
  tree_queues := ∅; ready_tree_queue := []; shutting_down := false;
  active_requests := ∅; llm_request_counts := ∅; completions := ∅; in_flight := ∅;
  checked := ∅ |}.

Definition with_queues (q : gmap string TreeQueue) (r : list TreeCandidate)
    (S : Scheduler) : Scheduler := {|
  tree_queues := q; ready_tree_queue := r; shutting_down := shutting_down S;
  active_requests := active_requests S; llm_request_counts := llm_request_counts S;
  completions := completions S; in_flight := in_flight S; checked := checked S |}.

Definition with_active (f : gmap string string → gmap string string) (S : Scheduler) :
    Scheduler := {|
  tree_queues := tree_queues S; ready_tree_queue := ready_tree_queue S;
  shutting_down := shutting_down S; active_requests := f (active_requests S);
  llm_request_counts := llm_request_counts S; completions := completions S;
  in_flight := in_flight S; checked := checked S |}.

Definition with_counts (f : gmap string Z → gmap string Z) (S : Scheduler) : Scheduler := {|
  tree_queues := tree_queues S; ready_tree_queue := ready_tree_queue S;
  shutting_down := shutting_down S; active_requests := active_requests S;
  llm_request_counts := f (llm_request_counts S); completions := completions S;
  in_flight := in_flight S; checked := checked S |}.

Definition with_completions (f : gmap nat json → gmap nat json) (S : Scheduler) :
    Scheduler := {|
  tree_queues := tree_queues S; ready_tree_queue := ready_tree_queue S;
  shutting_down := shutting_down S; active_requests := active_requests S;
  llm_request_counts := llm_request_counts S; completions := f (completions S);
  in_flight := in_flight S; checked := checked S |}.

Definition with_in_flight (f : gmap nat PendingRequest → gmap nat PendingRequest)
    (S : Scheduler) : Scheduler := {|
  tree_queues := tree_queues S; ready_tree_queue := ready_tree_queue S;
  shutting_down := shutting_down S; active_requests := active_requests S;
  llm_request_counts := llm_request_counts S; completions := completions S;
  in_flight := f (in_flight S); checked := checked S |}.

Definition with_checked (f : gmap nat bool → gmap nat bool) (S : Scheduler) : Scheduler := {|
  tree_queues := tree_queues S; ready_tree_queue := ready_tree_queue S;
  shutting_down := shutting_down S; active_requests := active_requests S;
  llm_request_counts := llm_request_counts S; completions := completions S;
  in_flight := in_flight S; checked := f (checked S) |}.

Definition shutdown (S : Scheduler) : Scheduler := {|
  tree_queues := tree_queues S; ready_tree_queue := ready_tree_queue S;
  shutting_down := true; active_requests := active_requests S;
  llm_request_counts := llm_request_counts S; completions := completions S;
  in_flight := in_flight S; checked := checked S |}.

(** ** Cancellation *)

Definition mark_request_active (trace_id request_id : string) (S : Scheduler) : Scheduler :=
  if decide (trace_id = "" ∨ request_id = "") then S
  else with_active (<[trace_id := request_id]>) S.

Definition is_request_current (trace_id request_id : string) (S : Scheduler) : bool :=
  if decide (trace_id = "" ∨ request_id = "") then true
  else bool_decide (active_requests S !! trace_id = Some request_id).

Definition clear_request_if_current (trace_id request_id : string) (S : Scheduler) :
    Scheduler :=
  if decide (trace_id = "" ∨ request_id = "") then S
  else if decide (active_requests S !! trace_id = Some request_id)
  then with_active (delete trace_id) S else S.

(** A promise keeps the first value it is given. *)
Definition safe_set_promise_value (req : PendingRequest) (value : json) (S : Scheduler) :
    Scheduler :=
  with_completions
    (λ m, match m !! completion req with
          | Some _ => m
          | None => <[completion req := value]> m
          end) S.

(** ** Queues *)

Definition effective_tree_priority (now : Z) (req : PendingRequest) : double :=
  d_add (d_of_Z (base_priority req)) (d_div (d_of_Z (now - enqueued_at req)) (d_of_Z 5000)).

Definition enqueue_tree_candidate_if_eligible (now : Z) (key : string) (S : Scheduler) :
    Scheduler :=
  match tree_queues S !! key with
  | None => S
  | Some queue =>
      if has_active_key queue then S
      else
        match requests queue with
        | [] => S
        | front :: _ =>
            let score := effective_tree_priority now front in
            with_queues (tree_queues S)
              ({| tc_queue_key := key; tc_score := score; tc_version := version queue |}
                 :: ready_tree_queue S) S
        end
  end.

Definition release_tree_key (now : Z) (key : string) (S : Scheduler) : Scheduler :=
  match tree_queues S !! key with
  | None => S
  | Some queue =>
      if decide (requests queue = [])
      then with_queues (delete key (tree_queues S)) (ready_tree_queue S) S
      else
        enqueue_tree_candidate_if_eligible now key
          (with_queues
             (<[key := {| requests := requests queue; has_active_key := false;
                          version := u64 (version queue + 1) |}]> (tree_queues S))
             (ready_tree_queue S) S)
  end.

(** A new request joins its queue, which is created if need be. *)
Definition push_request (now : Z) (req : PendingRequest) (S : Scheduler) : Scheduler :=
  let key := queue_key req in
  let queue := default new_TreeQueue (tree_queues S !! key) in
  enqueue_tree_candidate_if_eligible now key
    (with_queues
       (<[key := {| requests := requests queue ++ [req];
                    has_active_key := has_active_key queue;
                    version := u64 (version queue + 1) |}]> (tree_queues S))
       (ready_tree_queue S) S).

Section scheduler.
Context (pop : list TreeCandidate → option (TreeCandidate * list TreeCandidate)).

(** The loop of [pick_next_request]: every iteration pops a candidate, so that as many
    as there are candidates are enough. *)
Fixpoint pick_loop (fuel : nat) (ready : list TreeCandidate)
    (queues : gmap string TreeQueue) :
    option PendingRequest * list TreeCandidate * gmap string TreeQueue :=
  match fuel with
  | O => (None, ready, queues)
  | S fuel =>
      match pop ready with
      | None => (None, ready, queues)
      | Some (candidate, ready) =>
          match queues !! tc_queue_key candidate with
          | None => pick_loop fuel ready queues
          | Some queue =>
              if decide (version queue ≠ tc_version candidate)
              then pick_loop fuel ready queues
              else
                match has_active_key queue, requests queue with
                | false, out :: rest =>
                    (Some out, ready,
                     <[tc_queue_key candidate :=
                         {| requests := rest; has_active_key := true;
                            version := u64 (version queue + 1) |}]> queues)
                | _, _ => pick_loop fuel ready queues
                end
          end
      end
  end.

Definition pick_next_request (S : Scheduler) : option PendingRequest * Scheduler :=
  let '(out, ready, queues) :=
    pick_loop (length (ready_tree_queue S)) (ready_tree_queue S) (tree_queues S) in
  (out, with_queues queues ready S).

(** ** The two halves of an iteration of [worker_loop] *)

(** A worker that is woken takes a request, or goes round its loop. *)
Definition worker_pick (w : nat) (S : Scheduler) : Scheduler :=
  if shutting_down S then S
  else
    match pick_next_request S with
    | (Some req, S1) => with_in_flight (<[w := req]>) S1
    | (None, S1) => S1
    end.
End scheduler.

(** The reply to a request that was superseded or whose client has gone. *)
Definition cancelled_response (req : PendingRequest) : json :=
  JObject [("message_type", JString "LLM_RESPONSE"); ("status", JString "cancelled");
           ("request_id", JString (request_id req)); ("trace_id", JString (trace_id req))].

Definition failed_response (req : PendingRequest) (what : string) : json :=
  JObject [("status", JString "error"); ("message_type", JString "LLM_RESPONSE");
           ("request_id", JString (request_id req)); ("tree_id", JString (tree_id req));
           ("error", JString what)].

(** [llm_request_counts[tree_id]++] *)
Definition count_request (t : string) (S : Scheduler) : Scheduler :=
  with_counts (λ m, <[t := i32 (default 0 (m !! t) + 1)]> m) S.

(** Worker [w] checks whether the client is still there, and counts the request if it is. *)
Definition worker_check (w : nat) (S : Scheduler) : Scheduler :=
  match in_flight S !! w, checked S !! w with
  | Some req, None =>
      let client_alive := is_request_current (trace_id req) (request_id req) S in
      with_checked (<[w := client_alive]>)
        (if client_alive then count_request (tree_id req) S else S)
  | _, _ => S
  end.

(** The promise is set and the key released. *)
Definition answer_and_release (now : Z) (w : nat) (req : PendingRequest) (response : json)
    (S : Scheduler) : Scheduler :=
  with_checked (delete w) (with_in_flight (delete w)
    (release_tree_key now (queue_key req) (safe_set_promise_value req response S))).

(** It ends its request: one whose client was there has been run, [outcome] being its response
    or its exception. *)
Definition worker_finish (now : Z) (w : nat) (outcome : json + string) (S : Scheduler) :
    Scheduler :=
  match in_flight S !! w, checked S !! w with
  | Some req, Some client_alive =>
      let response :=
        if client_alive : bool
        then match outcome with inl r => r | inr what => failed_response req what end
        else JNull in
      answer_and_release now w req
        (if json_empty response then cancelled_response req else response) S
  | _, _ => S
  end.

(** ** The client's thread *)

(** The normal path of [handle_client_connection] up to its wait. *)
Definition submit (now : Z) (req : PendingRequest) (S : Scheduler) : Scheduler :=
  push_request now req (mark_request_active (trace_id req) (request_id req) S).

(** What it sends when the wait ends, with the value of the promise if it was set. *)
Definition client_reply (result : option json) : json :=
  match result with
  | Some response => response
  | None => JObject [("message_type", JString "LLM_RESPONSE"); ("status", JString "error");
                     ("error", JString "scheduler_request_deadline_exceeded")]
  end.

(** The end of the connection, in both cases. *)
Definition client_done (req : PendingRequest) (S : Scheduler) : json * Scheduler :=
  (client_reply (completions S !! completion req),
   clear_request_if_current (trace_id req) (request_id req) S).

(** ** Transitions *)

Section steps.
Context (pop : list TreeCandidate → option (TreeCandidate * list TreeCandidate)).
Context (max_llm_keys : nat).   (* the number of workers *)

Inductive sched_step : relation Scheduler :=
  | sched_submit S now req : sched_step S (submit now req S)
  | sched_pick S w :
      (w < max_llm_keys)%nat → in_flight S !! w = None →
      sched_step S (worker_pick pop w S)
  | sched_check S w : sched_step S (worker_check w S)
  | sched_finish S now w outcome : sched_step S (worker_finish now w outcome S)
  | sched_client S req : sched_step S (client_done req S).2
  | sched_shutdown S : sched_step S (shutdown S).

Definition sched_reachable (S : Scheduler) : Prop := rtc sched_step Scheduler_init S.
End steps.

(** ** Vocabulary *)

(** The requests waiting under a key, in order. *)
Definition pending (S : Scheduler) (key : string) : list PendingRequest :=
  match tree_queues S !! key with Some q => requests q | None => [] end.

(** A candidate of the current version of an idle, non-empty queue: it will be picked. *)
Definition eligible (queues : gmap string TreeQueue) (c : TreeCandidate) : Prop :=
  ∃ q, queues !! tc_queue_key c = Some q ∧ version q = tc_version c ∧
       has_active_key q = false ∧ requests q ≠ [].

#[export] Instance eligible_dec queues c : Decision (eligible queues c).
Proof.
  unfold eligible. destruct (queues !! tc_queue_key c) as [q|]; [|right; naive_solver].
  destruct (decide (version q = tc_version c ∧ has_active_key q = false ∧ requests q ≠ []));
    [left|right]; naive_solver.
Defined.

Record sched_wf (S : Scheduler) : Prop := {
  (* a key is active exactly when one worker holds a request of it *)
  sw_active key q : tree_queues S !! key = Some q →
    has_active_key q = true ↔ ∃ w r, in_flight S !! w = Some r ∧ queue_key r = key;
  sw_in_flight w r : in_flight S !! w = Some r → is_Some (tree_queues S !! queue_key r);
  sw_exclusive w w' r r' : in_flight S !! w = Some r → in_flight S !! w' = Some r' →
    queue_key r = queue_key r' → w = w';
  (* an idle queue is not empty and has a candidate *)
  sw_idle key q : tree_queues S !! key = Some q → has_active_key q = false →
    requests q ≠ [] ∧
    ∃ c, c ∈ ready_tree_queue S ∧ tc_queue_key c = key ∧ tc_version c = version q;
  sw_keys key q r : tree_queues S !! key = Some q → r ∈ requests q → queue_key r = key;
}.

(** ** Lemmas on the queues *)

Lemma enqueue_candidate_fields now key S :
  let S' := enqueue_tree_candidate_if_eligible now key S in
  tree_queues S' = tree_queues S ∧ in_flight S' = in_flight S ∧
  active_requests S' = active_requests S ∧ completions S' = completions S ∧
  llm_request_counts S' = llm_request_counts S ∧ shutting_down S' = shutting_down S ∧
  (∀ c, c ∈ ready_tree_queue S → c ∈ ready_tree_queue S') ∧
  (∀ q, tree_queues S !! key = Some q → has_active_key q = false → requests q ≠ [] →
    ∃ c, c ∈ ready_tree_queue S' ∧ tc_queue_key c = key ∧ tc_version c = version q).
Proof.
  cbv zeta. unfold enqueue_tree_candidate_if_eligible.
  destruct (tree_queues S !! key) as [q|] eqn:Hq; [|by split_and!].
  destruct (has_active_key q) eqn:Ha; [split_and!; naive_solver congruence|].
  destruct (requests q) as [|r l] eqn:Hr; [split_and!; naive_solver congruence|].
  split_and!; try done.
  - intros c Hc. simpl. by apply list_elem_of_further.
  - intros q' [= <-] _ _. eexists. simpl. split; [apply list_elem_of_here|done].
Qed.

Section lemmas.
Context (pop : list TreeCandidate → option (TreeCandidate * list TreeCandidate)).
Context {Hpop : MaxQueue pop}.
Context (max_llm_keys : nat).

(** The queue a pick leaves behind. *)
Definition picked_queue (rest : list PendingRequest) (q : TreeQueue) : TreeQueue :=
  {| requests := rest; has_active_key := true; version := u64 (version q + 1) |}.

(** What a pick that finds a request has done. *)
Record picked (ready : list TreeCandidate) (queues : gmap string TreeQueue)
    (out : PendingRequest) (ready' : list TreeCandidate)
    (queues' : gmap string TreeQueue) : Prop := {
  pk_witness : ∃ c q rest dropped,
    ready ≡ₚ dropped ++ c :: ready' ∧ (∀ d, d ∈ dropped → ¬ eligible queues d) ∧
    queues !! tc_queue_key c = Some q ∧ version q = tc_version c ∧
    has_active_key q = false ∧ requests q = out :: rest ∧
    queues' = <[tc_queue_key c := picked_queue rest q]> queues ∧
    (Forall (λ c, d_is_nan (tc_score c) = false) ready →
     ∀ c', c' ∈ ready → eligible queues c' → SFltb (tc_score c) (tc_score c') = false);
}.

Lemma pick_loop_spec fuel ready queues :
  (length ready ≤ fuel)%nat →
  match pick_loop pop fuel ready queues with
  | (None, ready', queues') =>
      ready' = [] ∧ queues' = queues ∧ ∀ c, c ∈ ready → ¬ eligible queues c
  | (Some out, ready', queues') => picked ready queues out ready' queues'
  end.
Proof.
  revert ready. induction fuel as [|fuel IH]; intros ready Hlen; simpl.
  { destruct ready; [|simpl in Hlen; lia]. split_and!; [done..|]. intros c ?%not_elem_of_nil. done. }
  destruct (pop ready) as [[c ready1]|] eqn:Hc.
  2: { apply pop_none in Hc as ->. split_and!; [done..|]. intros c ?%not_elem_of_nil. done. }
  pose proof (pop_perm _ _ _ Hc) as Hperm. pose proof (pop_max _ _ _ Hc) as Hmax.
  assert (length ready1 ≤ fuel)%nat as Hlen1.
  { rewrite Hperm in Hlen. simpl in Hlen. lia. }
  assert (¬ eligible queues c →
    match pick_loop pop fuel ready1 queues with
    | (None, ready', queues') =>
        ready' = [] ∧ queues' = queues ∧ ∀ c, c ∈ ready → ¬ eligible queues c
    | (Some out, ready', queues') => picked ready queues out ready' queues'
    end) as Hskip.
  { intros Hne. specialize (IH ready1 Hlen1).
    destruct (pick_loop pop fuel ready1 queues) as [[[out|] ready'] queues'].
    - destruct IH as [(c1 & q & rest & dropped & Hp & Hd & Hq & Hv & Ha & Hr & Hqs & Hm)].
      constructor. exists c1, q, rest, (c :: dropped). split_and!; try done.
      + by rewrite Hperm, Hp.
      + intros d [->|?]%elem_of_cons; [done|by apply Hd].
      + intros Hnan c' Hc' Hel. rewrite Hperm in Hnan, Hc'.
        apply Forall_cons in Hnan as [_ Hnan].
        apply elem_of_cons in Hc' as [->|Hc']; [done|by apply Hm].
    - destruct IH as (-> & -> & Hno). split_and!; [done..|].
      intros c' Hc'. rewrite Hperm in Hc'. apply elem_of_cons in Hc' as [->|?]; auto. }
  destruct (queues !! tc_queue_key c) as [q|] eqn:Hq.
  2: { apply Hskip. intros (q & ? & _). congruence. }
  case_decide as Hv; [apply Hskip; intros (q' & ? & ? & _); congruence|].
  destruct (has_active_key q) eqn:Ha; [apply Hskip; intros (q' & ? & _ & ? & _); congruence|].
  destruct (requests q) as [|out rest] eqn:Hr;
    [apply Hskip; intros (q' & ? & _ & _ & ?); congruence|].
  constructor. exists c, q, rest, []. split_and!; try done.
  - intros d ?%not_elem_of_nil. done.
  - intros Hnan c' Hc' _. by apply Hmax.
Qed.

Lemma pick_spec S :
  match pick_next_request pop S with
  | (None, S') => (∀ c, c ∈ ready_tree_queue S → ¬ eligible (tree_queues S) c) ∧
                  S' = with_queues (tree_queues S) [] S
  | (Some out, S') => ∃ queues' ready',
      S' = with_queues queues' ready' S ∧
      picked (ready_tree_queue S) (tree_queues S) out ready' queues'
  end.
Proof.
  unfold pick_next_request.
  pose proof (pick_loop_spec (length (ready_tree_queue S)) (ready_tree_queue S)
    (tree_queues S) (Nat.le_refl _)) as H.
  destruct (pick_loop _ _ _ _) as [[[out|] ready'] queues'].
  - by exists queues', ready'.
  - by destruct H as (-> & -> & ?).
Qed.

(** *** The invariant *)

Lemma wf_init : sched_wf Scheduler_init.
Proof.
  split; simpl; intros *; rewrite ?lookup_empty; naive_solver.
Qed.

(** Only the queues, the candidates and the workers matter. *)
Lemma wf_ext S S' :
  tree_queues S' = tree_queues S → in_flight S' = in_flight S →
  ready_tree_queue S' = ready_tree_queue S → sched_wf S → sched_wf S'.
Proof.
  intros Hq Hi Hr []. split; rewrite ?Hq, ?Hi, ?Hr; done.
Qed.

Lemma wf_push now req S : sched_wf S → sched_wf (push_request now req S).
Proof.
  intros Hwf. unfold push_request.
  set (key := queue_key req). set (q0 := default new_TreeQueue (tree_queues S !! key)).
  set (q1 := {| requests := requests q0 ++ [req]; has_active_key := has_active_key q0;
                version := u64 (version q0 + 1) |}).
  set (S1 := with_queues (<[key := q1]> (tree_queues S)) (ready_tree_queue S) S).
  destruct (enqueue_candidate_fields now key S1) as (Hq & Hi & _ & _ & _ & _ & Hr & Hnew).
  assert (tree_queues S1 !! key = Some q1) as Hk by apply lookup_insert_eq.
  assert (∀ k q, tree_queues S1 !! k = Some q →
    (k = key ∧ q = q1) ∨ (k ≠ key ∧ tree_queues S !! k = Some q)) as Hcase.
  { intros k q. simpl. rewrite lookup_insert. case_decide; naive_solver. }
  split; rewrite ?Hq, ?Hi.
  - intros k q [[-> ->]|[? Hkq]]%Hcase; [|exact (sw_active _ Hwf _ _ Hkq)]. simpl. unfold q0.
    destruct (tree_queues S !! key) as [q|] eqn:Hq0; simpl.
    + exact (sw_active _ Hwf _ _ Hq0).
    + split; [done|]. intros (w & r & Hw & Hkey).
      pose proof (sw_in_flight _ Hwf _ _ Hw) as [? Hs]. rewrite Hkey in Hs. congruence.
  - intros w r Hw%(sw_in_flight _ Hwf). simpl. rewrite lookup_insert. case_decide; eauto.
  - apply Hwf.
  - intros k q [[-> ->]|[Hne Hkq]]%Hcase Ha.
    + split; [by destruct (requests q0)|]. apply (Hnew q1 Hk Ha). by destruct (requests q0).
    + destruct (sw_idle _ Hwf k q Hkq Ha) as [? (c & Hc & ? & ?)]. split; [done|].
      exists c. split; [by apply Hr|done].
  - intros k q r [[-> ->]|[? Hkq]]%Hcase; [|by eapply sw_keys].
    simpl. unfold q0. destruct (tree_queues S !! key) as [q|] eqn:Hq0; simpl.
    + rewrite elem_of_app, list_elem_of_singleton. intros [?| ->]; [by eapply sw_keys|done].
    + rewrite list_elem_of_singleton. by intros ->.
Qed.

Lemma wf_release now w req S :
  sched_wf S → in_flight S !! w = Some req →
  sched_wf (with_in_flight (delete w) (release_tree_key now (queue_key req) S)).
Proof.
  intros Hwf Hw. pose proof (sw_in_flight _ Hwf _ _ Hw) as [q0 Hq0].
  unfold release_tree_key. set (key := queue_key req) in *. rewrite Hq0.
  assert (∀ w' r, delete w (in_flight S) !! w' = Some r →
    w' ≠ w ∧ in_flight S !! w' = Some r ∧ queue_key r ≠ key) as Hdel.
  { intros w' r [Hne Hw']%lookup_delete_Some. split_and!; [done|done|].
    intros Hk. apply Hne. symmetry. by eapply sw_exclusive. }
  assert (∀ k q, k ≠ key → tree_queues S !! k = Some q →
    has_active_key q = true ↔ ∃ w' r, delete w (in_flight S) !! w' = Some r ∧ queue_key r = k)
    as Hother.
  { intros k q Hne Hkq. rewrite (sw_active _ Hwf _ _ Hkq). split.
    - intros (w' & r & Hw' & Hr). exists w', r. split; [|done].
      rewrite lookup_delete_ne; [done|]. intros ->. unfold key in Hne. congruence.
    - intros (w' & r & (_ & ? & _)%Hdel & ?). eauto. }
  assert (¬ ∃ w' r, delete w (in_flight S) !! w' = Some r ∧ queue_key r = key) as Hnone.
  { intros (w' & r & (_ & _ & ?)%Hdel & ?). done. }
  case_decide as Hempty.
  - assert (∀ k q, delete key (tree_queues S) !! k = Some q →
      k ≠ key ∧ tree_queues S !! k = Some q) as Hcase
      by (intros k q [? ?]%lookup_delete_Some; done).
    split; simpl.
    + intros k q [Hne Hkq]%Hcase. by apply Hother.
    + intros w' r (_ & Hw' & Hne)%Hdel. rewrite lookup_delete_ne by done.
      by eapply sw_in_flight.
    + intros w1 w2 r1 r2 (_ & H1 & _)%Hdel (_ & H2 & _)%Hdel. by eapply sw_exclusive.
    + intros k q [_ Hkq]%Hcase. by apply sw_idle.
    + intros k q r [_ Hkq]%Hcase. by eapply sw_keys.
  - set (q1 := {| requests := requests q0; has_active_key := false;
                  version := u64 (version q0 + 1) |}).
    set (S1 := with_queues (<[key := q1]> (tree_queues S)) (ready_tree_queue S) S).
    destruct (enqueue_candidate_fields now key S1) as (Hq & Hi & _ & _ & _ & _ & Hr & Hnew).
    assert (tree_queues S1 !! key = Some q1) as Hk by apply lookup_insert_eq.
    assert (∀ k q, tree_queues S1 !! k = Some q →
      (k = key ∧ q = q1) ∨ (k ≠ key ∧ tree_queues S !! k = Some q)) as Hcase.
    { intros k q. simpl. rewrite lookup_insert. case_decide; naive_solver. }
    split; simpl; rewrite ?Hq, ?Hi.
    + intros k q [[-> ->]|[Hne Hkq]]%Hcase; [|by apply Hother]. simpl.
      split; [done|]. intros Hex. by destruct Hnone.
    + intros w' r (_ & Hw' & Hne)%Hdel. simpl. rewrite lookup_insert_ne by done.
      by eapply sw_in_flight.
    + intros w1 w2 r1 r2 (_ & H1 & _)%Hdel (_ & H2 & _)%Hdel. by eapply sw_exclusive.
    + intros k q [[-> ->]|[Hne Hkq]]%Hcase Ha.
      * split; [done|]. by apply (Hnew q1 Hk).
      * destruct (sw_idle _ Hwf k q Hkq Ha) as [? (c & Hc & ? & ?)]. split; [done|].
        exists c. split; [by apply Hr|done].
    + intros k q r [[-> ->]|[_ Hkq]]%Hcase; [|by eapply sw_keys]. simpl.
      by eapply sw_keys.
Qed.

Lemma wf_pick w S :
  in_flight S !! w = None → sched_wf S → sched_wf (worker_pick pop w S).
Proof.
  intros Hw Hwf. unfold worker_pick. destruct (shutting_down S); [done|].
  pose proof (pick_spec S) as Hp. destruct (pick_next_request pop S) as [[req|] S'].
  2: { destruct Hp as [Hno ->]. split; try apply Hwf. intros k q Hq Ha.
    destruct (sw_idle _ Hwf k q Hq Ha) as (Hne & c & Hc & Hk & Hv). exfalso.
    apply (Hno c Hc). exists q. by rewrite Hk. }
  destruct Hp as (queues' & ready' & -> & [(c & q & rest & dropped & Hperm & Hdrop & Hq & Hv
    & Ha & Hr & -> & _)]).
  set (key := tc_queue_key c) in *.
  assert (queue_key req = key) as Hkey.
  { eapply sw_keys; [done|exact Hq|]. rewrite Hr. apply list_elem_of_here. }
  assert (∀ w' r, in_flight S !! w' = Some r → queue_key r ≠ key) as Hidle.
  { intros w' r Hw' Hk. assert (has_active_key q = true); [|congruence].
    apply (sw_active _ Hwf _ _ Hq). eauto. }
  assert (∀ k q', <[key := picked_queue rest q]> (tree_queues S) !! k = Some q' →
    (k = key ∧ q' = picked_queue rest q) ∨ (k ≠ key ∧ tree_queues S !! k = Some q'))
    as Hcase.
  { intros k q'. rewrite lookup_insert. case_decide; naive_solver. }
  split; simpl.
  - intros k q' [[-> ->]|[Hne Hkq]]%Hcase; simpl.
    + split; [intros _|done]. exists w, req. by rewrite lookup_insert_eq.
    + rewrite (sw_active _ Hwf _ _ Hkq). split; intros (w' & r & Hw' & Hrk).
      * exists w', r. split; [|done]. rewrite lookup_insert_ne; [done|]. by intros ->; congruence.
      * apply lookup_insert_Some in Hw' as [[-> ->]|[_ Hw']]; [congruence|eauto].
  - intros w' r [[_ <-]|[_ Hw']]%lookup_insert_Some.
    + rewrite Hkey, lookup_insert_eq. eauto.
    + rewrite lookup_insert_ne; [by eapply sw_in_flight|]. intros E. by apply (Hidle _ _ Hw').
  - intros w1 w2 r1 r2 [[<- <-]|[_ H1]]%lookup_insert_Some [[<- <-]|[_ H2]]%lookup_insert_Some;
      intros Hk; [done| | |by eapply sw_exclusive].
    + exfalso. apply (Hidle _ _ H2). congruence.
    + exfalso. apply (Hidle _ _ H1). congruence.
  - intros k q' [[-> ->]|[Hne Hkq]]%Hcase Ha'; [done|].
    destruct (sw_idle _ Hwf k q' Hkq Ha') as (Hne' & c' & Hc' & Hk' & Hv'). split; [done|].
    exists c'. split; [|done]. rewrite Hperm in Hc'.
    apply elem_of_app in Hc' as [Hd|[->|?]%elem_of_cons]; [|done|done]. exfalso.
    apply (Hdrop _ Hd). exists q'. by rewrite Hk'.
  - intros k q' r [[-> ->]|[_ Hkq]]%Hcase; [|by eapply sw_keys]. simpl. intros Hin.
    eapply sw_keys; [done|exact Hq|]. rewrite Hr. by apply list_elem_of_further.
Qed.

Lemma check_fields w S :
  tree_queues (worker_check w S) = tree_queues S ∧
  in_flight (worker_check w S) = in_flight S ∧
  ready_tree_queue (worker_check w S) = ready_tree_queue S.
Proof.
  unfold worker_check. destruct (in_flight S !! w), (checked S !! w); try done.
  by destruct (is_request_current _ _ _).
Qed.

Lemma wf_sched_step S S' : sched_wf S → sched_step pop max_llm_keys S S' → sched_wf S'.
Proof.
  intros Hwf Hs. revert Hwf.
  destruct Hs as [S now req|S w _ Hw|S w|S now w outcome|S req|S]; intros Hwf.
  - apply wf_push. unfold mark_request_active. case_decide; [done|]. by apply (wf_ext S).
  - by apply wf_pick.
  - apply (wf_ext S); [apply check_fields..|done].
  - unfold worker_finish. destruct (in_flight S !! w) as [req|] eqn:Hw; [|done].
    destruct (checked S !! w) as [alive|]; [|done].
    unfold answer_and_release.
    match goal with |- sched_wf (with_checked _ ?S2) => apply (wf_ext S2); [done..|] end.
    apply wf_release; [by apply (wf_ext S)|done].
  - simpl. unfold clear_request_if_current. repeat case_decide; try done. by apply (wf_ext S).
  - by apply (wf_ext S).
Qed.

Lemma wf_sched_reachable S : sched_reachable pop max_llm_keys S → sched_wf S.
Proof.
  intros Hr. refine (rtc_invariant _ sched_wf _ _ wf_sched_step Hr wf_init).
Qed.

(** *** How the queues evolve *)

Lemma pending_lookup S key q :
  tree_queues S !! key = Some q → pending S key = requests q.
Proof. intros Hq. unfold pending. by rewrite Hq. Qed.

Lemma pending_ext S S' key :
  tree_queues S' = tree_queues S → pending S' key = pending S key.
Proof. intros Hq. unfold pending. by rewrite Hq. Qed.

Lemma pending_push now req S key :
  pending (push_request now req S) key =
    if decide (key = queue_key req) then pending S key ++ [req] else pending S key.
Proof.
  unfold push_request, pending.
  rewrite (proj1 (enqueue_candidate_fields now _ _)). simpl. rewrite lookup_insert.
  repeat case_decide; subst; try done. by destruct (tree_queues S !! queue_key req).
Qed.

Lemma pending_release now key' S key :
  pending (release_tree_key now key' S) key = pending S key.
Proof.
  unfold release_tree_key. destruct (tree_queues S !! key') as [q|] eqn:Hq; [|done].
  case_decide as Hempty; unfold pending.
  - simpl. rewrite lookup_delete. case_decide; subst; [|done]. by rewrite Hq.
  - rewrite (proj1 (enqueue_candidate_fields now _ _)). simpl. rewrite lookup_insert.
    case_decide; subst; [|done]. by rewrite Hq.
Qed.

Lemma release_in_flight now key S : in_flight (release_tree_key now key S) = in_flight S.
Proof.
  unfold release_tree_key. destruct (tree_queues S !! key); [|done]. case_decide; [done|].
  match goal with |- in_flight (enqueue_tree_candidate_if_eligible ?n ?k ?S1) = _ =>
    by destruct (enqueue_candidate_fields n k S1) as (_ & -> & _) end.
Qed.

Lemma push_in_flight now req S : in_flight (push_request now req S) = in_flight S.
Proof.
  unfold push_request.
  match goal with |- in_flight (enqueue_tree_candidate_if_eligible ?n ?k ?S1) = _ =>
    by destruct (enqueue_candidate_fields n k S1) as (_ & -> & _) end.
Qed.

Lemma mark_active_fields t r S :
  tree_queues (mark_request_active t r S) = tree_queues S ∧
  in_flight (mark_request_active t r S) = in_flight S.
Proof. unfold mark_request_active. by case_decide. Qed.

(** The three things that can happen to the requests waiting under a key. *)
Inductive queue_move (S S' : Scheduler) (key : string) : Prop :=
  | move_none : pending S' key = pending S key → queue_move S S' key
  | move_push req : queue_key req = key → pending S' key = pending S key ++ [req] →
      queue_move S S' key
  | move_pick w req : pending S key = req :: pending S' key →
      in_flight S !! w = None → in_flight S' !! w = Some req →
      (∀ w' r, in_flight S !! w' = Some r → queue_key r ≠ key) → queue_move S S' key.

Lemma queue_moves S S' key :
  sched_wf S → sched_step pop max_llm_keys S S' → queue_move S S' key.
Proof.
  intros Hwf Hs. revert Hwf.
  destruct Hs as [S now req|S w _ Hw|S w|S now w outcome|S req|S]; intros Hwf.
  - unfold submit.
    assert (pending (mark_request_active (trace_id req) (request_id req) S) key =
      pending S key) as He by apply pending_ext, mark_active_fields.
    destruct (decide (key = queue_key req)) as [->|].
    + apply (move_push _ _ _ req); [done|]. by rewrite pending_push, decide_True, He.
    + apply move_none. by rewrite pending_push, decide_False, He.
  - unfold worker_pick. destruct (shutting_down S); [by apply move_none|].
    pose proof (pick_spec S) as Hp. destruct (pick_next_request pop S) as [[req|] S'].
    2: { destruct Hp as [_ ->]. by apply move_none. }
    destruct Hp as (queues' & ready' & -> & [(c & q & rest & dropped & _ & _ & Hq & _
      & Ha & Hr & -> & _)]).
    destruct (decide (tc_queue_key c = key)) as [<-|Hne].
    + apply (move_pick _ _ _ w req); [|done|by simpl; rewrite lookup_insert_eq|].
      * unfold pending. simpl. by rewrite Hq, lookup_insert_eq, Hr.
      * intros w' r Hw' Hk. assert (has_active_key q = true); [|congruence].
        apply (sw_active _ Hwf _ _ Hq). eauto.
    + apply move_none. unfold pending. simpl. by rewrite lookup_insert_ne.
  - apply move_none, pending_ext, check_fields.
  - unfold worker_finish. destruct (in_flight S !! w) as [req|]; [|by apply move_none].
    destruct (checked S !! w) as [alive|]; [|by apply move_none].
    apply move_none. by rewrite (pending_ext (release_tree_key _ _ _)), pending_release by done.
  - apply move_none, pending_ext. simpl. unfold clear_request_if_current.
    by repeat case_decide.
  - by apply move_none.
Qed.

Lemma in_flight_bound S w r :
  sched_reachable pop max_llm_keys S → in_flight S !! w = Some r → (w < max_llm_keys)%nat.
Proof.
  intros Hr. revert w r.
  refine (rtc_invariant _ (λ S, ∀ w r, in_flight S !! w = Some r → (w < max_llm_keys)%nat)
    _ _ _ Hr _); [|intros w r Hw; simpl in Hw; by apply lookup_empty_Some in Hw].
  intros x y Hx Hs. destruct Hs as [S' now req|S' w Hlt _|S' w|S' now w outcome|S' req|S']; simpl.
  - intros w r. unfold submit. rewrite push_in_flight.
    rewrite (proj2 (mark_active_fields _ _ _)). apply Hx.
  - intros w' r. unfold worker_pick. destruct (shutting_down S'); [apply Hx|].
    unfold pick_next_request. destruct (pick_loop _ _ _ _) as [[[out|] ready'] queues'];
      [|apply Hx]. simpl. intros [[<- _]|[_ ?]]%lookup_insert_Some; eauto.
  - rewrite (proj1 (proj2 (check_fields w S'))). apply Hx.
  - intros w' r. unfold worker_finish. destruct (in_flight S' !! w); [|apply Hx].
    destruct (checked S' !! w); [|apply Hx]. simpl. rewrite release_in_flight.
    intros [_ ?]%lookup_delete_Some; eauto.
  - unfold clear_request_if_current. repeat case_decide; apply Hx.
  - apply Hx.
Qed.
End lemmas.

(** The queue operations leave the bookkeeping of requests alone. *)
Definition same_books (S S' : Scheduler) : Prop :=
  llm_request_counts S' = llm_request_counts S ∧ completions S' = completions S ∧
  active_requests S' = active_requests S.

Lemma enqueue_books now key S : same_books S (enqueue_tree_candidate_if_eligible now key S).
Proof. by destruct (enqueue_candidate_fields now key S) as (_ & _ & ? & ? & ? & _). Qed.

Lemma release_books now key S : same_books S (release_tree_key now key S).
Proof.
  unfold release_tree_key. destruct (tree_queues S !! key); [|done]. case_decide; [done|].
  match goal with |- same_books _ (enqueue_tree_candidate_if_eligible ?n ?k ?S1) =>
    exact (enqueue_books n k S1) end.
Qed.

Lemma submit_books now r S :
  trace_id r ≠ "" → request_id r ≠ "" →
  same_books (with_active (<[trace_id r := request_id r]>) S) (submit now r S).
Proof.
  intros Ht Hr. unfold submit, push_request, mark_request_active.
  rewrite decide_False by naive_solver.
  match goal with |- same_books _ (enqueue_tree_candidate_if_eligible ?n ?k ?S1) =>
    exact (enqueue_books n k S1) end.
Qed.

Lemma submit_workers now r S :
  in_flight (submit now r S) = in_flight S ∧ checked (submit now r S) = checked S.
Proof.
  unfold submit, push_request, mark_request_active, enqueue_tree_candidate_if_eligible.
  by repeat (case_match; simpl).
Qed.

Lemma answer_fields now w r response S :
  completions S !! completion r = None →
  let S' := answer_and_release now w r response S in
  llm_request_counts S' = llm_request_counts S ∧
  completions S' !! completion r = Some response ∧
  active_requests S' = active_requests S ∧ in_flight S' !! w = None.
Proof.
  intros Hc. cbv zeta. unfold answer_and_release. simpl.
  destruct (release_books now (queue_key r) (safe_set_promise_value r response S))
    as (-> & -> & ->). simpl. rewrite Hc, lookup_insert_eq, lookup_delete_eq. done.
Qed.

(** Clearing an attempt leaves another one of the trace. *)
Lemma clear_other t r r' S :
  t ≠ "" → r' ≠ "" → r ≠ r' → active_requests S !! t = Some r' →
  is_request_current t r' (clear_request_if_current t r S) = true.
Proof.
  intros Ht Hr' Hne Ha. unfold clear_request_if_current.
  rewrite (decide_False (P := active_requests S !! t = Some r)) by congruence.
  assert (is_request_current t r' S = true) as Hcur.
  { unfold is_request_current. rewrite decide_False by naive_solver.
    by apply bool_decide_eq_true_2. }
  by case_decide.
Qed.

(** A request that reaches a key without a queue. *)
Lemma submit_fresh now r S :
  tree_queues S !! queue_key r = None →
  tree_queues (submit now r S) =
    <[queue_key r := {| requests := [r]; has_active_key := false; version := 1 |}]>
      (tree_queues S) ∧
  ready_tree_queue (submit now r S) =
    {| tc_queue_key := queue_key r; tc_score := effective_tree_priority now r;
       tc_version := 1 |} :: ready_tree_queue S.
Proof.
  intros Hn. unfold submit, push_request.
  set (S0 := mark_request_active (trace_id r) (request_id r) S).
  assert (tree_queues S0 = tree_queues S) as Hq by apply mark_active_fields.
  assert (ready_tree_queue S0 = ready_tree_queue S) as Hr
    by (unfold S0, mark_request_active; by case_decide).
  rewrite Hq, Hn. unfold enqueue_tree_candidate_if_eligible. simpl.
  rewrite lookup_insert_eq. simpl. by rewrite Hr.
Qed.

(** ** Properties *)

Section properties.
Context (pop : list TreeCandidate → option (TreeCandidate * list TreeCandidate)).
Context {Hpop : MaxQueue pop}.
Context (max_llm_keys : nat).

(** C14 One request per key at a time, and no more requests in the workers' hands than there
    are workers: in every state the scheduler reaches, whatever is submitted, picked,
    ended, cancelled or timed out, two workers never hold requests of the same key, and
    a key is marked active exactly when a worker holds a request of it. *)
Theorem one_request_per_key S :
  sched_reachable pop max_llm_keys S →
  (∀ w w' r r', in_flight S !! w = Some r → in_flight S !! w' = Some r' →
     queue_key r = queue_key r' → w = w') ∧
  (size (in_flight S) ≤ max_llm_keys)%nat ∧
  (∀ key q, tree_queues S !! key = Some q →
     has_active_key q = true ↔ ∃ w r, in_flight S !! w = Some r ∧ queue_key r = key).
Proof.
  intros Hr. pose proof (wf_sched_reachable pop max_llm_keys S Hr) as Hwf.
  split_and!; [apply Hwf| |apply Hwf].
  rewrite <-size_dom. rewrite <-(size_set_seq (C:=gset nat) 0 max_llm_keys).
  apply subseteq_size. intros w [r Hw]%elem_of_dom. apply elem_of_set_seq.
  pose proof (in_flight_bound pop max_llm_keys S w r Hr Hw). lia.
Qed.

(** No request is stranded: whenever a key has requests waiting and none of them is
    in a worker's hands, the candidates that wake the workers are not empty and the
    next pick finds a request; the one it finds is the oldest of its key, and no
    candidate whose turn has come has a higher score. *)
Lemma pick_finds_request S key :
  sched_reachable pop max_llm_keys S → pending S key ≠ [] →
  (∀ w r, in_flight S !! w = Some r → queue_key r ≠ key) →
  ready_tree_queue S ≠ [] ∧
  ∃ out S' c, pick_next_request pop S = (Some out, S') ∧
    c ∈ ready_tree_queue S ∧ eligible (tree_queues S) c ∧
    head (pending S (tc_queue_key c)) = Some out ∧
    pending S' (tc_queue_key c) = tail (pending S (tc_queue_key c)) ∧
    (∀ k, k ≠ tc_queue_key c → pending S' k = pending S k) ∧
    (Forall (λ c, d_is_nan (tc_score c) = false) (ready_tree_queue S) →
     ∀ c', c' ∈ ready_tree_queue S → eligible (tree_queues S) c' →
       SFltb (tc_score c) (tc_score c') = false).
Proof.
  intros Hr Hne Hidle. pose proof (wf_sched_reachable pop max_llm_keys S Hr) as Hwf.
  unfold pending in Hne. destruct (tree_queues S !! key) as [q|] eqn:Hq; [|done].
  assert (has_active_key q = false) as Ha.
  { apply not_true_iff_false. rewrite (sw_active _ Hwf _ _ Hq).
    intros (w & r & Hw & Hk). by apply (Hidle w r). }
  destruct (sw_idle _ Hwf _ _ Hq Ha) as (_ & c0 & Hc0 & Hk0 & Hv0).
  split; [intros E; rewrite E in Hc0; by apply not_elem_of_nil in Hc0|].
  pose proof (pick_spec pop S) as Hp. destruct (pick_next_request pop S) as [[out|] S'].
  2: { destruct Hp as [Hno _]. destruct (Hno c0 Hc0). exists q. by rewrite Hk0. }
  destruct Hp as (queues' & ready' & -> & [(c & q1 & rest & dropped & Hperm & _ & Hq1 & Hv
      & Ha1 & Hr1 & -> & Hmax)]).
  exists out, (with_queues (<[tc_queue_key c := picked_queue rest q1]> (tree_queues S)) ready' S), c.
  unfold pending. simpl. rewrite Hq1, lookup_insert_eq, Hr1. split_and!; try done.
  - rewrite Hperm. apply elem_of_app. right. apply list_elem_of_here.
  - exists q1. by rewrite Hr1.
  - intros k Hk. by rewrite lookup_insert_ne.
Qed.

(** C13 First in, first out: over any step, the requests waiting under a key are unchanged,
    or one of the key was added at the end, or the first one went to an idle worker,
    which no other request of the key was with. *)
Theorem scheduler_fifo S S' key :
  sched_reachable pop max_llm_keys S → sched_step pop max_llm_keys S S' →
  queue_move S S' key.
Proof.
  intros Hr. apply queue_moves; [done|]. by apply (wf_sched_reachable pop max_llm_keys).
Qed.

(** Score is not waiting time: a request that reaches an idle key is scored once, then
    and there, so that a request of a higher base priority submitted any time later, be
    it hours, is picked before it. *)
Lemma late_request_overtakes now delay r1 r2 :
  queue_key r1 ≠ queue_key r2 → 0 ≤ delay →
  enqueued_at r1 = now → enqueued_at r2 = now + delay →
  base_priority r1 = 1 → base_priority r2 = 2 →
  (pick_next_request pop (submit (now + delay) r2 (submit now r1 Scheduler_init))).1 = Some r2.
Proof.
  intros Hk Hd He1 He2 Hb1 Hb2.
  destruct (submit_fresh now r1 Scheduler_init) as [Hq1 Hr1]; [done|].
  set (S1 := submit now r1 Scheduler_init) in *.
  destruct (submit_fresh (now + delay) r2 S1) as [Hq2 Hr2];
    [rewrite Hq1; by rewrite lookup_insert_ne|].
  set (S2 := submit (now + delay) r2 S1) in *.
  rewrite Hr1 in Hr2. rewrite Hq1 in Hq2.
  unfold effective_tree_priority in Hr2. rewrite Hb1, Hb2, He1, He2, !Z.sub_diag in Hr2.
  pose proof (pick_spec pop S2) as Hp. destruct (pick_next_request pop S2) as [[out|] S'].
  2: { destruct Hp as [Hno _]. edestruct Hno; [rewrite Hr2; apply list_elem_of_here|].
    eexists. simpl. rewrite Hq2, lookup_insert_eq. done. }
  destruct Hp as (queues' & ready' & _ & [(c & q & rest & dropped & Hperm & _ & Hq & Hv
      & Ha & Hr & _ & Hmax)]). simpl. f_equal.
  assert (c ∈ ready_tree_queue S2) as Hin
    by (rewrite Hperm; apply elem_of_app; right; apply list_elem_of_here).
  rewrite Hr2 in Hin, Hmax. apply elem_of_cons in Hin as [->|Hin].
  - simpl in Hq. rewrite Hq2, lookup_insert_eq in Hq. injection Hq as <-.
    simpl in Hr. by injection Hr.
  - exfalso. apply list_elem_of_singleton in Hin as ->.
    assert (SFltb (d_add (d_of_Z 1) (d_div (d_of_Z 0) (d_of_Z 5000)))
              (d_add (d_of_Z 2) (d_div (d_of_Z 0) (d_of_Z 5000))) = true) as Hlt
      by (vm_compute; done).
    pose proof (Hmax ltac:(repeat constructor) _ (list_elem_of_here _ _)) as Hf.
    cbn [tc_score] in Hf. rewrite Hf in Hlt; [done|].
    eexists. simpl. rewrite Hq2, lookup_insert_eq. done.
Qed.

(** A retry supersedes: once a request of the same trace and another id has been
    submitted, the earlier attempt is not current.  If its worker has not checked yet, it is
    neither run nor counted, whatever the inference would give, and its promise becomes the
    cancelled reply; if it is being run, its outcome is what counts, and an empty one becomes
    the cancelled reply; the later attempt stays current. *)
Lemma superseded_is_cancelled now now' w r r' outcome S :
  trace_id r = trace_id r' → trace_id r ≠ "" → request_id r ≠ "" → request_id r' ≠ "" →
  request_id r ≠ request_id r' →
  in_flight S !! w = Some r → completions S !! completion r = None →
  let S1 := submit now r' S in
  is_request_current (trace_id r) (request_id r) S1 = false ∧
  (checked S !! w = None →
   let S' := worker_finish now' w outcome (worker_check w S1) in
   llm_request_counts S' = llm_request_counts S ∧
   completions S' !! completion r = Some (cancelled_response r) ∧
   is_request_current (trace_id r') (request_id r') (client_done r S').2 = true ∧
   in_flight S' !! w = None) ∧
  (checked S !! w = Some true →
   let S' := worker_finish now' w outcome S1 in
   llm_request_counts S' = llm_request_counts S ∧
   completions S' !! completion r = Some match outcome with
     | inl response => if json_empty response then cancelled_response r else response
     | inr what => failed_response r what
     end ∧
   is_request_current (trace_id r') (request_id r') (client_done r S').2 = true).
Proof.
  intros Ht Hne Hr Hr' Hid Hw Hc S1.
  destruct (submit_books now r' S) as (Hcnt & Hcmp & Hact); [congruence|done|].
  fold S1 in Hcnt, Hcmp, Hact.
  simpl in Hcnt, Hcmp, Hact.
  assert (in_flight S1 !! w = Some r) as Hin' by (unfold S1; by rewrite (proj1 (submit_workers _ _ _))).
  assert (checked S1 !! w = checked S !! w) as Hck' by (unfold S1; by rewrite (proj2 (submit_workers _ _ _))).
  assert (is_request_current (trace_id r) (request_id r) S1 = false) as Hstale.
  { unfold is_request_current. rewrite decide_False by naive_solver.
    apply bool_decide_eq_false_2. rewrite Hact, Ht, lookup_insert_eq. congruence. }
  assert (∀ S0 response, same_books S1 S0 →
    let S' := answer_and_release now' w r response S0 in
    llm_request_counts S' = llm_request_counts S ∧
    completions S' !! completion r = Some response ∧
    is_request_current (trace_id r') (request_id r') (client_done r S').2 = true ∧
    in_flight S' !! w = None) as Hend.
  { intros S0 response (Hcnt0 & Hcmp0 & Hact0).
    destruct (answer_fields now' w r response S0) as (Hcnt' & Hcmp' & Hact' & ?);
      [by rewrite Hcmp0, Hcmp|].
    split_and!; [congruence|done| |done]. unfold client_done. simpl. rewrite <-Ht.
    apply clear_other; [done..|]. by rewrite Hact', Hact0, Hact, Ht, lookup_insert_eq. }
  split_and!; [done|intros Hn|intros Hn].
  - destruct (Hend (with_checked (<[w := false]>) S1) (cancelled_response r))
      as (? & ? & ? & ?); [by split_and!|].
    assert (worker_finish now' w outcome (worker_check w S1) =
      answer_and_release now' w r (cancelled_response r) (with_checked (<[w := false]>) S1)) as ->.
    { unfold worker_check. rewrite Hin', Hck', Hn, Hstale. unfold worker_finish. simpl.
      by rewrite Hin', lookup_insert_eq. }
    by split_and!.
  - unfold worker_finish. rewrite Hin', Hck', Hn.
    edestruct (Hend S1) as (? & Hr0 & ? & _); [by split_and!|]. split_and!; [done| |done].
    rewrite Hr0. by destruct outcome.
Qed.
End properties.
