(* ===== verification/StringUtils.v ===== *)
(** * Strings (src/utils/string_utils.hpp) and the [std::string] operations in use

    A [std::string] is a [string] of bytes.  Positions are not represented: a search
    returns the text before and after what it finds, and the loops that move a position
    over a string recur on what is left of it. *)

From S2P Require Import Prelude.
From Stdlib Require Import Ascii.

(** ** Concatenation *)

Lemma str_app_cons c s t : String c s +:+ t = String c (s +:+ t).
Proof. done. Qed.

Lemma str_app_nil_l s : "" +:+ s = s.
Proof. done. Qed.

Lemma str_app_nil_r s : s +:+ "" = s.
Proof. induction s as [|c s IH]; [done|]. by rewrite str_app_cons, IH. Qed.

Lemma str_app_assoc s t u : (s +:+ t) +:+ u = s +:+ (t +:+ u).
Proof. induction s as [|c s IH]; [done|]. by rewrite !str_app_cons, IH. Qed.

Lemma str_app_length s t : String.length (s +:+ t) = (String.length s + String.length t)%nat.
Proof. induction s as [|c s IH]; [done|]. rewrite str_app_cons. simpl. by rewrite IH. Qed.

Create Rewrite HintDb velix_str.
#[export] Hint Rewrite str_app_cons str_app_nil_l str_app_nil_r str_app_assoc : velix_str.

(** [String c s] at the end of a text: one more byte. *)
Lemma str_app_inj_r s s' t : s +:+ t = s' +:+ t → s = s'.
Proof.
  revert s'. induction s as [|c s IH]; intros [|c' s'] H; [done|..].
  - apply (f_equal String.length) in H. rewrite !str_app_length in H. simpl in H. lia.
  - apply (f_equal String.length) in H. rewrite !str_app_length in H. simpl in H. lia.
  - rewrite !str_app_cons in H. injection H as -> H. by rewrite (IH s' H).
Qed.

Definition snoc (s : string) (c : ascii) : string := s +:+ String c "".

Lemma snoc_app s c t : snoc s c +:+ t = s +:+ String c t.
Proof. unfold snoc. by rewrite str_app_assoc. Qed.

Definition concat_strings (l : list string) : string := foldr String.append "" l.

Lemma concat_strings_app l1 l2 :
  concat_strings (l1 ++ l2) = concat_strings l1 +:+ concat_strings l2.
Proof. induction l1 as [|s l1 IH]; [done|]. simpl. by rewrite IH, str_app_assoc. Qed.

(** Whether a byte occurs. *)
Fixpoint has_char (d : ascii) (s : string) : bool :=
  match s with
  | EmptyString => false
  | String c s => bool_decide (c = d) || has_char d s
  end.

Lemma has_char_app d s t : has_char d (s +:+ t) = has_char d s || has_char d t.
Proof.
  induction s as [|c s IH]; [done|]. rewrite str_app_cons. simpl. by rewrite IH, orb_assoc.
Qed.

(** ** Searching *)

(** [s.find(d)]: what precedes the first [d], and what follows it. *)
Fixpoint find_char (d : ascii) (s : string) : option (string * string) :=
  match s with
  | EmptyString => None
  | String c s =>
      if decide (c = d) then Some ("", s)
      else match find_char d s with
           | Some (before, after) => Some (String c before, after)
           | None => None
           end
  end.

(** [s.rfind(d)] *)
Fixpoint rfind_char (d : ascii) (s : string) : option (string * string) :=
  match s with
  | EmptyString => None
  | String c s =>
      match rfind_char d s with
      | Some (before, after) => Some (String c before, after)
      | None => if decide (c = d) then Some ("", s) else None
      end
  end.

(** [s.rfind(p, 0) == 0], and what follows the prefix. *)
Fixpoint strip_prefix (p s : string) : option string :=
  match p, s with
  | EmptyString, s => Some s
  | String a p, String b s => if decide (a = b) then strip_prefix p s else None
  | String _ _, EmptyString => None
  end.

(** [s.find(p)] for a text [p]. *)
Fixpoint find_str (p s : string) : option (string * string) :=
  match strip_prefix p s with
  | Some after => Some ("", after)
  | None =>
      match s with
      | EmptyString => None
      | String c s =>
          match find_str p s with
          | Some (before, after) => Some (String c before, after)
          | None => None
          end
      end
  end.

(** [s.back()] and [s.pop_back()] of a text that is not empty. *)
Fixpoint unsnoc (s : string) : option (string * ascii) :=
  match s with
  | EmptyString => None
  | String c s =>
      match unsnoc s with
      | Some (front, last) => Some (String c front, last)
      | None => Some ("", c)
      end
  end.

(** [s.substr(0, n)] and [s.substr(n)]. *)
Fixpoint str_take (n : nat) (s : string) : string :=
  match n, s with S n, String c s => String c (str_take n s) | _, _ => "" end.
Fixpoint str_drop (n : nat) (s : string) : string :=
  match n, s with S n, String _ s => str_drop n s | _, _ => s end.

(** [s.substr(s.find_first_not_of(chars))], or nothing where there is no other byte. *)
Fixpoint drop_front (chars : ascii → bool) (s : string) : string :=
  match s with
  | EmptyString => ""
  | String c rest => if chars c then drop_front chars rest else s
  end.

(** [s.substr(0, s.find_last_not_of(chars) + 1)] *)
Fixpoint drop_back (chars : ascii → bool) (s : string) : string :=
  match s with
  | EmptyString => ""
  | String c s =>
      let s := drop_back chars s in
      if chars c && bool_decide (s = "") then "" else String c s
  end.

(** ** string_utils.hpp *)

(** [std::isspace] in the C locale. *)
Definition isspace (c : ascii) : bool :=
  let n := N_of_ascii c in (n =? 32)%N || ((9 <=? n)%N && (n <=? 13)%N).

Fixpoint ltrim (s : string) : string :=
  match s with
  | EmptyString => ""
  | String c s' => if isspace c then ltrim s' else s
  end.

Fixpoint rtrim (s : string) : string :=
  match s with
  | EmptyString => ""
  | String c s =>
      let s := rtrim s in
      if decide (s = "" ∧ isspace c = true) then "" else String c s
  end.

Definition trim (s : string) : string := rtrim (ltrim s).

(** The [getline] loop: [token] has been read so far; at the end of the stream a token
    without a byte is not one. *)
Fixpoint split_from (d : ascii) (token s : string) : list string :=
  match s with
  | EmptyString => if decide (token = "") then [] else [token]
  | String c s =>
      if decide (c = d) then token :: split_from d "" s
      else split_from d (snoc token c) s
  end.

Definition split (s : string) (d : ascii) : list string := split_from d "" s.

Fixpoint join (items : list string) (delimiter : string) : string :=
  match items with
  | [] => ""
  | [x] => x
  | x :: items => x +:+ delimiter +:+ join items delimiter
  end.

(** The loop of [replace_all], on the text from [start_pos] on: an iteration moves past
    what it replaced, so that the length of the text is fuel enough. *)
Fixpoint replace_loop (fuel : nat) (from to s : string) : string :=
  match fuel with
  | O => s
  | S fuel =>
      match find_str from s with
      | None => s
      | Some (before, after) => before +:+ to +:+ replace_loop fuel from to after
      end
  end.

Definition replace_all (s from to : string) : string :=
  if decide (from = "") then s else replace_loop (String.length s) from to s.

Definition in_range (lo hi : N) (c : ascii) : bool :=
  (lo <=? N_of_ascii c)%N && (N_of_ascii c <=? hi)%N.

(** [std::tolower] and [std::toupper] in the C locale. *)
Definition tolower (c : ascii) : ascii :=
  if in_range 65 90 c then ascii_of_N (N_of_ascii c + 32) else c.
Definition toupper (c : ascii) : ascii :=
  if in_range 97 122 c then ascii_of_N (N_of_ascii c - 32) else c.

Fixpoint map_string (f : ascii → ascii) (s : string) : string :=
  match s with
  | EmptyString => ""
  | String c s => String (f c) (map_string f s)
  end.

Definition to_lower (s : string) : string := map_string tolower s.
Definition to_upper (s : string) : string := map_string toupper s.

Definition starts_with (s prefix : string) : bool := bool_decide (is_Some (strip_prefix prefix s)).

(** [s.compare(s.size() - suffix.size(), suffix.size(), suffix) == 0] *)
Fixpoint ends_with (s suffix : string) : bool :=
  if decide (s = suffix) then true
  else match s with EmptyString => false | String _ s => ends_with s suffix end.

Definition contains_str (s needle : string) : bool := bool_decide (is_Some (find_str needle s)).

(** ** Searches and numbers of the standard library *)

(** [s.rfind(p)] for a text [p] that is not empty: the last occurrence. *)
Fixpoint rfind_str (p s : string) : option (string * string) :=
  match s with
  | EmptyString => None
  | String c s' =>
      match rfind_str p s' with
      | Some (before, after) => Some (String c before, after)
      | None =>
          match strip_prefix p s with
          | Some after => Some ("", after)
          | None => None
          end
      end
  end.

Definition digit_value (c : ascii) : Z := Z.of_N (N_of_ascii c) - 48.

(** The decimal digits at the head of a text. *)
Fixpoint read_digits (acc : Z) (s : string) : Z :=
  match s with
  | EmptyString => acc
  | String c s => if isdigit c then read_digits (acc * 10 + digit_value c) s else acc
  end.

(** [std::stoi]: [None] is an exception.  White space, a sign, digits, and then anything. *)
Definition stoi (s : string) : option Z :=
  let s := ltrim s in
  let '(sign, s) := match s with
                    | String "-" s => (-1, s)
                    | String "+" s => (1, s)
                    | _ => (1, s)
                    end in
  match s with
  | String c _ =>
      let n := sign * read_digits 0 s in
      if isdigit c && bool_decide (- 2 ^ 31 ≤ n ≤ INT_MAX) then Some n else None
  | EmptyString => None
  end.

(** ** Lemmas *)

Lemma find_char_Some d s before after :
  find_char d s = Some (before, after) →
  s = before +:+ String d after ∧ has_char d before = false.
Proof.
  revert before after. induction s as [|c s IH]; intros before after H; [done|]. simpl in H.
  destruct (decide (c = d)) as [->|Hne]; [by injection H as <- <-|].
  destruct (find_char d s) as [[b a]|]; [|done]. injection H as <- <-.
  destruct (IH b a eq_refl) as [-> Hb]. split; [done|]. simpl.
  by rewrite bool_decide_false.
Qed.

Lemma find_char_None d s : find_char d s = None ↔ has_char d s = false.
Proof.
  induction s as [|c s IH]; [done|]. simpl. destruct (decide (c = d)) as [->|Hne].
  - by rewrite bool_decide_true.
  - rewrite bool_decide_false by done. simpl. rewrite <-IH.
    by destruct (find_char d s) as [[]|].
Qed.

(** The first occurrence is found whatever follows it. *)
Lemma find_char_app d before after :
  has_char d before = false → find_char d (before +:+ String d after) = Some (before, after).
Proof.
  induction before as [|c b IH]; intros H; [simpl; by rewrite decide_True|].
  simpl in H. apply orb_false_iff in H as [Hc%bool_decide_eq_false H].
  rewrite str_app_cons. simpl. rewrite decide_False by done. by rewrite IH.
Qed.

Lemma strip_prefix_Some p s after : strip_prefix p s = Some after ↔ s = p +:+ after.
Proof.
  revert s. induction p as [|a p IH]; intros s; simpl.
  - split; [by intros [= ->]|by intros ->].
  - destruct s as [|b s]; [done|]. rewrite str_app_cons.
    destruct (decide (a = b)) as [->|]; [rewrite IH|]; naive_solver.
Qed.

Lemma find_str_prefix p s : find_str p (p +:+ s) = Some ("", s).
Proof.
  assert (strip_prefix p (p +:+ s) = Some s) as H by by apply strip_prefix_Some.
  destruct (p +:+ s); cbn [find_str]; by rewrite H.
Qed.

Lemma find_str_Some p s before after :
  find_str p s = Some (before, after) →
  s = before +:+ p +:+ after ∧
  (∀ b a, s = b +:+ p +:+ a → (String.length before ≤ String.length b)%nat).
Proof.
  revert before after. induction s as [|c s IH]; intros before after H; cbn [find_str] in H.
  - destruct (strip_prefix p "") as [a|] eqn:Hp; [|done]. injection H as <- <-.
    apply strip_prefix_Some in Hp. split; [done|]. simpl. lia.
  - destruct (strip_prefix p (String c s)) as [a|] eqn:Hp.
    { injection H as <- <-. apply strip_prefix_Some in Hp. split; [done|]. simpl. lia. }
    destruct (find_str p s) as [[b a]|]; [|done]. injection H as <- <-.
    destruct (IH b a eq_refl) as [Hs Hmin]. split; [by rewrite Hs|].
    intros [|c' b'] a' Hb.
    + exfalso. rewrite str_app_nil_l in Hb. apply strip_prefix_Some in Hb. congruence.
    + rewrite str_app_cons in Hb. injection Hb as <- Hb. simpl. apply Hmin in Hb. lia.
Qed.

Lemma find_str_None p s : find_str p s = None → ∀ b a, s ≠ b +:+ p +:+ a.
Proof.
  induction s as [|c s IH]; intros H b a Hs; cbn [find_str] in H.
  - destruct (strip_prefix p "") eqn:Hp; [done|]. destruct b; [|done].
    symmetry in Hs. rewrite str_app_nil_l in Hs. symmetry in Hs.
    apply strip_prefix_Some in Hs. congruence.
  - destruct (strip_prefix p (String c s)) eqn:Hp; [done|].
    destruct (find_str p s) as [[]|]; [done|]. destruct b as [|c' b].
    + rewrite str_app_nil_l in Hs. apply strip_prefix_Some in Hs. congruence.
    + rewrite str_app_cons in Hs. injection Hs as <- Hs. by apply (IH eq_refl b a).
Qed.

Lemma unsnoc_Some s front last : unsnoc s = Some (front, last) ↔ s = snoc front last.
Proof.
  revert front. induction s as [|c s IH]; intros front; simpl.
  - split; [done|]. by destruct front.
  - split.
    + destruct (unsnoc s) as [[f l]|] eqn:E; intros [= <- <-].
      * by rewrite (proj1 (IH f) eq_refl).
      * destruct s as [|c' s']; [done|]. simpl in E. by destruct (unsnoc s') as [[]|].
    + destruct front as [|c' f]; unfold snoc; rewrite ?str_app_nil_l, ?str_app_cons.
      * intros [= -> ->]. done.
      * intros [= -> Hs]. by rewrite (proj2 (IH f) Hs).
Qed.

Lemma str_take_drop n s : str_take n s +:+ str_drop n s = s.
Proof.
  revert s. induction n as [|n IH]; intros [|c s]; simpl; rewrite ?str_app_nil_l; [done..|].
  by rewrite str_app_cons, IH.
Qed.

Lemma str_take_length n s : (n ≤ String.length s)%nat → String.length (str_take n s) = n.
Proof.
  revert s. induction n as [|n IH]; intros [|c s] H; simpl in *; try lia.
  rewrite IH; lia.
Qed.

Lemma str_drop_length n s : String.length (str_drop n s) = (String.length s - n)%nat.
Proof. revert s. induction n as [|n IH]; intros [|c s]; simpl; auto. Qed.

Lemma rfind_str_app p su t a :
  rfind_str p t = Some ("", a) → rfind_str p (su +:+ t) = Some (su, a).
Proof.
  intros Ht. induction su as [|c su IH]; [done|]. rewrite str_app_cons. simpl. by rewrite IH.
Qed.

(** The last occurrence: nothing further right. *)
Lemma rfind_str_Some p s before after :
  rfind_str p s = Some (before, after) → s = before +:+ p +:+ after.
Proof.
  revert before. induction s as [|c s IH]; intros before; [done|]. cbn [rfind_str].
  destruct (rfind_str p s) as [[b a]|].
  - intros [= <- <-]. by rewrite str_app_cons, (IH b).
  - destruct (strip_prefix p (String c s)) as [a|] eqn:E; [|done]. intros [= <- <-].
    rewrite str_app_nil_l. by apply strip_prefix_Some.
Qed.

Lemma rfind_str_None p s b a : p ≠ "" → rfind_str p s = None → s ≠ b +:+ p +:+ a.
Proof.
  intros Hp. revert b. induction s as [|c s IH]; intros b H Hs.
  { destruct b; rewrite ?str_app_nil_l, ?str_app_cons in Hs; [|done].
    destruct p; [done|]. by rewrite str_app_cons in Hs. }
  cbn [rfind_str] in H. destruct (rfind_str p s) as [[]|]; [done|].
  destruct (strip_prefix p (String c s)) as [a'|] eqn:E; [done|].
  destruct b as [|c' b].
  - rewrite str_app_nil_l in Hs. apply strip_prefix_Some in Hs. congruence.
  - rewrite str_app_cons in Hs. injection Hs as _ Hs. by apply (IH b).
Qed.

(** *** Decimal numbers *)

Lemma read_digits_go x s : (0 < x)%N →
  ∃ k, ∀ acc, read_digits acc (pretty_N_go x s) = read_digits (acc * 10 ^ Z.of_nat k + Z.of_N x) s.
Proof.
  revert s. induction (N.lt_wf_0 x) as [x _ IH]; intros s Hx.
  rewrite pretty_N_go_step by done.
  assert (∀ acc, read_digits acc (String (pretty_N_char (x `mod` 10)) s) =
    read_digits (acc * 10 + Z.of_N (x `mod` 10)) s) as Hd.
  { intros acc. cbn [read_digits]. rewrite pretty_N_char_digit. f_equal. f_equal.
    assert (x `mod` 10 < 10)%N as Hlt by (by apply N.mod_lt).
    revert Hlt. generalize (x `mod` 10)%N. clear. intros n Hn. unfold digit_value.
    assert (n = 0 ∨ n = 1 ∨ n = 2 ∨ n = 3 ∨ n = 4 ∨ n = 5 ∨ n = 6 ∨ n = 7 ∨ n = 8 ∨ n = 9)%N
      as H by lia. by destruct_or! H; subst. }
  pose proof (N.div_mod x 10 ltac:(done)) as Hdm.
  destruct (decide (x < 10)%N) as [Hlt|Hge].
  - exists 1%nat. intros acc. rewrite N.div_small, pretty_N_go_0, Hd by done.
    rewrite N.mod_small by done. by replace (10 ^ Z.of_nat 1) with 10 by done.
  - destruct (IH (x `div` 10)%N ltac:(by apply N.div_lt) (String (pretty_N_char (x `mod` 10)) s))
      as [k Hk].
    { apply N.div_str_pos. lia. }
    exists (S k). intros acc. rewrite Hk, Hd. f_equal.
    rewrite Nat2Z.inj_succ, Z.pow_succ_r by lia. lia.
Qed.

Lemma read_digits_pretty n : 0 ≤ n → read_digits 0 (pretty n) = n.
Proof.
  intros Hn. destruct n as [|p|p]; [done| |lia].
  change (read_digits 0 (pretty_N_go (N.pos p) "") = Z.pos p).
  destruct (read_digits_go (N.pos p) "" eq_refl) as [k Hk]. rewrite Hk. simpl. lia.
Qed.

Lemma pretty_N_go_nonempty x s : (0 < x)%N ∨ s ≠ "" → pretty_N_go x s ≠ "".
Proof.
  revert s. induction (N.lt_wf_0 x) as [x _ IH]; intros s H.
  destruct (decide (x = 0)%N) as [->|Hx]; [rewrite pretty_N_go_0; destruct H; [lia|done]|].
  rewrite pretty_N_go_step by lia. apply IH; [apply N.div_lt; lia|by right].
Qed.

Lemma pretty_nonempty n : 0 ≤ n → pretty n ≠ "".
Proof.
  intros Hn. destruct n as [|p|p]; [done| |lia]. by apply (pretty_N_go_nonempty (N.pos p)); left.
Qed.

Lemma isdigit_not_space c : isdigit c = true → isspace c = false.
Proof. by destruct c as [[] [] [] [] [] [] [] []]. Qed.

Lemma stoi_digits c s :
  isdigit c = true → read_digits 0 (String c s) ≤ INT_MAX → 0 ≤ read_digits 0 (String c s) →
  stoi (String c s) = Some (read_digits 0 (String c s)).
Proof.
  intros Hc Hmax Hpos. unfold stoi. cbn [ltrim]. rewrite isdigit_not_space by done.
  assert (match String c s with
    | String "-" s => (-1, s) | String "+" s => (1, s) | _ => (1, String c s) end =
    (1, String c s)) as ->.
  { clear Hmax Hpos. by destruct c as [[] [] [] [] [] [] [] []]. }
  rewrite Hc, Z.mul_1_l, bool_decide_true; [done|]. unfold INT_MAX in *. lia.
Qed.

Lemma stoi_range s n : stoi s = Some n → - 2 ^ 31 ≤ n ≤ INT_MAX.
Proof.
  unfold stoi. destruct (match ltrim s with String "-" s => _ | _ => _ end) as [sign [|c s']];
    [done|]. destruct (isdigit c && _) eqn:E; [|done]. intros [= <-].
  apply andb_true_iff in E as [_ E]. by apply bool_decide_eq_true in E.
Qed.

Lemma stoi_pretty n : 0 ≤ n ≤ INT_MAX → stoi (pretty n) = Some n.
Proof.
  intros Hn. pose proof (read_digits_pretty n ltac:(lia)) as Hr.
  pose proof (pretty_Z_digits n ltac:(lia)) as Hd.
  destruct (pretty n) as [|c s] eqn:E.
  { exfalso. by apply (pretty_nonempty n); [lia|]. }
  apply andb_true_iff in Hd as [Hc _]. rewrite stoi_digits by (done || lia). by rewrite Hr.
Qed.

Lemma digits_no_char x s : all_digits s = true → isdigit x = false → has_char x s = false.
Proof.
  intros Hs Hx. induction s as [|c s IH]; [done|]. simpl in *.
  apply andb_true_iff in Hs as [Hc Hs]. rewrite IH by done. rewrite orb_false_r.
  apply bool_decide_false. intros ->. congruence.
Qed.

(** *** Splitting *)

(** The tokens of what is left, the first one being under way. *)
Lemma split_from_spec d token s :
  has_char d token = false →
  Forall (λ t, has_char d t = false) (split_from d token s) ∧
  ((split_from d token s ≠ [] ∧ token +:+ s = join (split_from d token s) (String d "")) ∨
   (∃ s', token +:+ s = snoc s' d ∧ split_from d token s ≠ [] ∧
          s' = join (split_from d token s) (String d "")) ∨
   (split_from d token s = [] ∧ token = "" ∧ s = "")).
Proof.
  revert token. induction s as [|c s IH]; intros token Ht; cbn [split_from].
  - destruct (decide (token = "")) as [->|Hne]; [split; [done|by right; right]|].
    split; [by repeat constructor|left]. split; [done|]. by rewrite str_app_nil_r.
  - destruct (decide (c = d)) as [->|Hne].
    + destruct (IH "" eq_refl) as [Hall Hs]. split; [by constructor|].
      destruct Hs as [[Hn Hj]|[(s' & Hs & Hn & Hj)|(Hn & _ & ->)]].
      * left. split; [done|]. rewrite str_app_nil_l in Hj.
        destruct (split_from d "" s) as [|t ts]; [done|]. rewrite Hj. done.
      * right; left. rewrite str_app_nil_l in Hs.
        destruct (split_from d "" s) as [|t ts]; [done|].
        exists (token +:+ String d s'). split_and!; [|done|by rewrite Hj].
        unfold snoc in *. by rewrite str_app_assoc, str_app_cons, Hs.
      * right; left. rewrite Hn. exists token. by split_and!.
    + assert (has_char d (snoc token c) = false) as Ht'.
      { unfold snoc. rewrite has_char_app, Ht. simpl. by rewrite bool_decide_false. }
      destruct (IH _ Ht') as [Hall Hs]. split; [done|]. rewrite snoc_app in Hs.
      destruct Hs as [?|[?|(_ & Hn & _)]]; [by left|by right; left|].
      exfalso. unfold snoc in Hn. by destruct token.
Qed.

(** *** Replacing *)

Lemma join_cons from before pieces :
  pieces ≠ [] →
  join (before :: pieces) from = before +:+ from +:+ join pieces from.
Proof. by destruct pieces. Qed.

Lemma replace_loop_spec fuel from to s :
  from ≠ "" → (String.length s ≤ fuel)%nat →
  ∃ pieces, pieces ≠ [] ∧ s = join pieces from ∧ replace_loop fuel from to s = join pieces to ∧
    Forall (λ p, find_str from p = None) pieces.
Proof.
  intros Hne. revert s. induction fuel as [|fuel IH]; intros s Hlen; cbn [replace_loop].
  { destruct s; [|simpl in Hlen; lia]. exists [""]. split_and!; try done.
    repeat constructor. by destruct from. }
  destruct (find_str from s) as [[before after]|] eqn:Hf.
  2: { exists [s]. split_and!; try done. by repeat constructor. }
  pose proof (find_str_Some _ _ _ _ Hf) as [-> Hmin].
  rewrite !str_app_length in Hlen. assert (0 < String.length from)%nat
    by (destruct from; [done|simpl; lia]).
  destruct (IH after) as (pieces & Hp & Haft & Hr & Hall); [lia|].
  exists (before :: pieces). rewrite !join_cons by done. split_and!; try done.
  - by rewrite <-Haft.
  - by rewrite Hr.
  - constructor; [|done].
    destruct (find_str from before) as [[b a]|] eqn:Hb; [|done]. exfalso.
    apply find_str_Some in Hb as [Hb _].
    specialize (Hmin b (a +:+ from +:+ after)). subst before.
    rewrite !str_app_assoc in Hmin. specialize (Hmin eq_refl).
    rewrite !str_app_length in Hmin. lia.
Qed.

(** ** Properties *)

(** Splitting is undone by joining: no token holds the delimiter, and the tokens joined by
    it give back the text, less one delimiter when the text ends with one, which then is the
    only thing that is lost. *)
Lemma split_join s d :
  Forall (λ t, has_char d t = false) (split s d) ∧
  (s = join (split s d) (String d "") ∨ s = snoc (join (split s d) (String d "")) d).
Proof.
  destruct (split_from_spec d "" s eq_refl) as [Hall Hs]. split; [done|].
  unfold split. rewrite str_app_nil_l in Hs.
  destruct Hs as [[_ Hs]|[(s' & Hs & _ & Hj)|(Hs & _ & ->)]].
  - by left.
  - right. by rewrite <-Hj.
  - left. by rewrite Hs.
Qed.

(** Replacing replaces every occurrence and nothing else: the text is a sequence of pieces
    without the searched text, joined by it, and the result is the same pieces joined by the
    replacement, which is never searched again. *)
Lemma replace_all_spec s from to :
  from ≠ "" →
  ∃ pieces, s = join pieces from ∧ replace_all s from to = join pieces to ∧
    Forall (λ p, contains_str p from = false) pieces.
Proof.
  intros Hne. unfold replace_all. rewrite decide_False by done.
  destruct (replace_loop_spec (String.length s) from to s Hne (le_n _))
    as (pieces & _ & Hs & Hr & Hall).
  exists pieces. split_and!; [done..|]. eapply Forall_impl; [exact Hall|].
  intros p Hp. unfold contains_str. apply bool_decide_eq_false_2. rewrite Hp. by intros [].
Qed.
