(* ===== verification/Config.v ===== *)
(** * Configuration (src/utils/config_utils.hpp)

    The cache of the two configuration files with its time to live, the ports and hosts that
    are read from it, and the [.env] file.  The file system is a function from paths to
    contents, which may be another at each call, and the steady clock ([now], in
    milliseconds) is an argument.  Every function holds [get_config_mutex] throughout. *)

From Stdlib Require Import Ascii.
From S2P Require Import Prelude Json StringUtils.

(** [std::ifstream f(a); if (!f.is_open()) f.open(b); ...] *)
Fixpoint open_first (read_file : string → option string) (paths : list string) : option string :=
  match paths with
  | [] => None
  | path :: paths =>
      match read_file path with Some text => Some text | None => open_first read_file paths end
  end.

(** ** The cache *)

(** A time point that was never set is [None]. *)
Record ConfigCache := {
  ports_cache : gmap string Z;
  ports_loaded_at : option Z;
  config_cache : json;
  config_loaded_at : option Z;
}.

Definition ConfigCache_init : ConfigCache :=
  {| ports_cache := ∅; ports_loaded_at := None; config_cache := JNull; config_loaded_at := None |}.

(** The integers of an object, as [int]s.  A member of an array has no key: asking for it
    throws, and nothing is kept. *)
Definition ports_of (j : json) : gmap string Z :=
  match j with
  | JObject kvs =>
      foldr (λ '(k, v) m, match v with JInt z => <[k := i32 z]> m | _ => m end) ∅ kvs
  | _ => ∅
  end.

Section config.
Context (parse_file : string → exc json) (ttl_sec : Z).

Abbreviation M := (ST ConfigCache).

(** Whole seconds since the file was loaded. *)
Definition is_stale (now : Z) (loaded_at : option Z) : bool :=
  match loaded_at with
  | None => true
  | Some t => bool_decide (ttl_sec ≤ Z.quot (now - t) 1000)
  end.

(** What the ports file says: nothing where it is missing or malformed. *)
Definition ports_file (read_file : string → option string) : exc (gmap string Z) :=
  match open_first read_file ["config/ports.json"; "../config/ports.json";
                              "build/config/ports.json"] with
  | None => mret ∅
  | Some text => try_catch (j ← parse_file text; mret (ports_of j)) (λ _, mret ∅)
  end.

Definition config_file (read_file : string → option string) : exc json :=
  match open_first read_file ["config/config.json"; "../config/config.json";
                              "build/config/config.json"] with
  | None => mret (JObject [])
  | Some text => try_catch (parse_file text) (λ _, mret (JObject []))
  end.

Definition load_ports_impl (now : Z) (read_file : string → option string) : M () :=
  ports ← lift (ports_file read_file);
  modify (λ c, {| ports_cache := ports; ports_loaded_at := Some now;
                  config_cache := config_cache c; config_loaded_at := config_loaded_at c |}).

Definition load_configs_impl (now : Z) (read_file : string → option string) : M () :=
  config ← lift (config_file read_file);
  modify (λ c, {| ports_cache := ports_cache c; ports_loaded_at := ports_loaded_at c;
                  config_cache := config; config_loaded_at := Some now |}).

Definition refresh_configs (now : Z) (read_file : string → option string) : M () :=
  loaded_at ← gets config_loaded_at;
  if is_stale now loaded_at then load_configs_impl now read_file else mret tt.

Definition get_port (now : Z) (read_file : string → option string) (name : string)
    (fallback : Z) : M Z :=
  loaded_at ← gets ports_loaded_at;
  (if is_stale now loaded_at then load_ports_impl now read_file else mret tt);;
  ports ← gets ports_cache;
  mret (default fallback (ports !! name)).

(** The two lookups of hosts differ in the section of the file. *)
Definition host_of (section name fallback : string) (config : json) : string :=
  match find config section with
  | Some (JObject hosts) =>
      match find (JObject hosts) name with
      | Some (JString value) => if decide (value = "") then fallback else value
      | _ => fallback
      end
  | _ => fallback
  end.

Definition get_host (section : string) (now : Z) (read_file : string → option string)
    (name fallback : string) : M string :=
  refresh_configs now read_file;;
  config ← gets config_cache;
  mret (host_of section name fallback config).

Definition get_service_host := get_host "SERVICE_HOSTS".
Definition get_bind_host := get_host "BIND_HOSTS".

(** [get] is the conversion to the type. *)
Definition get_config {T} (get : json → exc T) (now : Z) (read_file : string → option string)
    (key : string) (fallback : T) : M T :=
  refresh_configs now read_file;;
  config ← gets config_cache;
  match find config key with
  | Some v => lift (try_catch (get v) (λ _, mret fallback))
  | None => mret fallback
  end.

Definition reload_configs (now : Z) (read_file : string → option string) : M () :=
  modify (λ _, ConfigCache_init);;
  load_configs_impl now read_file;;
  load_ports_impl now read_file.
End config.

(** ** The .env file *)

Definition newline_char : ascii := "010"%char.
Definition double_quote : ascii := "034"%char.

(** The quotes around a value are dropped. *)
Definition unquote (val : string) : string :=
  match val with
  | String q rest =>
      match unsnoc rest with
      | Some (body, q') => if decide (q = double_quote ∧ q' = double_quote) then body else val
      | None => val
      end
  | EmptyString => val
  end.

Definition dotenv_line (m : gmap string string) (line : string) : gmap string string :=
  match trim line with
  | EmptyString => m
  | String c _ as trimmed =>
      if decide (c = "#"%char) then m
      else
        match find_char "=" trimmed with
        | None => m
        | Some (key, val) => <[rtrim key := unquote (ltrim val)]> m
        end
  end.

Definition load_dotenv (read_file : string → option string) (path : string) :
    gmap string string :=
  match read_file path with
  | None => ∅
  | Some text => foldl dotenv_line ∅ (split text newline_char)
  end.

(** [getenv] is the environment of the process. *)
Definition get_env_value (getenv : string → option string) (name : string)
    (dot_env : gmap string string) : string :=
  match dot_env !! name with
  | Some (String c v) => String c v
  | _ => default "" (getenv name)
  end.

(** ** Properties *)

Section staleness.
Context (parse_file : string → exc json) (ttl_sec : Z).
(** The files as they are at each time. *)
Context (files : Z → string → option string).

(** The cache holds what the file said when it was loaded. *)
Record coherent (now : Z) (c : ConfigCache) : Prop := {
  co_ports t : ports_loaded_at c = Some t →
    t ≤ now ∧ ports_file parse_file (files t) = Ok (ports_cache c);
  co_config t : config_loaded_at c = Some t →
    t ≤ now ∧ config_file parse_file (files t) = Ok (config_cache c);
}.

Lemma coherent_init now : coherent now ConfigCache_init.
Proof. by split. Qed.

Lemma coherent_later now now' c : now ≤ now' → coherent now c → coherent now' c.
Proof.
  intros Hle [Hp Hc]. split; intros t Ht; [apply Hp in Ht as [? ?]|apply Hc in Ht as [? ?]];
    (split; [lia|done]).
Qed.

Lemma keeps_load_ports now :
  keeps (coherent now) (load_ports_impl parse_file now (files now)) (λ _, True).
Proof.
  intros c [Hp Hc]. unfold load_ports_impl, lift, modify, mbind, ST_bind.
  destruct (ports_file parse_file (files now)) eqn:E; split; try done.
  split; simpl; [|done]. by intros t [= <-].
Qed.

Lemma keeps_load_configs now :
  keeps (coherent now) (load_configs_impl parse_file now (files now)) (λ _, True).
Proof.
  intros c [Hp Hc]. unfold load_configs_impl, lift, modify, mbind, ST_bind.
  destruct (config_file parse_file (files now)) eqn:E; split; try done.
  split; simpl; [done|]. by intros t [= <-].
Qed.

Lemma keeps_refresh now :
  keeps (coherent now) (refresh_configs parse_file ttl_sec now (files now)) (λ _, True).
Proof.
  unfold refresh_configs. eapply (keeps_bind _ _ _ (λ _, True)).
  { by apply keeps_gets. }
  intros t _. destruct (is_stale ttl_sec now t); [apply keeps_load_configs|by apply keeps_ret].
Qed.

Lemma fresh_bound now t : is_stale ttl_sec now (Some t) = false → t ≤ now → now - t < 1000 * ttl_sec.
Proof.
  unfold is_stale. intros H%bool_decide_eq_false Hle.
  pose proof (Z.quot_rem' (now - t) 1000). pose proof (Z.rem_bound_pos (now - t) 1000). lia.
Qed.

(** How old an answer may be: the port that is returned is what the ports file said at a moment
    that is less than the time to live ago - or now, where the time to live is zero or less -,
    and the fallback only where the file did not have the port then; whatever was asked
    before, and however the files changed in between. *)
Lemma port_staleness now name fallback c port c' :
  coherent now c →
  get_port parse_file ttl_sec now (files now) name fallback c = (Ok port, c') →
  coherent now c' ∧
  ∃ t ports, (t = now ∨ t ≤ now ∧ now - t < 1000 * ttl_sec) ∧
    ports_file parse_file (files t) = Ok ports ∧ port = default fallback (ports !! name).
Proof.
  intros Hc H. unfold get_port in H. apply st_bind_Ok_inv in H as (o & c0 & [= <- <-] & H).
  apply st_bind_Ok_inv in H as ([] & c1 & Hload & H).
  apply st_bind_Ok_inv in H as (ports & c2 & [= <- <-] & H). unfold mret, ST_ret in H.
  injection H as <- <-.
  destruct (is_stale ttl_sec now (ports_loaded_at c)) eqn:Hs.
  - pose proof (keeps_load_ports now c Hc) as [Hc1 _]. rewrite Hload in Hc1. split; [done|].
    apply st_bind_Ok_inv in Hload as (ports & ? & [Hp ->]%st_lift_Ok_inv & [= <-]).
    exists now, ports. by split; [left|].
  - unfold mret, ST_ret in Hload. injection Hload as <-. split; [done|].
    destruct (ports_loaded_at c) as [t|] eqn:Ht; [|done].
    destruct (co_ports _ _ Hc t Ht) as [Hle Hp]. exists t, (ports_cache c).
    split; [right; split; [done|by apply fresh_bound]|done].
Qed.
End staleness.

(** *** Reading back a .env file *)

Lemma has_char_false_cons d c s : has_char d (String c s) = false → c ≠ d ∧ has_char d s = false.
Proof. cbn [has_char]. intros [H%bool_decide_eq_false ?]%orb_false_iff. split; [congruence|done]. Qed.

Lemma split_from_line d token s rest :
  has_char d s = false → split_from d token (s +:+ String d rest) = (token +:+ s) :: split_from d "" rest.
Proof.
  revert token. induction s as [|c s IH]; intros token Hs.
  - rewrite str_app_nil_l, str_app_nil_r. cbn [split_from]. by rewrite decide_True.
  - apply has_char_false_cons in Hs as [Hc Hs]. rewrite str_app_cons. cbn [split_from].
    rewrite decide_False, IH by done. by rewrite snoc_app.
Qed.

Lemma rtrim_last s c : isspace c = false → rtrim (snoc s c) = snoc s c.
Proof.
  intros Hc. induction s as [|d s IH].
  - unfold snoc. rewrite str_app_nil_l. cbn [rtrim]. rewrite decide_False; [done|].
    rewrite Hc. by intros [_ ?].
  - unfold snoc in *. rewrite str_app_cons. cbn [rtrim]. rewrite IH, decide_False; [done|].
    intros [H _]. by destruct s.
Qed.

(** The text of a variable as [load_dotenv] takes it back. *)
Definition dotenv_text (kv : string * string) : string :=
  kv.1 +:+ String "=" (String double_quote (snoc kv.2 double_quote)).

Definition dotenv_file (env : list (string * string)) : string :=
  concat_strings ((λ kv, dotenv_text kv +:+ String newline_char "") <$> env).

(** A name: not empty, without an equals sign or a newline, not a comment, and without spaces
    at either end; a value: in one line. *)
Record dotenv_ok (kv : string * string) : Prop := {
  do_name : ∃ c s, kv.1 = String c s ∧ isspace c = false ∧ c ≠ "#"%char;
  do_trimmed : rtrim kv.1 = kv.1;
  do_equals : has_char "=" kv.1 = false;
  do_name_line : has_char newline_char kv.1 = false;
  do_value_line : has_char newline_char kv.2 = false;
}.

Lemma unquote_quoted v : unquote (String double_quote (snoc v double_quote)) = v.
Proof.
  unfold unquote. by rewrite (proj2 (unsnoc_Some _ v double_quote) eq_refl), decide_True.
Qed.

Lemma dotenv_line_text m kv : dotenv_ok kv → dotenv_line m (dotenv_text kv) = <[kv.1 := kv.2]> m.
Proof.
  intros [(c & s & Hk & Hsp & Hcom) Htrim Heq _ _]. unfold dotenv_line.
  assert (trim (dotenv_text kv) = dotenv_text kv) as ->.
  { unfold trim, dotenv_text. rewrite Hk, str_app_cons. cbn [ltrim]. rewrite Hsp.
    rewrite <-str_app_cons, <-Hk.
    change (String "=" (String double_quote (snoc kv.2 double_quote))) with
      (snoc (String "=" (String double_quote kv.2)) double_quote).
    unfold snoc at 1 2. rewrite <-!str_app_assoc.
    exact (rtrim_last (kv.1 +:+ String "=" (String double_quote kv.2)) double_quote eq_refl). }
  assert (find_char "=" (dotenv_text kv) =
    Some (kv.1, String double_quote (snoc kv.2 double_quote))) as Hf by by apply find_char_app.
  unfold dotenv_text in *. rewrite Hk, str_app_cons in *. rewrite decide_False by done.
  rewrite Hf. cbn [ltrim]. change (isspace double_quote) with false. cbv iota.
  by rewrite unquote_quoted, Htrim.
Qed.

(** Reading back a file of variables gives the variables, the last of a name standing: values
    keep their spaces, quotes and equals signs. *)
Lemma dotenv_roundtrip read_file path env :
  read_file path = Some (dotenv_file env) → Forall dotenv_ok env →
  load_dotenv read_file path = list_to_map (reverse env).
Proof.
  intros Hf Hok. unfold load_dotenv. rewrite Hf.
  assert (∀ m, foldl dotenv_line m (split (dotenv_file env) newline_char) =
    list_to_map (reverse env) ∪ m) as H; [|by rewrite H, (right_id_L ∅ (∪))].
  clear Hf. unfold dotenv_file, split. induction Hok as [|kv env Hkv _ IH]; intros m.
  - cbn. by rewrite (left_id_L ∅ (∪)).
  - rewrite fmap_cons. cbn [concat_strings foldr]. rewrite str_app_assoc, str_app_cons, str_app_nil_l.
    assert (has_char newline_char (dotenv_text kv) = false) as Hn.
    { unfold dotenv_text, snoc. rewrite has_char_app, (do_name_line _ Hkv). cbn [has_char].
      rewrite has_char_app, (do_value_line _ Hkv). done. }
    rewrite split_from_line by done. cbn [foldl]. rewrite str_app_nil_l, dotenv_line_text by done.
    rewrite IH. rewrite reverse_cons, list_to_map_app.
    destruct kv as [k v]. cbn [list_to_map foldr]. simpl.
    by rewrite insert_empty, insert_union_singleton_l, (assoc_L (∪)).
Qed.
