(* ===== verification/Provider.v ===== *)
(** * The interface of the provider adapters (src/llm/adapters/provider.hpp)

    The data that travels between the scheduler and an adapter, and the streaming that an
    adapter without a streaming interface of its own inherits. *)

From S2P Require Import Prelude Json.

Record AdapterConfig := {
  active_adapter : string;
  base_url : string;
  api_key : string;
  ac_host : string;
  ac_base_path : string;
  chat_endpoint : string;
  ac_model : string;
  ac_port : Z;
  use_https : bool;
  timeout_ms : Z;
  stop_tokens : list string;
  enable_tools : bool;
  enable_streaming : bool;
  stream_idle_timeout_ms : Z;
}.

Definition default_AdapterConfig : AdapterConfig := {|
  active_adapter := ""; base_url := ""; api_key := ""; ac_host := ""; ac_base_path := "";
  chat_endpoint := "/chat/completions"; ac_model := ""; ac_port := 8033; use_https := false;
  timeout_ms := 60000; stop_tokens := []; enable_tools := true; enable_streaming := true;
  stream_idle_timeout_ms := 0 |}.

Record ChatRequest := {
  cr_model : string;
  cr_messages : json;
  cr_tools : json;
  cr_tool_choice : json;
  cr_sampling_params : json;
  cr_stream : bool;
  cr_max_tokens : Z;
  cr_stop : list string;
  cr_extra_body : json;
}.

Record ChatResponse := {
  rs_content : string;
  rs_tool_calls : json;
  rs_has_tool_calls : bool;
  rs_finish_reason : string;
  rs_usage : json;
  rs_raw : json;
}.

(** The members' initialisers. *)
Definition ChatResponse_init : ChatResponse := {|
  rs_content := ""; rs_tool_calls := JArray []; rs_has_tool_calls := false;
  rs_finish_reason := ""; rs_usage := JObject []; rs_raw := JObject [] |}.

Record StreamChunk := {
  delta_text : string;
  delta_tool_call : json;
  finished : bool;
}.

Definition text_chunk (text : string) : StreamChunk :=
  {| delta_text := text; delta_tool_call := JObject []; finished := false |}.
Definition call_chunk (call : json) : StreamChunk :=
  {| delta_text := ""; delta_tool_call := call; finished := false |}.
Definition final_chunk : StreamChunk :=
  {| delta_text := ""; delta_tool_call := JObject []; finished := true |}.

(** The elements a range-based [for] visits: those of an array, the values of an object,
    nothing of a null, and another value itself. *)
Definition elements_of (j : json) : list json :=
  match j with
  | JArray l => l
  | JObject kvs => kvs.*2
  | JNull => []
  | _ => [j]
  end.

(** [ProviderAdapter::call_chat_stream]: the chunks that are made of a whole response. *)
Definition default_stream_chunks (response : ChatResponse) : list StreamChunk :=
  (if decide (rs_content response = "") then [] else [text_chunk (rs_content response)]) ++
  (call_chunk <$> filter (λ tc, is_object tc = true) (elements_of (rs_tool_calls response))) ++
  [final_chunk].

(** [request.stream = false] *)
Definition unstreamed (request : ChatRequest) : ChatRequest := {|
  cr_model := cr_model request; cr_messages := cr_messages request;
  cr_tools := cr_tools request; cr_tool_choice := cr_tool_choice request;
  cr_sampling_params := cr_sampling_params request; cr_stream := false;
  cr_max_tokens := cr_max_tokens request; cr_stop := cr_stop request;
  cr_extra_body := cr_extra_body request |}.

Section default_stream.
Context {C : Type} (callback : StreamChunk → C → exc C).

(** The chunks are handed over one after the other. *)
Fixpoint deliver (chunks : list StreamChunk) (c : C) : exc C :=
  match chunks with
  | [] => mret c
  | chunk :: chunks => c ← callback chunk c; deliver chunks c
  end.

Definition default_call_chat_stream (call_chat : ChatRequest → exc ChatResponse)
    (request : ChatRequest) (c : C) : exc C :=
  response ← call_chat (unstreamed request);
  deliver (default_stream_chunks response) c.

Lemma deliver_app l1 l2 c : deliver (l1 ++ l2) c = (c ← deliver l1 c; deliver l2 c).
Proof.
  revert c. induction l1 as [|x l1 IH]; intros c; [done|]. simpl.
  destruct (callback x c); [apply IH|done..].
Qed.
End default_stream.
