(* ===== verification/Sse.v ===== *)
(** * HTTP requests and server-sent events (src/llm/adapters/openai_compatible.hpp)

    How the adapters reach a provider: the resolution of the endpoint, a request with its
    whole response, and a streamed response parsed into server-sent events.  httplib is not
    modelled: [http_post] answers a request with a status and a body, [http_stream] with the
    pieces of a body.  A content receiver that returns [false] cancels the request, which
    then has no result (httplib.h, [ClientImpl::process_request]). *)

From S2P Require Import Prelude Json StringUtils Provider.
From Stdlib Require Import Ascii.

(** ** Endpoints *)

Definition slash : ascii := "/".
Definition colon : ascii := ":".
Definition newline : ascii := "010".
Definition carriage_return : ascii := "013".

(** A line break, as text. *)
Definition nl : string := String newline "".

Definition ensure_leading_slash (path : string) : string :=
  match path with
  | EmptyString => ""
  | String c _ => if decide (c = slash) then path else String slash path
  end.

Definition join_paths (a b : string) : string :=
  if decide (a = "") then ensure_leading_slash b
  else if decide (b = "") then ensure_leading_slash a
  else
    let left := ensure_leading_slash a in
    let right := ensure_leading_slash b in
    match unsnoc left, right with
    | Some (_, last), String first rest =>
        if decide (last = slash ∧ first = slash) then left +:+ rest else left +:+ right
    | _, _ => left +:+ right
    end.

Record Endpoint := { ep_host : string; ep_port : Z; ep_https : bool; ep_base_path : string }.

Definition resolve_endpoint (cfg : AdapterConfig) : exc Endpoint :=
  if decide (ac_host cfg ≠ "")
  then mret {| ep_host := ac_host cfg; ep_port := ac_port cfg; ep_https := use_https cfg;
               ep_base_path := ac_base_path cfg |}
  else
    let '(is_https, url) :=
      match strip_prefix "https://" (base_url cfg) with
      | Some url => (true, url)
      | None =>
          match strip_prefix "http://" (base_url cfg) with
          | Some url => (false, url)
          | None => (use_https cfg, base_url cfg)
          end
      end in
    let '(host_port, base_path) :=
      match find_char slash url with
      | Some (before, after) => (before, String slash after)
      | None => (url, ac_base_path cfg)
      end in
    '(host, port) ← match rfind_char colon host_port with
                    | Some (host, port) =>
                        match stoi port with
                        | Some n => mret (host, n)
                        | None => Throw ("Invalid adapter base_url port: " +:+ base_url cfg)
                        end
                    | None => mret (host_port, if is_https : bool then 443 else 80)
                    end;
    if decide (host = "") then Throw "LLM host is empty; check adapter host/base_url"
    else mret {| ep_host := host; ep_port := port; ep_https := is_https;
                 ep_base_path := base_path |}.

Definition extract_error_message (dump : json → exc string) (error_obj : json)
    (fallback_prefix : string) : exc string :=
  match error_obj with
  | JString s => mret (fallback_prefix +:+ ": " +:+ s)
  | JObject kvs =>
      match assoc "message" kvs with
      | Some (JString s) => mret (fallback_prefix +:+ ": " +:+ s)
      | _ => text ← dump error_obj; mret (fallback_prefix +:+ ": " +:+ text)
      end
  | _ => mret fallback_prefix
  end.

(** ** Requests *)

Record HttpRequest := {
  rq_host : string;
  rq_port : Z;
  rq_https : bool;
  rq_path : string;
  rq_headers : list (string * string);
  rq_body : string;
  rq_timeout_ms : Z;
  rq_read_timeout_ms : Z;
}.

(** What comes back while a response is streamed: the pieces of its body, whether the
    connection then broke, and its status. *)
Record transport := { tr_pieces : list string; tr_broken : bool; tr_status : Z }.

Definition auth_header (cfg : AdapterConfig) : list (string * string) :=
  if decide (api_key cfg = "") then [] else [("Authorization", "Bearer " +:+ api_key cfg)].

(** The message of every failure below HTTP, cancellation included. *)
Definition stream_network_error : string :=
  "LLM streaming request failed (Network / Timeout error)".

Section http.
Context (dump : json → exc string) (openssl : bool).
Context (http_post : HttpRequest → option (Z * string)).
Context (http_stream : HttpRequest → transport).

Definition post_json (cfg : AdapterConfig) (path : string) (payload : json)
    (extra_headers : list (string * string)) : exc string :=
  ep ← resolve_endpoint cfg;
  if ep_https ep && negb openssl
  then Throw "HTTPS adapter endpoint configured but OpenSSL support is disabled"
  else
    body ← dump payload;
    let timeout := Z.max 1 (timeout_ms cfg) in
    match http_post {| rq_host := ep_host ep; rq_port := ep_port ep; rq_https := ep_https ep;
                       rq_path := join_paths (ep_base_path ep) path;
                       rq_headers := auth_header cfg ++ extra_headers; rq_body := body;
                       rq_timeout_ms := timeout; rq_read_timeout_ms := timeout |} with
    | None => Throw "LLM request failed (Network / Timeout error)"
    | Some (status, body) =>
        if decide (status ≠ 200)
        then Throw ("LLM request failed with status " +:+ pretty status +:+ ": " +:+ body)
        else mret body
    end.

(** A streamed request, up to the response. *)
Definition open_stream (cfg : AdapterConfig) (path : string) (payload : json)
    (extra_headers : list (string * string)) : exc transport :=
  ep ← resolve_endpoint cfg;
  body ← dump payload;
  if ep_https ep && negb openssl
  then Throw "HTTPS adapter endpoint configured but OpenSSL support is disabled"
  else mret (http_stream {|
    rq_host := ep_host ep; rq_port := ep_port ep; rq_https := ep_https ep;
    rq_path := join_paths (ep_base_path ep) path;
    rq_headers := [("Connection", "keep-alive"); ("Accept", "text/event-stream")] ++
                  auth_header cfg ++ extra_headers;
    rq_body := body; rq_timeout_ms := Z.max 1 (timeout_ms cfg);
    rq_read_timeout_ms := if decide (stream_idle_timeout_ms cfg > 0)
                          then stream_idle_timeout_ms cfg else 300000 |}).
End http.

(** The receiver is a function on a state of its own; [false] cancels the request, and an
    exception goes through. *)
Section receive.
Context {St : Type} (on_chunk : string → St → exc (bool * St)).

Fixpoint receive (pieces : list string) (st : St) : exc (bool * St) :=
  match pieces with
  | [] => mret (true, st)
  | piece :: pieces =>
      '(continue, st) ← on_chunk piece st;
      if continue : bool then receive pieces st else mret (false, st)
  end.

(** The body of a response of another status also went to the receiver. *)
Definition receive_response (t : transport) (st : St) : exc St :=
  '(complete, st) ← receive (tr_pieces t) st;
  if negb complete || tr_broken t then Throw stream_network_error
  else if decide (tr_status t ≠ 200)
  then Throw ("LLM streaming request failed with status " +:+ pretty (tr_status t) +:+ ": ")
  else mret st.
End receive.

(** ** Server-sent events *)

Record SseEvent := { ev_event : string; ev_data : string }.

Section sse.
Context {A : Type} (on_event : SseEvent → A → exc (bool * A)).

(** The locals of [stream_sse_events_ex], with the state [user] of the callback and a
    flag for a callback whose behaviour is undefined. *)
Record SseState := {
  line_buffer : string;
  event_type : string;
  event_data : string;
  callback_error : string;
  should_continue : bool;
  undefined : bool;
  user : A;
}.

Definition SseState_init (a : A) : SseState := {|
  line_buffer := ""; event_type := ""; event_data := ""; callback_error := "";
  should_continue := true; undefined := false; user := a |}.

Definition set_buffer (b : string) (st : SseState) : SseState := {|
  line_buffer := b; event_type := event_type st; event_data := event_data st;
  callback_error := callback_error st; should_continue := should_continue st;
  undefined := undefined st; user := user st |}.

Definition set_type (t : string) (st : SseState) : SseState := {|
  line_buffer := line_buffer st; event_type := t; event_data := event_data st;
  callback_error := callback_error st; should_continue := should_continue st;
  undefined := undefined st; user := user st |}.

Definition set_data (d : string) (st : SseState) : SseState := {|
  line_buffer := line_buffer st; event_type := event_type st; event_data := d;
  callback_error := callback_error st; should_continue := should_continue st;
  undefined := undefined st; user := user st |}.

(** The event was handed over: its fields are cleared. *)
Definition after_event (error : string) (continue undef : bool) (a : A) (st : SseState) :
    SseState := {|
  line_buffer := line_buffer st; event_type := ""; event_data := "";
  callback_error := error; should_continue := continue; undefined := undef; user := a |}.

(** An exception leaves the state as it was before the call: the error that is kept, never
    empty for the exceptions of the adapters, makes the whole stream fail. *)
Definition flush_event (st : SseState) : SseState :=
  if decide (event_data st = "") then st
  else
    match on_event {| ev_event := event_type st; ev_data := event_data st |} (user st) with
    | Ok (continue, a) =>
        after_event (callback_error st) (should_continue st && continue) (undefined st) a st
    | Throw what => after_event what false (undefined st) (user st) st
    | UB => after_event (callback_error st) false true (user st) st
    end.

Definition pop_cr (line : string) : string :=
  match unsnoc line with
  | Some (front, last) => if decide (last = carriage_return) then front else line
  | None => line
  end.

(** A value loses one leading space. *)
Definition drop_space (s : string) : string :=
  match s with String " " s => s | _ => s end.

Definition process_line (line : string) (st : SseState) : SseState :=
  let line := pop_cr line in
  if decide (line = "") then flush_event st
  else if starts_with line ":" then st
  else
    match strip_prefix "data:" line with
    | Some payload_line =>
        set_data ((if decide (event_data st = "") then "" else event_data st +:+ nl) +:+
                  drop_space payload_line) st
    | None =>
        match strip_prefix "event:" line with
        | Some t => set_type (drop_space t) st
        | None => st
        end
    end.

(** [process_available_lines]: an iteration consumes a line, so that the length of the
    buffer is fuel enough. *)
Fixpoint process_lines (fuel : nat) (st : SseState) : SseState :=
  match fuel with
  | O => st
  | S fuel =>
      if should_continue st then
        match find_char newline (line_buffer st) with
        | Some (line, rest) => process_lines fuel (process_line line (set_buffer rest st))
        | None => st
        end
      else st
  end.

Definition process_available_lines (st : SseState) : SseState :=
  process_lines (String.length (line_buffer st)) st.

(** The receiver. *)
Definition on_piece (piece : string) (st : SseState) : exc (bool * SseState) :=
  let st := process_available_lines (set_buffer (line_buffer st +:+ piece) st) in
  if undefined st then UB else mret (should_continue st, st).

(** What follows the response: a last line without a line break, a last event without an
    empty line, and the error of the callback. *)
Definition finish_stream (st : SseState) : exc A :=
  let st := if decide (line_buffer st = "") then st
            else process_available_lines (set_buffer (line_buffer st +:+ nl) st) in
  let st := if should_continue st then flush_event st else st in
  if undefined st then UB
  else if decide (callback_error st ≠ "") then Throw (callback_error st)
  else mret (user st).

(** [stream_sse_events_ex] once the response [t] is there. *)
Definition stream_events (t : transport) (a : A) : exc A :=
  st ← receive_response on_piece t (SseState_init a);
  finish_stream st.
End sse.

(** ** The parser, one byte at a time *)

Fixpoint chars (s : string) : list ascii :=
  match s with EmptyString => [] | String c s => c :: chars s end.

Lemma chars_app s t : chars (s +:+ t) = chars s ++ chars t.
Proof. induction s as [|c s IH]; [done|]. rewrite str_app_cons. simpl. by rewrite IH. Qed.

Section feed.
Context {A : Type} (on_event : SseEvent → A → exc (bool * A)).
Implicit Types st : SseState (A:=A).

(** A byte of the body: a line break ends the line that the buffer holds. *)
Definition feed st (c : ascii) : SseState :=
  if should_continue st && bool_decide (c = newline)
  then process_line on_event (line_buffer st) (set_buffer "" st)
  else set_buffer (snoc (line_buffer st) c) st.

Lemma set_buffer_same st : set_buffer (line_buffer st) st = st.
Proof. by destruct st. Qed.

Lemma feed_stopped s st :
  should_continue st = false → foldl feed st (chars s) = set_buffer (line_buffer st +:+ s) st.
Proof.
  revert st. induction s as [|c s IH]; intros st Hst; simpl.
  { rewrite str_app_nil_r. by destruct st. }
  unfold feed at 2. rewrite Hst. simpl. rewrite IH by done. simpl.
  by rewrite snoc_app.
Qed.

Lemma feed_plain s st :
  has_char newline s = false → foldl feed st (chars s) = set_buffer (line_buffer st +:+ s) st.
Proof.
  revert st. induction s as [|c s IH]; intros st Hs; simpl.
  { rewrite str_app_nil_r. by destruct st. }
  simpl in Hs. apply orb_false_iff in Hs as [Hc Hs]. unfold feed at 2. rewrite Hc, andb_false_r.
  rewrite IH by done. simpl. by rewrite snoc_app.
Qed.

Lemma feed_line line st :
  should_continue st = true → line_buffer st = "" → has_char newline line = false →
  foldl feed st (chars (line +:+ nl)) = process_line on_event line (set_buffer "" st).
Proof.
  intros Hst Hb Hl. rewrite chars_app, foldl_app, (feed_plain line), Hb by done. simpl.
  unfold feed. simpl. rewrite Hst. simpl. by destruct st.
Qed.

(** Nothing in the loop looks at the buffer but the search for its first line. *)
Lemma process_lines_feed fuel st :
  (String.length (line_buffer st) ≤ fuel)%nat →
  process_lines on_event fuel st = foldl feed (set_buffer "" st) (chars (line_buffer st)).
Proof.
  revert st. induction fuel as [|fuel IH]; intros st Hlen; simpl.
  { destruct st as [[|c b]]; [done|simpl in Hlen; lia]. }
  destruct (should_continue st) eqn:Hst.
  2: { rewrite feed_stopped by done. simpl. by destruct st. }
  destruct (find_char newline (line_buffer st)) as [[line rest]|] eqn:Hf.
  - apply find_char_Some in Hf as [Hb Hl]. rewrite Hb in *.
    rewrite str_app_length in Hlen. simpl in Hlen.
    assert (∀ s st0, line_buffer (process_line on_event s st0) = line_buffer st0) as Hbuf.
    { intros s st0. unfold process_line, flush_event. by repeat case_match. }
    rewrite IH by (rewrite Hbuf; simpl; lia). rewrite Hbuf. simpl.
    change (String newline rest) with (nl +:+ rest).
    rewrite <-str_app_assoc, (chars_app (line +:+ nl)), foldl_app.
    rewrite feed_line by done. simpl. f_equal.
    unfold process_line, flush_event. simpl.
    repeat case_match; by destruct st.
  - apply find_char_None in Hf. rewrite feed_plain by done. simpl. by destruct st.
Qed.

(** Between two pieces the buffer holds the start of one line. *)
Definition buffered st : Prop :=
  should_continue st = false ∨ has_char newline (line_buffer st) = false.

Lemma process_line_buffer line st :
  line_buffer (process_line on_event line st) = line_buffer st.
Proof. unfold process_line, flush_event. by repeat case_match. Qed.

Lemma feed_buffered st c : buffered st → buffered (feed st c).
Proof.
  intros Hb. unfold feed. destruct (should_continue st) eqn:Hst; simpl; [|by left].
  destruct (bool_decide (c = newline)) eqn:Hc.
  - right. by rewrite process_line_buffer.
  - right. simpl. unfold snoc. rewrite has_char_app. simpl. rewrite Hc.
    destruct Hb as [?|Hb]; [congruence|]. by rewrite Hb.
Qed.

Lemma feeds_buffered l st : buffered st → buffered (foldl feed st l).
Proof. revert st. induction l as [|c l IH]; intros st Hb; [done|]. by apply IH, feed_buffered. Qed.

Lemma on_piece_feed piece st :
  buffered st →
  on_piece on_event piece st =
    let st' := foldl feed st (chars piece) in
    if undefined st' then UB else Ok (should_continue st', st').
Proof.
  intros Hb. unfold on_piece, process_available_lines.
  assert (process_lines on_event (String.length (line_buffer st +:+ piece))
    (set_buffer (line_buffer st +:+ piece) st) = foldl feed st (chars piece)) as Hp.
  { rewrite process_lines_feed by done. simpl. rewrite chars_app, foldl_app. f_equal.
    destruct Hb as [Hb|Hb]; [rewrite feed_stopped by done|rewrite feed_plain by done];
      simpl; by destruct st. }
  simpl. by rewrite Hp.
Qed.

(** Undefined behaviour ends the processing. *)
Definition defined st : Prop := undefined st = true → should_continue st = false.

Lemma feed_defined st c : defined st → defined (feed st c).
Proof.
  unfold defined, feed. intros Hd. destruct (should_continue st && _); [|done].
  unfold process_line, flush_event. repeat case_match; simpl in *; try done.
  intros Hu. by rewrite Hd.
Qed.

Lemma feeds_defined l st : defined st → defined (foldl feed st l).
Proof. revert st. induction l as [|c l IH]; intros st Hd; [done|]. by apply IH, feed_defined. Qed.

(** The whole body at once, when the receiver never stopped; and a stop is a stop. *)
Lemma receive_feed pieces st :
  buffered st → should_continue st = true → defined st →
  let st' := foldl feed st (chars (concat_strings pieces)) in
  ∃ st'', receive (on_piece on_event) pieces st =
      (if undefined st' then UB else Ok (should_continue st', st'')) ∧
    (should_continue st' = true → st'' = st').
Proof.
  revert st. induction pieces as [|p pieces IH]; intros st Hb Hst Hd.
  { exists st. simpl. rewrite Hst. destruct (undefined st) eqn:Hu; [|done].
    by rewrite (Hd Hu) in Hst. }
  cbn [receive]. rewrite on_piece_feed by done. simpl.
  rewrite chars_app, foldl_app. set (st1 := foldl feed st (chars p)).
  assert (defined st1) as Hd1 by by apply feeds_defined.
  destruct (should_continue st1) eqn:Hst1.
  - destruct (undefined st1) eqn:Hu; [by rewrite (Hd1 Hu) in Hst1|]. simpl.
    apply IH; [by apply feeds_buffered|done|done].
  - rewrite feed_stopped by done. simpl. exists st1. rewrite Hst1.
    split; [|done]. by destruct (undefined st1).
Qed.
End feed.

(** ** Properties *)

Section properties.
Context {A : Type} (on_event : SseEvent → A → exc (bool * A)).

(** What a response means, in terms of its body as one text. *)
Lemma stream_events_body t a :
  stream_events on_event t a =
    let st := foldl (feed on_event) (SseState_init a) (chars (concat_strings (tr_pieces t))) in
    if undefined st then UB
    else if negb (should_continue st) || tr_broken t then Throw stream_network_error
    else if decide (tr_status t ≠ 200)
    then Throw ("LLM streaming request failed with status " +:+ pretty (tr_status t) +:+ ": ")
    else finish_stream on_event st.
Proof.
  unfold stream_events, receive_response.
  destruct (receive_feed on_event (tr_pieces t) (SseState_init a)) as (st & -> & Hst);
    [by right|done|done|].
  simpl. set (st1 := foldl _ _ _) in *.
  destruct (undefined st1); [done|]. simpl. destruct (should_continue st1) eqn:Hc; simpl; [|done].
  rewrite Hst by done. destruct (tr_broken t); [done|]. by case_decide.
Qed.

(** C22 The events do not depend on how the network cuts the body: whatever the callback does,
    stop or throw included, a response in pieces is processed as if its body had come in one
    piece. *)
Theorem sse_any_segmentation t a :
  stream_events on_event t a =
  stream_events on_event {| tr_pieces := [concat_strings (tr_pieces t)];
                            tr_broken := tr_broken t; tr_status := tr_status t |} a.
Proof. rewrite !stream_events_body. simpl. by rewrite str_app_nil_r. Qed.
End properties.

(** ** The text of an event *)

(** A line of the stream: neither a line break nor a carriage return at its end. *)
Definition line_ok (l : string) : Prop :=
  has_char newline l = false ∧ ∀ front, unsnoc l ≠ Some (front, carriage_return).

(** An event as the protocol writes it: its type, if any, a [data] line per line, and an
    empty line. *)
Definition encode_event (ty : string) (lines : list string) : string :=
  (if decide (ty = "") then "" else "event: " +:+ ty +:+ nl) +:+
  concat_strings ((λ l, "data: " +:+ l +:+ nl) <$> lines) +:+ nl.

Lemma pop_cr_ok p l : p ≠ "" → line_ok l → (∀ f, unsnoc p ≠ Some (f, carriage_return)) →
  pop_cr (p +:+ l) = p +:+ l.
Proof.
  intros Hp [_ Hl] Hpr. unfold pop_cr.
  destruct (unsnoc (p +:+ l)) as [[front last]|] eqn:E; [|done].
  destruct (decide (last = carriage_return)) as [->|]; [exfalso|done].
  destruct (unsnoc l) as [[f c]|] eqn:El.
  - pose proof (proj1 (unsnoc_Some _ _ _) El) as ->.
    assert (unsnoc (p +:+ snoc f c) = Some (p +:+ f, c)) as E'.
    { apply unsnoc_Some. unfold snoc. by rewrite str_app_assoc. }
    rewrite E' in E. injection E as <- ->. by apply (Hl f).
  - destruct l as [|c l].
    + rewrite str_app_nil_r in E. by apply (Hpr front).
    + simpl in El. by destruct (unsnoc l) as [[]|].
Qed.

(** An event that can be written: a first line of data that is not empty. *)
Definition event_ok (e : string * (string * list string)) : Prop :=
  line_ok e.1 ∧ Forall line_ok (e.2.1 :: e.2.2) ∧ e.2.1 ≠ "".

Definition encode (e : string * (string * list string)) : string :=
  encode_event e.1 (e.2.1 :: e.2.2).

(** What the callback is to be given. *)
Definition decoded (e : string * (string * list string)) : SseEvent :=
  {| ev_event := e.1; ev_data := join (e.2.1 :: e.2.2) nl |}.

Section encode.
Context {A : Type} (on_event : SseEvent → A → exc (bool * A)).
Implicit Types st : SseState (A:=A).

Lemma feed_data_line l st :
  should_continue st = true → line_buffer st = "" → line_ok l →
  foldl (feed on_event) st (chars ("data: " +:+ l +:+ nl)) =
    set_data ((if decide (event_data st = "") then "" else event_data st +:+ nl) +:+ l) st.
Proof.
  intros Hst Hb Hl. rewrite <-str_app_assoc, feed_line; [|done|done|].
  2: { by rewrite has_char_app, (proj1 Hl). }
  unfold process_line. rewrite pop_cr_ok by done. simpl. by destruct st; simplify_eq/=.
Qed.

Lemma feed_data_lines lines st d :
  should_continue st = true → line_buffer st = "" → Forall line_ok lines →
  event_data st = d → d ≠ "" →
  foldl (feed on_event) st
    (chars (concat_strings ((λ l, "data: " +:+ l +:+ nl) <$> lines))) =
    set_data (join (d :: lines) nl) st.
Proof.
  intros Hst Hb Hl. revert st d Hst Hb. induction Hl as [|l lines Hl Hls IH];
    intros st d Hst Hb Hd Hne; [subst d; by destruct st|].
  cbn [fmap list_fmap concat_strings foldr].
  rewrite chars_app, foldl_app, feed_data_line by done.
  rewrite decide_False by (by rewrite Hd).
  rewrite (IH _ (event_data st +:+ nl +:+ l)); simpl; [|done|done| |].
  - rewrite Hd. destruct lines; simpl; rewrite ?str_app_assoc; by destruct st.
  - by rewrite str_app_assoc.
  - rewrite Hd. by destruct d.
Qed.

(** A whole event, between events: the callback is called with it. *)
Lemma feed_event e a :
  event_ok e →
  foldl (feed on_event) (SseState_init a) (chars (encode e)) =
    match on_event (decoded e) a with
    | Ok (continue, a') => after_event "" continue false a' (SseState_init a)
    | Throw what => after_event what false false a (SseState_init a)
    | UB => after_event "" false true a (SseState_init a)
    end.
Proof.
  destruct e as [ty [l lines]]. intros (Hty & [Hl Hls]%Forall_cons & Hne).
  unfold encode, encode_event, decoded. cbn [fst snd] in *.
  rewrite !chars_app, !foldl_app.
  set (st1 := foldl (feed on_event) (SseState_init a) (chars (if decide (ty = "") then _ else _))).
  assert (st1 = set_type ty (SseState_init a)) as ->.
  { unfold st1. case_decide as H; [by subst ty|].
    rewrite <-str_app_assoc, feed_line; [|done|done|by rewrite has_char_app, (proj1 Hty)].
    unfold process_line. rewrite pop_cr_ok by done. done. }
  cbn [fmap list_fmap concat_strings foldr]. rewrite chars_app, foldl_app.
  rewrite feed_data_line by done. simpl (event_data _). rewrite decide_True by done.
  rewrite str_app_nil_l, (feed_data_lines lines _ l) by done.
  rewrite (feed_line _ "" : ∀ st, _ → _ → _ → foldl _ st (chars nl) = _) by done.
  unfold process_line. simpl (pop_cr ""). rewrite decide_True by done.
  unfold flush_event. simpl (event_data _).
  rewrite decide_False; [done|]. destruct lines; simpl; [done|]. by destruct l.
Qed.

(** The callback over events, as long as it goes on. *)
Fixpoint consume (events : list SseEvent) (a : A) : option A :=
  match events with
  | [] => Some a
  | e :: events =>
      match on_event e a with Ok (true, a) => consume events a | _ => None end
  end.

Lemma feed_events events a a' :
  Forall event_ok events → consume (decoded <$> events) a = Some a' →
  foldl (feed on_event) (SseState_init a) (chars (concat_strings (encode <$> events))) =
    SseState_init a'.
Proof.
  intros Hall. revert a. induction Hall as [|e events He _ IH]; intros a H.
  { by simplify_eq/=. }
  simpl in H. cbn [fmap list_fmap concat_strings foldr].
  rewrite chars_app, foldl_app, feed_event by done.
  destruct (on_event (decoded e) a) as [[[] a1]| |] eqn:E; try done.
  apply IH, H.
Qed.

(** A response whose events the callback consumes. *)
Lemma stream_consume events t a a' :
  Forall event_ok events →
  concat_strings (tr_pieces t) = concat_strings (encode <$> events) →
  tr_broken t = false → tr_status t = 200 →
  consume (decoded <$> events) a = Some a' →
  stream_events on_event t a = Ok a'.
Proof.
  intros Hall Hbody Hbr Hstat Hc. rewrite stream_events_body, Hbody, Hbr, Hstat. cbv zeta.
  by rewrite (feed_events _ _ _ Hall Hc).
Qed.

(** [P] holds of the callback's state as long as it goes on. *)
Lemma feed_events_inv (P : A → Prop) events a :
  (∀ e a a', P a → on_event e a = Ok (true, a') → P a') →
  Forall event_ok events → P a →
  let st := foldl (feed on_event) (SseState_init a)
              (chars (concat_strings (encode <$> events))) in
  should_continue st = false ∨ ∃ a', st = SseState_init a' ∧ P a'.
Proof.
  intros HP Hall. revert a. induction Hall as [|e events He _ IH]; intros a Ha; simpl.
  { right. by exists a. }
  rewrite chars_app, foldl_app, feed_event by done.
  destruct (on_event (decoded e) a) as [[[] a1]| |] eqn:E.
  { apply IH. by eapply HP. }
  all: left; rewrite feed_stopped by done; done.
Qed.

(** A callback that stops, by [false] or by an exception, before the end of the response:
    the response is lost, and so is the exception. *)
Lemma stream_stops (P : A → Prop) events e rest t a :
  (∀ e a a', P a → on_event e a = Ok (true, a') → P a') →
  (∀ a a', P a → on_event (decoded e) a ≠ Ok (true, a')) →
  P a → Forall event_ok events → event_ok e →
  concat_strings (tr_pieces t) = concat_strings (encode <$> events) +:+ encode e +:+ rest →
  stream_events on_event t a = UB ∨ stream_events on_event t a = Throw stream_network_error.
Proof.
  intros HP Hstop Ha Hall He Hbody. rewrite stream_events_body, Hbody. cbv zeta.
  rewrite !chars_app, !foldl_app.
  assert (∀ st s, should_continue st = false →
    let st' := foldl (feed on_event) st (chars s) in
    should_continue st' = false ∧ undefined st' = undefined st) as Hrest.
  { intros st s Hst. simpl. by rewrite feed_stopped by done. }
  set (st0 := foldl _ (SseState_init a) _).
  set (st1 := foldl _ st0 _).
  assert (should_continue st1 = false) as H1.
  { unfold st1, st0. destruct (feed_events_inv P events a HP Hall Ha) as [H|(a' & -> & Ha')].
    - by apply Hrest.
    - rewrite feed_event by done.
      destruct (on_event (decoded e) a') as [[[] a1]| |] eqn:E; try done.
      by destruct (Hstop a' a1). }
  destruct (Hrest st1 rest H1) as [H2 H3]. simpl in H2, H3. rewrite H2, H3.
  destruct (undefined st1); [by left|by right].
Qed.
End encode.

Section roundtrip.
Context {A : Type} (f : SseEvent → A → A).

(** A callback that always goes on. *)
Definition total_callback (e : SseEvent) (a : A) : exc (bool * A) := Ok (true, f e a).

(** The parser reads back what the protocol writes: whatever events a server sends - a type
    that may be empty and lines of data, the first not empty - and however the network cuts
    them, the callback is given exactly these events in order, each with its type and its
    lines joined by line breaks. *)
Lemma sse_roundtrip events t a :
  Forall event_ok events →
  concat_strings (tr_pieces t) = concat_strings (encode <$> events) →
  tr_broken t = false → tr_status t = 200 →
  stream_events total_callback t a = Ok (foldl (λ a e, f (decoded e) a) a events).
Proof.
  intros Hall Hbody Hbr Hstat. eapply stream_consume; [done..|].
  clear. revert a. induction events as [|e events IH]; intros a; [done|]. apply IH.
Qed.
End roundtrip.
