(* ===== verification/LlmRequest.v ===== *)
(** * LLM requests (src/llm/scheduler.cpp): validation, assembly, streaming, undo

    The functions the scheduler applies to one request: [parse_request_payload] on the
    way in, the context guard of [process_llm_request_stateless], [build_chat_request],
    the reassembly of streamed tool calls in [run_chat_once], the normalisation of tool
    calls, and the [undo] of a session.  A stream is the list of chunks that an adapter
    delivers; the adapters are in [Adapters]. *)

From S2P Require Import Prelude Json StringUtils Provider Scheduler.

(** ** parse_request_payload *)

(** [2147483647], the pid the compacter signs its requests with. *)
Definition kCompacterInternalPid : Z := INT_MAX.

(** Envelope metadata that the payload omitted. *)
Definition preserve (key : string) (envelope request_json : json) : exc json :=
  match find request_json key, find envelope key with
  | None, Some v => set_field key v request_json
  | _, _ => mret request_json
  end.

(** The request: the envelope itself, or its payload completed from it. *)
Definition unwrap_envelope (envelope : json) : exc json :=
  match find envelope "payload" with
  | Some (JObject kvs) =>
      r ← set_field "message_type" (JString "LLM_REQUEST") (JObject kvs);
      r ← preserve "request_id" envelope r;
      r ← preserve "trace_id" envelope r;
      r ← preserve "tree_id" envelope r;
      r ← preserve "source_pid" envelope r;
      r ← preserve "priority" envelope r;
      preserve "mode" envelope r
  | _ => mret envelope
  end.

(** [contains(key) && is_string() && !get<string>().empty()] *)
Definition nonempty_string (j : json) (key : string) : bool :=
  match find j key with Some (JString s) => bool_decide (s ≠ "") | _ => false end.

Definition has_array (j : json) (key : string) : bool :=
  match find j key with Some (JArray _) => true | _ => false end.

Definition has_integer (j : json) (key : string) : bool :=
  match find j key with Some (JInt _) => true | _ => false end.

Definition has_string (j : json) (key : string) : bool :=
  match find j key with Some (JString _) => true | _ => false end.

(** The serialization key: per user for the handler's conversations, else per tree. *)
Definition queue_key_of (tree_id mode user_id : string) : string :=
  if decide (tree_id = "TREE_HANDLER" ∧ mode = "user_conversation" ∧ user_id ≠ "")
  then "user_" +:+ user_id else tree_id.

(** The checks that depend on the mode. *)
Definition check_mode (request_json : json) : exc () :=
  mode ← value_string request_json "mode" "simple";
  if decide (mode = "simple") then
    convo_id ← value_string request_json "convo_id" "";
    bad ← (if decide (convo_id ≠ "") then mret true
           else user_id ← value_string request_json "user_id" "";
                mret (bool_decide (user_id ≠ "")));
    if bad : bool then Throw "simple mode requires empty convo_id and user_id"
    else if negb (has_array request_json "messages") &&
            negb (nonempty_string request_json "user_message")
    then Throw "simple mode requires messages[] or user_message"
    else mret tt
  else if decide (mode = "conversation" ∨ mode = "user_conversation") then
    let has_alt_input :=
      contains request_json "user_message" || contains request_json "system_message" ||
      contains request_json "tool_result" || contains request_json "tool_message" ||
      contains request_json "tool_messages" in
    if negb (has_array request_json "messages") && negb has_alt_input
    then Throw ("conversation modes require messages[] or " +:+
                "user_message/system_message/tool_result")
    else
      user_id ← value_string request_json "user_id" "";
      if decide (mode = "conversation") then
        if decide (user_id ≠ "") then Throw "conversation mode requires empty user_id"
        else mret tt
      else
        if decide (user_id = "") then Throw "user_conversation mode requires user_id"
        else mret tt
  else Throw ("unsupported mode: " +:+ mode).

(** [now] is the enqueueing time and [promise] the identity of the new promise. *)
Definition parse_request_payload (now : Z) (promise : nat) (envelope : json) :
    exc PendingRequest :=
  message_type ← value_string envelope "message_type" "";
  if decide (message_type ≠ "LLM_REQUEST")
  then Throw "Scheduler only accepts message_type=LLM_REQUEST"
  else
    request_json ← unwrap_envelope envelope;
    if negb (nonempty_string request_json "request_id")
    then Throw "LLM_REQUEST requires non-empty string request_id"
    else if negb (nonempty_string request_json "tree_id")
    then Throw "LLM_REQUEST requires non-empty string tree_id"
    else
      source_pid ← value_int request_json "source_pid" 0;
      if negb (has_integer request_json "source_pid") ||
         bool_decide (source_pid ≤ 0 ∧ source_pid ≠ kCompacterInternalPid)
      then Throw "LLM_REQUEST requires positive integer source_pid"
      else if negb (has_string request_json "mode") then Throw "LLM_REQUEST requires mode"
      else
        request_id ← value_string request_json "request_id" "";
        trace_id ← value_string request_json "trace_id" "";
        tree_id ← value_string request_json "tree_id" "";
        base_priority ← value_int request_json "priority" 1;
        mode ← value_string request_json "mode" "simple";
        user_id ← value_string request_json "user_id" "";
        _ ← check_mode request_json;
        mret {| Scheduler.request_id := request_id; Scheduler.trace_id := trace_id;
                Scheduler.tree_id := tree_id;
                queue_key := queue_key_of tree_id mode user_id;
                Scheduler.source_pid := source_pid;
                Scheduler.base_priority := base_priority;
                payload := request_json; enqueued_at := now; completion := promise |}.

(** ** Token estimates and the context guard *)

(** [SessionManager::estimate_tokens]: [max(1, size / 3)]. *)
Definition estimate_tokens (text : string) : Z :=
  Z.max 1 (Z.of_nat (String.length text) / 3).

(** The loop of [estimate_request_tokens], over the messages from the last to the first:
    it stops at an assistant's message. *)
Fixpoint estimate_tail (rev_messages : list json) : exc Z :=
  match rev_messages with
  | [] => mret 0
  | message :: rest =>
      if negb (is_object message) then estimate_tail rest
      else
        role ← value_string message "role" "";
        if decide (role = "assistant") then mret 0
        else
          total ← estimate_tail rest;
          mret (match find message "content" with
                | Some (JString c) =>
                    if decide (role = "user" ∨ role = "tool")
                    then u64 (total + estimate_tokens c) else total
                | _ => total
                end)
  end.

Definition estimate_request_tokens (request_messages : json) : exc Z :=
  match request_messages with
  | JArray l => estimate_tail (reverse l)
  | _ => mret 0
  end.

(** The guard at the head of [process_llm_request_stateless]: the payload with a limit
    that fits, or the error. [context_length] is a [size_t]. *)
Definition clamp_max_tokens (context_length : Z) (payload : json) : exc json :=
  match find payload "messages" with
  | Some (JArray l) =>
      input_tokens ← estimate_request_tokens (JArray l);
      sampling ← value_json payload "sampling_params" (JObject []);
      dflt ← value_int sampling "max_tokens" 8192;
      current_max ← value_int payload "max_tokens" dflt;
      if decide (context_length > 0) then
        if decide ((if decide (context_length > 100) then context_length - 100 else 0)
                   ≤ input_tokens)
        then Throw ("Context length exceeded (" +:+ pretty input_tokens +:+ " > " +:+
                    pretty context_length +:+ " tokens). Please use /undo to remove " +:+
                    "recent large outputs or /new to start a new session.")
        else
          let available := i32 context_length - i32 input_tokens - 100 in
          if decide (available < - 2 ^ 31 ∨ available > INT_MAX) then UB
          else
            let available := if decide (available < 10) then 10 else available in
            if decide (current_max > available) then
              payload ← set_field "max_tokens" (JInt available) payload;
              match find payload "sampling_params" with
              | Some (JObject s) =>
                  s ← set_field "max_tokens" (JInt available) (JObject s);
                  set_field "sampling_params" s payload
              | _ => mret payload
              end
            else mret payload
      else mret payload
  | _ => Throw "LLM_REQUEST missing messages[]"
  end.

(** ** Assembling a chat request *)

Section chat.
Context (parse : string → exc json) (dump : json → exc string).

(** [arguments] that are an object or an array become text. *)
Definition stringify_arguments (tool_call : json) : exc json :=
  match find tool_call "function" with
  | Some (JObject f) =>
      match assoc "arguments" f with
      | Some ((JObject _ | JArray _) as a) =>
          text ← dump a;
          fn ← set_field "arguments" (JString text) (JObject f);
          set_field "function" fn tool_call
      | _ => mret tool_call
      end
  | _ => mret tool_call
  end.

Definition normalize_message (message : json) : exc json :=
  role ← value_string message "role" "";
  if decide (role ≠ "assistant") then mret message
  else
    match find message "tool_calls" with
    | Some (JArray calls) =>
        calls ← exc_map stringify_arguments calls;
        set_field "tool_calls" (JArray calls) message
    | _ => mret message
    end.

(** The messages that are objects, with whether each is the system's. *)
Fixpoint split_system (messages : list json) : exc (list json * list json) :=
  match messages with
  | [] => mret ([], [])
  | message :: messages =>
      if negb (is_object message) then split_system messages
      else
        role ← value_string message "role" "";
        '(system, others) ← split_system messages;
        mret (if decide (role = "system") then (message :: system, others)
              else (system, message :: others))
  end.

(** The messages that are sent: the system's first. *)
Definition chat_messages (messages : json) : exc json :=
  match messages with
  | JArray l =>
      '(system, others) ← split_system l;
      l ← exc_map normalize_message (system ++ others);
      mret (JArray l)
  | j => mret j
  end.

(** What is read of [SchedulerConfig], and [tool_registry.get_tool_schemas()]. *)
Record ChatConfig := {
  adapter_cfg : AdapterConfig;
  tool_schemas : json;
}.

Definition json_strings (l : list json) : list string :=
  omap (λ j, match j with JString s => Some s | _ => None end) l.

Definition build_chat_request (tree_id : string) (payload : json) (cfg : ChatConfig)
    (messages_override : json) : exc ChatRequest :=
  messages ← chat_messages messages_override;
  sampling_params ← value_json payload "sampling_params" (JObject []);
  dflt ← value_int sampling_params "max_tokens" 0;
  max_tokens ← value_int payload "max_tokens" dflt;
  let stop := match find payload "stop" with
              | Some (JArray l) => json_strings l
              | _ => stop_tokens (adapter_cfg cfg)
              end in
  let tools := match find payload "tools" with
               | Some (JArray l) => JArray l
               | _ => if enable_tools (adapter_cfg cfg) then tool_schemas cfg else JArray []
               end in
  let tool_choice := match find payload "tool_choice" with
                     | Some c => c
                     | None => match tools with JArray (_ :: _) => JString "auto" | _ => JNull end
                     end in
  mode ← value_string payload "mode" "simple";
  let stream_allowed :=
    bool_decide (mode = "user_conversation") && bool_decide (tree_id = "TREE_HANDLER") &&
    nonempty_string payload "user_id" && enable_streaming (adapter_cfg cfg) in
  stream ← value_bool payload "stream" false;
  extra_body ← value_json payload "extra_body" (JObject []);
  mret {| cr_model := ac_model (adapter_cfg cfg); cr_messages := messages; cr_tools := tools; cr_tool_choice := tool_choice;
          cr_sampling_params := sampling_params; cr_stream := stream && stream_allowed;
          cr_max_tokens := max_tokens; cr_stop := stop; cr_extra_body := extra_body |}.

(** ** Normalising tool calls *)

(** A parse error of any kind falls back to the raw text. *)
Definition normalize_tool_arguments_object (raw_arguments : json) : exc json :=
  match raw_arguments with
  | JObject _ => mret raw_arguments
  | JString raw =>
      if decide (raw = "") then mret (JObject [])
      else
        try_catch
          (parsed ← parse raw;
           match parsed with
           | JObject _ => mret parsed
           | _ => text ← dump parsed; mret (JObject [("_raw", JString text)])
           end)
          (λ _, mret (JObject [("_raw", JString raw)]))
  | JNull => mret (JObject [])
  | _ => text ← dump raw_arguments; mret (JObject [("_raw", JString text)])
  end.

(** [uuid] is the random text of [generate_uuid]. *)
Definition normalize_tool_call (uuid : string) (tool_call : json) (fallback_index : Z) :
    exc json :=
  fn ← value_json tool_call "function" (JObject []);
  dflt ← value_string tool_call "name" "";
  name ← value_string fn "name" dflt;
  if decide (name = "") then Throw "tool_call missing function.name"
  else
    raw_arguments ← match find fn "arguments" with
                    | Some a => mret a
                    | None => value_json tool_call "arguments" (JObject [])
                    end;
    id ← value_string tool_call "id" "";
    let id := if decide (id = "")
              then "call_" +:+ pretty fallback_index +:+ "_" +:+ String.substring 0 8 uuid
              else id in
    arguments ← normalize_tool_arguments_object raw_arguments;
    mret (JObject [("id", JString id); ("type", JString "function");
                   ("function", JObject [("name", JString name);
                                         ("arguments", arguments)])]).
End chat.

(** ** Streaming: the reassembly of tool calls *)

(** [target[key] = v] where [target] is known to be an object. *)
Definition put (key : string) (v : json) (target : json) : json :=
  match target with JObject kvs => JObject (assoc_set key v kvs) | j => j end.

(** The lambda [merge_object], on a target that is an object. *)
Fixpoint merge_object (target delta : json) {struct delta} : json :=
  match delta with
  | JObject kvs =>
      (fix merge (kvs : list (string * json)) (target : json) : json :=
         match kvs with
         | [] => target
         | (key, value) :: kvs =>
             let merged :=
               match find target key with
               | None => value
               | Some existing =>
                   match existing, value with
                   | JObject _, JObject _ => merge_object existing value
                   | JString a, JString b =>
                       if decide (key = "arguments") then JString (a +:+ b) else value
                   | _, _ => value
                   end
               end in
             merge kvs (put key merged target)
         end) kvs target
  | _ => target
  end.

Record StreamState := {
  agg_content : string;
  agg_finish_reason : string;
  partial_tool_calls : list json;
  tokens : list string;            (* what was passed to [on_token] *)
}.

Definition StreamState_init : StreamState :=
  {| agg_content := ""; agg_finish_reason := ""; partial_tool_calls := []; tokens := [] |}.

(** The first slot whose call has the given id. *)
Fixpoint slot_of_id (id : string) (calls : list json) (i : nat) : exc (option nat) :=
  match calls with
  | [] => mret None
  | call :: calls =>
      id' ← value_string call "id" "";
      if decide (id' = id) then mret (Some i) else slot_of_id id calls (S i)
  end.

(** The lambda [find_slot_for_delta]. *)
Definition find_slot_for_delta (calls : list json) (delta : json) : exc nat :=
  let by_id :=
    id ← value_string delta "id" "";
    found ← (if decide (id ≠ "") then slot_of_id id calls 0 else mret None);
    mret (match found with Some i => i | None => Nat.pred (length calls) end) in
  match find delta "index" with
  | Some (JInt z) => if decide (0 ≤ i32 z) then mret (Z.to_nat (i32 z)) else by_id
  | _ => by_id
  end.

(** [resize(slot + 1, json::object())] when the slot is missing. *)
Definition grow (slot : nat) (calls : list json) : list json :=
  calls ++ replicate (S slot - length calls) (JObject []).

(** The callback of [call_chat_stream]. *)
Definition on_chunk (chunk : StreamChunk) (st : StreamState) : exc StreamState :=
  calls ← (if is_object (delta_tool_call chunk) then
             slot ← find_slot_for_delta (partial_tool_calls st) (delta_tool_call chunk);
             mret (alter (λ call, merge_object call (delta_tool_call chunk)) slot
                     (grow slot (partial_tool_calls st)))
           else mret (partial_tool_calls st));
  mret {| agg_content := agg_content st +:+ delta_text chunk;
          agg_finish_reason :=
            if finished chunk && bool_decide (agg_finish_reason st = "") then "stop"
            else agg_finish_reason st;
          partial_tool_calls := calls;
          tokens := tokens st ++
            (if decide (delta_text chunk = "") then [] else [delta_text chunk]) |}.

(** The stream: the adapter hands its chunks to the callback. *)
Abbreviation on_chunks := (deliver on_chunk).

(** The last loop of [run_chat_once]: the calls without their index, typed. *)
Definition finish_call (call : json) : option json :=
  match call with
  | JObject ((_ :: _) as kvs) =>
      let kvs := filter (λ '(k, _), k ≠ "index") kvs in
      Some (if nonempty_string (JObject kvs) "type" then JObject kvs
            else JObject (assoc_set "type" (JString "function") kvs))
  | _ => None
  end.

(** [run_chat_once] in streaming mode: content, tool calls, tokens passed on. *)
Definition run_chat_stream (chunks : list StreamChunk) :
    exc (string * list json * list string) :=
  st ← on_chunks chunks StreamState_init;
  mret (agg_content st, omap finish_call (partial_tool_calls st), tokens st).

(** ** Undo *)

(** The last message of the role before position [n]: both loops of the [undo] action. *)
Fixpoint last_of_role (role : string) (messages : list json) (n : nat) : exc (option nat) :=
  match n with
  | O => mret None
  | S n =>
      match messages !! n with
      | Some (JObject kvs) =>
          r ← value_string (JObject kvs) "role" "";
          if decide (r = role) then mret (Some n) else last_of_role role messages n
      | _ => last_of_role role messages n
      end
  end.

(** Where the conversation is cut: the user's message before the last assistant's. *)
Definition undo_cut (messages : list json) : exc (option nat) :=
  last_assistant ← last_of_role "assistant" messages (length messages);
  match last_assistant with
  | Some n => last_of_role "user" messages n
  | None => mret None
  end.

(** The recount of turns and tokens over the messages that stay. *)
Definition count_message (dump : json → exc string) (m : json) : exc (Z * Z) :=
  if negb (is_object m) then mret (0, 0)
  else
    r ← value_string m "role" "";
    c ← value_string m "content" "";
    tc ← match find m "tool_calls" with
         | Some (JArray l) => text ← dump (JArray l); mret (estimate_tokens text)
         | _ => mret 0
         end;
    mret (if decide (r = "user" ∨ r = "assistant") then 1 else 0,
          (if decide (c = "") then 0 else estimate_tokens c) + tc).

Fixpoint recount (dump : json → exc string) (messages : list json) : exc (Z * Z) :=
  match messages with
  | [] => mret (0, 0)
  | m :: messages =>
      '(turns, toks) ← count_message dump m;
      '(turns', toks') ← recount dump messages;
      mret (turns + turns', u64 (toks + toks'))
  end.

(** [undo]: the messages that stay, how many were removed, and, if any was, the recount. *)
Definition undo (dump : json → exc string) (messages : list json) :
    exc (list json * Z * option (Z * Z)) :=
  cut ← undo_cut messages;
  match cut with
  | None => mret (messages, 0, None)
  | Some n =>
      let kept := take n messages in
      counts ← recount dump kept;
      mret (kept, Z.of_nat (length messages - n), Some counts)
  end.

(** ** Lemmas *)

Lemma nonempty_string_value j key d :
  nonempty_string j key = true → ∃ s, value_string j key d = Ok s ∧ s ≠ "" ∧ find j key = Some (JString s).
Proof.
  unfold nonempty_string, value_string, value, find. destruct j; try done.
  destruct (assoc key kvs) as [[]|]; try done. intros Hs%bool_decide_eq_true. eauto.
Qed.

Lemma set_field_spec key v j j' :
  set_field key v j = Ok j' → find j' key = Some v ∧ is_object j' = true ∧
    ∀ k, k ≠ key → find j' k = find j k.
Proof.
  destruct j; intros H; simplify_eq/=.
  - rewrite decide_True by done. split_and!; [done..|]. intros. by rewrite decide_False.
  - split_and!; [apply assoc_set_eq|done|]. intros. by apply assoc_set_ne.
Qed.

(** *** Reading a payload *)

Lemma preserve_spec key envelope r r' :
  preserve key envelope r = Ok r' →
  find r' key = (match find r key with Some v => Some v | None => find envelope key end) ∧
  ∀ k, k ≠ key → find r' k = find r k.
Proof.
  unfold preserve. destruct (find r key) eqn:Hr; [intros [= <-]; by rewrite Hr|].
  destruct (find envelope key) eqn:He; [|intros [= <-]; by rewrite Hr].
  intros (? & _ & ?)%set_field_spec. done.
Qed.

(** The metadata of an unwrapped payload: its own, or the envelope's. *)
Lemma unwrap_envelope_spec envelope kvs r key :
  find envelope "payload" = Some (JObject kvs) → unwrap_envelope envelope = Ok r →
  key ∈ ["request_id"; "trace_id"; "tree_id"; "source_pid"; "priority"; "mode"] →
  find r key = match assoc key kvs with Some v => Some v | None => find envelope key end.
Proof.
  intros Hp H Hkey. unfold unwrap_envelope in H. rewrite Hp in H.
  repeat (apply exc_bind_Ok_inv in H as (? & ? & H)).
  repeat match goal with H : set_field _ _ _ = _ |- _ => apply set_field_spec in H as (? & _ & ?) end.
  repeat match goal with H : preserve _ _ _ = _ |- _ => apply preserve_spec in H as (? & ?) end.
  repeat (apply elem_of_cons in Hkey as [->|Hkey]); [..|by apply not_elem_of_nil in Hkey];
    repeat match goal with
    | H : ∀ k, k ≠ _ → find ?x k = _ |- context [find ?x _] => rewrite H by done
    | H : find ?x ?k = _ |- context [find ?x ?k] => rewrite H
    end; done.
Qed.

(** *** Estimates *)

Lemma estimate_tail_stop rest : ∀ l role,
  Forall (λ m, is_object m = true → ∃ r, value_string m "role" "" = Ok r ∧ r ≠ "assistant") l →
  value_string role "role" "" = Ok "assistant" →
  estimate_tail (l ++ role :: rest) = estimate_tail l.
Proof.
  intros l role Hl Hrole. induction Hl as [|m l Hm Hl IH].
  - simpl. destruct role as [| | | | | |kvs]; try done. simpl negb. cbv iota.
    rewrite Hrole. done.
  - simpl. destruct (is_object m) eqn:Ho; simpl; [|apply IH].
    destruct (Hm eq_refl) as (r & -> & Hr). simpl. rewrite !decide_False by done. by rewrite IH.
Qed.

Lemma estimate_tail_range l n : estimate_tail l = Ok n → 0 ≤ n < 2 ^ 64.
Proof.
  revert n. induction l as [|m l IH]; intros n H; [injection H as <-; lia|]. simpl in H.
  case_match; [by apply IH|]. apply exc_bind_Ok_inv in H as (role & _ & H).
  case_decide; [injection H as <-; lia|].
  apply exc_bind_Ok_inv in H as (t & Ht%IH & [= <-]).
  repeat case_match; try done. apply u64_range.
Qed.

(** *** Splitting and normalising messages *)

Definition has_role (role : string) (m : json) : Prop := value_string m "role" "" = Ok role.

#[export] Instance has_role_dec role m : Decision (has_role role m).
Proof.
  unfold has_role. destruct (value_string m "role" "") as [r| |]; [|by right..].
  destruct (decide (r = role)) as [->|]; [by left|right; congruence].
Defined.

Lemma split_system_spec l system others :
  split_system l = Ok (system, others) →
  system = filter (λ m, has_role "system" m) (filter (λ m, is_object m = true) l) ∧
  others = filter (λ m, ¬ has_role "system" m) (filter (λ m, is_object m = true) l).
Proof.
  revert system others. induction l as [|m l IH]; intros system others H; simpl in H.
  { by injection H as <- <-. }
  rewrite (filter_cons (λ m, is_object m = true)). destruct (is_object m) eqn:Ho; simpl in H.
  2: { rewrite decide_False by done. by apply IH. }
  rewrite decide_True by done.
  apply exc_bind_Ok_inv in H as (role & Hr & H).
  apply exc_bind_Ok_inv in H as ([s o] & Hs & H). destruct (IH _ _ Hs) as [-> ->].
  assert (has_role "system" m ↔ role = "system") as Hiff
    by (unfold has_role; rewrite Hr; split; congruence).
  rewrite !filter_cons. destruct (decide (role = "system")) as [->|Hne]; injection H as <- <-.
  - by rewrite decide_True, decide_False by naive_solver.
  - by rewrite decide_False, decide_True by naive_solver.
Qed.

Lemma exc_map_Forall2 {A B} (f : A → exc B) l l' :
  exc_map f l = Ok l' → Forall2 (λ x y, f x = Ok y) l l'.
Proof.
  revert l'. induction l as [|x l IH]; intros l' H; simpl in H.
  { injection H as <-. constructor. }
  apply exc_bind_Ok_inv in H as (y & ? & H). apply exc_bind_Ok_inv in H as (ys & ? & [= <-]).
  constructor; auto.
Qed.

(** The arguments of a call's function, if it has any. *)
Definition call_arguments (call : json) : option json :=
  f ← find call "function"; find f "arguments".

Lemma stringify_arguments_spec dump c c' :
  stringify_arguments dump c = Ok c' →
  (∀ a, call_arguments c' = Some a → is_object a = false ∧ is_array a = false) ∧
  (∀ a text, call_arguments c = Some a → is_object a = true ∨ is_array a = true →
     dump a = Ok text → call_arguments c' = Some (JString text)) ∧
  (∀ a, call_arguments c = Some a → is_object a = false → is_array a = false → c' = c).
Proof.
  unfold stringify_arguments, call_arguments. intros H.
  destruct (find c "function") as [f|] eqn:Hf;
    [|injection H as <-; rewrite Hf; by split_and!].
  destruct f as [| | | | | |kvs]; try (injection H as <-; rewrite Hf; by split_and!).
  destruct (assoc "arguments" kvs) as [a|] eqn:Ha;
    [|injection H as <-; rewrite Hf; simpl; rewrite Ha; by split_and!].
  destruct (decide (is_object a = true ∨ is_array a = true)) as [Hc|Hc].
  - assert (∃ text, dump a = Ok text ∧ find c' "function" =
      Some (JObject (assoc_set "arguments" (JString text) kvs))) as (text & Ht & Hf').
    { destruct a; try (by destruct Hc);
        apply exc_bind_Ok_inv in H as (text & ? & H);
        apply exc_bind_Ok_inv in H as (fn & [= <-] & H);
        apply set_field_spec in H as (? & _); eauto. }
    rewrite Hf'. simpl. rewrite assoc_set_eq, Ha. split_and!.
    + by intros ? [= <-].
    + intros ? text' [= <-] _ ?. congruence.
    + intros ? [= <-] ??. destruct Hc; congruence.
  - assert (c' = c) as -> by (destruct a; try (by injection H as <-); destruct Hc; auto).
    rewrite Hf. simpl. rewrite Ha. split_and!; try done.
    + intros ? [= <-]. destruct a; naive_solver.
    + intros ? ? [= <-] ?. by destruct Hc.
Qed.

(** *** Streaming *)

Lemma on_chunks_texts chunks st st' :
  on_chunks chunks st = Ok st' →
  agg_content st' = agg_content st +:+ concat_strings (delta_text <$> chunks) ∧
  tokens st' = tokens st ++ filter (λ t, t ≠ "") (delta_text <$> chunks).
Proof.
  revert st. induction chunks as [|c chunks IH]; intros st H; simpl in H.
  { injection H as <-. by rewrite str_app_nil_r, app_nil_r. }
  apply exc_bind_Ok_inv in H as (st1 & H1 & H).
  apply exc_bind_Ok_inv in H1 as (calls & _ & [= <-]).
  destruct (IH _ H) as [-> ->]. simpl. rewrite str_app_assoc, <-app_assoc. split; [done|].
  f_equal. rewrite filter_cons. case_decide as Hd; [by rewrite decide_False by naive_solver|].
  by rewrite decide_True.
Qed.

(** A chunk that carries the next piece of the arguments of call [i]. *)
Definition argument_delta (i : Z) (piece : string) : json :=
  JObject [("index", JInt i); ("function", JObject [("arguments", JString piece)])].

(** The arguments collected so far in a slot. *)
Lemma merge_argument_delta i piece call a kvs :
  find call "function" = Some (JObject kvs) → assoc "arguments" kvs = Some (JString a) →
  find (merge_object call (argument_delta i piece)) "function" =
    Some (JObject (assoc_set "arguments" (JString (a +:+ piece)) kvs)) ∧
  (∀ k, k ≠ "function" → k ≠ "index" →
     find (merge_object call (argument_delta i piece)) k = find call k) ∧
  is_object (merge_object call (argument_delta i piece)) = true.
Proof.
  intros Hf Ha. destruct call as [| | | | | |ckvs]; try done. simpl in Hf.
  unfold argument_delta. simpl.
  match goal with |- context [assoc_set "index" ?v ckvs] => set (iv := v) end.
  rewrite (assoc_set_ne "index" "function") by done. rewrite Hf. simpl. rewrite Ha.
  split_and!.
  - by rewrite assoc_set_eq.
  - intros k H1 H2. by rewrite !assoc_set_ne.
  - done.
Qed.

Lemma slot_alter_lookup (f : json → json) slot calls call :
  calls !! slot = Some call →
  alter f slot (grow slot calls) !! slot = Some (f call) ∧
  length (alter f slot (grow slot calls)) = length calls ∧
  ∀ j, j ≠ slot → alter f slot (grow slot calls) !! j = calls !! j.
Proof.
  intros Hs. pose proof (lookup_lt_Some _ _ _ Hs) as Hlt.
  assert (grow slot calls = calls) as ->.
  { unfold grow. replace (S slot - length calls)%nat with 0%nat by lia. simpl. apply app_nil_r. }
  split_and!.
  - by rewrite list_lookup_alter_eq, Hs.
  - apply length_alter.
  - intros j Hj. by rewrite list_lookup_alter_ne.
Qed.

(** The pieces of a call's arguments end up joined, in order, whatever else its slot and
    the other slots hold. *)
Lemma on_chunks_arguments i pieces st call kvs a :
  0 ≤ i ≤ INT_MAX →
  partial_tool_calls st !! Z.to_nat i = Some call →
  find call "function" = Some (JObject kvs) → assoc "arguments" kvs = Some (JString a) →
  ∃ st' call' kvs', on_chunks ((call_chunk ∘ argument_delta i) <$> pieces) st = Ok st' ∧
    partial_tool_calls st' !! Z.to_nat i = Some call' ∧
    find call' "function" = Some (JObject kvs') ∧
    assoc "arguments" kvs' = Some (JString (a +:+ concat_strings pieces)) ∧
    (∀ k, k ≠ "arguments" → assoc k kvs' = assoc k kvs) ∧
    (∀ k, k ≠ "function" → k ≠ "index" → find call' k = find call k) ∧
    (∀ j, j ≠ Z.to_nat i → partial_tool_calls st' !! j = partial_tool_calls st !! j) ∧
    length (partial_tool_calls st') = length (partial_tool_calls st) ∧
    agg_content st' = agg_content st ∧ tokens st' = tokens st.
Proof.
  intros Hi. revert st call kvs a.
  induction pieces as [|p pieces IH]; intros st call kvs a Hc Hf Ha.
  { exists st, call, kvs. simpl. rewrite str_app_nil_r. by split_and!. }
  destruct (merge_argument_delta i p call a kvs Hf Ha) as (Hf1 & Hk1 & _).
  destruct (slot_alter_lookup (λ call, merge_object call (argument_delta i p)) _ _ _ Hc)
    as (Hl & Hlen & Hother).
  assert (∃ st1, on_chunk (call_chunk (argument_delta i p)) st = Ok st1 ∧
    partial_tool_calls st1 = alter (λ call, merge_object call (argument_delta i p)) (Z.to_nat i)
      (grow (Z.to_nat i) (partial_tool_calls st)) ∧
    agg_content st1 = agg_content st ∧ tokens st1 = tokens st)
    as (st1 & Hst1 & Hcalls & Hcont & Htok).
  { unfold on_chunk, find_slot_for_delta. simpl. rewrite i32_id by lia.
    rewrite decide_True by lia. simpl. eexists. split; [done|]. simpl.
    by rewrite str_app_nil_r, app_nil_r. }
  rewrite <-Hcalls in Hl, Hother, Hlen.
  destruct (IH st1 _ _ _ Hl Hf1 (assoc_set_eq _ _ _))
    as (st' & call' & kvs' & Hst' & Hc' & Hf' & Ha' & Hkv' & Hk' & Ho' & Hln' & ? & ?).
  exists st', call', kvs'. split_and!; try done; try congruence.
  - change (on_chunks ((call_chunk ∘ argument_delta i) <$> (p :: pieces)) st) with
      (st0 ← on_chunk (call_chunk (argument_delta i p)) st;
       on_chunks ((call_chunk ∘ argument_delta i) <$> pieces) st0).
    by rewrite Hst1.
  - rewrite Ha'. simpl. by rewrite str_app_assoc.
  - intros k Hk. rewrite Hkv' by done. by apply assoc_set_ne.
  - intros k ??. rewrite Hk' by done. by apply Hk1.
  - intros j Hj. rewrite Ho' by done. by apply Hother.
Qed.

Lemma assoc_filter k (kvs : list (string * json)) :
  assoc k (filter (λ '(k, _), k ≠ "index") kvs) =
    if decide (k = "index") then None else assoc k kvs.
Proof.
  induction kvs as [|[k' v] kvs IH]; [by case_decide|]. rewrite filter_cons. simpl.
  destruct (decide (k' = "index")) as [->|Hk'].
  - rewrite decide_False by naive_solver. rewrite IH.
    repeat case_decide; subst; done.
  - rewrite decide_True by done. simpl. rewrite IH. repeat case_decide; subst; done.
Qed.

(** A finished call keeps its members, its index apart, and is typed. *)
Lemma finish_call_spec call :
  is_object call = true → call ≠ JObject [] → find call "type" = None →
  ∃ out, finish_call call = Some out ∧ find out "type" = Some (JString "function") ∧
    find out "index" = None ∧
    ∀ k, k ≠ "index" → k ≠ "type" → find out k = find call k.
Proof.
  intros Ho Hne Ht. destruct call as [| | | | | |kvs]; try done.
  destruct kvs as [|kv kvs]; [done|]. unfold finish_call. cbv zeta.
  set (l := filter (λ '(k, _), k ≠ "index") (kv :: kvs)).
  assert (nonempty_string (JObject l) "type" = false) as ->.
  { unfold nonempty_string. simpl find. unfold l. rewrite assoc_filter.
    rewrite decide_False by done. unfold find in Ht. by rewrite Ht. }
  eexists. split; [done|]. simpl find. split_and!.
  - apply assoc_set_eq.
  - rewrite assoc_set_ne by done. unfold l. by rewrite assoc_filter.
  - intros k H1 H2. rewrite assoc_set_ne by done. unfold l. rewrite assoc_filter.
    by rewrite decide_False.
Qed.

(** *** Undo *)

Lemma last_of_role_spec role messages n r :
  last_of_role role messages n = Ok r →
  match r with
  | Some i => (i < n)%nat ∧ ∃ m, messages !! i = Some m ∧ is_object m = true ∧ has_role role m ∧
      (∀ j m', (i < j < n)%nat → messages !! j = Some m' → is_object m' = true →
         ¬ has_role role m')
  | None => ∀ j m', (j < n)%nat → messages !! j = Some m' → is_object m' = true →
      ¬ has_role role m'
  end.
Proof.
  revert r. induction n as [|n IH]; intros r H; simpl in H.
  { injection H as <-. intros; lia. }
  assert (last_of_role role messages n = Ok r →
    (∀ m', messages !! n = Some m' → is_object m' = true → ¬ has_role role m') →
    match r with
    | Some i => (i < S n)%nat ∧ ∃ m, messages !! i = Some m ∧ is_object m = true ∧
        has_role role m ∧ (∀ j m', (i < j < S n)%nat → messages !! j = Some m' →
          is_object m' = true → ¬ has_role role m')
    | None => ∀ j m', (j < S n)%nat → messages !! j = Some m' → is_object m' = true →
        ¬ has_role role m'
    end) as Hstep.
  { intros Hr Hn. specialize (IH _ Hr). destruct r as [i|].
    - destruct IH as (Hi & m & ? & ? & ? & Hlast). split; [lia|]. exists m. split_and!; try done.
      intros j m' Hj Hm' Ho. destruct (decide (j = n)) as [->|]; [by apply Hn|].
      apply (Hlast j); [lia|done|done].
    - intros j m' Hj Hm' Ho. destruct (decide (j = n)) as [->|]; [by apply Hn|].
      apply (IH j); [lia|done|done]. }
  destruct (messages !! n) as [m|] eqn:Hm; [|by apply Hstep].
  destruct m as [| | | | | |kvs]; try (apply Hstep; [done|by intros ? [= <-]]).
  apply exc_bind_Ok_inv in H as (r' & Hr' & H). case_decide as Hrole.
  - injection H as <-. subst r'. split; [lia|]. exists (JObject kvs).
    split_and!; try done. intros; lia.
  - apply Hstep; [done|]. intros ? [= <-] _ Hh. apply Hrole.
    assert (Ok r' = Ok role) as [= ->] by (etrans; [symmetry; exact Hr'|exact Hh]). done.
Qed.

(** *** The modes *)

Lemma check_mode_spec j mode user_id x :
  check_mode j = Ok x → value_string j "mode" "simple" = Ok mode →
  value_string j "user_id" "" = Ok user_id →
  (mode = "simple" ∧ user_id = "" ∧ value_string j "convo_id" "" = Ok "") ∨
  (mode = "conversation" ∧ user_id = "") ∨ (mode = "user_conversation" ∧ user_id ≠ "").
Proof.
  intros H Hm Hu. unfold check_mode in H. rewrite Hm, Hu in H. simpl in H.
  destruct (decide (mode = "simple")) as [->|Hs].
  - left. apply exc_bind_Ok_inv in H as (c & Hc & H).
    apply exc_bind_Ok_inv in H as (bad & Hbad & H). destruct bad; [done|].
    destruct (decide (c = "")) as [->|Hne]; simpl in Hbad.
    + assert (bool_decide (user_id ≠ "") = false) as Hb by (by injection Hbad).
      apply bool_decide_eq_false in Hb. split_and!; [done|by apply dec_stable|done].
    + by rewrite decide_True in Hbad.
  - right. destruct (decide (mode = "conversation" ∨ mode = "user_conversation"))
      as [Hmode|]; [|done].
    destruct (_ && _); [done|]. simpl in H. case_decide as Hc; case_decide as Hu'; try done.
    + left. naive_solver.
    + right. split; [naive_solver|done].
Qed.

(** *** The limit of a request *)

(** The limit [build_chat_request] reads, which defaults to 0. *)
Definition request_limit (payload : json) : exc Z :=
  sampling ← value_json payload "sampling_params" (JObject []);
  dflt ← value_int sampling "max_tokens" 0;
  value_int payload "max_tokens" dflt.

Lemma value_int_default j key d d' n :
  value_int j key d = Ok n →
  value_int j key d' = Ok n ∨ (find j key = None ∧ n = d ∧ value_int j key d' = Ok d').
Proof.
  unfold value_int, value, find. destruct j; try done.
  destruct (assoc key kvs); [auto|]. intros [= ->]. auto.
Qed.

(** Changing the default of 8192 to 0 can only lower the limit to 0. *)
Lemma request_limit_default payload sampling dflt cur :
  value_json payload "sampling_params" (JObject []) = Ok sampling →
  value_int sampling "max_tokens" 8192 = Ok dflt → value_int payload "max_tokens" dflt = Ok cur →
  request_limit payload = Ok cur ∨ (request_limit payload = Ok 0 ∧ cur = 8192).
Proof.
  intros Hs Hd Hc. unfold request_limit. rewrite Hs. simpl.
  destruct (value_int_default _ _ _ 0 _ Hd) as [->|(_ & -> & ->)]; simpl; [by left|].
  destruct (value_int_default _ _ _ 0 _ Hc) as [->|(_ & -> & ->)]; auto.
Qed.

(** Once [max_tokens] is set, in the payload and in its sampling parameters if it has
    any, it is the limit. *)
Lemma request_limit_set payload sampling a payload' :
  value_json payload "sampling_params" (JObject []) = Ok sampling → is_object sampling = true →
  - 2 ^ 31 ≤ a ≤ INT_MAX →
  (payload ← set_field "max_tokens" (JInt a) payload;
   match find payload "sampling_params" with
   | Some (JObject s) =>
       s ← set_field "max_tokens" (JInt a) (JObject s);
       set_field "sampling_params" s payload
   | _ => mret payload
   end) = Ok payload' →
  request_limit payload' = Ok a.
Proof.
  intros Hs Ho Ha H. destruct payload as [| | | | | |kvs]; try done.
  cbn [set_field mbind exc_bind] in H. unfold find in H.
  rewrite assoc_set_ne in H by done.
  apply value_json_inv in Hs as [Hf|[Hf ->]]; simpl in Hf; rewrite Hf in H.
  - destruct sampling as [| | | | | |s]; try done.
    cbn [set_field mbind exc_bind] in H. injection H as <-.
    unfold request_limit, value_json, value_int, value. simpl.
    rewrite assoc_set_eq. simpl. rewrite assoc_set_eq. simpl.
    rewrite assoc_set_ne, assoc_set_eq by done. simpl. by rewrite i32_id.
  - injection H as <-. unfold request_limit, value_json, value_int, value. simpl.
    rewrite (assoc_set_ne "max_tokens" "sampling_params"), Hf by done. simpl. rewrite assoc_set_eq. simpl. by rewrite i32_id.
Qed.

Lemma normalize_arguments_object parse dump raw args :
  normalize_tool_arguments_object parse dump raw = Ok args → is_object args = true.
Proof.
  assert (∀ (m : exc string) (f : string → json), (∀ t, is_object (f t) = true) →
    ∀ j, (text ← m; mret (f text)) = Ok j → is_object j = true) as Hraw.
  { intros m f Hf j H. apply exc_bind_Ok_inv in H as (t & _ & [= <-]). apply Hf. }
  destruct raw as [|b|z|x|text|l|kvs]; simpl; try (by apply Hraw);
    try (by intros [= <-]).
  case_decide; [by intros [= <-]|]. unfold try_catch.
  destruct (parse text) as [[|b|z|x|t|l|kvs]|w|]; simpl; try (by intros [= <-]); try done.
  all: destruct (dump _) as [?|?|]; simpl; intros [= <-]; done.
Qed.

(** ** Properties *)

(** What an accepted request is: it has an id and a tree, a positive source pid or the
    compacter's, one of the three modes with the user and the conversation the mode asks
    for; and its serialization key is its tree, except that the conversations of the
    handler's users are serialized per user. *)
Lemma parse_request_spec now promise envelope req :
  parse_request_payload now promise envelope = Ok req →
  ∃ mode user_id,
    Scheduler.request_id req ≠ "" ∧ Scheduler.tree_id req ≠ "" ∧
    (0 < Scheduler.source_pid req ∨ Scheduler.source_pid req = kCompacterInternalPid) ∧
    find (payload req) "mode" = Some (JString mode) ∧
    value_string (payload req) "user_id" "" = Ok user_id ∧
    ((mode = "simple" ∧ user_id = "" ∧ value_string (payload req) "convo_id" "" = Ok "") ∨
     (mode = "conversation" ∧ user_id = "") ∨ (mode = "user_conversation" ∧ user_id ≠ "")) ∧
    queue_key req = (if decide (Scheduler.tree_id req = "TREE_HANDLER" ∧ user_id ≠ "")
                     then "user_" +:+ user_id else Scheduler.tree_id req).
Proof.
  intros H. unfold parse_request_payload in H. exc_run H; try done. simpl.
  repeat match goal with H : negb _ = false |- _ => apply negb_false_iff in H end.
  match goal with H : nonempty_string ?j "request_id" = true |- _ =>
    destruct (nonempty_string_value _ _ "" H) as (rid & Hrid & Hridne & _) end.
  match goal with H : nonempty_string ?j "tree_id" = true |- _ =>
    destruct (nonempty_string_value _ _ "" H) as (tid & Htid & Htidne & _) end.
  assert (a2 = rid ∧ a4 = tid) as [-> ->] by (split; congruence).
  apply orb_false_iff in Heqb1 as [_ Hpid]. apply bool_decide_eq_false in Hpid.
  assert (find a0 "mode" = Some (JString a6)) as Hmode.
  { unfold has_string in Heqb2. destruct (find a0 "mode") as [[]|] eqn:Hf; try done.
    apply value_string_inv in E6 as [?|[? _]]; congruence. }
  destruct a8. pose proof (check_mode_spec _ _ _ _ E8 E6 E7) as Hcases.
  exists a6, a7. split_and!; try done.
  - destruct (decide (a1 = kCompacterInternalPid)); [by right|left].
    destruct (decide (a1 ≤ 0)); [by destruct Hpid|lia].
  - unfold queue_key_of. destruct (decide (tid = "TREE_HANDLER" ∧ a7 ≠ "")) as [[??]|Hn].
    + rewrite decide_True; [done|]. naive_solver.
    + rewrite decide_False; [done|]. naive_solver.
Qed.

(** C39 The context guard fits the answer into the context.  A request whose counted input leaves no
    more than a margin of 100 tokens is refused; any other one is let through, and the limit
    that [build_chat_request] then reads from the payload is such that input and answer
    together leave 91 tokens of the context: a limit above the room - the context less the
    margin and the input, or 10 tokens when that is less - is lowered to the room, and one that
    is not is left, with the payload.  What is left may be a limit of zero or less that the
    request names, or no limit at all when 8192 tokens, which the guard then assumes, are no
    more than the room; both read as no limit to the adapters.  The context is an [int] above
    zero, and the messages and the limit of the payload are of the types that the code reads. *)
Theorem clamp_fits context_length payload l input sampling dflt cur :
  0 < context_length ≤ INT_MAX →
  find payload "messages" = Some (JArray l) → estimate_request_tokens (JArray l) = Ok input →
  value_json payload "sampling_params" (JObject []) = Ok sampling →
  value_int sampling "max_tokens" 8192 = Ok dflt → value_int payload "max_tokens" dflt = Ok cur →
  let room := Z.max 10 (context_length - 100 - input) in
  if decide (context_length - 100 ≤ input) then
    ∃ why, clamp_max_tokens context_length payload = Throw why
  else
    ∃ payload' m, clamp_max_tokens context_length payload = Ok payload' ∧
      request_limit payload' = Ok m ∧ input + m ≤ context_length - 91 ∧
      if decide (cur ≤ room) then payload' = payload ∧ (m = cur ∨ (m = 0 ∧ cur = 8192))
      else m = room.
Proof.
  intros Hctx Hl Hin Hs Hd Hcur room. unfold clamp_max_tokens.
  rewrite Hl, Hin, Hs. cbn [mbind exc_bind]. rewrite Hd. cbn [mbind exc_bind]. rewrite Hcur.
  cbn [mbind exc_bind]. rewrite (decide_True (P := context_length > 0)) by lia.
  assert (0 ≤ input) as Hpos by (unfold estimate_request_tokens in Hin;
    pose proof (estimate_tail_range _ _ Hin); lia).
  assert ((if decide (context_length > 100) then context_length - 100 else 0) ≤ input ↔
    context_length - 100 ≤ input) as Hguard
    by (destruct (decide (context_length > 100)); lia).
  destruct (decide (context_length - 100 ≤ input)) as [Hge|Hlt].
  { rewrite (decide_True (P := _ ≤ input)) by (by apply Hguard). by eexists. }
  rewrite (decide_False (P := _ ≤ input)) by tauto.
  rewrite !i32_id by lia. rewrite (decide_False (P := _ ∨ _)) by lia. unfold INT_MAX in Hctx.
  assert ((if decide (context_length - input - 100 < 10) then 10
           else context_length - input - 100) = room) as Hroom
    by (unfold room; destruct (decide (context_length - input - 100 < 10)); lia).
  cbv zeta. rewrite Hroom. destruct (decide (cur ≤ room)) as [Hc|Hc].
  - rewrite (decide_False (P := cur > room)) by lia. exists payload.
    destruct (request_limit_default _ _ _ _ Hs Hd Hcur) as [H|[H H8]];
      eexists; (split; [done|]); (split; [exact H|]); (split; [unfold room in *; lia|auto]).
  - rewrite (decide_True (P := cur > room)) by lia.
    destruct payload as [| | | | | |kvs]; try done.
    match goal with |- ∃ payload' m, ?run = Ok payload' ∧ _ => destruct run as [payload'| |] eqn:H end.
    + exists payload', room. split; [done|].
      split; [|split; [unfold room; lia|done]].
      eapply request_limit_set; [exact Hs| | |exact H]; [by destruct sampling|].
      unfold room, INT_MAX. lia.
    + exfalso. cbn [set_field mbind exc_bind] in H. by repeat case_match.
    + exfalso. cbn [set_field mbind exc_bind] in H. by repeat case_match.
Qed.

(** The guard counts the last turn only: the history before the last assistant's message,
    however long, does not change the verdict, nor the limit, although it is sent. *)
Lemma clamp_ignores_history history assistant turn kvs context_length :
  value_string assistant "role" "" = Ok "assistant" →
  Forall (λ m, is_object m = true → ∃ r, value_string m "role" "" = Ok r ∧ r ≠ "assistant") turn →
  estimate_request_tokens (JArray (history ++ assistant :: turn)) =
    estimate_request_tokens (JArray turn) ∧
  clamp_max_tokens context_length
      (JObject (("messages", JArray (history ++ assistant :: turn)) :: kvs)) =
    put "messages" (JArray (history ++ assistant :: turn)) <$>
      clamp_max_tokens context_length (JObject (("messages", JArray turn) :: kvs)).
Proof.
  intros Ha Ht.
  assert (estimate_request_tokens (JArray (history ++ assistant :: turn)) =
    estimate_request_tokens (JArray turn)) as He.
  { unfold estimate_request_tokens. rewrite reverse_app, reverse_cons, <-app_assoc. simpl.
    apply estimate_tail_stop; [by apply Forall_reverse|done]. }
  split; [done|]. unfold clamp_max_tokens. simpl find. cbv iota. rewrite He.
  destruct (estimate_request_tokens (JArray turn)) as [input| |]; [simpl|done..].
  unfold value_json, value_int, value. simpl.
  destruct (assoc "sampling_params" kvs) as [sp|]; simpl.
  all: repeat match goal with
    | |- context [match ?x with JObject _ => _ | _ => _ end ≫= _] => destruct x; simpl
    | |- context [match assoc ?k ?l with Some _ => _ | None => _ end ≫= _] =>
        destruct (assoc k l) eqn:?; simpl
    | |- context [get_int ?j ≫= _] => destruct (get_int j); simpl
    | |- context [if ?d then _ else _] =>
        lazymatch type of d with
        | sumbool _ _ => destruct d; simpl
        end
    end; try done.
  all: by destruct (assoc "sampling_params" (assoc_set _ _ _)) as [[]|].
Qed.

(** The messages that are sent: exactly the objects among the request's, the system's
    first and each group in its order, and unchanged but for the calls of the assistant's
    messages, whose arguments are never left as an object or an array. *)
Lemma chat_messages_spec dump l out :
  chat_messages dump (JArray l) = Ok out →
  ∃ msgs, out = JArray msgs ∧
    Forall2 (λ m m', normalize_message dump m = Ok m' ∧
        (¬ has_role "assistant" m → m' = m) ∧
        (∀ calls c a, has_role "assistant" m → find m' "tool_calls" = Some (JArray calls) →
           c ∈ calls → call_arguments c = Some a → is_object a = false ∧ is_array a = false))
      (filter (λ m, has_role "system" m) (filter (λ m, is_object m = true) l) ++
       filter (λ m, ¬ has_role "system" m) (filter (λ m, is_object m = true) l)) msgs.
Proof.
  intros H. unfold chat_messages in H.
  apply exc_bind_Ok_inv in H as ([sys oth] & Hs & H).
  apply exc_bind_Ok_inv in H as (msgs & Hm & [= <-]).
  apply split_system_spec in Hs as [-> ->]. exists msgs. split; [done|].
  apply exc_map_Forall2 in Hm. eapply Forall2_impl; [exact Hm|]. clear.
  intros m m' H. split; [done|]. unfold normalize_message in H.
  apply exc_bind_Ok_inv in H as (role & Hrole & H). unfold has_role. rewrite Hrole.
  destruct (decide (role = "assistant")) as [->|Hne].
  2: { rewrite decide_True in H by done. injection H as <-. split; [done|].
    intros ??? [= ?]; done. }
  rewrite decide_False in H by naive_solver. split; [done|].
  destruct (find m "tool_calls") as [[| | | | |tcs|]|] eqn:Hf;
    try (injection H as <-; intros calls c a _ Hc; congruence).
  apply exc_bind_Ok_inv in H as (tcs' & Hmap & H). apply set_field_spec in H as (Hset & _).
  rewrite Hset. intros calls c a _ [= <-] Hc Ha.
  apply exc_map_Forall2 in Hmap. apply list_elem_of_lookup in Hc as [i Hi].
  destruct (Forall2_lookup_r _ _ _ _ _ Hmap Hi) as (c0 & _ & Hc0).
  destruct (stringify_arguments_spec _ _ _ Hc0) as (Hno & _). by apply Hno.
Qed.

(** A normalised tool call always has an id, the type [function], a name, and arguments
    that are an object, whatever the model sent. *)
Lemma normalize_tool_call_spec parse dump uuid call i out :
  normalize_tool_call parse dump uuid call i = Ok out →
  ∃ id name args, id ≠ "" ∧ name ≠ "" ∧
    out = JObject [("id", JString id); ("type", JString "function");
                   ("function", JObject [("name", JString name);
                                         ("arguments", JObject args)])] ∧
    (∀ given, find call "id" = Some (JString given) → given ≠ "" → id = given) ∧
    (∀ fn a, find call "function" = Some fn → find fn "arguments" = Some (JObject a) → args = a).
Proof.
  intros H. unfold normalize_tool_call in H.
  apply exc_bind_Ok_inv in H as (fn & Hfn & H).
  apply exc_bind_Ok_inv in H as (dflt & _ & H).
  apply exc_bind_Ok_inv in H as (name & Hname & H). case_decide as Hne; [done|].
  apply exc_bind_Ok_inv in H as (raw & Hraw & H).
  apply exc_bind_Ok_inv in H as (id & Hid & H).
  apply exc_bind_Ok_inv in H as (args & Hargs & H). injection H as <-.
  assert (is_object args = true) as Ho.
  { by eapply normalize_arguments_object. }
  destruct args as [| | | | | |kvs]; try done.
  set (id' := if decide (id = "") then _ else id).
  exists id', name, kvs. split_and!; [|done|done| |].
  - unfold id'. case_decide; [by destruct (pretty i)|done].
  - intros given Hg Hgne. apply value_string_inv in Hid as [Hf|[Hf _]]; simplify_eq.
    unfold id'. by rewrite decide_False.
  - intros fn' a Hf' Ha. apply value_json_inv in Hfn as [Hf|[Hf _]]; simplify_eq.
    rewrite Ha in Hraw. injection Hraw as <-. simpl in Hargs. by injection Hargs.
Qed.

(** Streaming loses nothing: the content is the chunks' texts joined in order, and the
    client is given exactly the texts that are not empty. *)
Lemma stream_content chunks content calls toks :
  run_chat_stream chunks = Ok (content, calls, toks) →
  content = concat_strings (delta_text <$> chunks) ∧
  toks = filter (λ t, t ≠ "") (delta_text <$> chunks) ∧
  concat_strings toks = content.
Proof.
  intros H. unfold run_chat_stream in H. apply exc_bind_Ok_inv in H as (st & Hst & H).
  injection H as <- _ <-. destruct (on_chunks_texts _ _ _ Hst) as [-> ->]. split_and!; try done.
  simpl. generalize (delta_text <$> chunks). intros l. induction l as [|t l IH]; [done|].
  rewrite filter_cons. case_decide as Ht; simpl; [by rewrite IH|].
  by rewrite Ht, IH.
Qed.

(** Fragmented arguments are reassembled: after a chunk that opens a call with its id and
    its name, the pieces of its arguments, sent in order under its index, are returned
    joined, in a single call with that id and that name, typed [function] and without its
    index. *)
Lemma stream_arguments id name pieces :
  ∃ call fn, run_chat_stream
    (call_chunk (JObject [("index", JInt 0); ("id", JString id);
        ("function", JObject [("name", JString name); ("arguments", JString "")])])
     :: ((call_chunk ∘ argument_delta 0) <$> pieces)) = Ok ("", [call], []) ∧
    find call "id" = Some (JString id) ∧ find call "type" = Some (JString "function") ∧
    find call "index" = None ∧ find call "function" = Some fn ∧
    find fn "name" = Some (JString name) ∧
    find fn "arguments" = Some (JString (concat_strings pieces)).
Proof.
  set (kvs := [("name", JString name); ("arguments", JString "")]).
  set (call0 := JObject [("index", JInt 0); ("id", JString id); ("function", JObject kvs)]).
  set (st0 := {| agg_content := ""; agg_finish_reason := ""; partial_tool_calls := [call0];
                 tokens := [] |}).
  destruct (on_chunks_arguments 0 pieces st0 call0 kvs "")
    as (st' & call' & kvs' & Hst' & Hc' & Hf' & Ha' & Hkv' & Hk' & _ & Hlen & Hcont & Htok);
    [unfold INT_MAX; lia|done..|].
  destruct (partial_tool_calls st') as [|c [|]] eqn:Hcalls; try done.
  simpl in Hc'. injection Hc' as ->.
  destruct (finish_call_spec call') as (out & Hout & Ht & Hi & Hk).
  { by destruct call'. }
  { intros ->. done. }
  { by rewrite Hk'. }
  exists out, (JObject kvs'). split.
  - change (run_chat_stream _) with
      (st ← on_chunks ((call_chunk ∘ argument_delta 0) <$> pieces) st0;
       mret (agg_content st, omap finish_call (partial_tool_calls st), tokens st)).
    rewrite Hst'. simpl. rewrite Hcalls, Hcont, Htok. simpl. by rewrite Hout.
  - rewrite !Hk by done. split_and!; try done; simpl.
    + by rewrite Hk'.
    + by rewrite Hk.
    + by rewrite Hkv'.
Qed.

(** A call without an index is not told from the last one: a delta with no index whose
    id is new is merged into the last call of the list, whose id, name and arguments it
    then replaces or extends; two such calls come back as one. *)
Lemma stream_unindexed_merged id1 id2 name1 name2 args1 args2 :
  id1 ≠ "" → id2 ≠ "" → id1 ≠ id2 →
  let call id name args := call_chunk (JObject [("id", JString id);
      ("function", JObject [("name", JString name); ("arguments", JString args)])]) in
  run_chat_stream [call id1 name1 args1; call id2 name2 args2] =
    Ok ("", [JObject [("id", JString id2);
                      ("function", JObject [("name", JString name2);
                                            ("arguments", JString (args1 +:+ args2))]);
                      ("type", JString "function")]], []).
Proof.
  intros H1 H2 Hne. unfold run_chat_stream. simpl.
  unfold on_chunk, find_slot_for_delta, value_string, value. simpl.
  rewrite decide_True by done. simpl. rewrite decide_True by done. simpl.
  rewrite decide_False by done. done.
Qed.

(** C40 Undo takes back one exchange: it keeps a prefix of the conversation; when it removes
    anything, what goes starts with a user's message, contains an assistant's, and no
    user's message lies between that first one and the last assistant's; when there is no
    assistant's message with a user's before it, nothing is removed. *)
Theorem undo_spec dump messages kept removed counts :
  undo dump messages = Ok (kept, removed, counts) →
  Z.of_nat (length kept) + removed = Z.of_nat (length messages) ∧
  ((kept = messages ∧ counts = None ∧
    ∀ i j a u, messages !! i = Some a → is_object a = true → has_role "assistant" a →
      (∀ i' a', (i < i')%nat → messages !! i' = Some a' → is_object a' = true →
         ¬ has_role "assistant" a') →
      (j < i)%nat → messages !! j = Some u → is_object u = true → ¬ has_role "user" u) ∨
   ∃ u a i rest, messages = kept ++ u :: rest ∧ has_role "user" u ∧
     rest !! i = Some a ∧ has_role "assistant" a ∧
     (∀ j m, (j < i)%nat → rest !! j = Some m → is_object m = true → ¬ has_role "user" m) ∧
     (∀ j m, (i < j)%nat → rest !! j = Some m → is_object m = true →
        ¬ has_role "assistant" m) ∧
     ∃ c, recount dump kept = Ok c ∧ counts = Some c).
Proof.
  intros H. unfold undo in H. apply exc_bind_Ok_inv in H as (cut & Hcut & H).
  unfold undo_cut in Hcut. apply exc_bind_Ok_inv in Hcut as (la & Hla & Hcut).
  pose proof (last_of_role_spec _ _ _ _ Hla) as Hspec.
  destruct la as [la|].
  2: { injection Hcut as <-. injection H as <- <- <-. split; [lia|left]. split_and!; [done..|].
    intros i j a u Ha Ho Hr. exfalso. apply (Hspec i a); [|done..]. by eapply lookup_lt_Some. }
  destruct Hspec as (Hlt & a & Ha & Hao & Har & Hafter).
  pose proof (last_of_role_spec _ _ _ _ Hcut) as Hspec.
  destruct cut as [n|].
  2: { injection H as <- <- <-. split; [lia|left]. split_and!; [done..|].
    intros i j a' u Ha' Ho' Hr' Hlast Hj Hu Huo. apply (Hspec j u); [|done..].
    assert (i = la); [|lia]. destruct (Nat.lt_trichotomy i la) as [Hl|[?|Hl]]; [|done|].
    - exfalso. by apply (Hlast la a).
    - exfalso. apply (Hafter i a'); [|done..]. split; [done|]. by eapply lookup_lt_Some. }
  destruct Hspec as (Hn & u & Hu & Huo & Hur & Hbetween).
  apply exc_bind_Ok_inv in H as (c & Hc & H). injection H as <- <- <-.
  pose proof (take_drop_middle messages n u Hu) as Hmid.
  split; [rewrite length_take; lia|right].
  assert (∀ j, drop (S n) messages !! j = messages !! (S n + j)%nat) as Hd
    by (intros; by rewrite lookup_drop).
  exists u, a, (la - S n)%nat, (drop (S n) messages). split_and!; try done.
  - rewrite Hd. by replace (S n + (la - S n))%nat with la by lia.
  - intros j m Hj Hm Ho. rewrite Hd in Hm. apply (Hbetween (S n + j)%nat); [lia|done|done].
  - intros j m Hj Hm Ho. rewrite Hd in Hm. apply (Hafter (S n + j)%nat); [|done|done].
    split; [lia|]. by eapply lookup_lt_Some.
  - eauto.
Qed.
