(* ===== verification/ServiceConfig.v ===== *)
(** * The configuration of the scheduler (src/llm/scheduler.cpp)

    [load_scheduler_config]: the model's file and its adapter, the key of the provider, the
    compacter's threshold and the ports, with the values that stand in for what is missing. *)

From S2P Require Import Prelude Json StringUtils Provider LlmRequest Config.

Record ModelConfig := {
  model_name : string;
  model_type : string;
  mc_active_adapter : string;
  context_length : Z;
  max_simultaneous_llm_requests : Z;
  mc_enabled : bool;
}.

Record SchedulerConfig := {
  sc_active_adapter : string;
  sc_adapter_cfg : AdapterConfig;
  model_info : ModelConfig;
  auto_compact_threshold : double;
  max_llm_keys : Z;
  max_client_threads : Z;
  scheduler_wait_timeout_ms : Z;
  executioner_port : Z;
  supervisor_port : Z;
}.

(** The first key that is not empty: that of the file, the variable that the file names, and
    the two that are always looked for.  [env] is [get_env_value] of the [.env] file. *)
Definition find_api_key (env : string → string) (api_key env_var_name : string) : string :=
  let api_key := if decide (api_key = "" ∧ env_var_name ≠ "") then env env_var_name else api_key in
  let api_key := if decide (api_key = "") then env "OPENAI_API_KEY" else api_key in
  if decide (api_key = "") then env "OLLAMA_API_KEY" else api_key.

Section load.
Context (parse_file : string → exc json) (read_file : string → option string).
Context (getenv : string → option string).

(** [None] is [false]: no file is there, or the first that is there is not JSON. *)
Definition load_json_with_fallback (paths : list string) : exc (option json) :=
  match open_first read_file paths with
  | None => mret None
  | Some text => try_catch (Some <$> parse_file text) (λ _, mret None)
  end.

(** What the entry of the active adapter and the time limit of the model say. *)
Definition load_adapter (active : string) (model_json adapter : json) : exc AdapterConfig :=
  base_url ← value_string adapter "base_url" "http://127.0.0.1:8033/v1";
  model ← value_string adapter "model" "";
  api_key ← value_string adapter "api_key" "";
  env_var_name ← value_string adapter "api_key_env" "";
  let dotenv_map := load_dotenv read_file ".env" in
  let key := find_api_key (λ name, get_env_value getenv name dotenv_map) api_key env_var_name in
  host ← value_string adapter "host" "";
  port ← value_int adapter "port" 8033;
  https ← value_bool adapter "use_https" false;
  base_path ← value_string adapter "base_path" "";
  endpoint ← value_string adapter "chat_completions_path" "/chat/completions";
  tools ← value_bool adapter "enable_tools" true;
  streaming ← value_bool adapter "enable_streaming" true;
  timeout ← value_int model_json "request_timeout_ms" 60000;
  mret {| active_adapter := active; base_url := base_url; api_key := key; ac_host := host;
          ac_base_path := base_path; chat_endpoint := endpoint; ac_model := model;
          ac_port := port; use_https := https; timeout_ms := timeout;
          stop_tokens := match find adapter "stop_tokens" with
                         | Some (JArray l) => json_strings l
                         | _ => []
                         end;
          enable_tools := tools; enable_streaming := streaming; stream_idle_timeout_ms := 0 |}.

Definition load_model_info (active : string) (model_json adapter : json) : exc ModelConfig :=
  name ← value_string model_json "model_name" "unknown";
  name ← value_string adapter "model" name;
  type ← value_string model_json "model_type" "unknown";
  type ← value_string adapter "api_style" type;
  enabled ← value_bool model_json "enabled" true;
  enabled ← value_bool adapter "enabled" enabled;
  requests ← value_int model_json "max_simultaneous_llm_requests" 5;
  length ← value_uint64 model_json "max_context_tokens" 0;
  mret {| model_name := name; model_type := type; mc_active_adapter := active;
          context_length := length; max_simultaneous_llm_requests := requests;
          mc_enabled := enabled |}.

Definition load_threshold : exc double :=
  compacter_json ← load_json_with_fallback ["config/compacter.json"; "../config/compacter.json";
                                            "build/config/compacter.json"];
  match compacter_json with
  | Some j =>
      match find j "auto_compact_threshold" with
      | Some ((JInt _ | JFloat _) as v) => get_double v
      | _ => mret d_0_7
      end
  | None => mret d_0_7
  end.

(** [now] and [ttl_sec] are for the cache of the ports. *)
Definition load_scheduler_config (ttl_sec now : Z) : ST ConfigCache SchedulerConfig :=
  model_json ← lift (load_json_with_fallback ["config/model.json"; "../config/model.json";
                                              "build/config/model.json"]);
  match model_json with
  | None => lift (Throw "Missing config/model.json")
  | Some model_json =>
      active ← lift (value_string model_json "active_adapter" "llama.cpp");
      adapters ← lift (value_json model_json "adapters" (JObject []));
      match find adapters active with
      | Some (JObject adapter) =>
          adapter_cfg ← lift (load_adapter active model_json (JObject adapter));
          let wait := timeout_ms adapter_cfg + 5000 in
          if decide (wait > INT_MAX) then lift UB
          else
            info ← lift (load_model_info active model_json (JObject adapter));
            threads ← lift (value_int model_json "max_client_threads" 64);
            threshold ← lift load_threshold;
            exec_port ← get_port parse_file ttl_sec now read_file "EXECUTIONER" 5172;
            sup_port ← get_port parse_file ttl_sec now read_file "SUPERVISOR" 5173;
            mret {| sc_active_adapter := active; sc_adapter_cfg := adapter_cfg;
                    model_info := info; auto_compact_threshold := threshold;
                    max_llm_keys := if decide (max_simultaneous_llm_requests info ≤ 0) then 1
                                    else max_simultaneous_llm_requests info;
                    max_client_threads := threads; scheduler_wait_timeout_ms := wait;
                    executioner_port := exec_port; supervisor_port := sup_port |}
      | _ => lift (Throw "Invalid active_adapter in config/model.json")
      end
  end.
End load.

(** ** Properties *)

(** Which key is used: the explicit one; without it that of the named variable; then those of
    OpenAI and Ollama - whatever the provider that it will be sent to. *)
Lemma find_api_key_spec env api_key env_var_name :
  let named := if decide (env_var_name = "") then "" else env env_var_name in
  find_api_key env api_key env_var_name =
    default "" (List.find (λ key, bool_decide (key ≠ ""))
      [api_key; named; env "OPENAI_API_KEY"; env "OLLAMA_API_KEY"]).
Proof.
  unfold find_api_key. cbn [List.find].
  repeat (case_decide || case_bool_decide; try naive_solver).
Qed.

Lemma get_uint64_range j z : get_uint64 j = Ok z → 0 ≤ z < 2 ^ 64.
Proof.
  unfold get_uint64, get_integer. intros H. destruct j; try done; simplify_eq.
  - by destruct b.
  - apply u64_range.
  - exc_run H. lia.
Qed.

Lemma value_uint64_range j key d z :
  0 ≤ d < 2 ^ 64 → value_uint64 j key d = Ok z → 0 ≤ z < 2 ^ 64.
Proof.
  unfold value_uint64, value. intros Hd H. destruct j; try done.
  destruct (assoc key kvs); [by eapply get_uint64_range|by simplify_eq].
Qed.

Section bounds.
Context (parse_file : string → exc json) (read_file : string → option string).
Context (getenv : string → option string).

(** A configuration that is loaded has at least one worker, counts and limits within their
    types, an adapter whose entry is in the model's file under the name that is active, and a
    client that waits five seconds longer than the provider is given. *)
Lemma load_scheduler_config_spec ttl_sec now c cfg c' :
  load_scheduler_config parse_file read_file getenv ttl_sec now c = (Ok cfg, c') →
  1 ≤ max_llm_keys cfg ≤ INT_MAX ∧
  (1 ≤ max_simultaneous_llm_requests (model_info cfg) →
   max_llm_keys cfg = max_simultaneous_llm_requests (model_info cfg)) ∧
  0 ≤ context_length (model_info cfg) < 2 ^ 64 ∧
  scheduler_wait_timeout_ms cfg = timeout_ms (sc_adapter_cfg cfg) + 5000 ∧
  scheduler_wait_timeout_ms cfg ≤ INT_MAX ∧
  active_adapter (sc_adapter_cfg cfg) = sc_active_adapter cfg ∧
  ∃ model_json adapters entry,
    load_json_with_fallback parse_file read_file ["config/model.json"; "../config/model.json";
      "build/config/model.json"] = Ok (Some model_json) ∧
    value_json model_json "adapters" (JObject []) = Ok adapters ∧
    find adapters (sc_active_adapter cfg) = Some (JObject entry).
Proof.
  intros (mj & ? & [Hload ->]%st_lift_Ok_inv & H)%st_bind_Ok_inv. destruct mj as [mj|]; [|done].
  apply st_bind_Ok_inv in H as (active & ? & [_ ->]%st_lift_Ok_inv & H).
  apply st_bind_Ok_inv in H as (adapters & ? & [Had ->]%st_lift_Ok_inv & H).
  destruct (find adapters active) as [[]|] eqn:Hentry; try done.
  apply st_bind_Ok_inv in H as (acfg & ? & [Hac ->]%st_lift_Ok_inv & H).
  cbv zeta in H. destruct (decide (timeout_ms acfg + 5000 > INT_MAX)) as [|Hwait]; [done|].
  apply st_bind_Ok_inv in H as (info & ? & [Hinfo ->]%st_lift_Ok_inv & H).
  apply st_bind_Ok_inv in H as (threads & ? & _ & H).
  apply st_bind_Ok_inv in H as (threshold & ? & _ & H).
  apply st_bind_Ok_inv in H as (ep & ? & _ & H). apply st_bind_Ok_inv in H as (sp & ? & _ & H).
  unfold mret, ST_ret in H. injection H as <- <-. simpl.
  assert (- 2 ^ 31 ≤ max_simultaneous_llm_requests info ≤ INT_MAX ∧
          0 ≤ context_length info < 2 ^ 64) as [Hreq Hlen].
  { unfold load_model_info in Hinfo. exc_run Hinfo. simpl.
    split; [|by eapply value_uint64_range]. eapply value_int_range; [done|]. by unfold INT_MAX. }
  assert (active_adapter acfg = active) as Hact by (unfold load_adapter in Hac; by exc_run Hac).
  destruct (decide (max_simultaneous_llm_requests info ≤ 0)); split_and!; try done; try lia.
  all: by exists mj, adapters, kvs.
Qed.
End bounds.
