(* ===== verification/Adapters.v ===== *)
(** * The provider adapters (src/llm/adapters)

    What each adapter sends to its provider and how it reads the answer: OpenAI-compatible
    servers, Anthropic and Ollama, with and without streaming.  A streaming adapter hands
    chunks to a callback, any function on a state of its own; the scheduler's is
    [LlmRequest.on_chunk].  HTTP and JSON text are parameters (see [Sse]). *)

From S2P Require Import Prelude Json StringUtils Provider Sse LlmRequest.
From Stdlib Require Import Ascii.

(** ** Shared pieces *)

(** [for (it : object.items()) target[it.key()] = it.value()] on a target that is an object. *)
Definition put_all (kvs : list (string * json)) (target : list (string * json)) :
    list (string * json) :=
  foldl (λ target '(k, v), assoc_set k v target) target kvs.

Definition members (j : json) : list (string * json) :=
  match j with JObject kvs => kvs | _ => [] end.

Definition is_nonempty_array (j : json) : bool :=
  match j with JArray (_ :: _) => true | _ => false end.

(** [j.contains(key) && j[key].is_string() ? j[key].get<std::string>() : ""] *)
Definition string_or_empty (j : json) (key : string) : string :=
  match find j key with Some (JString s) => s | _ => "" end.

Definition or_default (s default : string) : string := if decide (s = "") then default else s.

Definition strings (l : list string) : json := JArray (JString <$> l).

(** [try { m } catch (const json::parse_error &) { h }]: the exceptions that say they are. *)
Definition catch_parse_error {A} (m : exc A) (h : string → exc A) : exc A :=
  match m with
  | Throw what => if starts_with what "[json.exception.parse_error." then h what else m
  | _ => m
  end.

(** One message for a provider, if it is sent. *)
Definition normalize_provider_message (msg : json) : exc (option json) :=
  if negb (is_object msg) then mret None
  else
    role ← value_string msg "role" "";
    let role := if decide (role = "agent") then "assistant" else role in
    if decide (role ∉ ["system"; "user"; "assistant"; "tool"]) then mret None
    else
      content ← value_string msg "content" "";
      let has_tool_calls :=
        match find msg "tool_calls" with Some j => is_nonempty_array j | None => false end in
      if bool_decide (content = "") && negb has_tool_calls && bool_decide (role ≠ "tool")
      then mret None
      else
        let out := [("role", JString role); ("content", JString content)] in
        let out := match find msg "tool_calls" with
                   | Some j => if has_tool_calls then assoc_set "tool_calls" j out else out
                   | None => out
                   end in
        let out := match find msg "tool_call_id" with
                   | Some (JString id) =>
                       if decide (role = "tool") then assoc_set "tool_call_id" (JString id) out
                       else out
                   | _ => out
                   end in
        mret (Some (JObject out)).

Definition normalize_messages_for_provider (messages : json) : exc json :=
  match messages with
  | JArray l =>
      l ← exc_map normalize_provider_message l;
      let normalized := omap id l in
      if decide (normalized = [])
      then Throw "messages array has no valid provider-compatible items"
      else mret (JArray normalized)
  | _ => Throw "messages must be an array"
  end.
Definition has_tools (cfg : AdapterConfig) (request : ChatRequest) : bool :=
  enable_tools cfg && is_nonempty_array (cr_tools request).

(** [tool_choice], or ["auto"] for a null one. *)
Definition choice_or_auto (request : ChatRequest) : json :=
  if is_null (cr_tool_choice request) then JString "auto" else cr_tool_choice request.

(** The stop sequences of the request, or those of the configuration. *)
Definition put_stop (cfg : AdapterConfig) (request : ChatRequest) (payload : list (string * json)) :
    list (string * json) :=
  if decide (cr_stop request ≠ []) then assoc_set "stop" (strings (cr_stop request)) payload
  else if decide (stop_tokens cfg ≠ []) then assoc_set "stop" (strings (stop_tokens cfg)) payload
  else payload.

Definition put_tools (cfg : AdapterConfig) (request : ChatRequest)
    (payload : list (string * json)) : list (string * json) :=
  if has_tools cfg request
  then assoc_set "tool_choice" (choice_or_auto request)
         (assoc_set "tools" (cr_tools request) payload)
  else payload.

Definition model_of (cfg : AdapterConfig) (request : ChatRequest) : json :=
  JString (or_default (cr_model request) (ac_model cfg)).

(** ** OpenAICompatibleAdapter *)

(** The payload of [call_chat]. *)
Definition openai_payload (cfg : AdapterConfig) (request : ChatRequest) : exc json :=
  normalized ← normalize_messages_for_provider (cr_messages request);
  let payload := [("model", model_of cfg request); ("messages", normalized);
                  ("stream", JBool false)] in
  let payload := put_all (members (cr_sampling_params request)) payload in
  payload ← (if decide (cr_max_tokens request > 0)
             then mret (assoc_set "max_tokens" (JInt (cr_max_tokens request)) payload)
             else match assoc "max_tokens" payload with
                  | Some _ => mret payload
                  | None => n ← value_int (cr_sampling_params request) "max_tokens" 512;
                            mret (assoc_set "max_tokens" (JInt n) payload)
                  end);
  let payload := put_stop cfg request (put_tools cfg request payload) in
  mret (JObject (put_all (members (cr_extra_body request)) payload)).

(** The payload of [call_chat_stream]. *)
Definition openai_stream_payload (cfg : AdapterConfig) (request : ChatRequest) : exc json :=
  normalized ← normalize_messages_for_provider (cr_messages request);
  let payload := [("model", model_of cfg request); ("messages", normalized);
                  ("stream", JBool true)] in
  let payload := put_all (filter (λ '(_, v), is_null v = false)
                            (members (cr_sampling_params request))) payload in
  let payload := if decide (cr_max_tokens request > 0)
                 then assoc_set "max_tokens" (JInt (cr_max_tokens request)) payload
                 else payload in
  mret (JObject (put_stop cfg request (put_tools cfg request payload))).

(** The response of [call_chat], read from its body. *)
Definition openai_response (dump : json → exc string) (response_json : json) :
    exc ChatResponse :=
  match find response_json "error" with
  | Some e => msg ← extract_error_message dump e "LLM provider error"; Throw msg
  | None =>
      match find response_json "choices" with
      | Some (JArray (choice :: _)) =>
          message ← value_json choice "message" (JObject []);
          finish_reason ← value_string choice "finish_reason" "";
          usage ← value_json response_json "usage" (JObject []);
          let calls := match find message "tool_calls" with
                       | Some (JArray l) => Some (JArray l)
                       | _ => None
                       end in
          mret {| rs_content := string_or_empty message "content";
                  rs_tool_calls := default (JArray []) calls;
                  rs_has_tool_calls := bool_decide (is_Some calls);
                  rs_finish_reason := finish_reason; rs_usage := usage;
                  rs_raw := response_json |}
      | _ => Throw "Invalid LLM response format"
      end
  end.

(** *** Streaming *)

Record ToolCallState := { tcs_id : string; tcs_name : string; tcs_arguments : string }.

Definition ToolCallState_init : ToolCallState :=
  {| tcs_id := ""; tcs_name := ""; tcs_arguments := "" |}.

(** [f(map[i])] on a [std::map<int, T>]: the keys are kept in order. *)
Fixpoint map_update {T} (i : Z) (f : option T → T) (m : list (Z * T)) : list (Z * T) :=
  match m with
  | [] => [(i, f None)]
  | (j, x) :: m' =>
      if decide (i = j) then (j, f (Some x)) :: m'
      else if decide (i < j) then (i, f None) :: m
      else (j, x) :: map_update i f m'
  end.

(** The stores of a fragment [tc] of a tool call. *)
Definition update_tool_state (tc : json) (state : ToolCallState) : ToolCallState :=
  let id := match find tc "id" with Some (JString s) => s | _ => tcs_id state end in
  match find tc "function" with
  | Some (JObject fn) =>
      {| tcs_id := id;
         tcs_name := match assoc "name" fn with
                     | Some (JString s) => s | _ => tcs_name state end;
         tcs_arguments := match assoc "arguments" fn with
                          | Some (JString s) => tcs_arguments state +:+ s
                          | _ => tcs_arguments state end |}
  | _ => {| tcs_id := id; tcs_name := tcs_name state; tcs_arguments := tcs_arguments state |}
  end.

(** [tc_obj] *)
Definition tool_call_object (idx : Z) (state : ToolCallState) : json :=
  JObject [("id", JString (tcs_id state)); ("index", JInt idx); ("type", JString "function");
           ("function", JObject [("name", JString (tcs_name state));
                                 ("arguments", JString (tcs_arguments state))])].

(** The white space that an event is trimmed of. *)
Definition sse_space (c : ascii) : bool :=
  bool_decide (c = " "%char ∨ c = "009"%char ∨ c = newline ∨ c = carriage_return).

Fixpoint trim_left (s : string) : string :=
  match s with
  | EmptyString => ""
  | String c s' => if sse_space c then trim_left s' else s
  end.

Fixpoint trim_right (s : string) : string :=
  match s with
  | EmptyString => ""
  | String c s =>
      let s := trim_right s in
      if decide (s = "" ∧ sse_space c = true) then "" else String c s
  end.

Section openai_stream.
Context (parse : string → exc json) (dump : json → exc string).
Context {C : Type} (callback : StreamChunk → C → exc C).

(** The locals of [call_chat_stream], with the state of the callback. *)
Record OpenAIStream := {
  tool_states : list (Z * ToolCallState);
  finished_sent : bool;
  oa_user : C;
}.

Definition OpenAIStream_init (c : C) : OpenAIStream :=
  {| tool_states := []; finished_sent := false; oa_user := c |}.

Fixpoint update_tool_states (l : list json) (states : list (Z * ToolCallState)) :
    exc (list (Z * ToolCallState)) :=
  match l with
  | [] => mret states
  | tc :: l =>
      idx ← value_int tc "index" 0;
      update_tool_states l
        (map_update idx (λ s, update_tool_state tc (default ToolCallState_init s)) states)
  end.

(** The complete tool calls, then the final chunk. *)
Definition send_tool_states (st : OpenAIStream) : exc OpenAIStream :=
  c ← deliver callback ((λ '(idx, s), call_chunk (tool_call_object idx s)) <$> tool_states st)
        (oa_user st);
  c ← callback final_chunk c;
  mret {| tool_states := []; finished_sent := true; oa_user := c |}.

(** One element of [choices]. *)
Definition openai_choice (choice : json) (st : OpenAIStream) : exc OpenAIStream :=
  delta ← value_json choice "delta" (JObject []);
  c ← match find delta "content" with
      | Some (JString s) => callback (text_chunk s) (oa_user st)
      | _ => mret (oa_user st)
      end;
  states ← match find delta "tool_calls" with
           | Some (JArray l) => update_tool_states l (tool_states st)
           | _ => mret (tool_states st)
           end;
  let st := {| tool_states := states; finished_sent := finished_sent st; oa_user := c |} in
  if decide (string_or_empty choice "finish_reason" ≠ "" ∧ finished_sent st = false)
  then send_tool_states st else mret st.

Fixpoint openai_choices (choices : list json) (st : OpenAIStream) : exc OpenAIStream :=
  match choices with
  | [] => mret st
  | choice :: choices => st ← openai_choice choice st; openai_choices choices st
  end.

(** A parsed event. *)
Definition openai_chunk (chunk : json) (st : OpenAIStream) : exc OpenAIStream :=
  match find chunk "error" with
  | Some e => msg ← extract_error_message dump e "Stream Error"; Throw msg
  | None =>
      match find chunk "choices" with
      | Some (JArray choices) => openai_choices choices st
      | _ => mret st
      end
  end.

(** The callback of [stream_sse_events]; what does not parse is skipped. *)
Definition openai_event (event : SseEvent) (st : OpenAIStream) : exc (bool * OpenAIStream) :=
  let trimmed := trim_right (trim_left (ev_data event)) in
  if decide (trimmed = "" ∨ trimmed = "[DONE]") then mret (true, st)
  else
    match parse trimmed with
    | Ok chunk => st ← openai_chunk chunk st; mret (true, st)
    | Throw _ => mret (true, st)
    | UB => UB
    end.

(** [call_chat_stream] over the response [t]. *)
Definition openai_stream (t : transport) (c : C) : exc C :=
  st ← stream_events openai_event t (OpenAIStream_init c);
  st ← (if finished_sent st then mret st else send_tool_states st);
  mret (oa_user st).
End openai_stream.

Section openai_adapter.
Context (parse : string → exc json) (dump : json → exc string) (openssl : bool).
Context (http_post : HttpRequest → option (Z * string)) (http_stream : HttpRequest → transport).

Definition openai_call_chat (cfg : AdapterConfig) (request : ChatRequest) : exc ChatResponse :=
  payload ← openai_payload cfg request;
  body ← post_json dump openssl http_post cfg (chat_endpoint cfg) payload [];
  response_json ← parse body;
  openai_response dump response_json.

Definition openai_call_chat_stream {C} (callback : StreamChunk → C → exc C)
    (cfg : AdapterConfig) (request : ChatRequest) (c : C) : exc C :=
  payload ← openai_stream_payload cfg request;
  t ← open_stream dump openssl http_stream cfg (chat_endpoint cfg) payload [];
  openai_stream parse dump callback t c.
End openai_adapter.

(** ** AnthropicAdapter *)

Definition to_anthropic_tool_schema (openai_tool : json) : exc json :=
  match find openai_tool "function" with
  | Some (JObject fn) =>
      params ← value_json (JObject fn) "parameters" (JObject []);
      params ← (if contains params "type" then mret params
                else set_field "type" (JString "object") params);
      params ← (if contains params "properties" then mret params
                else set_field "properties" (JObject []) params);
      name ← value_string (JObject fn) "name" "";
      description ← value_string (JObject fn) "description" "";
      mret (JObject [("name", JString name); ("description", JString description);
                     ("input_schema", params)])
  | _ => mret (JObject [])
  end.

Definition text_item (text : string) : json :=
  JObject [("type", JString "text"); ("text", JString text)].

Section anthropic.
Context (parse : string → exc json) (dump : json → exc string).

(** The input of a [tool_use] item: the arguments, when they parse. *)
Definition anthropic_tool_use (tool_call : json) : exc (option json) :=
  if negb (is_object tool_call) then mret None
  else
    fn ← value_json tool_call "function" (JObject []);
    parsed_args ← match find fn "arguments" with
                  | Some (JString a) => catch_parse_error (parse a) (λ _, mret (JObject []))
                  | _ => mret (JObject [])
                  end;
    id ← value_string tool_call "id" "";
    name ← value_string fn "name" "";
    mret (Some (JObject [("type", JString "tool_use"); ("id", JString id);
                         ("name", JString name); ("input", parsed_args)])).

Definition to_anthropic_content_from_message (message : json) : exc json :=
  role ← value_string message "role" "";
  content ← value_string message "content" "";
  let tool_calls :=
    match find message "tool_calls" with
    | Some (JArray l) => if decide (role = "assistant") then l else []
    | _ => []
    end in
  if decide (tool_calls ≠ []) then
    items ← exc_map anthropic_tool_use tool_calls;
    mret (JArray ((if decide (content = "") then [] else [text_item content]) ++ omap id items))
  else if decide (role = "tool") then
    id ← value_string message "tool_call_id" "";
    mret (JArray [JObject [("type", JString "tool_result"); ("tool_use_id", JString id);
                           ("content", JString content)]])
  else mret (JArray [text_item content]).

(** The messages that are sent, and the system prompt. *)
Fixpoint append_anthropic_messages (messages : list json) (sent : list json)
    (system_prompt : string) : exc (list json * string) :=
  match messages with
  | [] => mret (sent, system_prompt)
  | msg :: messages =>
      if negb (is_object msg) then append_anthropic_messages messages sent system_prompt
      else
        role ← value_string msg "role" "";
        if decide (role = "system") then
          content ← value_string msg "content" "";
          append_anthropic_messages messages sent
            ((if decide (system_prompt = "") then "" else system_prompt +:+ nl) +:+ content)
        else if decide (role ∉ ["user"; "assistant"; "tool"])
        then append_anthropic_messages messages sent system_prompt
        else
          content ← to_anthropic_content_from_message msg;
          append_anthropic_messages messages
            (sent ++ [JObject [("role", JString (if decide (role = "tool") then "user" else role));
                               ("content", content)]]) system_prompt
  end.

Definition apply_anthropic_tools (cfg : AdapterConfig) (request : ChatRequest)
    (payload : list (string * json)) : exc (list (string * json)) :=
  if negb (has_tools cfg request) then mret payload
  else
    tools ← exc_map to_anthropic_tool_schema (elements_of (cr_tools request));
    let tools := filter (λ j, json_empty j = false) tools in
    if decide (tools = []) then mret payload
    else
      let choice := match cr_tool_choice request with
                    | JNull => JObject [("type", JString "auto")]
                    | JString s => JObject [("type", JString s)]
                    | j => j
                    end in
      mret (assoc_set "tool_choice" choice (assoc_set "tools" (JArray tools) payload)).

Definition build_anthropic_payload (cfg : AdapterConfig) (request : ChatRequest)
    (stream : bool) : exc json :=
  let sp := cr_sampling_params request in
  max_tokens ← (if decide (cr_max_tokens request > 0) then mret (cr_max_tokens request)
                else value_int sp "max_tokens" 512);
  let payload := [("model", model_of cfg request); ("max_tokens", JInt max_tokens);
                  ("stream", JBool stream)] in
  let put_from (source target : string) payload :=
    match find sp source with Some v => assoc_set target v payload | None => payload end in
  let payload := if contains sp "temperature" then put_from "temperature" "temperature" payload
                 else put_from "temp" "temperature" payload in
  let payload := put_from "top_p" "top_p" payload in
  let payload := if decide (cr_stop request = []) then payload
                 else assoc_set "stop_sequences" (strings (cr_stop request)) payload in
  '(sent, system_prompt) ← append_anthropic_messages (elements_of (cr_messages request)) [] "";
  let payload := assoc_set "messages" (JArray sent) payload in
  let payload := if decide (system_prompt = "") then payload
                 else assoc_set "system" (JString system_prompt) payload in
  payload ← apply_anthropic_tools cfg request payload;
  mret (JObject (put_all (members (cr_extra_body request)) payload)).

Definition resolve_anthropic_endpoint (chat_endpoint : string) : string :=
  if decide (chat_endpoint = "" ∨ chat_endpoint = "/chat/completions") then "/v1/messages"
  else chat_endpoint.

Definition build_anthropic_headers (cfg : AdapterConfig) : list (string * string) :=
  if decide (api_key cfg = "") then []
  else [("x-api-key", api_key cfg); ("anthropic-version", "2023-06-01")].

(** The text and the tool calls of a response's items. *)
Fixpoint anthropic_items (items : list json) (text : string) (calls : list json) :
    exc (string * list json) :=
  match items with
  | [] => mret (text, calls)
  | item :: items =>
      type ← value_string item "type" "";
      if decide (type = "text") then
        s ← value_string item "text" "";
        anthropic_items items (text +:+ s) calls
      else if decide (type = "tool_use") then
        id ← value_string item "id" "";
        name ← value_string item "name" "";
        input ← value_json item "input" (JObject []);
        arguments ← dump input;
        anthropic_items items text
          (calls ++ [JObject [("id", JString id); ("type", JString "function");
                              ("function", JObject [("name", JString name);
                                                    ("arguments", JString arguments)])]])
      else anthropic_items items text calls
  end.

Definition anthropic_response (response_json : json) : exc ChatResponse :=
  match find response_json "error" with
  | Some e => msg ← extract_error_message dump e "Anthropic provider error"; Throw msg
  | None =>
      finish_reason ← value_string response_json "stop_reason" "";
      usage ← value_json response_json "usage" (JObject []);
      '(text, calls) ← match find response_json "content" with
                       | Some (JArray items) => anthropic_items items "" []
                       | _ => mret ("", [])
                       end;
      mret {| rs_content := text; rs_tool_calls := JArray calls;
              rs_has_tool_calls := bool_decide (calls ≠ []); rs_finish_reason := finish_reason;
              rs_usage := usage; rs_raw := response_json |}
  end.
End anthropic.

(** *** Streaming *)

(** The error of [value] on a null. *)
Definition null_value_error {A} : exc A := type_error 306 "cannot use value() with null".

(** [acc[index]["function"]["arguments"] = acc[index]["function"].value("arguments", "") +
    partial]: the right-hand side comes first, on a call that may not be there. *)
Definition append_arguments (partial : string) (call : option json) : exc json :=
  match call with
  | None => null_value_error
  | Some call =>
      match find call "function" with
      | None => null_value_error
      | Some fn =>
          arguments ← value_string fn "arguments" "";
          fn ← set_field "arguments" (JString (arguments +:+ partial)) fn;
          set_field "function" fn call
      end
  end.

Section anthropic_stream.
Context (parse : string → exc json) (dump : json → exc string).
Context {C : Type} (callback : StreamChunk → C → exc C).

Record AnthropicStreamState := {
  tool_call_acc : list (Z * json);
  an_finished_sent : bool;
  stream_error : string;
  an_user : C;
}.

Definition AnthropicStreamState_init (c : C) : AnthropicStreamState :=
  {| tool_call_acc := []; an_finished_sent := false; stream_error := ""; an_user := c |}.

Definition set_acc (acc : list (Z * json)) (st : AnthropicStreamState) : AnthropicStreamState :=
  {| tool_call_acc := acc; an_finished_sent := an_finished_sent st;
     stream_error := stream_error st; an_user := an_user st |}.

Definition set_error (error : string) (st : AnthropicStreamState) : AnthropicStreamState :=
  {| tool_call_acc := tool_call_acc st; an_finished_sent := an_finished_sent st;
     stream_error := error; an_user := an_user st |}.

Definition set_user (c : C) (st : AnthropicStreamState) : AnthropicStreamState :=
  {| tool_call_acc := tool_call_acc st; an_finished_sent := an_finished_sent st;
     stream_error := stream_error st; an_user := c |}.

(** The lookup in the sorted association list of a [std::map]. *)
Fixpoint map_lookup {T} (i : Z) (m : list (Z * T)) : option T :=
  match m with
  | [] => None
  | (j, x) :: m => if decide (i = j) then Some x else map_lookup i m
  end.

Definition content_block_start (event_json : json) (st : AnthropicStreamState) :
    exc AnthropicStreamState :=
  block ← value_json event_json "content_block" (JObject []);
  if decide (string_or_empty block "type" = "tool_use") then
    index ← value_int event_json "index" 0;
    let call := JObject [("index", JInt index); ("id", JString (string_or_empty block "id"));
                         ("type", JString "function");
                         ("function", JObject [("name", JString (string_or_empty block "name"));
                                               ("arguments", JString "")])] in
    mret (set_acc (map_update index (λ _, call) (tool_call_acc st)) st)
  else mret st.

Definition content_block_delta (event_json : json) (st : AnthropicStreamState) :
    exc AnthropicStreamState :=
  index ← value_int event_json "index" 0;
  delta ← value_json event_json "delta" (JObject []);
  let delta_type := string_or_empty delta "type" in
  if decide (delta_type = "text_delta") then
    let text := string_or_empty delta "text" in
    if decide (text = "") then mret st
    else c ← callback (text_chunk text) (an_user st); mret (set_user c st)
  else if decide (delta_type = "input_json_delta") then
    call ← append_arguments (string_or_empty delta "partial_json")
             (map_lookup index (tool_call_acc st));
    mret (set_acc (map_update index (λ _, call) (tool_call_acc st)) st)
  else mret st.

Definition message_stop (st : AnthropicStreamState) : exc AnthropicStreamState :=
  c ← deliver callback (call_chunk <$> (tool_call_acc st).*2) (an_user st);
  c ← callback final_chunk c;
  mret {| tool_call_acc := []; an_finished_sent := true; stream_error := stream_error st;
          an_user := c |}.

(** A parsed event; its type is the event's, or else the one it names. *)
Definition anthropic_event_json (event_type : string) (event_json : json)
    (st : AnthropicStreamState) : exc (bool * AnthropicStreamState) :=
  let event_type := or_default event_type (string_or_empty event_json "type") in
  if decide (event_type = "error" ∧ is_Some (find event_json "error")) then
    msg ← extract_error_message dump (default JNull (find event_json "error"))
            "Anthropic stream provider error";
    mret (false, set_error msg st)
  else if decide (event_type = "content_block_start") then
    st ← content_block_start event_json st; mret (true, st)
  else if decide (event_type = "content_block_delta") then
    st ← content_block_delta event_json st; mret (true, st)
  else if decide (event_type = "message_stop" ∧ an_finished_sent st = false) then
    st ← message_stop st; mret (false, st)
  else mret (true, st).

Definition process_anthropic_stream_event (event : SseEvent) (st : AnthropicStreamState) :
    exc (bool * AnthropicStreamState) :=
  if decide (ev_data event = "" ∨ ev_data event = "[DONE]") then mret (true, st)
  else
    match parse (ev_data event) with
    | Ok event_json => anthropic_event_json (ev_event event) event_json st
    | Throw what => if starts_with what "[json.exception.parse_error." then mret (true, st)
                    else Throw what
    | UB => UB
    end.

(** [call_chat_stream] over the response [t]. *)
Definition anthropic_stream (t : transport) (c : C) : exc C :=
  st ← stream_events process_anthropic_stream_event t (AnthropicStreamState_init c);
  if decide (stream_error st ≠ "") then Throw (stream_error st)
  else if an_finished_sent st then mret (an_user st)
  else callback final_chunk (an_user st).
End anthropic_stream.

Section anthropic_adapter.
Context (parse : string → exc json) (dump : json → exc string) (openssl : bool).
Context (http_post : HttpRequest → option (Z * string)) (http_stream : HttpRequest → transport).

Definition anthropic_call_chat (cfg : AdapterConfig) (request : ChatRequest) : exc ChatResponse :=
  payload ← build_anthropic_payload parse cfg request false;
  body ← post_json dump openssl http_post cfg (resolve_anthropic_endpoint (chat_endpoint cfg))
           payload (build_anthropic_headers cfg);
  response_json ← parse body;
  anthropic_response dump response_json.

Definition anthropic_call_chat_stream {C} (callback : StreamChunk → C → exc C)
    (cfg : AdapterConfig) (request : ChatRequest) (c : C) : exc C :=
  payload ← build_anthropic_payload parse cfg request true;
  t ← open_stream dump openssl http_stream cfg (resolve_anthropic_endpoint (chat_endpoint cfg))
        payload (build_anthropic_headers cfg);
  anthropic_stream parse dump callback t c.
End anthropic_adapter.

(** ** OllamaAdapter *)

Definition is_number (j : json) : bool :=
  match j with JInt _ | JFloat _ => true | _ => false end.

Definition build_ollama_options (request : ChatRequest) : list (string * json) :=
  let sp := cr_sampling_params request in
  let number (key : string) (default : json) :=
    match find sp key with Some j => if is_number j then j else default | None => default end in
  [("temperature", number "temperature" (JFloat d_0_7)); ("top_p", number "top_p" (JFloat d_0_9));
   ("top_k", number "top_k" (JInt 40));
   ("num_predict", if decide (cr_max_tokens request > 0) then JInt (cr_max_tokens request)
                   else number "max_tokens" (JInt 512))].

Definition resolve_ollama_endpoint (chat_endpoint : string) : string :=
  if decide (chat_endpoint = "" ∨ chat_endpoint = "/chat/completions") then "/api/chat"
  else chat_endpoint.

Definition build_ollama_payload (cfg : AdapterConfig) (request : ChatRequest) (stream : bool) :
    exc json :=
  normalized ← normalize_messages_for_provider (cr_messages request);
  let payload := [("model", model_of cfg request); ("messages", normalized);
                  ("stream", JBool stream);
                  ("options", JObject (put_stop cfg request (build_ollama_options request)))] in
  mret (JObject (put_all (members (cr_extra_body request)) (put_tools cfg request payload))).

Section ollama.
Context (parse : string → exc json) (dump : json → exc string).
(** The reading of the steady clock, in the call with the given number. *)
Context (clock : nat → Z).

Definition normalize_ollama_tool_call (k : nat) (ollama_tc : json) (index : Z) : exc json :=
  match find ollama_tc "function" with
  | None => mret ollama_tc
  | Some fn =>
      arguments ← dump (match find fn "arguments" with
                        | Some (JObject a) => JObject a
                        | _ => JObject []
                        end);
      mret (JObject [("id", JString ("call_" +:+ pretty index +:+ "_" +:+ pretty (clock k)));
                     ("type", JString "function");
                     ("function", JObject [("name", JString (string_or_empty fn "name"));
                                           ("arguments", JString arguments)]);
                     ("index", JInt index)])
  end.

Fixpoint ollama_tool_calls (l : list json) (idx : nat) : exc (list json) :=
  match l with
  | [] => mret []
  | tc :: l =>
      call ← normalize_ollama_tool_call idx tc (Z.of_nat idx);
      calls ← ollama_tool_calls l (S idx);
      mret (call :: calls)
  end.

Definition ollama_response (response_json : json) : exc ChatResponse :=
  match find response_json "error" with
  | Some e => msg ← extract_error_message dump e "Ollama provider error"; Throw msg
  | None =>
      match find response_json "message" with
      | Some (JObject kvs) =>
          let message := JObject kvs in
          calls ← match find message "tool_calls" with
                  | Some (JArray l) => calls ← ollama_tool_calls l 0; mret (Some (JArray calls))
                  | _ => mret None
                  end;
          prompt ← value_int response_json "prompt_eval_count" 0;
          completion ← value_int response_json "eval_count" 0;
          mret {| rs_content := string_or_empty message "content";
                  rs_tool_calls := default (JArray []) calls;
                  rs_has_tool_calls := bool_decide (is_Some calls);
                  rs_finish_reason := string_or_empty response_json "done_reason";
                  rs_usage := JObject [("prompt_tokens", JInt prompt);
                                       ("completion_tokens", JInt completion)];
                  rs_raw := response_json |}
      | _ => Throw "Invalid Ollama response format: missing message"
      end
  end.

(** *** Streaming: a JSON object per line *)

Context {C : Type} (callback : StreamChunk → C → exc C).

Record OllamaStreamState := {
  ol_finished_sent : bool;
  ol_stream_error : string;
  ol_calls : nat;               (* how often the clock was read *)
  ol_user : C;
}.

Definition OllamaStreamState_init (c : C) : OllamaStreamState :=
  {| ol_finished_sent := false; ol_stream_error := ""; ol_calls := 0; ol_user := c |}.

Definition ol_error (error : string) (st : OllamaStreamState) : OllamaStreamState :=
  {| ol_finished_sent := ol_finished_sent st; ol_stream_error := error;
     ol_calls := ol_calls st; ol_user := ol_user st |}.

(** [report_ollama_callback_error]: an exception of the callback is kept as an error. *)
Definition report_chunk (chunk : StreamChunk) (st : OllamaStreamState) : exc OllamaStreamState :=
  match callback chunk (ol_user st) with
  | Ok c => mret {| ol_finished_sent := ol_finished_sent st;
                    ol_stream_error := ol_stream_error st; ol_calls := ol_calls st;
                    ol_user := c |}
  | Throw what => mret (ol_error ("Ollama stream callback error: " +:+ what) st)
  | UB => UB
  end.

(** The tool calls of a line, numbered from 0, until an error. *)
Fixpoint report_calls (l : list json) (idx : Z) (st : OllamaStreamState) :
    exc OllamaStreamState :=
  match l with
  | [] => mret st
  | tc :: l =>
      if negb (is_object tc) then report_calls l idx st
      else
        call ← normalize_ollama_tool_call (ol_calls st) tc idx;
        st ← report_chunk (call_chunk call)
               {| ol_finished_sent := ol_finished_sent st;
                  ol_stream_error := ol_stream_error st; ol_calls := S (ol_calls st);
                  ol_user := ol_user st |};
        if decide (ol_stream_error st ≠ "") then mret st else report_calls l (idx + 1) st
  end.

Definition process_ollama_json (chunk_json : json) (st : OllamaStreamState) :
    exc OllamaStreamState :=
  match find chunk_json "error" with
  | Some e =>
      msg ← extract_error_message dump e "Ollama stream provider error"; mret (ol_error msg st)
  | None =>
      message ← value_json chunk_json "message" (JObject []);
      st ← (if decide (string_or_empty message "content" = "") then mret st
            else report_chunk (text_chunk (string_or_empty message "content")) st);
      if decide (ol_stream_error st ≠ "") then mret st
      else
        st ← match find message "tool_calls" with
             | Some (JArray l) => report_calls l 0 st
             | _ => mret st
             end;
        if decide (ol_stream_error st ≠ "") then mret st
        else
          done ← value_bool chunk_json "done" false;
          if done && negb (ol_finished_sent st) then
            st ← report_chunk final_chunk st;
            mret (if decide (ol_stream_error st = "")
                  then {| ol_finished_sent := true; ol_stream_error := "";
                          ol_calls := ol_calls st; ol_user := ol_user st |}
                  else st)
          else mret st
  end.

Definition process_ollama_stream_line (line : string) (st : OllamaStreamState) :
    exc OllamaStreamState :=
  if decide (ol_stream_error st ≠ "" ∨ ol_finished_sent st = true) then mret st
  else
    let line := pop_cr line in
    if decide (line = "") then mret st
    else
      match parse line with
      | Ok chunk_json => process_ollama_json chunk_json st
      | Throw what => if starts_with what "[json.exception.parse_error." then mret st
                      else Throw what
      | UB => UB
      end.

(** The loop over the complete lines of the buffer; an iteration consumes a line. *)
Fixpoint ollama_lines (fuel : nat) (buffer : string) (st : OllamaStreamState) :
    exc (string * OllamaStreamState) :=
  match fuel with
  | O => mret (buffer, st)
  | S fuel =>
      match find_char newline buffer with
      | Some (line, rest) => st ← process_ollama_stream_line line st; ollama_lines fuel rest st
      | None => mret (buffer, st)
      end
  end.

(** The receiver never cancels. *)
Definition ollama_piece (piece : string) (st : string * OllamaStreamState) :
    exc (bool * (string * OllamaStreamState)) :=
  let buffer := st.1 +:+ piece in
  st ← ollama_lines (String.length buffer) buffer st.2;
  mret (true, st).

(** [call_chat_stream] over the response [t]. *)
Definition ollama_stream (t : transport) (c : C) : exc C :=
  '(buffer, st) ← receive_response ollama_piece t ("", OllamaStreamState_init c);
  st ← (if decide (buffer = "") then mret st else process_ollama_stream_line buffer st);
  if decide (ol_stream_error st ≠ "") then Throw (ol_stream_error st)
  else if ol_finished_sent st then mret (ol_user st)
  else callback final_chunk (ol_user st).
End ollama.

Section ollama_adapter.
Context (parse : string → exc json) (dump : json → exc string) (clock : nat → Z).
Context (openssl : bool).
Context (http_post : HttpRequest → option (Z * string)) (http_stream : HttpRequest → transport).

Definition ollama_call_chat (cfg : AdapterConfig) (request : ChatRequest) : exc ChatResponse :=
  payload ← build_ollama_payload cfg request false;
  body ← post_json dump openssl http_post cfg (resolve_ollama_endpoint (chat_endpoint cfg))
           payload [];
  response_json ← parse body;
  ollama_response dump clock response_json.

Definition ollama_call_chat_stream {C} (callback : StreamChunk → C → exc C)
    (cfg : AdapterConfig) (request : ChatRequest) (c : C) : exc C :=
  payload ← build_ollama_payload cfg request true;
  t ← open_stream dump openssl http_stream cfg (resolve_ollama_endpoint (chat_endpoint cfg))
        payload [];
  ollama_stream parse dump clock callback t c.
End ollama_adapter.

(** ** make_adapter *)

Inductive Adapter := OpenAICompatible | LlamaCpp | Ollama | Anthropic.

Definition make_adapter (name : string) : Adapter :=
  let key := to_lower name in
  if decide (key ∈ ["llama.cpp"; "llama_cpp"; "llama"; "openai"; "openai-compatible";
                    "openai_chat"; "openai-chat-completions"]) then LlamaCpp
  else if decide (key ∈ ["ollama"; "ollama-chat"; "ollama_chat"]) then Ollama
  else if decide (key ∈ ["anthropic"; "claude"; "anthropic-messages"]) then Anthropic
  else OpenAICompatible.

(** ** The messages for a provider *)

Definition provider_roles : list string := ["system"; "user"; "assistant"; "tool"].

(** The shape of a message that is sent. *)
Lemma normalize_provider_message_inv msg m :
  normalize_provider_message msg = Ok (Some m) →
  ∃ role content calls id, role ∈ provider_roles ∧
    (content ≠ "" ∨ role = "tool" ∨ is_Some calls) ∧
    (∀ j, calls = Some j → is_nonempty_array j = true) ∧ (is_Some id → role = "tool") ∧
    m = JObject ([("role", JString role); ("content", JString content)] ++
                 option_list (pair "tool_calls" <$> calls) ++
                 option_list (pair "tool_call_id" ∘ JString <$> id)) ∧
    value_string msg "content" "" = Ok content ∧
    (value_string msg "role" "" = Ok role ∨
     value_string msg "role" "" = Ok "agent" ∧ role = "assistant").
Proof.
  intros H. unfold normalize_provider_message in H. case_match; [done|].
  apply exc_bind_Ok_inv in H as (role0 & Hrole & H).
  set (role := if decide (role0 = "agent") then _ else _) in H.
  destruct (decide (role ∉ _)) as [|Hin] in H; [done|]. apply dec_stable in Hin.
  apply exc_bind_Ok_inv in H as (content & Hcontent & H).
  set (has := match find msg "tool_calls" with Some j => _ | None => _ end) in H.
  destruct (_ && _) eqn:Hskip in H; [done|]. injection H as <-.
  exists role, content, (if has then find msg "tool_calls" else None),
    (if decide (role = "tool")
     then match find msg "tool_call_id" with Some (JString s) => Some s | _ => None end
     else None).
  assert (value_string msg "role" "" = Ok role ∨
    value_string msg "role" "" = Ok "agent" ∧ role = "assistant") as Hr.
  { unfold role. rewrite Hrole. destruct (decide (role0 = "agent")) as [->|]; [by right|by left]. }
  clearbody role. split_and!; try done.
  - destruct (decide (content = "")); [|by left].
    destruct (decide (role = "tool")); [by auto|]. right. right.
    rewrite !bool_decide_true in Hskip by done. rewrite andb_true_r in Hskip. simpl in Hskip.
    unfold has in *. destruct (find msg "tool_calls"); [|done].
    by destruct (is_nonempty_array _).
  - unfold has. intros j Hj. destruct (find msg "tool_calls"); [|done].
    destruct (is_nonempty_array _) eqn:E; by simplify_eq.
  - by destruct (decide (role = "tool")); [|intros [? ?]].
  - f_equal. unfold has. destruct (find msg "tool_calls") as [j|] eqn:Hf.
    + destruct (is_nonempty_array j); simpl;
        by destruct (find msg "tool_call_id") as [[]|]; destruct (decide (role = "tool")).
    + simpl. by destruct (find msg "tool_call_id") as [[]|]; destruct (decide (role = "tool")).
Qed.

Lemma normalize_provider_message_idem msg m :
  normalize_provider_message msg = Ok (Some m) → normalize_provider_message m = Ok (Some m).
Proof.
  intros (role & content & calls & id & Hrole & Hne & Hcalls & Hid & -> & _)
    %normalize_provider_message_inv.
  assert (role ≠ "agent") as Hagent by (intros ->; unfold provider_roles in Hrole; set_solver).
  unfold normalize_provider_message. simpl.
  rewrite (decide_False (P := role = "agent")) by done.
  rewrite (decide_False (P := role ∉ _)) by (intros Hn; by apply Hn). simpl.
  destruct calls as [j|]; simpl.
  - rewrite (Hcalls j) by done. simpl. rewrite andb_false_r. simpl.
    destruct id as [s|]; simpl; [|done]. by rewrite decide_True by (apply Hid; eauto).
  - assert (bool_decide (content = "") && bool_decide (role ≠ "tool") = false) as Hb.
    { apply andb_false_iff. destruct Hne as [?|[->|[? ?]]]; [left|right|done];
        apply bool_decide_false; naive_solver. }
    destruct id as [s|]; simpl; rewrite andb_true_r, Hb; [|done].
    by rewrite decide_True by (apply Hid; eauto).
Qed.

(** What a provider is sent are messages it accepts: at least one, each with one of the
    four roles and a text, empty only for a tool's answer or next to tool calls; and such
    messages are sent as they are, so that normalising twice changes nothing. *)
Lemma normalize_messages_spec messages out :
  normalize_messages_for_provider messages = Ok out →
  normalize_messages_for_provider out = Ok out ∧
  ∃ l, out = JArray l ∧ l ≠ [] ∧
    Forall (λ m, ∃ role content, find m "role" = Some (JString role) ∧
      role ∈ provider_roles ∧ find m "content" = Some (JString content) ∧
      (content = "" → role = "tool" ∨
       ∃ calls, find m "tool_calls" = Some calls ∧ is_nonempty_array calls = true)) l.
Proof.
  intros H. destruct messages as [| | | | |l0|]; try done. simpl in H.
  apply exc_bind_Ok_inv in H as (opts & Hopts & H).
  destruct (decide (omap id opts = [])) as [|Hne]; [done|]. injection H as <-.
  assert (Forall (λ m, ∃ msg, normalize_provider_message msg = Ok (Some m)) (omap id opts))
    as Hall.
  { apply Forall_forall. intros m Hm. apply list_elem_of_omap in Hm as ([m'|] & Ho & Hm); [|done].
    simpl in Hm. simplify_eq. apply exc_map_Forall2 in Hopts.
    apply list_elem_of_lookup in Ho as [i Hi].
    destruct (Forall2_lookup_r _ _ _ _ _ Hopts Hi) as (msg & _ & ?). by exists msg. }
  split.
  - simpl. assert (exc_map normalize_provider_message (omap id opts) =
      Ok (Some <$> omap id opts)) as ->.
    { clear Hne Hopts. induction Hall as [|m l [msg Hm] _ IH]; [done|]. simpl.
      rewrite (normalize_provider_message_idem msg m Hm). simpl. by rewrite IH. }
    simpl. assert (∀ l : list json, omap id (Some <$> l) = l) as ->
      by (induction l as [|x l IH]; [done|]; cbn; f_equal; apply IH).
    by rewrite decide_False.
  - exists (omap id opts). split_and!; [done..|].
    eapply Forall_impl; [exact Hall|]. intros m [msg Hm].
    apply normalize_provider_message_inv in Hm
      as (role & content & calls & id & Hrole & Hc & Hcalls & Hid & -> & _).
    exists role, content. split_and!; try done. intros ->.
    destruct Hc as [?|[?|[j ->]]]; [done|by left|]. right. exists j. split; [|by apply Hcalls].
    by destruct id.
Qed.
