(* ===== verification/Streams.v ===== *)
(** * Streamed answers, from the wire to the scheduler

    What the scheduler makes of the streams that the adapters of [Adapters] read: streams
    that stop, the reassembly of fragmented tool calls, and calls that are merged.  The
    callback is [LlmRequest.on_chunk] where the statement is about the scheduler, and any
    function elsewhere. *)

From stdpp Require Import sorting.
From S2P Require Import Prelude Json StringUtils Provider Sse LlmRequest Adapters.
From Stdlib Require Import Ascii.

(** ** Streams that stop *)

(** An event with one line of data. *)
Definition data_event (ty data : string) : string * (string * list string) := (ty, (data, [])).

Lemma decoded_data_event ty data :
  decoded (data_event ty data) = {| ev_event := ty; ev_data := data |}.
Proof. done. Qed.

(** The Anthropic adapter cannot stream a complete answer: its handler answers
    [message_stop] with [false], which cancels the request, so that every stream that
    carries this event, whatever comes before and after it, ends in a network error - after
    the callback was given the answer and its final chunk.  An [error] event of the provider
    is lost in the same way. *)
Lemma anthropic_stream_fails {C} parse dump (callback : StreamChunk → C → exc C)
    events ty data event_json rest t c :
  Forall event_ok events → line_ok ty → line_ok data → data ≠ "" → data ≠ "[DONE]" →
  parse data = Ok event_json →
  (let ty := or_default ty (string_or_empty event_json "type") in
   ty = "message_stop" ∨ ty = "error" ∧ is_Some (find event_json "error")) →
  concat_strings (tr_pieces t) =
    concat_strings (encode <$> events) +:+ encode (data_event ty data) +:+ rest →
  anthropic_stream parse dump callback t c = UB ∨
  anthropic_stream parse dump callback t c = Throw stream_network_error.
Proof.
  intros Hall Hty Hd Hne Hdone Hparse Hkind Hbody. unfold anthropic_stream.
  edestruct (stream_stops (process_anthropic_stream_event parse dump callback)
    (λ st, an_finished_sent st = false) events (data_event ty data) rest t
    (AnthropicStreamState_init c)) as [-> | ->]; [| |done|done| |done|by left|by right].
  - intros e a a' Ha H. unfold process_anthropic_stream_event in H.
    case_decide; [by injection H as <-|].
    destruct (parse (ev_data e)) as [j|what|]; [|case_match; [by injection H as <-|done]|done].
    unfold anthropic_event_json in H. case_decide.
    { by apply exc_bind_Ok_inv in H as (m & _ & H). }
    case_decide.
    { apply exc_bind_Ok_inv in H as (st & Hst & [= <-]). unfold content_block_start in Hst.
      apply exc_bind_Ok_inv in Hst as (b & _ & Hst). case_decide; [|by injection Hst as <-].
      by apply exc_bind_Ok_inv in Hst as (i & _ & [= <-]). }
    case_decide.
    { apply exc_bind_Ok_inv in H as (st & Hst & [= <-]). unfold content_block_delta in Hst.
      apply exc_bind_Ok_inv in Hst as (i & _ & Hst).
      apply exc_bind_Ok_inv in Hst as (d & _ & Hst).
      repeat case_decide; try by injection Hst as <-.
      all: by apply exc_bind_Ok_inv in Hst as (x & _ & [= <-]). }
    case_decide; [|by injection H as <-].
    by apply exc_bind_Ok_inv in H as (st & _ & H).
  - intros a a' Ha. rewrite decoded_data_event. unfold process_anthropic_stream_event. simpl.
    rewrite decide_False by naive_solver. rewrite Hparse. unfold anthropic_event_json.
    simpl in Hkind. destruct Hkind as [Hk|[Hk He]]; rewrite !Hk.
    + rewrite decide_False by naive_solver. simpl. rewrite decide_True by done.
      intros H. by apply exc_bind_Ok_inv in H as (st & _ & H).
    + rewrite decide_True by done.
      intros H. by apply exc_bind_Ok_inv in H as (st & _ & H).
  - split_and!; [done|by constructor|done].
Qed.

(** An error that an OpenAI-compatible provider reports inside a stream never reaches the
    caller: the exception of the callback cancels the request, and what is thrown is the
    error for a failed network, whatever the provider said. *)
Lemma openai_stream_error_masked {C} parse dump (callback : StreamChunk → C → exc C)
    events ty data chunk rest t c :
  Forall event_ok events → line_ok ty → line_ok data →
  let trimmed := trim_right (trim_left data) in
  trimmed ≠ "" → trimmed ≠ "[DONE]" → parse trimmed = Ok chunk → contains chunk "error" = true →
  concat_strings (tr_pieces t) =
    concat_strings (encode <$> events) +:+ encode (data_event ty data) +:+ rest →
  openai_stream parse dump callback t c = UB ∨
  openai_stream parse dump callback t c = Throw stream_network_error.
Proof.
  intros Hall Hty Hd trimmed Hne Hdone Hparse Herr Hbody. unfold openai_stream.
  edestruct (stream_stops (openai_event parse dump callback) (λ _, True) events
    (data_event ty data) rest t (OpenAIStream_init c)) as [-> | ->];
    [done| |done|done| |done|by left|by right].
  - intros a a' _. rewrite decoded_data_event. unfold openai_event. simpl. fold trimmed.
    rewrite decide_False by naive_solver. rewrite Hparse. unfold openai_chunk.
    unfold contains in Herr. destruct (find chunk "error") as [e|]; [|done].
    intros H. apply exc_bind_Ok_inv in H as (st & H & _).
    by apply exc_bind_Ok_inv in H as (m & _ & H).
  - split_and!; [done|by constructor|]. intros Hnil. simpl in Hnil. subst data. by apply Hne.
Qed.

(** ** Tool calls in fragments *)

(** The keys of a [std::map] are in order. *)
Definition map_sorted {T} (m : list (Z * T)) : Prop := StronglySorted Z.lt (m.*1).

Lemma map_update_keys {T} i (f : option T → T) m j :
  j ∈ (map_update i f m).*1 ↔ j = i ∨ j ∈ m.*1.
Proof.
  induction m as [|[k x] m IH]; simpl; [set_solver|].
  repeat case_decide; simpl; set_solver.
Qed.

Lemma map_update_sorted {T} i (f : option T → T) m :
  map_sorted m → map_sorted (map_update i f m).
Proof.
  unfold map_sorted. induction m as [|[k x] m IH]; intros Hs; simpl in *.
  { by constructor. }
  apply StronglySorted_inv in Hs as [Hs Hk]. case_decide; [by constructor|].
  case_decide; simpl.
  - constructor; [by constructor|]. constructor; [done|].
    eapply Forall_impl; [exact Hk|]. simpl. lia.
  - constructor; [by apply IH|]. rewrite Forall_forall in *.
    intros j [->|Hj]%map_update_keys; [lia|by apply Hk].
Qed.

Lemma map_lookup_None {T} i (m : list (Z * T)) :
  Forall (Z.lt i) (m.*1) → map_lookup i m = None.
Proof.
  induction m as [|[k x] m IH]; [done|]. simpl. intros [Hk Hm]%Forall_cons.
  rewrite decide_False by lia. by apply IH.
Qed.

Lemma map_lookup_update {T} i j (f : option T → T) m :
  map_sorted m →
  map_lookup j (map_update i f m) =
    if decide (i = j) then Some (f (map_lookup i m)) else map_lookup j m.
Proof.
  unfold map_sorted. induction m as [|[k x] m IH]; intros Hs; simpl in *.
  { repeat case_decide; try done; congruence. }
  apply StronglySorted_inv in Hs as [Hs Hk].
  destruct (decide (i = k)) as [->|Hik]; simpl.
  { repeat case_decide; try done; congruence. }
  destruct (decide (i < k)); simpl.
  - assert (map_lookup i m = None) as ->.
    { apply map_lookup_None. eapply Forall_impl; [exact Hk|]. simpl. lia. }
    repeat case_decide; subst; try done; congruence.
  - rewrite IH by done. repeat case_decide; subst; try done; congruence.
Qed.

(** A map is its list of keys with what is found under each. *)
Lemma map_lookups {T} (m : list (Z * T)) :
  map_sorted m → m = omap (λ i, pair i <$> map_lookup i m) (m.*1).
Proof.
  unfold map_sorted. induction m as [|[k x] m IH]; intros Hs; [done|]. simpl in *.
  apply StronglySorted_inv in Hs as [Hs Hk]. rewrite decide_True by done. simpl. f_equal.
  rewrite (IH Hs) at 1. apply list_omap_ext, Forall_Forall2_diag.
  eapply Forall_impl; [exact Hk|]. intros j Hj. by rewrite decide_False by lia.
Qed.

(** A fragment of a call, as a provider sends it. *)
Record Fragment := {
  fr_index : Z;
  fr_id : option string;
  fr_name : option string;
  fr_arguments : string;
}.

Definition optional (key : string) (v : option string) : list (string * json) :=
  match v with Some s => [(key, JString s)] | None => [] end.

Definition fragment_json (fr : Fragment) : json :=
  JObject (("index", JInt (fr_index fr)) :: optional "id" (fr_id fr) ++
           [("function", JObject (optional "name" (fr_name fr) ++
                                  [("arguments", JString (fr_arguments fr))]))]).

(** A chunk with a text and fragments of calls, and one that ends the answer. *)
Definition delta_json (text : string) (frs : list Fragment) : json :=
  JObject [("choices", JArray [JObject [("delta", JObject [
    ("content", JString text); ("tool_calls", JArray (fragment_json <$> frs))])]])].

Definition finish_json (reason : string) : json :=
  JObject [("choices", JArray [JObject [("delta", JObject []);
                                        ("finish_reason", JString reason)]])].

(** What the fragments with an index say of their call: the last id, the last name, and the
    arguments joined. *)
Definition assembled (i : Z) (frs : list Fragment) : ToolCallState :=
  let mine := filter (λ fr, fr_index fr = i) frs in
  {| tcs_id := default "" (last (omap fr_id mine));
     tcs_name := default "" (last (omap fr_name mine));
     tcs_arguments := concat_strings (fr_arguments <$> mine) |}.

(** The states after fragments. *)
Definition states_of (frs : list Fragment) (m : list (Z * ToolCallState)) : Prop :=
  map_sorted m ∧ ∀ i, map_lookup i m =
    if decide (i ∈ fr_index <$> frs) then Some (assembled i frs) else None.

Lemma assembled_snoc i frs fr :
  assembled i (frs ++ [fr]) =
    if decide (fr_index fr = i) then update_tool_state (fragment_json fr) (assembled i frs)
    else assembled i frs.
Proof.
  unfold assembled, update_tool_state. rewrite filter_app, filter_cons, filter_nil.
  destruct (decide (fr_index fr = i)); [|by rewrite app_nil_r].
  rewrite !omap_app, !fmap_app, concat_strings_app. simpl.
  destruct (fr_id fr), (fr_name fr); simpl;
    rewrite ?last_snoc, ?app_nil_r, ?str_app_nil_r; done.
Qed.

Lemma states_of_snoc frs fr m :
  states_of frs m →
  states_of (frs ++ [fr]) (map_update (fr_index fr)
    (λ s, update_tool_state (fragment_json fr) (default ToolCallState_init s)) m).
Proof.
  intros [Hs Hm]. split; [by apply map_update_sorted|]. intros i.
  rewrite map_lookup_update, !Hm, assembled_snoc, fmap_app by done. simpl.
  destruct (decide (fr_index fr = i)) as [<-|Hne].
  - rewrite (decide_True (P := fr_index fr ∈ _ ++ _)) by set_solver. f_equal. f_equal.
    case_decide as Hin; [done|]. simpl. unfold assembled.
    assert (filter (λ f, fr_index f = fr_index fr) frs = []) as ->; [|done].
    destruct (filter _ frs) as [|f l] eqn:E; [done|]. exfalso. apply Hin.
    assert (f ∈ filter (λ f, fr_index f = fr_index fr) frs) as Hf by (rewrite E; left).
    apply list_elem_of_filter in Hf as [<- Hf]. by apply list_elem_of_fmap_2.
  - destruct (decide (i ∈ fr_index <$> frs)).
    + by rewrite decide_True by set_solver.
    + by rewrite decide_False by set_solver.
Qed.

Lemma update_tool_states_spec l frs m :
  Forall (λ fr, 0 ≤ fr_index fr ≤ INT_MAX) l → states_of frs m →
  ∃ m', update_tool_states (fragment_json <$> l) m = Ok m' ∧ states_of (frs ++ l) m'.
Proof.
  intros Hl. revert frs m. induction Hl as [|fr l Hfr _ IH]; intros frs m Hm.
  { exists m. by rewrite app_nil_r. }
  destruct (IH _ _ (states_of_snoc _ fr _ Hm)) as (m' & Hm' & Hst).
  rewrite <-app_assoc in Hst. exists m'. split; [|done]. simpl.
  unfold value_int, value. simpl. rewrite i32_id by lia. exact Hm'.
Qed.

(** *** What the scheduler makes of complete calls *)

(** The call that the scheduler returns. *)
Definition finished_call (state : ToolCallState) : json :=
  JObject [("id", JString (tcs_id state)); ("type", JString "function");
           ("function", JObject [("name", JString (tcs_name state));
                                 ("arguments", JString (tcs_arguments state))])].

(** Nothing was stored at [slot] nor behind it. *)
Definition free_from (slot : nat) (calls : list json) : Prop :=
  ∀ j call, (slot ≤ j)%nat → calls !! j = Some call → call = JObject [].

Lemma free_omap l : (∀ call, call ∈ l → call = JObject []) → omap finish_call l = [].
Proof.
  induction l as [|c l IH]; intros H; [done|]. simpl.
  rewrite (H c) by left. apply IH. intros. apply H. by right.
Qed.

Lemma free_grow slot calls :
  free_from slot calls →
  free_from slot (grow slot calls) ∧
  omap finish_call (take slot (grow slot calls)) = omap finish_call calls ∧
  grow slot calls !! slot = Some (JObject []).
Proof.
  intros Hf. unfold grow. set (n := (S slot - length calls)%nat).
  assert (free_from slot (calls ++ replicate n (JObject []))) as Hg.
  { intros j call Hj [Hc|[_ Hc]]%lookup_app_Some; [by eapply Hf|].
    by apply lookup_replicate in Hc as [-> _]. }
  split; [done|]. split.
  - assert (omap finish_call (calls ++ replicate n (JObject [])) = omap finish_call calls) as Ho.
    { rewrite omap_app, (free_omap (replicate _ _)), app_nil_r; [done|].
      intros c Hc. by apply elem_of_replicate in Hc as [-> _]. }
    rewrite <-Ho. rewrite <-(take_drop slot (calls ++ _)) at 2. rewrite omap_app.
    rewrite (free_omap (drop _ _)), app_nil_r; [done|].
    intros c [j Hc]%list_elem_of_lookup. rewrite lookup_drop in Hc. eapply Hg; [|exact Hc]. lia.
  - destruct (lookup_lt_is_Some_2 (calls ++ replicate n (JObject [])) slot) as [c Hc].
    { rewrite length_app, length_replicate. unfold n. lia. }
    rewrite Hc. f_equal. by eapply (Hg slot).
Qed.

(** A complete call for a slot that is free. *)
Lemma on_chunk_call i state st :
  0 ≤ i ≤ INT_MAX → free_from (Z.to_nat i) (partial_tool_calls st) →
  ∃ st', on_chunk (call_chunk (tool_call_object i state)) st = Ok st' ∧
    agg_content st' = agg_content st ∧ tokens st' = tokens st ∧
    omap finish_call (partial_tool_calls st') =
      omap finish_call (partial_tool_calls st) ++ [finished_call state] ∧
    free_from (S (Z.to_nat i)) (partial_tool_calls st').
Proof.
  intros Hi Hf. destruct (free_grow _ _ Hf) as (Hg & Ho & Hslot).
  unfold on_chunk, find_slot_for_delta. simpl.
  rewrite i32_id, (decide_True (P := 0 ≤ i)) by lia. simpl.
  set (g := grow (Z.to_nat i) (partial_tool_calls st)) in *.
  pose proof (lookup_lt_Some _ _ _ Hslot) as Hlt.
  match goal with |- context [alter ?f (Z.to_nat i) g] =>
    assert (alter f (Z.to_nat i) g = take (Z.to_nat i) g ++
      tool_call_object i state :: drop (S (Z.to_nat i)) g) as ->
  end.
  { rewrite <-(take_drop_middle g (Z.to_nat i) (JObject [])) at 1 by done.
    rewrite alter_app_r_alt by (rewrite length_take; lia).
    by rewrite length_take, Nat.min_l, Nat.sub_diag by lia. }
  assert (free_from 0 (drop (S (Z.to_nat i)) g)) as Hd.
  { intros j c _ Hc. rewrite lookup_drop in Hc. eapply Hg; [|exact Hc]. lia. }
  eexists. split; [done|]. simpl. rewrite str_app_nil_r, app_nil_r. split_and!; [done..| |].
  - rewrite omap_app, Ho. f_equal. simpl. f_equal.
    apply free_omap. intros c [j Hc]%list_elem_of_lookup. by apply (Hd j); [lia|].
  - intros j c Hj Hc. rewrite lookup_app_r in Hc by (rewrite length_take; lia).
    rewrite length_take, Nat.min_l in Hc by lia.
    replace (j - Z.to_nat i)%nat with (S (j - S (Z.to_nat i)))%nat in Hc by lia.
    simpl in Hc. by apply (Hd (j - S (Z.to_nat i))%nat); [lia|].
Qed.

(** A chunk without a call leaves the calls as they are, but for the slot it opens when
    there is none. *)
Lemma merge_nothing call : merge_object call (JObject []) = call.
Proof. done. Qed.

Lemma on_chunk_text text fin st :
  on_chunk {| delta_text := text; delta_tool_call := JObject []; finished := fin |} st =
    Ok {| agg_content := agg_content st +:+ text;
          agg_finish_reason := if fin && bool_decide (agg_finish_reason st = "") then "stop"
                               else agg_finish_reason st;
          partial_tool_calls := match partial_tool_calls st with
                                | [] => [JObject []] | calls => calls end;
          tokens := tokens st ++ (if decide (text = "") then [] else [text]) |}.
Proof.
  unfold on_chunk, find_slot_for_delta. simpl. f_equal. f_equal.
  destruct (partial_tool_calls st) as [|c calls]; [done|].
  unfold grow. simpl. replace (length calls - length calls)%nat with 0%nat by lia. simpl.
  rewrite app_nil_r. apply list_eq. intros j.
  destruct (decide (j = length calls)) as [->|Hj].
  - rewrite list_lookup_alter_eq. by destruct ((c :: calls) !! length calls).
  - by rewrite list_lookup_alter_ne.
Qed.

(** Complete calls in the order of their indices. *)
Lemma on_chunks_calls (m : list (Z * ToolCallState)) st lo :
  map_sorted m → Forall (λ i, Z.of_nat lo ≤ i ≤ INT_MAX) (m.*1) →
  free_from lo (partial_tool_calls st) →
  ∃ st', on_chunks ((λ '(i, s), call_chunk (tool_call_object i s)) <$> m) st = Ok st' ∧
    agg_content st' = agg_content st ∧ tokens st' = tokens st ∧
    omap finish_call (partial_tool_calls st') =
      omap finish_call (partial_tool_calls st) ++ (finished_call <$> m.*2).
Proof.
  unfold map_sorted. revert st lo. induction m as [|[i s] m IH]; intros st lo Hs Hr Hf; simpl.
  { exists st. by rewrite app_nil_r. }
  simpl in Hs, Hr. apply StronglySorted_inv in Hs as [Hs Hi].
  apply Forall_cons in Hr as [Hri Hr].
  destruct (on_chunk_call i s st) as (st1 & -> & Hc & Ht & Ho & Hf1); [lia| |].
  { intros j c Hj. apply Hf. lia. }
  destruct (IH st1 (S (Z.to_nat i)) Hs) as (st' & Hst' & Hc' & Ht' & Ho').
  { rewrite Forall_forall in *. intros j Hj. specialize (Hi j Hj). specialize (Hr j Hj). lia. }
  { done. }
  exists st'. split; [exact Hst'|]. rewrite Hc', Ht', Ho', Ho, Hc, Ht, <-app_assoc. done.
Qed.

(** *** The whole way of a streamed answer *)

#[local] Opaque on_chunk.

(** The data of an event that is neither trimmed nor skipped. *)
Definition plain (data : string) : Prop :=
  line_ok data ∧ trim_right (trim_left data) = data ∧ data ≠ "" ∧ data ≠ "[DONE]".

Section assemble.
Context (parse : string → exc json) (dump : json → exc string).

(** The adapter and the scheduler after [texts] and [frs], before the end of the answer. *)
Definition streaming (texts : list string) (frs : list Fragment)
    (st : OpenAIStream (C:=StreamState)) : Prop :=
  finished_sent st = false ∧ states_of frs (tool_states st) ∧
  agg_content (oa_user st) = concat_strings texts ∧
  tokens (oa_user st) = filter (λ t, t ≠ "") texts ∧
  (∀ call, call ∈ partial_tool_calls (oa_user st) → call = JObject []).

(** ... and once the calls with the given indices were sent. *)
Definition sent (texts : list string) (calls : list json) (st : OpenAIStream (C:=StreamState)) :
    Prop :=
  finished_sent st = true ∧ tool_states st = [] ∧
  agg_content (oa_user st) = concat_strings texts ∧
  tokens (oa_user st) = filter (λ t, t ≠ "") texts ∧
  omap finish_call (partial_tool_calls (oa_user st)) = calls.

Lemma event_plain d j st :
  plain d → parse d = Ok j →
  openai_event parse dump on_chunk {| ev_event := ""; ev_data := d |} st =
    (st ← openai_chunk dump on_chunk j st; Ok (true, st)).
Proof.
  intros (_ & Htrim & Hne & Hdone) Hp. unfold openai_event. simpl. rewrite Htrim.
  rewrite decide_False by naive_solver. by rewrite Hp.
Qed.

Lemma event_delta d text l texts frs st :
  plain d → parse d = Ok (delta_json text l) →
  Forall (λ fr, 0 ≤ fr_index fr ≤ INT_MAX) l → streaming texts frs st →
  ∃ st', openai_event parse dump on_chunk (decoded (data_event "" d)) st = Ok (true, st') ∧
    streaming (texts ++ [text]) (frs ++ l) st'.
Proof.
  intros Hd Hp Hl (Hfin & Hst & Hc & Ht & Hfree). rewrite decoded_data_event.
  rewrite (event_plain _ _ _ Hd Hp). destruct (update_tool_states_spec l frs _ Hl Hst)
    as (m & Hm & Hst').
  unfold openai_chunk. simpl. unfold openai_choice. simpl.
  change (text_chunk text) with {| delta_text := text; delta_tool_call := JObject [];
                                   finished := false |}.
  rewrite on_chunk_text. simpl. rewrite Hm. simpl.
  eexists. split; [done|]. unfold streaming. simpl.
  rewrite Hc, Ht, concat_strings_app, filter_app. simpl. rewrite str_app_nil_r.
  split_and!; try done.
  - f_equal. rewrite filter_cons, filter_nil. repeat case_decide; tauto.
  - intros call Hcall. destruct (partial_tool_calls (oa_user st)) eqn:E; [set_solver|].
    by apply Hfree.
Qed.

Lemma streaming_events data steps texts frs st :
  Forall2 (λ d '(text, l), plain d ∧ parse d = Ok (delta_json text l)) data steps →
  Forall (λ fr, 0 ≤ fr_index fr ≤ INT_MAX) (concat steps.*2) → streaming texts frs st →
  ∃ st', consume (openai_event parse dump on_chunk) (decoded ∘ data_event "" <$> data) st =
      Some st' ∧
    streaming (texts ++ steps.*1) (frs ++ concat steps.*2) st'.
Proof.
  intros Hall. revert texts frs st.
  induction Hall as [|d [text l] data steps [Hd Hp] _ IH]; intros texts frs st Hr Hst.
  { exists st. by rewrite !app_nil_r. }
  cbn [fmap list_fmap concat snd] in Hr. apply Forall_app in Hr as [Hl Hr].
  destruct (event_delta d text l _ _ _ Hd Hp Hl Hst) as (st1 & H1 & Hst1).
  destruct (IH _ _ _ Hr Hst1) as (st' & H' & Hst').
  exists st'. cbn [fmap list_fmap consume compose]. rewrite H1. split; [exact H'|].
  rewrite <-!app_assoc in Hst'. exact Hst'.
Qed.

(** The calls of [frs], in the order of their indices. *)
Definition calls_of (idxs : list Z) (frs : list Fragment) : list json :=
  (λ i, finished_call (assembled i frs)) <$> idxs.

Lemma sorted_NoDup l : StronglySorted Z.lt l → NoDup l.
Proof.
  induction 1 as [|i l _ IH Hi]; constructor; [|done].
  intros Hin. rewrite Forall_forall in Hi. specialize (Hi i Hin). lia.
Qed.

Lemma states_of_keys frs m idxs :
  states_of frs m → StronglySorted Z.lt idxs → (∀ i, i ∈ idxs ↔ i ∈ fr_index <$> frs) →
  m.*1 = idxs ∧ m.*2 = (λ i, assembled i frs) <$> idxs.
Proof.
  intros [Hs Hm] Hi Hin.
  assert (∀ i, i ∈ m.*1 ↔ i ∈ idxs) as Hkeys.
  { intros i. rewrite Hin. specialize (Hm i). split; intros H.
    - destruct (decide (i ∈ fr_index <$> frs)); [done|]. exfalso.
      clear -H Hm. induction m as [|[k x] m IH]; simpl in *; [set_solver|].
      destruct (decide (i = k)); [done|]. apply IH; [done|set_solver].
    - rewrite decide_True in Hm by done. clear -Hm.
      induction m as [|[k x] m IH]; simpl in *; [done|].
      destruct (decide (i = k)) as [->|]; [left|right; by apply IH]. }
  assert (m.*1 = idxs) as Hk.
  { apply (StronglySorted_unique_strong Z.lt); try done.
    - intros i j _ _ ??. lia.
    - apply NoDup_Permutation; [| |done]; by apply sorted_NoDup. }
  split; [done|]. rewrite <-Hk. rewrite (map_lookups m Hs) at 1.
  assert (∀ l, (∀ i, i ∈ l → i ∈ m.*1) →
    (omap (λ i, pair i <$> map_lookup i m) l).*2 = (λ i, assembled i frs) <$> l) as Hl.
  { induction l as [|i l IH]; intros Hl; [done|]. simpl. rewrite Hm, decide_True.
    - simpl. f_equal. apply IH. intros. apply Hl. by right.
    - apply Hin, Hkeys, Hl. left. }
  by apply Hl.
Qed.
Lemma send_calls texts frs idxs st :
  streaming texts frs st → StronglySorted Z.lt idxs →
  (∀ i, i ∈ idxs ↔ i ∈ fr_index <$> frs) →
  Forall (λ fr, 0 ≤ fr_index fr ≤ INT_MAX) frs →
  ∃ st', send_tool_states on_chunk st = Ok st' ∧ sent texts (calls_of idxs frs) st'.
Proof.
  intros (Hfin & Hst & Hc & Ht & Hfree) Hi Hin Hr.
  destruct (states_of_keys _ _ _ Hst Hi Hin) as [Hk Hv].
  destruct (on_chunks_calls (tool_states st) (oa_user st) 0) as (c & Hon & Hc' & Ht' & Ho).
  - apply Hst.
  - rewrite Hk, Forall_forall. intros i [fr [-> Hfr]]%Hin%list_elem_of_fmap.
    rewrite Forall_forall in Hr. specialize (Hr fr Hfr). lia.
  - intros j call _ Hj. apply Hfree. by eapply list_elem_of_lookup_2.
  - unfold send_tool_states. rewrite Hon. simpl. unfold final_chunk.
    rewrite on_chunk_text. simpl. eexists. split; [done|]. unfold sent. simpl.
    rewrite str_app_nil_r, app_nil_r, Hc', Ht'. split_and!; try done.
    rewrite (free_omap (partial_tool_calls (oa_user st))) in Ho by done. simpl in Ho.
    rewrite Hv, <-list_fmap_compose in Ho.
    destruct (partial_tool_calls c); simpl in *; by rewrite Ho.
Qed.

(** An event that may end an answer: [[DONE]], or a chunk with a reason. *)
Definition ending (d : string) : Prop :=
  d = "[DONE]" ∨ plain d ∧ ∃ reason, parse d = Ok (finish_json reason).

Lemma ending_events fin texts frs idxs st :
  Forall ending fin → StronglySorted Z.lt idxs →
  (∀ i, i ∈ idxs ↔ i ∈ fr_index <$> frs) →
  Forall (λ fr, 0 ≤ fr_index fr ≤ INT_MAX) frs →
  streaming texts frs st ∨ sent texts (calls_of idxs frs) st →
  ∃ st', consume (openai_event parse dump on_chunk) (decoded ∘ data_event "" <$> fin) st =
      Some st' ∧
    (streaming texts frs st' ∨ sent texts (calls_of idxs frs) st').
Proof.
  intros Hfin Hi Hin Hr. revert st.
  induction Hfin as [|d fin Hd _ IH]; intros st Hst; [by exists st|].
  cbn [fmap list_fmap consume compose]. rewrite decoded_data_event.
  destruct Hd as [->|[Hd [reason Hp]]]; [by apply IH|].
  rewrite (event_plain _ _ _ Hd Hp). unfold openai_chunk. simpl. unfold openai_choice. simpl.
  unfold string_or_empty. simpl. destruct st as [ts fs u]. simpl.
  case_decide as Hc; [|by apply IH]. destruct Hc as [_ ->].
  destruct Hst as [Hst|[? _]]; [|done].
  destruct (send_calls _ _ _ _ Hst Hi Hin Hr) as (st' & -> & Hst'). apply IH. by right.
Qed.

Lemma consume_app {A} (on_event : SseEvent → A → exc (bool * A)) l1 l2 a :
  consume on_event (l1 ++ l2) a = (consume on_event l1 a ≫= consume on_event l2).
Proof.
  revert a. induction l1 as [|e l1 IH]; intros a; [done|]. simpl.
  destruct (on_event e a) as [[[] a1]| |]; [apply IH|done..].
Qed.

(** C31 An answer that an OpenAI-compatible server streams arrives whole: for any texts and any
    fragments of tool calls, interleaved in any way, cut by the network in any way, with or
    without a chunk that says why the answer ends, the scheduler ends with the texts joined
    (and passes on those that are not empty), and with one call for each index, in the order
    of the indices, that has the last id and the last name sent under this index and all its
    arguments joined. *)
Theorem openai_stream_calls steps data fin idxs t :
  Forall2 (λ d '(text, l), plain d ∧ parse d = Ok (delta_json text l)) data steps →
  Forall ending fin →
  let frs := concat steps.*2 in
  Forall (λ fr, 0 ≤ fr_index fr ≤ INT_MAX) frs →
  StronglySorted Z.lt idxs → (∀ i, i ∈ idxs ↔ i ∈ fr_index <$> frs) →
  concat_strings (tr_pieces t) = concat_strings (encode ∘ data_event "" <$> data ++ fin) →
  tr_broken t = false → tr_status t = 200 →
  ∃ st, openai_stream parse dump on_chunk t StreamState_init = Ok st ∧
    agg_content st = concat_strings steps.*1 ∧
    tokens st = filter (λ t, t ≠ "") steps.*1 ∧
    omap finish_call (partial_tool_calls st) =
      (λ i, finished_call (assembled i frs)) <$> idxs.
Proof.
  intros Hdata Hfin frs Hr Hi Hin Hbody Hbr Hstat.
  destruct (streaming_events data steps [] [] (OpenAIStream_init StreamState_init) Hdata Hr)
    as (st1 & H1 & Hst1).
  { split_and!; try done; [split; [constructor|done]|set_solver]. }
  destruct (ending_events fin steps.*1 frs idxs st1) as (st2 & H2 & Hst2); [done..|by left|].
  unfold openai_stream.
  rewrite (stream_consume (openai_event parse dump on_chunk) (data_event "" <$> data ++ fin) t
    (OpenAIStream_init StreamState_init) st2); [|
    |by rewrite Hbody, <-list_fmap_compose|done|done|].
  - simpl. destruct Hst2 as [Hst2|(Hf & _ & ? & ? & ?)].
    + rewrite (proj1 Hst2).
      destruct (send_calls _ _ _ _ Hst2 Hi Hin Hr) as (st3 & -> & _ & _ & ? & ? & ?).
      simpl. eauto.
    + rewrite Hf. simpl. eauto.
  - apply Forall_fmap, Forall_app. split.
    + eapply Forall2_Forall_l; [exact Hdata|]. apply Forall_forall.
      intros [text l] _ d [(Hl & _ & Hne & _) _]. split_and!; [done|by constructor|done].
    + eapply Forall_impl; [exact Hfin|]. intros d Hd. split_and!; [done| |].
      * constructor; [|done]. destruct Hd as [->|[(Hl & _) _]]; done.
      * by destruct Hd as [->|[(_ & _ & Hne & _) _]].
  - rewrite <-list_fmap_compose, fmap_app, consume_app, H1. exact H2.
Qed.
End assemble.

(** ** Ollama's lines, one byte at a time *)

Section ollama_lines.
Context (parse : string → exc json) (dump : json → exc string) (clock : nat → Z).
Context {C : Type} (callback : StreamChunk → C → exc C).

Abbreviation process := (process_ollama_stream_line parse dump clock callback).
Abbreviation state := (string * OllamaStreamState (C:=C))%type.

Fixpoint feed_bytes (l : list ascii) (st : state) : exc state :=
  match l with
  | [] => mret st
  | c :: l =>
      if decide (c = newline) then s ← process st.1 st.2; feed_bytes l ("", s)
      else feed_bytes l (snoc st.1 c, st.2)
  end.

Lemma feed_bytes_app l1 l2 st :
  feed_bytes (l1 ++ l2) st = (st ← feed_bytes l1 st; feed_bytes l2 st).
Proof.
  revert st. induction l1 as [|c l1 IH]; intros st; [done|]. simpl.
  case_decide; [|apply IH]. destruct (process st.1 st.2); [apply IH|done..].
Qed.

Lemma feed_bytes_plain s st :
  has_char newline s = false → feed_bytes (chars s) st = Ok (st.1 +:+ s, st.2).
Proof.
  revert st. induction s as [|c s IH]; intros st Hs; simpl.
  { rewrite str_app_nil_r. by destruct st. }
  simpl in Hs. apply orb_false_iff in Hs as [Hc Hs]. apply bool_decide_eq_false in Hc.
  rewrite decide_False by done. rewrite IH by done. simpl. by rewrite snoc_app.
Qed.

Lemma feed_bytes_line line st :
  has_char newline line = false →
  feed_bytes (chars (line +:+ nl)) ("", st) = (s ← process line st; Ok ("", s)).
Proof.
  intros Hl. rewrite chars_app, feed_bytes_app, feed_bytes_plain by done. done.
Qed.

Lemma ollama_lines_feed fuel buffer st :
  (String.length buffer ≤ fuel)%nat →
  ollama_lines parse dump clock callback fuel buffer st = feed_bytes (chars buffer) ("", st).
Proof.
  revert buffer st. induction fuel as [|fuel IH]; intros buffer st Hlen; simpl.
  { destruct buffer; [done|simpl in Hlen; lia]. }
  destruct (find_char newline buffer) as [[line rest]|] eqn:Hf.
  - apply find_char_Some in Hf as [-> Hl]. rewrite str_app_length in Hlen. simpl in Hlen.
    change (String newline rest) with (nl +:+ rest).
    rewrite <-str_app_assoc, (chars_app (line +:+ nl)), feed_bytes_app, feed_bytes_line by done.
    destruct (process line st) as [s| |]; simpl; [|done..]. apply IH. lia.
  - apply find_char_None in Hf. by rewrite feed_bytes_plain.
Qed.

Lemma feed_bytes_buffer l st st' :
  has_char newline st.1 = false → feed_bytes l st = Ok st' → has_char newline st'.1 = false.
Proof.
  revert st. induction l as [|c l IH]; intros st Hb H; simpl in H; [by injection H as <-|].
  case_decide as Hc.
  - apply exc_bind_Ok_inv in H as (s & _ & H). by apply IH in H.
  - apply IH in H; [done|]. simpl. unfold snoc. rewrite has_char_app, Hb. simpl.
    by rewrite bool_decide_false.
Qed.

Lemma receive_ollama pieces st :
  has_char newline st.1 = false →
  receive (ollama_piece parse dump clock callback) pieces st =
    (st ← feed_bytes (chars (concat_strings pieces)) st; Ok (true, st)).
Proof.
  revert st. induction pieces as [|p pieces IH]; intros [b st] Hb; [done|]. simpl in Hb.
  cbn [receive concat_strings foldr]. rewrite chars_app, feed_bytes_app.
  assert (ollama_piece parse dump clock callback p (b, st) =
    (st ← feed_bytes (chars p) (b, st); Ok (true, st))) as ->.
  { unfold ollama_piece. simpl. rewrite ollama_lines_feed by done.
    rewrite chars_app, feed_bytes_app, feed_bytes_plain by done. done. }
  destruct (feed_bytes (chars p) (b, st)) as [st1| |] eqn:E; simpl; [|done..].
  apply IH. by apply (feed_bytes_buffer (chars p) (b, st)).
Qed.

(** The chunks of an Ollama stream do not depend on how the network cuts it. *)
Lemma ollama_any_segmentation t c :
  ollama_stream parse dump clock callback t c =
  ollama_stream parse dump clock callback
    {| tr_pieces := [concat_strings (tr_pieces t)]; tr_broken := tr_broken t;
       tr_status := tr_status t |} c.
Proof.
  unfold ollama_stream, receive_response. rewrite !receive_ollama by done.
  simpl. by rewrite str_app_nil_r.
Qed.
End ollama_lines.

(** ** Calls that are merged *)

#[local] Transparent on_chunk.

Lemma pop_cr_line l : line_ok l → pop_cr l = l.
Proof.
  intros [_ Hl]. unfold pop_cr. destruct (unsnoc l) as [[front last]|]; [|done].
  rewrite decide_False; [done|]. intros ->. by apply (Hl front).
Qed.

(** A line that is an object, while there is nothing wrong. *)
Lemma process_line_json {C} parse dump clock (callback : StreamChunk → C → exc C) line j st :
  line_ok line → line ≠ "" → parse line = Ok j →
  ol_stream_error st = "" → ol_finished_sent st = false →
  process_ollama_stream_line parse dump clock callback line st =
    process_ollama_json dump clock callback j st.
Proof.
  intros Hl Hne Hp He Hf. unfold process_ollama_stream_line.
  rewrite decide_False by (rewrite He, Hf; naive_solver).
  by rewrite pop_cr_line, decide_False, Hp by done.
Qed.

(** A line of an Ollama stream with one complete call. *)
Definition ollama_call_json (name : string) (args : list (string * json)) : json :=
  JObject [("message", JObject [("content", JString "");
    ("tool_calls", JArray [JObject [("function",
       JObject [("name", JString name); ("arguments", JObject args)])]])]);
    ("done", JBool false)].

Definition ollama_done_json : json :=
  JObject [("message", JObject [("content", JString "")]); ("done", JBool true)].

(** The call that the adapter makes of it, in its [k]th call. *)
Definition ollama_call (clock : nat → Z) (k : nat) (name args : string) : json :=
  JObject [("id", JString ("call_0_" +:+ pretty (clock k))); ("type", JString "function");
           ("function", JObject [("name", JString name); ("arguments", JString args)]);
           ("index", JInt 0)].

Lemma process_call_json {C} dump clock (callback : StreamChunk → C → exc C) name args a st c :
  ol_stream_error st = "" → ol_finished_sent st = false → dump (JObject args) = Ok a →
  callback (call_chunk (ollama_call clock (ol_calls st) name a)) (ol_user st) = Ok c →
  process_ollama_json dump clock callback (ollama_call_json name args) st =
    Ok {| ol_finished_sent := false; ol_stream_error := ""; ol_calls := S (ol_calls st);
          ol_user := c |}.
Proof.
  destruct st as [f e k u]. simpl. intros -> -> Ha Hc. unfold process_ollama_json. simpl.
  unfold string_or_empty. simpl. unfold normalize_ollama_tool_call. simpl.
  rewrite Ha. simpl. unfold report_chunk. cbn [ol_user].
  change (callback _ u) with (callback (call_chunk (ollama_call clock k name a)) u).
  by rewrite Hc.
Qed.

(** Two calls on two lines of an Ollama stream come back as one: the adapter numbers the
    calls of each line from zero, so that the scheduler takes the second for more fragments
    of the first - the name of the first call is lost, and its arguments are followed by
    those of the second. *)
Lemma ollama_calls_collide parse dump clock line1 line2 line3 name1 name2 args1 args2 a1 a2 t :
  Forall (λ l, line_ok l ∧ l ≠ "") [line1; line2; line3] →
  parse line1 = Ok (ollama_call_json name1 args1) →
  parse line2 = Ok (ollama_call_json name2 args2) →
  parse line3 = Ok ollama_done_json →
  dump (JObject args1) = Ok a1 → dump (JObject args2) = Ok a2 →
  concat_strings (tr_pieces t) = line1 +:+ nl +:+ line2 +:+ nl +:+ line3 +:+ nl →
  tr_broken t = false → tr_status t = 200 →
  ∃ st, ollama_stream parse dump clock on_chunk t StreamState_init = Ok st ∧
    omap finish_call (partial_tool_calls st) =
      [JObject [("id", JString ("call_0_" +:+ pretty (clock 1%nat)));
                ("type", JString "function");
                ("function", JObject [("name", JString name2);
                                      ("arguments", JString (a1 +:+ a2))])]].
Proof.
  intros [[Hl1 Hn1] [[Hl2 Hn2] [[Hl3 Hn3] _]%Forall_cons]%Forall_cons]%Forall_cons
    Hp1 Hp2 Hp3 Ha1 Ha2 Hbody Hbr Hstat.
  unfold ollama_stream, receive_response. rewrite receive_ollama, Hbody, Hbr, Hstat by done.
  rewrite <-(str_app_assoc line1), <-(str_app_assoc line2), !(chars_app (_ +:+ nl)),
    feed_bytes_app.
  rewrite (feed_bytes_line _ _ _ _ line1), (process_line_json _ _ _ _ _ _ _ Hl1 Hn1 Hp1)
    by (done || apply Hl1).
  erewrite process_call_json by done. cbn [mbind exc_bind].
  rewrite feed_bytes_app, (feed_bytes_line _ _ _ _ line2),
    (process_line_json _ _ _ _ _ _ _ Hl2 Hn2 Hp2)
    by (done || apply Hl2).
  erewrite process_call_json by done. cbn [mbind exc_bind].
  rewrite (feed_bytes_line _ _ _ _ line3), (process_line_json _ _ _ _ _ _ _ Hl3 Hn3 Hp3)
    by (done || apply Hl3).
  simpl. eexists. split; [done|]. done.
Qed.

(** An adapter that inherits the default streaming gets two calls of a response merged into
    one: they are sent without an index, and the scheduler takes a call whose id it does not
    know for more of its last one. *)
Lemma default_stream_merges_calls call_chat request response
    id1 id2 name1 name2 args1 args2 :
  let call id name args := JObject [("id", JString id);
    ("function", JObject [("name", JString name); ("arguments", JString args)])] in
  call_chat (unstreamed request) = Ok response →
  rs_content response = "" →
  rs_tool_calls response = JArray [call id1 name1 args1; call id2 name2 args2] →
  id1 ≠ "" → id2 ≠ "" → id1 ≠ id2 →
  ∃ st, default_call_chat_stream on_chunk call_chat request StreamState_init = Ok st ∧
    omap finish_call (partial_tool_calls st) =
      [JObject [("id", JString id2);
                ("function", JObject [("name", JString name2);
                                      ("arguments", JString (args1 +:+ args2))]);
                ("type", JString "function")]].
Proof.
  intros call Hr Hc Ht H1 H2 Hne. unfold default_call_chat_stream. rewrite Hr. simpl.
  unfold default_stream_chunks. rewrite Hc, Ht.
  change (deliver on_chunk _ _) with (deliver on_chunk ([call_chunk (call id1 name1 args1);
    call_chunk (call id2 name2 args2)] ++ [final_chunk]) StreamState_init).
  rewrite deliver_app.
  pose proof (stream_unindexed_merged id1 id2 name1 name2 args1 args2 H1 H2 Hne) as Hm.
  cbv zeta in Hm. unfold run_chat_stream in Hm.
  apply exc_bind_Ok_inv in Hm as (st & Hst & Hm). injection Hm as _ Hm _.
  unfold call. rewrite Hst. cbn [mbind exc_bind deliver].
  unfold final_chunk. rewrite on_chunk_text. simpl. eexists. split; [done|]. simpl.
  destruct (partial_tool_calls st); [done|]. exact Hm.
Qed.
