(* ===== verification/Sessions.v ===== *)
(** * Names of users and sessions (src/llm/session_manager.cpp)

    A super user owns sessions whose ids are the user's name followed by [_s] and a number.
    This file models the names and ids, the paths that are made of them, the order in which
    sessions are listed and the choice of the next id; it is shared by the session manager
    and the conversations. *)

From stdpp Require Import sorting.
From S2P Require Import Prelude Json StringUtils.
From Stdlib Require Import Ascii.

(** ** std::sort

    The comparison must be a strict weak order on the elements; otherwise the behaviour of
    [std::sort] is undefined. *)

Section sort.
Context {A : Type} (lt : A → A → bool).

Definition incomparable (x y : A) : bool := negb (lt x y) && negb (lt y x).

Definition strict_weak_order (l : list A) : bool :=
  forallb (λ x, negb (lt x x) && forallb (λ y, forallb (λ z,
    implb (lt x y && lt y z) (lt x z) &&
    implb (incomparable x y && incomparable y z) (incomparable x z)) l) l) l.

Fixpoint insert_by (x : A) (l : list A) : list A :=
  match l with
  | [] => [x]
  | y :: l' => if lt y x then y :: insert_by x l' else x :: l
  end.

Fixpoint insertion_sort (l : list A) : list A :=
  match l with
  | [] => []
  | x :: l => insert_by x (insertion_sort l)
  end.

Definition std_sort (l : list A) : exc (list A) :=
  if strict_weak_order l then mret (insertion_sort l) else UB.

Lemma insert_by_perm x l : insert_by x l ≡ₚ x :: l.
Proof.
  induction l as [|y l IH]; [done|]. simpl. destruct (lt y x); [|done].
  rewrite IH. apply Permutation_swap.
Qed.

Lemma insertion_sort_perm l : insertion_sort l ≡ₚ l.
Proof. induction l as [|x l IH]; [done|]. simpl. by rewrite insert_by_perm, IH. Qed.

(** What a strict weak order on the elements of a list gives. *)
Lemma strict_weak_order_spec l :
  strict_weak_order l = true ↔
  ∀ x, x ∈ l → lt x x = false ∧ ∀ y, y ∈ l → ∀ z, z ∈ l →
    (lt x y = true → lt y z = true → lt x z = true) ∧
    (lt x y = false → lt y x = false → lt y z = false → lt z y = false →
     lt x z = false ∧ lt z x = false).
Proof.
  unfold strict_weak_order. rewrite forallb_forall. setoid_rewrite <-list_elem_of_In.
  apply forall_proper; intros x. apply forall_proper; intros Hx.
  rewrite andb_true_iff, negb_true_iff, forallb_forall. setoid_rewrite <-list_elem_of_In.
  apply and_iff_compat_l. apply forall_proper; intros y. apply forall_proper; intros Hy.
  rewrite forallb_forall. setoid_rewrite <-list_elem_of_In.
  apply forall_proper; intros z. apply forall_proper; intros Hz.
  unfold incomparable. rewrite andb_true_iff.
  destruct (lt x y), (lt y z), (lt x z), (lt y x), (lt z y), (lt z x); simpl; naive_solver.
Qed.

Definition not_above (x y : A) : Prop := lt y x = false.

Lemma insertion_sort_sorted l :
  strict_weak_order l = true → StronglySorted not_above (insertion_sort l).
Proof.
  rewrite strict_weak_order_spec.
  assert (∀ l', (∀ x, x ∈ l' → x ∈ l) →
    (∀ x, x ∈ l → lt x x = false ∧ ∀ y, y ∈ l → ∀ z, z ∈ l →
      (lt x y = true → lt y z = true → lt x z = true) ∧
      (lt x y = false → lt y x = false → lt y z = false → lt z y = false →
       lt x z = false ∧ lt z x = false)) →
    StronglySorted not_above (insertion_sort l')) as H; [|intros Hl; by apply H].
  intros l' Hsub Hl.
  assert (∀ x y z, x ∈ l → y ∈ l → z ∈ l →
    not_above x y → not_above y z → not_above x z) as Htrans.
  { unfold not_above. intros x y z Hx Hy Hz H1 H2.
    destruct (lt z x) eqn:Hzx; [|done]. exfalso.
    destruct (lt x y) eqn:Hxy.
    - pose proof (proj1 (proj2 (Hl z Hz) x Hx y Hy) Hzx Hxy). congruence.
    - destruct (lt y z) eqn:Hyz.
      + pose proof (proj1 (proj2 (Hl y Hy) z Hz x Hx) Hyz Hzx). congruence.
      + destruct (proj2 (proj2 (Hl x Hx) y Hy z Hz)); congruence. }
  induction l' as [|x l' IH]; [constructor|]. simpl.
  assert (∀ m, (∀ y, y ∈ m → y ∈ l) → StronglySorted not_above m →
    StronglySorted not_above (insert_by x m)) as Hins.
  { assert (x ∈ l) as Hx by (apply Hsub; left).
    induction m as [|y m IHm]; intros Hm Hs; simpl; [repeat constructor|].
    apply StronglySorted_inv in Hs as [Hs Hy].
    assert (y ∈ l) as Hyl by (apply Hm; left).
    destruct (lt y x) eqn:Hyx.
    - constructor; [apply IHm; [intros; apply Hm; by right|done]|].
      rewrite insert_by_perm. constructor; [|done].
      unfold not_above. destruct (lt x y) eqn:Hxy; [|done].
      pose proof (proj1 (proj2 (Hl x Hx) y Hyl x Hx) Hxy Hyx).
      destruct (Hl x Hx). congruence.
    - constructor; [by constructor|]. constructor; [done|].
      rewrite Forall_forall in *. intros z Hz.
      apply (Htrans x y z); [done..|apply Hm; by right|done|by apply Hy]. }
  apply Hins.
  - intros y. rewrite (insertion_sort_perm l'). intros. apply Hsub. by right.
  - apply IH. intros. apply Hsub. by right.
Qed.
End sort.

(** ** Session ids *)

(** The name before a last [_s] that is followed by digits only. *)
Definition extract_super_user (session_id : string) : string :=
  match rfind_str "_s" session_id with
  | Some (before, suffix) =>
      if decide (suffix ≠ "" ∧ all_digits suffix = true) then before else session_id
  | None => session_id
  end.

Definition is_session_id (s : string) : bool := bool_decide (extract_super_user s ≠ s).

Record SessionTarget := {
  tg_is_session_id : bool;
  tg_super_user : string;
  tg_session_id : string;
}.

Definition resolve_target (user_id : string) : SessionTarget := {|
  tg_is_session_id := is_session_id user_id;
  tg_super_user := if is_session_id user_id then extract_super_user user_id else user_id;
  tg_session_id := if is_session_id user_id then user_id else "" |}.

(** [std::isalnum] in the C locale. *)
Definition isalnum (c : ascii) : bool :=
  isdigit c || in_range 65 90 c || in_range 97 122 c.

Fixpoint all_name_chars (s : string) : bool :=
  match s with
  | EmptyString => true
  | String c s => (isalnum c || bool_decide (c = "-"%char ∨ c = "_"%char)) && all_name_chars s
  end.

Definition validate_super_user_name (super_user : string) : exc () :=
  if decide (super_user = "") then Throw "super_user name must not be empty"
  else
    let reserved :=
      match rfind_str "_s" super_user with
      | Some (_, suffix) => bool_decide (suffix ≠ "" ∧ all_digits suffix = true)
      | None => false
      end in
    if reserved then Throw "super_user name must not match reserved pattern: *_s{number}"
    else if all_name_chars super_user then mret tt
    else Throw "super_user name must be alphanumeric (hyphens and underscores allowed)".

(** ** Paths *)

Section paths.
Context (storage_root : string).

Definition session_dir (session_id : string) : string :=
  let user_dir := storage_root +:+ "/sessions/users/" +:+ extract_super_user session_id +:+
                  "/" +:+ session_id in
  match strip_prefix "proc_" session_id with
  | Some rest =>
      match find_char "_" rest with
      | Some (pid, _) => storage_root +:+ "/sessions/procs/" +:+ pid +:+ "/" +:+ session_id
      | None => user_dir
      end
  | None => user_dir
  end.

Definition live_convo_path (session_id : string) : string :=
  session_dir session_id +:+ "/" +:+ session_id +:+ ".json".

Definition history_snapshot_path (session_id : string) (n : Z) : string :=
  session_dir session_id +:+ "/" +:+ session_id +:+ "_h" +:+ pretty n +:+ ".json".

Definition agentfile_path (super_user filename : string) : string :=
  storage_root +:+ "/agentfiles/" +:+ super_user +:+ "/" +:+ filename.
End paths.

(** ** The order of the sessions *)

(** What [stoi] reads behind the last [_s]: [None] is an exception. *)
Definition session_number (sid : string) : option Z :=
  match rfind_str "_s" sid with Some (_, suffix) => stoi suffix | None => Some 0 end.

(** The comparison of [list_sessions]: an exception at [a] leaves both numbers at 0, one at
    [b] that of [b]. *)
Definition session_lt (a b : string) : bool :=
  let '(na, nb) := match session_number a with
                   | None => (0, 0)
                   | Some na => (na, default 0 (session_number b))
                   end in
  if decide (na ≠ nb) then na <? nb else negb (String.leb b a).

Definition sort_sessions (l : list string) : exc (list string) := std_sort session_lt l.

(** [next_session_id], over the sessions that are listed. *)
Definition max_session_number (sessions : list string) : Z :=
  foldl (λ max_n sid,
    match rfind_str "_s" sid with
    | None => max_n
    | Some (_, suffix) =>
        match stoi suffix with
        | Some n => if decide (n > max_n) then n else max_n
        | None => max_n
        end
    end) 0 sessions.

Definition next_session_id (super_user : string) (sessions : list string) : exc string :=
  let max_n := max_session_number sessions in
  if decide (max_n = INT_MAX) then UB
  else mret (super_user +:+ "_s" +:+ pretty (max_n + 1)).

(** ** Lemmas *)

Lemma StronglySorted_impl {A} (R R' : A → A → Prop) l :
  (∀ x y, R x y → R' x y) → StronglySorted R l → StronglySorted R' l.
Proof.
  intros H. induction 1 as [|x l _ IH Hx]; constructor; [done|].
  eapply Forall_impl; [exact Hx|]. intros. by apply H.
Qed.

Lemma digits_no_underscore s : all_digits s = true → rfind_str "_s" s = None.
Proof.
  induction s as [|c s IH]; [done|]. simpl. intros [Hc Hs]%andb_true_iff.
  rewrite IH by done. rewrite decide_False; [done|]. by intros <-.
Qed.

Lemma rfind_suffix su digits :
  all_digits digits = true → rfind_str "_s" (su +:+ "_s" +:+ digits) = Some (su, digits).
Proof.
  intros Hd. apply rfind_str_app. rewrite !str_app_cons, str_app_nil_l. simpl.
  by rewrite (digits_no_underscore digits).
Qed.

Lemma str_app_nonempty su t : t ≠ "" → su +:+ t ≠ su.
Proof.
  intros Ht. induction su as [|c su IH]; [by rewrite str_app_nil_l|].
  rewrite str_app_cons. by intros [= ?].
Qed.

Lemma extract_session_id su digits :
  digits ≠ "" → all_digits digits = true →
  extract_super_user (su +:+ "_s" +:+ digits) = su.
Proof.
  intros Hne Hd. unfold extract_super_user. rewrite rfind_suffix by done.
  by rewrite decide_True.
Qed.

Lemma is_session_id_suffix su digits :
  digits ≠ "" → all_digits digits = true → is_session_id (su +:+ "_s" +:+ digits) = true.
Proof.
  intros Hne Hd. unfold is_session_id. rewrite extract_session_id by done.
  apply bool_decide_true. intros H. by apply (str_app_nonempty su ("_s" +:+ digits)).
Qed.

(** The shape of a session id. *)
Lemma is_session_id_inv s :
  is_session_id s = true →
  ∃ su digits, s = su +:+ "_s" +:+ digits ∧ digits ≠ "" ∧ all_digits digits = true ∧
    extract_super_user s = su.
Proof.
  unfold is_session_id. intros H%bool_decide_eq_true. unfold extract_super_user in *.
  destruct (rfind_str "_s" s) as [[before suffix]|] eqn:E; [|done].
  apply rfind_str_Some in E. case_decide as Hs; [|done]. destruct Hs. by exists before, suffix.
Qed.

Lemma max_session_number_ge sessions :
  0 ≤ max_session_number sessions ∧
  ∀ sid before suffix n, sid ∈ sessions → rfind_str "_s" sid = Some (before, suffix) →
    stoi suffix = Some n → n ≤ max_session_number sessions.
Proof.
  unfold max_session_number.
  set (step := λ max_n sid, _).
  assert (∀ l m, m ≤ foldl step m l ∧
    ∀ sid before suffix n, sid ∈ l → rfind_str "_s" sid = Some (before, suffix) →
      stoi suffix = Some n → n ≤ foldl step m l) as H; [|apply H].
  assert (∀ m sid, m ≤ step m sid) as Hstep.
  { intros m sid. unfold step. repeat case_match; lia. }
  induction l as [|s l IH]; intros m; simpl.
  { split; [lia|]. intros ???? Hin. by apply not_elem_of_nil in Hin. }
  destruct (IH (step m s)) as [Hm Hall]. pose proof (Hstep m s). split; [lia|].
  intros sid before suffix n [->|Hin]%elem_of_cons Hr Hn; [|by eapply Hall].
  etrans; [|exact Hm]. unfold step. rewrite Hr, Hn. case_decide; lia.
Qed.

Lemma max_session_number_le sessions : max_session_number sessions ≤ INT_MAX.
Proof.
  unfold max_session_number. set (step := λ max_n sid, _).
  assert (∀ l k, k ≤ INT_MAX → foldl step k l ≤ INT_MAX) as H; [|apply H; unfold INT_MAX; lia].
  induction l as [|s l IH]; intros k Hk; simpl; [done|]. apply IH. unfold step.
  repeat case_match; try done. by eapply stoi_range.
Qed.

(** The comparison of ids whose numbers are read. *)
Lemma session_lt_spec a b na nb :
  session_number a = Some na → session_number b = Some nb →
  session_lt a b = true ↔ na < nb ∨ na = nb ∧ String.leb b a = false.
Proof.
  intros Ha Hb. unfold session_lt. rewrite Ha, Hb. simpl. case_decide.
  - rewrite Z.ltb_lt. naive_solver lia.
  - rewrite negb_true_iff. naive_solver lia.
Qed.

Lemma leb_trans a b c :
  String.leb a b = true → String.leb b c = true → String.leb a c = true.
Proof.
  intros H1 H2. apply Is_true_true. apply Is_true_true in H1, H2.
  by apply (transitivity (R := String.le) (y := b)).
Qed.

Lemma leb_total' a b : String.leb a b = false → String.leb b a = true.
Proof. intros H. destruct (String.leb_total a b); congruence. Qed.

Lemma sessions_strict_weak l :
  Forall (λ sid, is_Some (session_number sid)) l → strict_weak_order session_lt l = true.
Proof.
  rewrite Forall_forall, strict_weak_order_spec. intros Hl x Hx.
  destruct (Hl x Hx) as [nx Hnx].
  assert (∀ a b na nb, session_number a = Some na → session_number b = Some nb →
    session_lt a b = false ↔ nb < na ∨ nb = na ∧ String.leb b a = true) as Hfalse.
  { intros a b na nb Ha Hb. rewrite <-not_true_iff_false, (session_lt_spec a b na nb) by done.
    destruct (Z.lt_trichotomy na nb) as [?|[?|?]], (String.leb b a); naive_solver lia. }
  assert (String.leb x x = true) as Hrefl by (destruct (String.leb_total x x); done).
  split. { apply (Hfalse x x nx nx); [done..|]. by right. }
  intros y Hy z Hz. destruct (Hl y Hy) as [ny Hny], (Hl z Hz) as [nz Hnz]. split.
  - rewrite (session_lt_spec x y nx ny), (session_lt_spec y z ny nz),
      (session_lt_spec x z nx nz) by done.
    intros [?|[-> Hyx]] [?|[-> Hzy]]; [left; lia..|right]. split; [done|].
    destruct (String.leb z x) eqn:Hzx; [|done].
    pose proof (leb_trans z x y Hzx (leb_total' _ _ Hyx)) as Hzy'. congruence.
  - rewrite (Hfalse x y nx ny), (Hfalse y x ny nx), (Hfalse y z ny nz), (Hfalse z y nz ny),
      (Hfalse x z nx nz), (Hfalse z x nz nx) by done.
    intros [?|[? Hl1]] [?|[? Hl2]] [?|[? Hl3]] [?|[? Hl4]]; try lia.
    split; right; (split; [lia|]); by eapply leb_trans.
Qed.

Lemma sort_sessions_spec l :
  Forall (λ sid, is_Some (session_number sid)) l →
  ∃ l', sort_sessions l = Ok l' ∧ l' ≡ₚ l ∧
    StronglySorted (λ a b, ∀ na nb, session_number a = Some na → session_number b = Some nb →
      na < nb ∨ na = nb ∧ String.leb a b = true) l' ∧
    ∀ active, last l' = Some active →
      ∀ sid n m, sid ∈ l → session_number sid = Some n → session_number active = Some m → n ≤ m.
Proof.
  intros Hl. pose proof (sessions_strict_weak l Hl) as Hw.
  exists (insertion_sort session_lt l). unfold sort_sessions, std_sort. rewrite Hw.
  pose proof (insertion_sort_sorted session_lt l Hw) as Hs.
  assert (StronglySorted (λ a b, ∀ na nb, session_number a = Some na →
      session_number b = Some nb → na < nb ∨ na = nb ∧ String.leb a b = true)
      (insertion_sort session_lt l)) as Hs'.
  { eapply StronglySorted_impl; [|exact Hs]. intros a b Hab na nb Ha Hb.
    unfold not_above in Hab. rewrite <-not_true_iff_false in Hab.
    rewrite (session_lt_spec b a nb na) in Hab by done.
    destruct (Z.lt_trichotomy na nb) as [?|[->|?]]; [by left|right|exfalso; auto].
    split; [done|]. destruct (String.leb a b) eqn:E; [done|]. exfalso. auto. }
  split_and!; [done|apply insertion_sort_perm|done|].
  intros active Hlast sid n m Hin Hn Hm. rewrite <-(insertion_sort_perm session_lt l) in Hin.
  apply last_Some in Hlast as [l' Hl'].
  rewrite Hl' in Hin, Hs'. apply elem_of_app in Hin as [Hin|Hin].
  - apply (StronglySorted_app_1_elem_of _ _ _ sid active) in Hs'; [|done|by left].
    destruct (Hs' n m Hn Hm); lia.
  - apply list_elem_of_singleton in Hin as ->. simplify_eq. lia.
Qed.

Lemma next_session_id_spec super_user sessions :
  (max_session_number sessions = INT_MAX ∧ next_session_id super_user sessions = UB) ∨
  ∃ sid, next_session_id super_user sessions = Ok sid ∧ (sid ∉ sessions) ∧
    is_session_id sid = true ∧ extract_super_user sid = super_user.
Proof.
  unfold next_session_id. destruct (max_session_number_ge sessions) as [Hpos Hge].
  set (m := max_session_number sessions) in *. case_decide as Hm; [by left|right].
  exists (super_user +:+ "_s" +:+ pretty (m + 1)).
  assert (all_digits (pretty (m + 1)) = true) as Hd by (apply pretty_Z_digits; lia).
  assert (pretty (m + 1) ≠ "") as Hne by (apply pretty_nonempty; lia).
  split_and!; [done| |by apply is_session_id_suffix|by apply extract_session_id].
  intros Hin.
  pose proof (max_session_number_le sessions) as Hle'. fold m in Hle'.
  pose proof (Hge _ super_user (pretty (m + 1)) (m + 1) Hin) as Hle.
  rewrite rfind_suffix, stoi_pretty in Hle by (done || lia). specialize (Hle eq_refl eq_refl). lia.
Qed.

(** ** Properties *)

(** Names and ids do not overlap: a name that is accepted is not empty, made of letters,
    digits, hyphens and underscores, and is never taken for a session id; an id made of a
    name and a number is a session id that gives the name back; and two users never share
    an id. *)
Lemma session_id_roundtrip su su' n n' :
  0 ≤ n → 0 ≤ n' →
  (validate_super_user_name su = Ok tt →
    su ≠ "" ∧ all_name_chars su = true ∧ is_session_id su = false ∧
    extract_super_user su = su) ∧
  is_session_id (su +:+ "_s" +:+ pretty n) = true ∧
  resolve_target (su +:+ "_s" +:+ pretty n) =
    {| tg_is_session_id := true; tg_super_user := su;
       tg_session_id := su +:+ "_s" +:+ pretty n |} ∧
  (su +:+ "_s" +:+ pretty n = su' +:+ "_s" +:+ pretty n' → su = su' ∧ n = n').
Proof.
  intros Hn Hn'.
  assert (∀ k, 0 ≤ k → pretty k ≠ "" ∧ all_digits (pretty k) = true) as Hp.
  { intros k Hk. split; [by apply pretty_nonempty|by apply pretty_Z_digits]. }
  destruct (Hp n Hn) as [Hne Hd]. destruct (Hp n' Hn') as [Hne' Hd'].
  split_and!.
  - unfold validate_super_user_name, is_session_id, extract_super_user. case_decide; [done|].
    destruct (rfind_str "_s" su) as [[b s]|] eqn:E.
    + case_bool_decide as Hs; [done|]. destruct (all_name_chars su); [|done]. intros _.
      rewrite decide_False by done. by rewrite bool_decide_false by auto.
    + destruct (all_name_chars su); [|done]. intros _. by rewrite bool_decide_false by auto.
  - by apply is_session_id_suffix.
  - unfold resolve_target. rewrite is_session_id_suffix, extract_session_id by done. done.
  - intros Heq. assert (rfind_str "_s" (su' +:+ "_s" +:+ pretty n') = Some (su, pretty n)) as Hr
      by (rewrite <-Heq; by apply rfind_suffix).
    rewrite rfind_suffix in Hr by done. injection Hr as -> Hpr. split; [done|].
    by apply (inj pretty) in Hpr.
Qed.

(** A new session gets an id of its user that is not listed yet, however the listed ids
    look; when a listed number is the greatest integer, the addition overflows. *)
Lemma next_session_id_fresh super_user sessions :
  (max_session_number sessions = INT_MAX ∧ next_session_id super_user sessions = UB) ∨
  ∃ sid, next_session_id super_user sessions = Ok sid ∧ (sid ∉ sessions) ∧
    is_session_id sid = true ∧ extract_super_user sid = super_user.
Proof. apply next_session_id_spec. Qed.

(** When the numbers of the ids can be read, the sessions are listed in the order of
    their numbers: the list is a permutation, its numbers never decrease, equal numbers are
    in the order of the texts, and the last session, which is the active one, has the
    greatest number. *)
Lemma sessions_sorted l :
  Forall (λ sid, is_Some (session_number sid)) l →
  ∃ l', sort_sessions l = Ok l' ∧ l' ≡ₚ l ∧
    StronglySorted (λ a b, ∀ na nb, session_number a = Some na → session_number b = Some nb →
      na < nb ∨ na = nb ∧ String.leb a b = true) l' ∧
    ∀ active, last l' = Some active →
      ∀ sid n m, sid ∈ l → session_number sid = Some n → session_number active = Some m → n ≤ m.
Proof. apply sort_sessions_spec. Qed.

(** Otherwise the behaviour of the listing may be undefined: with an id whose number does
    not fit an integer, which every check accepts, the comparison is not a strict weak
    order. *)
Lemma sessions_sort_ub su :
  let big := su +:+ "_s" +:+ "99999999999" in
  let five := su +:+ "_s" +:+ "5" in
  let three := su +:+ "_s" +:+ "3" in
  is_session_id big = true ∧ session_number big = None ∧
  sort_sessions [big; five; three] = UB.
Proof.
  intros big five three.
  assert (is_session_id big = true) as Hid by by apply is_session_id_suffix.
  assert (session_number big = None) as Hbig
    by (unfold session_number, big; by rewrite rfind_suffix).
  assert (session_number five = Some 5) as H5
    by (unfold session_number, five; by rewrite rfind_suffix).
  assert (session_number three = Some 3) as H3
    by (unfold session_number, three; by rewrite rfind_suffix).
  split_and!; [done..|]. unfold sort_sessions, std_sort.
  destruct (strict_weak_order session_lt _) eqn:E; [|done].
  rewrite strict_weak_order_spec in E.
  assert (∀ t u, String.leb (su +:+ t) (su +:+ u) = String.leb t u) as Hleb.
  { intros t u. clear. induction su as [|c s IH]; [by rewrite !str_app_nil_l|].
    rewrite !str_app_cons. unfold String.leb in *. simpl.
    unfold Ascii.compare. by rewrite N.compare_refl. }
  destruct (E five ltac:(set_solver)) as [_ H].
  destruct (H big ltac:(set_solver) three ltac:(set_solver)) as [_ Hinc].
  unfold session_lt in Hinc. rewrite Hbig, H5, H3 in Hinc. simpl in Hinc.
  unfold big, five, three in Hinc. rewrite !Hleb in Hinc. vm_compute in Hinc.
  by destruct (Hinc eq_refl eq_refl eq_refl eq_refl).
Qed.
