(* ===== verification/Storage.v ===== *)
(** * Storage of conversations (src/llm/storage, src/llm/session_io.hpp)

    The interface of the storage providers, what their clients rely on, and the provider over
    SQLite.  A table is a finite map; a statement is executed as its SQL says, and whether it
    completes is an argument ([completes]), for the disk may be full or the database locked.
    The parsing and printing of JSON columns are parameters. *)

From S2P Require Import Prelude Json StringUtils Sessions.
From Stdlib Require Import Ascii.

(** ** Conversation (session_io.hpp) *)

Record Conversation := {
  cv_convo_id : string;
  cv_user_id : string;
  cv_creator_pid : Z;
  cv_state : string;
  cv_created_at_ms : Z;
  cv_last_activity_ms : Z;
  cv_turn_count : Z;
  cv_current_context_tokens : Z;
  cv_total_tokens_used : Z;
  cv_messages : list json;
  cv_metadata : json;
}.

(** The members' initialisers. *)
Definition Conversation_init : Conversation := {|
  cv_convo_id := ""; cv_user_id := ""; cv_creator_pid := -1; cv_state := "ACTIVE";
  cv_created_at_ms := 0; cv_last_activity_ms := 0; cv_turn_count := 0;
  cv_current_context_tokens := 0; cv_total_tokens_used := 0; cv_messages := [];
  cv_metadata := JObject [] |}.

(** The object that [persist_conversation] stores. *)
Definition conversation_json (c : Conversation) : json :=
  JObject [("convo_id", JString (cv_convo_id c)); ("user_id", JString (cv_user_id c));
           ("creator_pid", JInt (cv_creator_pid c)); ("state", JString (cv_state c));
           ("created_at_ms", JInt (cv_created_at_ms c));
           ("last_activity_ms", JInt (cv_last_activity_ms c));
           ("turn_count", JInt (cv_turn_count c));
           ("current_context_tokens", JInt (cv_current_context_tokens c));
           ("total_tokens_used", JInt (cv_total_tokens_used c));
           ("messages", JArray (cv_messages c)); ("metadata", cv_metadata c)].

(** The conversion of [load_conversation_from_disk_unlocked]. *)
Definition conversation_of_json (j : json) : exc Conversation :=
  convo_id ← value_string j "convo_id" "";
  user_id ← value_string j "user_id" "";
  creator_pid ← value_int j "creator_pid" (-1);
  state ← value_string j "state" "ACTIVE";
  created_at_ms ← value_long j "created_at_ms" 0;
  last_activity_ms ← value_long j "last_activity_ms" 0;
  turn_count ← value_int j "turn_count" 0;
  current ← value_uint64 j "current_context_tokens" 0;
  total ← value_uint64 j "total_tokens_used" 0;
  metadata ← value_json j "metadata" (JObject []);
  msgs ← value_json j "messages" (JArray []);
  mret {| cv_convo_id := convo_id; cv_user_id := user_id; cv_creator_pid := creator_pid;
          cv_state := state; cv_created_at_ms := created_at_ms;
          cv_last_activity_ms := last_activity_ms; cv_turn_count := turn_count;
          cv_current_context_tokens := current; cv_total_tokens_used := total;
          cv_messages := match msgs with
                         | JArray l => filter (λ m, is_object m = true) l
                         | _ => []
                         end;
          cv_metadata := metadata |}.

(** The ranges of the fields' types; messages are objects. *)
Record conversation_typed (c : Conversation) : Prop := {
  ct_creator_pid : - 2 ^ 31 ≤ cv_creator_pid c ≤ INT_MAX;
  ct_created_at_ms : - 2 ^ 63 ≤ cv_created_at_ms c < 2 ^ 63;
  ct_last_activity_ms : - 2 ^ 63 ≤ cv_last_activity_ms c < 2 ^ 63;
  ct_turn_count : - 2 ^ 31 ≤ cv_turn_count c ≤ INT_MAX;
  ct_current : 0 ≤ cv_current_context_tokens c < 2 ^ 64;
  ct_total : 0 ≤ cv_total_tokens_used c < 2 ^ 64;
  ct_messages : Forall (λ m, is_object m = true) (cv_messages c);
}.

(** ** The interface (istorage_provider.hpp)

    An operation is a function of the provider's state; one that throws leaves it as it
    was. *)

Class IStorageProvider (St : Type) := {
  upsert_conversation : json → St → exc (bool * St);
  get_conversation : string → St → exc (option json);
  delete_conversation : string → Z → St → bool * St;
  delete_all_proc_convos : Z → St → St;
  list_proc_convo_ids : Z → St → list string;
  list_proc_creator_pids : St → list Z;
  upsert_super_user : string → St → bool * St;
  delete_super_user : string → St → bool * St;
  list_super_users : St → list string;
  upsert_session_index_entry : string → string → string → St → bool * St;
  delete_session_index_entry : string → string → St → bool * St;
  list_session_index_entries : string → St → list json;
  append_snapshot : string → json → St → exc (bool * St);
  snapshot_count : string → St → Z;
  delete_snapshots : string → ST St bool;
  delete_snapshots_for_super_user : string → St → bool * St;
}.

(** What the conversations rely on: a provider is a map from ids to conversations, for the
    conversations it can represent, and snapshots are apart from them. *)
Class ConversationStore (St : Type) `{!IStorageProvider St} := {
  storable : Conversation → Prop;
  nameable : string → Prop;
  storable_typed c : storable c → conversation_typed c;
  storable_nameable c : storable c → nameable (cv_convo_id c);
  upsert_get c s s' :
    storable c → upsert_conversation (conversation_json c) s = Ok (true, s') →
    get_conversation (cv_convo_id c) s' = Ok (Some (conversation_json c));
  upsert_other c s b s' id :
    storable c → upsert_conversation (conversation_json c) s = Ok (b, s') →
    nameable id → b = false ∨ id ≠ cv_convo_id c →
    get_conversation id s' = get_conversation id s;
  delete_get id pid s s' :
    nameable id → delete_conversation id pid s = (true, s') →
    get_conversation id s' = Ok None ∨ 0 < pid ∧ get_conversation id s' = get_conversation id s;
  delete_other id pid s b s' id' :
    nameable id → nameable id' → delete_conversation id pid s = (b, s') →
    b = false ∨ id' ≠ id → get_conversation id' s' = get_conversation id' s;
  delete_all_cases pid s id :
    nameable id →
    get_conversation id (delete_all_proc_convos pid s) = get_conversation id s ∨
    get_conversation id (delete_all_proc_convos pid s) = Ok None;
  snapshot_get id sid j s b s' :
    nameable id → nameable sid →
    append_snapshot sid j s = Ok (b, s') → get_conversation id s' = get_conversation id s;
}.

(** What the cleanup of processes relies on besides: a conversation is known by its creator. *)
Class OwnedStore (St : Type) `{!IStorageProvider St, !ConversationStore St} := {
  delete_all_get pid s id :
    nameable id →
    get_conversation id (delete_all_proc_convos pid s) = get_conversation id s ∨
    ∃ j, get_conversation id s = Ok (Some j) ∧ find j "creator_pid" = Some (JInt pid);
  list_ids_complete id pid s j :
    nameable id → get_conversation id s = Ok (Some j) →
    find j "creator_pid" = Some (JInt pid) → id ∈ list_proc_convo_ids pid s;
  list_pids_positive pid s : pid ∈ list_proc_creator_pids s → 0 < pid;
}.

(** ** SQLite *)

(** What [sqlite3_bind_text(..., -1, ...)] takes of a text: up to the first NUL. *)
Fixpoint c_str (s : string) : string :=
  match s with
  | EmptyString => ""
  | String c s => if decide (c = "000"%char) then "" else String c (c_str s)
  end.

(** [sqlite3Utf8Read]: a first byte that is not a lead byte is its own code point. *)
Definition utf8_trans (b : N) : N :=
  if decide (b < 224)%N then b - 192
  else if decide (b < 240)%N then b - 224
  else if decide (b < 248)%N then b - 240
  else if decide (b < 252)%N then b - 248
  else if decide (b < 254)%N then b - 252 else 0.

Definition utf8_fix (c : N) : N :=
  if decide (c < 128 ∨ N.land c 4294965248 = 55296 ∨ N.land c 4294967294 = 65534)%N then 65533
  else c.

(** The code points of a text; [acc] is the one that is being read. *)
Fixpoint code_points (acc : option N) (s : string) : list N :=
  let flush := match acc with Some v => [utf8_fix v] | None => [] end in
  match s with
  | EmptyString => flush
  | String b s =>
      let b := N_of_ascii b in
      match acc with
      | Some v =>
          if decide (N.land b 192 = 128)%N
          then code_points (Some ((N.shiftl v 6 + N.land 63 b) mod 2 ^ 32)%N) s
          else flush ++ (if decide (b < 192)%N then b :: code_points None s
                         else code_points (Some (utf8_trans b)) s)
      | None => if decide (b < 192)%N then b :: code_points None s
                else code_points (Some (utf8_trans b)) s
      end
  end.

(** [sqlite3Tolower] of an ASCII character. *)
Definition tolower_ascii (c : N) : N := if decide (65 ≤ c ≤ 90)%N then (c + 32)%N else c.

Definition same_char (c c2 : N) : bool :=
  bool_decide (c = c2) ||
  bool_decide (tolower_ascii c = tolower_ascii c2 ∧ c < 128 ∧ c2 < 128)%N.

(** [patternCompare] with [likeInfoNorm]: 37 is the percent sign, 95 the underscore. *)
Fixpoint pattern_compare (pattern s : list N) : bool :=
  match pattern with
  | [] => bool_decide (s = [])
  | p :: pattern =>
      if decide (p = 37)%N then
        (fix after (s : list N) : bool :=
           pattern_compare pattern s || match s with _ :: s => after s | [] => false end) s
      else
        match s with
        | c :: s => (same_char p c || bool_decide (p = 95)%N) && pattern_compare pattern s
        | [] => false
        end
  end.

(** [LIKE] *)
Definition sql_like (pattern s : string) : bool :=
  pattern_compare (code_points None pattern) (code_points None s).

Record ConversationRow := {
  row_user_id : string;
  row_creator_pid : Z;
  row_state : string;
  row_created_at_ms : Z;
  row_last_activity_ms : Z;
  row_turn_count : Z;
  row_current_context_tokens : Z;
  row_total_tokens_used : Z;
  row_messages_json : string;
  row_metadata_json : string;
}.

(** The tables of [ensure_schema]: [conversations] by [convo_id], [session_index] by
    [session_id], with the user and the title, [session_snapshots] by session and number. *)
Record Sqlite := {
  conversations : gmap string ConversationRow;
  super_users : gset string;
  session_index : gmap string (string * string);
  session_snapshots : gmap string (gmap Z (Z * string));
}.

Definition with_conversations (f : gmap string ConversationRow → gmap string ConversationRow)
    (db : Sqlite) : Sqlite :=
  {| conversations := f (conversations db); super_users := super_users db;
     session_index := session_index db; session_snapshots := session_snapshots db |}.
Definition with_super_users (f : gset string → gset string) (db : Sqlite) : Sqlite :=
  {| conversations := conversations db; super_users := f (super_users db);
     session_index := session_index db; session_snapshots := session_snapshots db |}.
Definition with_session_index
    (f : gmap string (string * string) → gmap string (string * string)) (db : Sqlite) : Sqlite :=
  {| conversations := conversations db; super_users := super_users db;
     session_index := f (session_index db); session_snapshots := session_snapshots db |}.
Definition with_snapshots (f : gmap string (gmap Z (Z * string)) → gmap string (gmap Z (Z * string)))
    (db : Sqlite) : Sqlite :=
  {| conversations := conversations db; super_users := super_users db;
     session_index := session_index db; session_snapshots := f (session_snapshots db) |}.

(** [ORDER BY] a text column: the order of the bytes. *)
Definition text_lt (a b : string) : bool := negb (String.leb b a).
Definition order_by_text (l : list string) : list string := insertion_sort text_lt l.

Section sqlite.
Context (parse : string → exc json) (dump : json → exc string).
Context (completes : string → Sqlite → bool).

Definition parse_json_or_default (raw : string) (fallback : json) : exc json :=
  if decide (raw = "") then mret fallback
  else match parse raw with
       | Ok j => mret j
       | Throw _ => mret fallback
       | UB => UB
       end.

(** A statement that modifies the database. *)
Definition execute (sql : string) (f : Sqlite → Sqlite) (db : Sqlite) : bool * Sqlite :=
  if completes sql db then (true, f db) else (false, db).

Definition sqlite_upsert_conversation (conversation : json) (db : Sqlite) : exc (bool * Sqlite) :=
  convo_id ← value_string conversation "convo_id" "";
  if decide (convo_id = "") then mret (false, db)
  else
    user_id ← value_string conversation "user_id" "";
    creator_pid ← value_int conversation "creator_pid" (-1);
    state ← value_string conversation "state" "ACTIVE";
    created_at_ms ← value_long conversation "created_at_ms" 0;
    last_activity_ms ← value_long conversation "last_activity_ms" 0;
    turn_count ← value_int conversation "turn_count" 0;
    current ← value_uint64 conversation "current_context_tokens" 0;
    total ← value_uint64 conversation "total_tokens_used" 0;
    messages ← value_json conversation "messages" (JArray []);
    messages_json ← dump messages;
    metadata ← value_json conversation "metadata" (JObject []);
    metadata_json ← dump metadata;
    mret (execute "INSERT INTO conversations" (with_conversations <[c_str convo_id := {|
            row_user_id := c_str user_id; row_creator_pid := creator_pid;
            row_state := c_str state; row_created_at_ms := created_at_ms;
            row_last_activity_ms := last_activity_ms; row_turn_count := turn_count;
            row_current_context_tokens := i64 current; row_total_tokens_used := i64 total;
            row_messages_json := c_str messages_json;
            row_metadata_json := c_str metadata_json |}]>) db).

Definition row_json (convo_id : string) (row : ConversationRow) : exc json :=
  messages ← parse_json_or_default (row_messages_json row) (JArray []);
  metadata ← parse_json_or_default (row_metadata_json row) (JObject []);
  mret (JObject [
    ("convo_id", JString convo_id); ("user_id", JString (row_user_id row));
    ("creator_pid", JInt (row_creator_pid row)); ("state", JString (row_state row));
    ("created_at_ms", JInt (row_created_at_ms row));
    ("last_activity_ms", JInt (row_last_activity_ms row));
    ("turn_count", JInt (row_turn_count row));
    ("current_context_tokens", JInt (u64 (row_current_context_tokens row)));
    ("total_tokens_used", JInt (u64 (row_total_tokens_used row)));
    ("messages", messages); ("metadata", metadata)]).

Definition sqlite_get_conversation (convo_id : string) (db : Sqlite) : exc (option json) :=
  match conversations db !! c_str convo_id with
  | Some row => j ← row_json (c_str convo_id) row; mret (Some j)
  | None => mret None
  end.

(** A statement that deletes nothing completes too. *)
Definition sqlite_delete_conversation (convo_id : string) (creator_pid_hint : Z) (db : Sqlite) :
    bool * Sqlite :=
  execute "DELETE FROM conversations" (with_conversations (λ t,
    match t !! c_str convo_id with
    | Some row =>
        if decide (creator_pid_hint > 0 ∧ row_creator_pid row ≠ creator_pid_hint) then t
        else delete (c_str convo_id) t
    | None => t
    end)) db.

Definition sqlite_delete_all_proc_convos (creator_pid : Z) (db : Sqlite) : Sqlite :=
  (execute "DELETE FROM conversations WHERE creator_pid=?" (with_conversations
     (filter (λ '(_, row), row_creator_pid row ≠ creator_pid))) db).2.

Definition sqlite_list_proc_convo_ids (creator_pid : Z) (db : Sqlite) : list string :=
  order_by_text
    ((map_to_list (filter (λ '(_, row), row_creator_pid row = creator_pid) (conversations db))).*1).

(** [SELECT DISTINCT ... ORDER BY]. *)
Definition sqlite_list_proc_creator_pids (db : Sqlite) : list Z :=
  insertion_sort Z.ltb (elements (list_to_set
    (filter (λ pid, pid > 0) (row_creator_pid <$> (map_to_list (conversations db)).*2))
    : gset Z)).

Definition sqlite_upsert_super_user (super_user : string) (db : Sqlite) : bool * Sqlite :=
  execute "INSERT INTO super_users" (with_super_users (union {[c_str super_user]})) db.

(** [ON DELETE CASCADE] *)
Definition cascade (super_user : string) (db : Sqlite) : Sqlite :=
  with_session_index (filter (λ '(_, (user, _)), user ≠ super_user))
    (with_super_users (λ users, users ∖ {[super_user]}) db).

Definition sqlite_delete_super_user (super_user : string) (db : Sqlite) : bool * Sqlite :=
  let '(done, db) := execute "DELETE FROM super_users" (cascade (c_str super_user)) db in
  if negb done then (false, db)
  else
    let pattern := c_str (super_user +:+ "_s%") in
    let db := (execute "DELETE FROM conversations WHERE convo_id LIKE ?" (with_conversations
                 (filter (λ '(id, _), sql_like pattern id = false))) db).2 in
    let db := (execute "DELETE FROM session_snapshots WHERE session_id LIKE ?" (with_snapshots
                 (filter (λ '(id, _), sql_like pattern id = false))) db).2 in
    (true, db).

Definition sqlite_list_super_users (db : Sqlite) : list string :=
  order_by_text (elements (super_users db)).

(** A transaction: the second statement needs the user that the first one adds. *)
Definition sqlite_upsert_session_index_entry (super_user session_id title : string)
    (db : Sqlite) : bool * Sqlite :=
  let db1 := (sqlite_upsert_super_user super_user db).2 in
  if decide (c_str super_user ∈ super_users db1) then
    let '(done, db2) := execute "INSERT INTO session_index" (with_session_index
                          <[c_str session_id := (c_str super_user, c_str title)]>) db1 in
    if done : bool then (true, db2) else (false, db)
  else (false, db).

Definition sqlite_delete_session_index_entry (super_user session_id : string) (db : Sqlite) :
    bool * Sqlite :=
  execute "DELETE FROM session_index" (with_session_index (delete (c_str session_id))) db.

Definition index_entry (session_id title : string) : json :=
  JObject [("session_id", JString session_id); ("title", JString title)].

Definition sqlite_list_session_index_entries (super_user : string) (db : Sqlite) : list json :=
  (λ session_id, index_entry session_id
     (default "" (snd <$> session_index db !! session_id))) <$>
  order_by_text ((map_to_list
    (filter (λ '(_, (user, _)), user = c_str super_user) (session_index db))).*1).

Definition snapshots_of (session_id : string) (db : Sqlite) : gmap Z (Z * string) :=
  default ∅ (session_snapshots db !! c_str session_id).

(** [COALESCE(MAX(snapshot_n),0)+1] *)
Definition next_snapshot_n (session_id : string) (db : Sqlite) : Z :=
  map_fold (λ n _ m, n `max` m) 0 (snapshots_of session_id db) + 1.

Definition sqlite_append_snapshot (session_id : string) (snapshot : json) (db : Sqlite) :
    exc (bool * Sqlite) :=
  let next_n := i32 (next_snapshot_n session_id db) in
  snapshot_ms ← value_long snapshot "snapshot_ms" 0;
  messages ← value_json snapshot "messages" (JArray []);
  messages ← dump messages;
  match snapshots_of session_id db !! next_n with
  | Some _ => mret (false, db)
  | None =>
      mret (execute "INSERT INTO session_snapshots" (with_snapshots
        <[c_str session_id := <[next_n := (snapshot_ms, c_str messages)]>
                                (snapshots_of session_id db)]>) db)
  end.

Definition sqlite_snapshot_count (session_id : string) (db : Sqlite) : Z :=
  Z.of_nat (size (snapshots_of session_id db)).

Definition sqlite_delete_snapshots (session_id : string) : ST Sqlite bool := λ db,
  let '(done, db) := execute "DELETE FROM session_snapshots"
                       (with_snapshots (delete (c_str session_id))) db in
  (Ok done, db).

Definition sqlite_delete_snapshots_for_super_user (super_user : string) (db : Sqlite) :
    bool * Sqlite :=
  execute "DELETE FROM session_snapshots WHERE session_id LIKE ?" (with_snapshots
    (filter (λ '(id, _), sql_like (c_str (super_user +:+ "_s%")) id = false))) db.

Definition SqliteStorageProvider : IStorageProvider Sqlite := {|
  upsert_conversation := sqlite_upsert_conversation;
  get_conversation := sqlite_get_conversation;
  delete_conversation := sqlite_delete_conversation;
  delete_all_proc_convos := sqlite_delete_all_proc_convos;
  list_proc_convo_ids := sqlite_list_proc_convo_ids;
  list_proc_creator_pids := sqlite_list_proc_creator_pids;
  upsert_super_user := sqlite_upsert_super_user;
  delete_super_user := sqlite_delete_super_user;
  list_super_users := sqlite_list_super_users;
  upsert_session_index_entry := sqlite_upsert_session_index_entry;
  delete_session_index_entry := sqlite_delete_session_index_entry;
  list_session_index_entries := sqlite_list_session_index_entries;
  append_snapshot := sqlite_append_snapshot;
  snapshot_count := sqlite_snapshot_count;
  delete_snapshots := sqlite_delete_snapshots;
  delete_snapshots_for_super_user := sqlite_delete_snapshots_for_super_user |}.
End sqlite.

(** ** The round trip of a conversation *)

Lemma conversation_of_json_json c :
  conversation_typed c → conversation_of_json (conversation_json c) = Ok c.
Proof.
  intros [Hpid Hcr Hla Htc Hcur Htot Hm]. destruct c as [id u pid st cr la tc cur tot ms md].
  simpl in *. unfold conversation_of_json, conversation_json.
  unfold value_string, value_int, value_long, value_uint64, value_json, value. simpl.
  rewrite !i32_id, !i64_id, !u64_id by done. simpl.
  f_equal. f_equal. clear -Hm. induction Hm as [|m l Hm _ IH]; [done|].
  rewrite filter_cons, decide_True by done. by rewrite IH.
Qed.

(** A conversation survives its representation as JSON: whatever its fields hold within
    their types, loading the object that is stored gives the conversation back. *)
Lemma conversation_json_roundtrip c :
  conversation_typed c → conversation_of_json (conversation_json c) = Ok c.
Proof. apply conversation_of_json_json. Qed.

(** ** SQLite keeps conversations *)

Section sqlite_store.
Context (parse : string → exc json) (dump : json → exc string).
Context (completes : string → Sqlite → bool).

Definition no_nul (s : string) : Prop := c_str s = s.

(** A JSON value that its column gives back. *)
Definition column_roundtrip (j : json) : Prop :=
  ∃ text, dump j = Ok text ∧ text ≠ "" ∧ no_nul text ∧ parse text = Ok j.

Definition sqlite_storable (c : Conversation) : Prop :=
  conversation_typed c ∧ cv_convo_id c ≠ "" ∧ no_nul (cv_convo_id c) ∧ no_nul (cv_user_id c) ∧
  no_nul (cv_state c) ∧ column_roundtrip (JArray (cv_messages c)) ∧
  column_roundtrip (cv_metadata c).

#[local] Instance provider : IStorageProvider Sqlite := SqliteStorageProvider parse dump completes.

Hypothesis parse_defined : ∀ text, parse text ≠ UB.

Lemma parse_json_total raw fallback : ∃ j, parse_json_or_default parse raw fallback = Ok j.
Proof.
  unfold parse_json_or_default. case_decide; [by eexists|].
  pose proof (parse_defined raw). destruct (parse raw); [by eexists..|done].
Qed.

Lemma sqlite_upsert_spec c db :
  sqlite_storable c →
  ∃ row, upsert_conversation (conversation_json c) db =
      Ok (execute completes "INSERT INTO conversations"
            (with_conversations <[cv_convo_id c := row]>) db) ∧
    row_json parse (cv_convo_id c) row = Ok (conversation_json c).
Proof.
  intros ([Hpid Hcr Hla Htc Hcur Htot Hm] & Hne & Hid & Hu & Hst & (tm & Hdm & Hnm & Hzm & Hpm) &
    (td & Hdd & Hnd & Hzd & Hpd)).
  destruct c as [id u pid st cr la tc cur tot ms md]. simpl in *.
  unfold upsert_conversation. simpl. unfold sqlite_upsert_conversation.
  unfold value_string, value_int, value_long, value_uint64, value_json, value. simpl.
  rewrite decide_False by done. rewrite !i32_id, !i64_id, !u64_id by done.
  rewrite Hdm. simpl. rewrite Hdd. simpl. rewrite Hid, Hu, Hst, Hzm, Hzd.
  eexists. split; [done|].
  unfold row_json, parse_json_or_default. simpl. rewrite !decide_False, Hpm, Hpd by done. simpl.
  by rewrite !u64_i64.
Qed.

#[export, refine] Instance sqlite_store : ConversationStore Sqlite := {
  storable := sqlite_storable;
  nameable := no_nul }.
Proof.
  - by intros c [? _].
  - by intros c (_ & _ & ? & _).
  - intros c db db' Hc H. destruct (sqlite_upsert_spec c db Hc) as (row & Hup & Hrow).
    rewrite H in Hup. unfold execute in Hup. destruct (completes _ _); [|done].
    injection Hup as ->. destruct Hc as (_ & _ & Hid & _).
    unfold get_conversation. simpl. unfold sqlite_get_conversation. rewrite Hid. simpl.
    rewrite lookup_insert_eq, Hrow. done.
  - intros c db b db' id Hc H Hnm Hid. destruct (sqlite_upsert_spec c db Hc) as (row & Hup & _).
    rewrite H in Hup. injection Hup as Hup. unfold execute in Hup.
    unfold get_conversation. simpl. unfold sqlite_get_conversation. rewrite Hnm.
    destruct (completes _ _); simplify_eq; [|done]. simpl.
    destruct Hid as [?|Hid]; [done|]. by rewrite lookup_insert_ne by done.
  - intros id pid db db' Hnm H. unfold get_conversation, delete_conversation in *.
    simpl in *. unfold sqlite_get_conversation, sqlite_delete_conversation, execute in *.
    rewrite Hnm in *. destruct (completes _ _); simplify_eq. simpl.
    destruct (conversations db !! id) as [row|] eqn:E; [|left; by rewrite E].
    case_decide as Hp; [right; split; [lia|by rewrite E]|left; by rewrite lookup_delete_eq].
  - intros id pid db b db' id' Hnm Hnm' H Hid. unfold get_conversation, delete_conversation in *.
    simpl in *. unfold sqlite_get_conversation, sqlite_delete_conversation, execute in *.
    rewrite Hnm, Hnm' in *. destruct (completes _ _); simplify_eq; [|done]. simpl.
    destruct Hid as [?|Hid]; [done|]. destruct (conversations db !! id); [|done].
    case_decide; [done|]. by rewrite lookup_delete_ne by done.
  - intros pid db id Hnm. unfold get_conversation, delete_all_proc_convos. simpl.
    unfold sqlite_get_conversation, sqlite_delete_all_proc_convos, execute. rewrite Hnm.
    destruct (completes _ _); [|by left]. simpl.
    destruct (filter _ _ !! id) as [row|] eqn:E; [left|by right].
    by apply map_lookup_filter_Some in E as [-> _].
  - intros id sid j db b db' _ _. unfold append_snapshot. simpl. unfold sqlite_append_snapshot.
    intros (ms & _ & H)%exc_bind_Ok_inv. apply exc_bind_Ok_inv in H as (messages & _ & H).
    apply exc_bind_Ok_inv in H as (text & _ & H).
    destruct (snapshots_of sid db !! _); [by injection H as _ <-|].
    unfold execute in H. by destruct (completes _ _); injection H as _ <-.
Defined.

#[export, refine] Instance sqlite_owned_store : OwnedStore Sqlite := {}.
Proof.
  - intros pid db id Hnm. change (c_str id = id) in Hnm.
    unfold get_conversation, delete_all_proc_convos. simpl.
    unfold sqlite_get_conversation, sqlite_delete_all_proc_convos, execute. rewrite Hnm.
    destruct (completes _ _); [|by left]. simpl.
    destruct (conversations db !! id) as [row|] eqn:E.
    + destruct (decide (row_creator_pid row = pid)) as [<-|Hp].
      * right. unfold row_json.
        destruct (parse_json_total (row_messages_json row) (JArray [])) as [m ->].
        destruct (parse_json_total (row_metadata_json row) (JObject [])) as [d ->].
        by eexists.
      * left. by rewrite (map_lookup_filter_Some_2 _ _ id row).
    + left. rewrite (map_lookup_filter_None_2 _ _ id); [done|by left].
  - intros id pid db j Hnm. change (c_str id = id) in Hnm.
    unfold get_conversation, list_proc_convo_ids. simpl.
    unfold sqlite_get_conversation, sqlite_list_proc_convo_ids. rewrite Hnm.
    destruct (conversations db !! id) as [row|] eqn:E; [|done]. intros H Hpid.
    apply exc_bind_Ok_inv in H as (j' & Hj & H). injection H as <-.
    unfold order_by_text. rewrite insertion_sort_perm. apply list_elem_of_fmap.
    exists (id, row). split; [done|]. apply elem_of_map_to_list, map_lookup_filter_Some_2; [done|].
    unfold row_json in Hj. destruct (parse_json_total (row_messages_json row) (JArray []))
      as [m Hm]. rewrite Hm in Hj. destruct (parse_json_total (row_metadata_json row) (JObject []))
      as [d Hd]. rewrite Hd in Hj. injection Hj as <-. by injection Hpid as <-.
  - intros pid db. unfold list_proc_creator_pids. simpl. unfold sqlite_list_proc_creator_pids.
    rewrite insertion_sort_perm, elem_of_elements, elem_of_list_to_set, list_elem_of_filter. lia.
Defined.
End sqlite_store.

(** ** Providers as maps *)

Section refinement.
Context {St : Type} `{ConversationStore St}.

(** The provider's state [s] holds the conversations of [m], and no others. *)
Definition represents (s : St) (m : gmap string Conversation) : Prop :=
  ∀ id, nameable id → get_conversation id s = Ok (conversation_json <$> m !! id).

(** The calls that write conversations, with their outcome, and what they do to the map. *)
Inductive store_call : St → gmap string Conversation → St → gmap string Conversation → Prop :=
  | call_upsert c s b s' m :
      storable c → upsert_conversation (conversation_json c) s = Ok (b, s') →
      store_call s m s' (if b : bool then <[cv_convo_id c := c]> m else m)
  | call_delete id pid s b s' m :
      nameable id → pid ≤ 0 → delete_conversation id pid s = (b, s') →
      store_call s m s' (if b : bool then delete id m else m).

Definition store_step (x y : St * gmap string Conversation) : Prop :=
  store_call x.1 x.2 y.1 y.2.

Lemma store_call_represents s m s' m' :
  store_call s m s' m' → represents s m → represents s' m'.
Proof.
  intros [c s1 b s1' m1 Hc Hup|id pid s1 b s1' m1 Hid Hpid Hdel] Hr id' Hid'.
  - destruct b; [|rewrite <-(Hr id') by done; eapply upsert_other; by eauto].
    destruct (decide (id' = cv_convo_id c)) as [->|Hne].
    + rewrite lookup_insert_eq. by eapply upsert_get.
    + rewrite lookup_insert_ne, <-(Hr id') by done. eapply upsert_other; by eauto.
  - destruct b; [|rewrite <-(Hr id') by done; eapply (delete_other id); by eauto].
    destruct (decide (id' = id)) as [->|Hne].
    + rewrite lookup_delete_eq. destruct (delete_get id pid s1 s1') as [?|[? _]]; [done..|lia].
    + rewrite lookup_delete_ne, <-(Hr id') by done. eapply (delete_other id); by eauto.
Qed.

(** A storage provider refines a finite map of conversations: along any sequence of
    writes and deletions, of which some may fail, a read returns exactly what the map holds
    after those that did not. *)
Lemma store_refines_map s m s' m' :
  represents s m → rtc store_step (s, m) (s', m') →
  represents s' m' ∧
  ∀ id, nameable id →
    match m' !! id with
    | Some c => get_conversation id s' = Ok (Some (conversation_json c))
    | None => get_conversation id s' = Ok None
    end.
Proof.
  intros Hr Hsteps.
  assert (represents s' m') as Hr'.
  { change (represents (s', m').1 (s', m').2). change (represents (s, m).1 (s, m).2) in Hr.
    induction Hsteps as [x|x y z Hxy _ IH]; [done|].
    apply IH. by eapply store_call_represents. }
  split; [done|]. intros id Hid. rewrite (Hr' id Hid). by destruct (m' !! id).
Qed.
End refinement.

(** ** The pattern of a user's sessions *)

Lemma code_points_ascii c s :
  (N_of_ascii c < 128)%N → code_points None (String c s) = N_of_ascii c :: code_points None s.
Proof. intros H. cbn [code_points]. by rewrite decide_True by lia. Qed.

Lemma name_char_ascii c :
  isalnum c || bool_decide (c = "-"%char ∨ c = "_"%char) = true → (N_of_ascii c < 128)%N.
Proof. destruct c as [[] [] [] [] [] [] [] []]; vm_compute; done. Qed.

Lemma name_char_not_percent c :
  isalnum c || bool_decide (c = "-"%char ∨ c = "_"%char) = true → N_of_ascii c ≠ 37%N.
Proof. destruct c as [[] [] [] [] [] [] [] []]; vm_compute; done. Qed.

Lemma sql_like_prefix su pattern s :
  all_name_chars su = true → sql_like (su +:+ pattern) (su +:+ s) = sql_like pattern s.
Proof.
  unfold sql_like. induction su as [|c su IH]; [by rewrite !str_app_nil_l|].
  cbn [all_name_chars]. intros [Hc Hsu]%andb_true_iff. rewrite !str_app_cons.
  pose proof (name_char_ascii c Hc). pose proof (name_char_not_percent c Hc).
  rewrite !code_points_ascii by done. cbn [pattern_compare]. rewrite decide_False by done.
  unfold same_char. rewrite bool_decide_true by done. by apply IH.
Qed.

Lemma pattern_compare_any s : pattern_compare [37%N] s = true.
Proof. induction s as [|c s IH]; [done|]. cbn. destruct s; [done|]. apply IH. Qed.

(** Whatever precedes an [s], it is one code point. *)
Lemma code_points_session c t :
  ∃ x, code_points None (String c (String "s" t)) = x :: 115%N :: code_points None t.
Proof.
  cbn [code_points]. destruct (decide (N_of_ascii c < 192)%N); eexists; reflexivity.
Qed.

Lemma sql_like_session c t : sql_like "_s%" (String c (String "s" t)) = true.
Proof.
  unfold sql_like. destruct (code_points_session c t) as [x ->].
  change (code_points None "_s%") with [95; 115; 37]%N. cbn [pattern_compare].
  rewrite orb_true_r. apply pattern_compare_any.
Qed.

Lemma name_no_nul su t : all_name_chars su = true → c_str (su +:+ t) = su +:+ c_str t.
Proof.
  induction su as [|c su IH]; [by rewrite !str_app_nil_l|]. cbn [all_name_chars].
  intros [Hc Hsu]%andb_true_iff. rewrite !str_app_cons. cbn [c_str].
  rewrite decide_False by (by intros ->). by rewrite IH.
Qed.

(** Deleting a user deletes conversations of others: in the pattern [name_s%] of the
    clean-up the underscore stands for any character and the rest of the name is not
    delimited, so that removing [bob] removes the conversations of [bob_smith] and of
    [bobs], which keep their names and their session lists. *)
Lemma delete_super_user_takes_others completes db db' su c rest (n : Z) title :
  let other := su +:+ String c ("s" +:+ rest) in
  let session := other +:+ "_s" +:+ pretty n in
  all_name_chars su = true →
  (∀ sql db, completes sql db = true) →
  session_index db !! session = Some (other, title) →
  sqlite_delete_super_user completes su db = (true, db') →
  conversations db' !! session = None ∧
  session_index db' !! session = Some (other, title) ∧
  (other ∈ super_users db → other ∈ super_users db').
Proof.
  intros other session Hsu Hok Hidx. unfold sqlite_delete_super_user, execute.
  rewrite !Hok. simpl. intros [= <-]. simpl.
  assert (other ≠ su) as Hne by (by apply str_app_nonempty).
  rewrite (name_no_nul su "_s%") by done.
  pose proof (name_no_nul su "" Hsu) as Hnul. simpl in Hnul. rewrite !str_app_nil_r in Hnul.
  rewrite Hnul. change (c_str "_s%") with "_s%". split_and!.
  - apply map_lookup_filter_None_2. right. intros row _.
    unfold session, other. rewrite str_app_assoc, str_app_cons, sql_like_prefix by done.
    rewrite !str_app_cons, !str_app_nil_l. by rewrite sql_like_session.
  - apply map_lookup_filter_Some_2; [done|]. done.
  - set_solver.
Qed.
