(* ===== verification/JsonStorage.v ===== *)
(** * The provider over JSON files (src/llm/storage/json_storage_provider.cpp)

    The default provider keeps a conversation per file, in a directory of its own, and the
    sessions of the users in an index file.  The file system is a map of files and a set of
    directories. What fails is up to the system ([System]): a call that does not work, a text
    that reaches its file in part, a removal that stops part-way; a directory is listed in any
    order ([readdir]).
    Also the choice of the provider (provider_factory.cpp). *)

From Stdlib Require Import Ascii.
From S2P Require Import Prelude Json StringUtils Sessions Storage.

(** ** Paths

    A path is the list of its components from the root. *)

Abbreviation path := (list string).

Fixpoint resolve_parts (dir : path) (parts : list string) : path :=
  match parts with
  | [] => dir
  | part :: parts =>
      resolve_parts (if decide (part = "" ∨ part = ".") then dir
                     else if decide (part = "..") then removelast dir
                     else dir ++ [part]) parts
  end.

(** [dir / name], as the system resolves it: an absolute name starts again. *)
Definition slash (dir : path) (name : string) : path :=
  resolve_parts (if starts_with name "/" then [] else dir) (split name "/").

Record Disk := { files : gmap path string; dirs : gset path }.

Definition with_files (f : gmap path string → gmap path string) (d : Disk) : Disk :=
  {| files := f (files d); dirs := dirs d |}.
Definition with_dirs (f : gset path → gset path) (d : Disk) : Disk :=
  {| files := files d; dirs := f (dirs d) |}.

Definition exists_ (p : path) (d : Disk) : bool :=
  bool_decide (is_Some (files d !! p) ∨ p ∈ dirs d).
Definition is_directory (p : path) (d : Disk) : bool := bool_decide (p ∈ dirs d).

(** [p] and the directories above it. *)
Definition prefixes (p : path) : list path := (λ n, take n p) <$> seq 1 (length p).

(** The name of [q] in [p]. *)
Definition name_in (p q : path) : option string :=
  if decide (q ≠ [] ∧ removelast q = p) then last q else None.

Definition is_empty (p : path) (d : Disk) : bool :=
  forallb (λ q, bool_decide (name_in p q = None))
    ((map_to_list (files d)).*1 ++ elements (dirs d)).

Definition under (p q : path) : bool := bool_decide (take (length p) q = p).

(** How the system answers. *)
Record System := {
  works : string → path → Disk → bool;        (* whether a call succeeds *)
  reaches : path → string → Disk → nat;       (* the bytes of a text that reach the file *)
  left_over : path → Disk → list path;        (* what a removal that fails has not removed *)
}.

Section disk.
Context (os : System) (readdir : gset string → list string).

(** [None] where a [filesystem_error] is thrown. *)
Definition create_directories (p : path) (d : Disk) : option Disk :=
  if works os "create_directories" p d && forallb (λ q, bool_decide (files d !! q = None)) (prefixes p)
  then Some (with_dirs (union (list_to_set (prefixes p))) d) else None.

(** [std::filesystem::remove], which leaves a directory that is not empty. *)
Definition remove (p : path) (d : Disk) : option Disk :=
  if works os "remove" p d && is_empty p d
  then Some (with_dirs (λ t, t ∖ {[p]}) (with_files (delete p) d)) else None.

(** What is not under [p], and what is left of the rest: a directory stays with what is in it. *)
Definition survives (p : path) (left : list path) (q : path) : bool :=
  negb (under p q) || existsb (under q) left.

(** [std::filesystem::remove_all], [false] where it throws, with a part removed. *)
Definition remove_all (p : path) (d : Disk) : bool * Disk :=
  let done := works os "remove_all" p d in
  let left := if done then [] else left_over os p d in
  (done, {| files := filter (λ '(q, _), survives p left q = true) (files d);
            dirs := filter (λ q, survives p left q = true) (dirs d) |}).

(** [std::ofstream out(path)], which truncates. *)
Definition open_out (p : path) (d : Disk) : option Disk :=
  if works os "open" p d && bool_decide (p ∉ dirs d) && is_directory (removelast p) d
  then Some (with_files <[p := ""]> d) else None.

(** The directories in [p], as [directory_iterator] yields them. *)
Definition subdirectories (p : path) (d : Disk) : list string :=
  readdir (list_to_set (omap (name_in p) (elements (dirs d)))).

(** ** The provider *)

(** The stream operators of the library on a file's text, [None] where they throw. *)
Context (read_json : string → option json) (dump : json → option string).
Context (storage_root_ : path).

(** What of a text is in the file once the stream is closed. *)
Definition arrived (p : path) (text : string) (d : Disk) : string :=
  String.substring 0 (reaches os p text d) text.

(** [out << j.dump(2)] into the file that [open_out] has opened: [dump] throws before anything
    is written; whether the text reaches the file is not looked at. *)
Definition write_json (p : path) (j : json) (d : Disk) : bool * Disk :=
  match open_out p d with
  | None => (false, d)
  | Some d =>
      match dump j with
      | Some text => (true, with_files <[p := arrived p text d]> d)
      | None => (false, d)
      end
  end.

Definition JsonStorageProvider_init (d : Disk) : Disk :=
  match create_directories (slash storage_root_ "users") d with
  | None => d
  | Some d => default d (create_directories (slash storage_root_ "procs") d)
  end.

Definition session_index_path : path := slash storage_root_ "session_index.json".

Definition user_dir (super_user : string) : path := slash (slash storage_root_ "users") super_user.
Definition pid_dir (creator_pid : Z) : path :=
  slash (slash storage_root_ "procs") (pretty creator_pid).

Definition snapshot_path (session_id : string) (n : Z) : path :=
  slash (slash (user_dir (extract_super_user session_id)) session_id)
    (session_id +:+ "_h" +:+ pretty n +:+ ".json").

Definition user_convo_path (session_id : string) : path :=
  slash (slash (user_dir (extract_super_user session_id)) session_id) (session_id +:+ ".json").

Definition process_convo_path (creator_pid : Z) (convo_id : string) : path :=
  slash (slash (pid_dir creator_pid) convo_id) (convo_id +:+ ".json").

(** [None] for the empty path. *)
Definition infer_convo_path (convo_id : string) (creator_pid_hint : Z) : option path :=
  if is_session_id convo_id then Some (user_convo_path convo_id)
  else if decide (creator_pid_hint > 0) then Some (process_convo_path creator_pid_hint convo_id)
  else
    match strip_prefix "proc_" convo_id with
    | Some rest =>
        match find_char "_" rest with
        | Some (digits, _) =>
            match stoi digits with
            | Some creator_pid => Some (process_convo_path creator_pid convo_id)
            | None => None
            end
        | None => None
        end
    | None => None
    end.

(** ** Conversations *)

Definition json_upsert_conversation (conversation : json) (d : Disk) : exc (bool * Disk) :=
  try_catch
    (convo_id ← value_string conversation "convo_id" "";
     creator_pid ← value_int conversation "creator_pid" (-1);
     if decide (convo_id = "") then mret (false, d)
     else
       let p := if decide (creator_pid > 0) then process_convo_path creator_pid convo_id
                else user_convo_path convo_id in
       match create_directories (removelast p) d with
       | None => mret (false, d)
       | Some d => mret (write_json p conversation d)
       end)
    (λ _, mret (false, d)).

Definition json_get_conversation (convo_id : string) (d : Disk) : exc (option json) :=
  mret (infer_convo_path convo_id (-1) ≫= λ p, files d !! p ≫= read_json).

Definition json_delete_conversation (convo_id : string) (creator_pid_hint : Z) (d : Disk) :
    bool * Disk :=
  match infer_convo_path convo_id creator_pid_hint with
  | None => (false, d)
  | Some p =>
      if exists_ p d then
        match remove p d with Some d => (true, d) | None => (false, d) end
      else (true, d)
  end.

Definition json_delete_all_proc_convos (creator_pid : Z) (d : Disk) : Disk :=
  if exists_ (pid_dir creator_pid) d then (remove_all (pid_dir creator_pid) d).2 else d.

Definition json_list_proc_convo_ids (creator_pid : Z) (d : Disk) : list string :=
  subdirectories (pid_dir creator_pid) d.

Definition json_list_proc_creator_pids (d : Disk) : list Z :=
  omap stoi (subdirectories (slash storage_root_ "procs") d).

(** ** The index of the sessions *)

Definition index_users (idx : json) : list (string * json) :=
  match find idx "users" with Some (JObject users) => users | _ => [] end.

Fixpoint load_index_from (paths : list path) (d : Disk) : json :=
  match paths with
  | [] => JObject [("users", JObject [])]
  | p :: paths =>
      match files d !! p ≫= read_json with
      | Some idx =>
          match find idx "users" with
          | Some (JObject _) => idx
          | _ => match set_field "users" (JObject []) idx with
                 | Ok idx => idx
                 | _ => load_index_from paths d
                 end
          end
      | None => load_index_from paths d
      end
  end.

Definition load_index_unlocked (d : Disk) : json :=
  load_index_from
    [session_index_path; slash (removelast storage_root_) "session_index.json"] d.

Definition save_index_unlocked (idx : json) (d : Disk) : bool * Disk :=
  match create_directories (removelast session_index_path) d with
  | None => (false, d)
  | Some d => write_json session_index_path idx d
  end.

(** [idx["users"] = users] *)
Definition with_users (users : list (string * json)) (idx : json) : json :=
  match idx with JObject kvs => JObject (assoc_set "users" (JObject users) kvs) | j => j end.

(** [idx["users"][super_user]] as it is, when it is an array. *)
Definition user_entries (super_user : string) (idx : json) : option (list json) :=
  match assoc super_user (index_users idx) with Some (JArray l) => Some l | _ => None end.

Definition with_entries (super_user : string) (entries : list json) (idx : json) : json :=
  with_users (assoc_set super_user (JArray entries) (index_users idx)) idx.

Definition json_upsert_super_user (super_user : string) (d : Disk) : bool * Disk :=
  match create_directories (user_dir super_user) d with
  | None => (false, d)
  | Some d =>
      match create_directories (slash (slash (removelast storage_root_) "agentfiles") super_user) d with
      | None => (false, d)
      | Some d =>
          let idx := load_index_unlocked d in
          save_index_unlocked
            (match user_entries super_user idx with
             | Some _ => idx
             | None => with_entries super_user [] idx
             end) d
      end
  end.

(** The id of an entry of the index: an object's, or an older entry that is a string. *)
Definition entry_id (entry : json) : exc string :=
  match entry with
  | JObject _ => value_string entry "session_id" ""
  | JString s => mret s
  | _ => mret ""
  end.

(** The loop of [upsert_session_index_entry]: the first entry of the session is replaced, or
    one is added. *)
Fixpoint set_title (session_id title : string) (entries : list json) : exc (list json) :=
  match entries with
  | [] => mret [index_entry session_id title]
  | entry :: entries =>
      sid ← entry_id entry;
      if (is_object entry || is_string entry) && bool_decide (sid = session_id) then
        entry ← match entry with
                | JObject _ => set_field "title" (JString title) entry
                | _ => mret (index_entry session_id title)
                end;
        mret (entry :: entries)
      else entries ← set_title session_id title entries; mret (entry :: entries)
  end.

Definition json_upsert_session_index_entry (super_user session_id title : string) (d : Disk) :
    bool * Disk :=
  let idx := load_index_unlocked d in
  match set_title session_id title (default [] (user_entries super_user idx)) with
  | Ok entries => save_index_unlocked (with_entries super_user entries idx) d
  | _ => (false, d)
  end.

Fixpoint drop_entries (session_id : string) (entries : list json) : exc (bool * list json) :=
  match entries with
  | [] => mret (false, [])
  | entry :: entries =>
      sid ← entry_id entry;
      '(existed, filtered) ← drop_entries session_id entries;
      mret (if decide (sid = session_id) then (true, filtered) else (existed, entry :: filtered))
  end.

(** The outcome of saving is not looked at. *)
Definition json_delete_session_index_entry (super_user session_id : string) (d : Disk) :
    bool * Disk :=
  let idx := load_index_unlocked d in
  match user_entries super_user idx with
  | None => (false, d)
  | Some entries =>
      match drop_entries session_id entries with
      | Ok (existed, filtered) =>
          (existed, (save_index_unlocked (with_entries super_user filtered idx) d).2)
      | _ => (false, d)
      end
  end.

Definition list_index_entries_from_fs (super_user : string) (d : Disk) : list json :=
  (λ sid, index_entry sid "") <$> subdirectories (user_dir super_user) d.

Definition listed_entry (entry : json) : option json :=
  match entry with
  | JObject _ => Some entry
  | JString s => Some (index_entry s "")
  | _ => None
  end.

Definition json_list_session_index_entries (super_user : string) (d : Disk) : list json :=
  match user_entries super_user (load_index_unlocked d) with
  | None => list_index_entries_from_fs super_user d
  | Some entries =>
      match omap listed_entry entries with
      | [] => list_index_entries_from_fs super_user d
      | out => out
      end
  end.

(** [std::unique] on a sorted list. *)
Fixpoint unique (l : list string) : list string :=
  match l with
  | x :: (y :: _) as l => if decide (x = y) then unique l else x :: unique l
  | _ => l
  end.

Definition json_list_super_users (d : Disk) : list string :=
  unique (order_by_text ((index_users (load_index_unlocked d)).*1 ++
                         subdirectories (slash storage_root_ "users") d)).

(** ** Snapshots *)

(** As many numbers as can be taken, and one more. *)
Definition snapshot_fuel (d : Disk) : nat := S (size (files d) + size (dirs d)).

(** The first number from [n] on without a file. *)
Fixpoint free_from (fuel : nat) (session_id : string) (n : Z) (d : Disk) : Z :=
  match fuel with
  | O => n
  | S fuel => if exists_ (snapshot_path session_id n) d
              then free_from fuel session_id (n + 1) d else n
  end.

Definition json_append_snapshot (session_id : string) (snapshot : json) (d : Disk) :
    exc (bool * Disk) :=
  let p := snapshot_path session_id (free_from (snapshot_fuel d) session_id 1 d) in
  mret match create_directories (removelast p) d with
       | None => (false, d)
       | Some d => write_json p snapshot d
       end.

Definition json_snapshot_count (session_id : string) (d : Disk) : Z :=
  free_from (snapshot_fuel d) session_id 1 d - 1.

(** The loop that removes them; nothing catches what [fs::remove] throws. *)
Fixpoint remove_from (fuel : nat) (session_id : string) (n : Z) (deleted : bool) : ST Disk bool :=
  match fuel with
  | O => mret deleted
  | S fuel => λ d,
      if exists_ (snapshot_path session_id n) d then
        match remove (snapshot_path session_id n) d with
        | None => (Throw "filesystem error: cannot remove", d)
        | Some d => remove_from fuel session_id (n + 1) true d
        end
      else (Ok deleted, d)
  end.

Definition json_delete_snapshots (session_id : string) : ST Disk bool := λ d,
  remove_from (snapshot_fuel d) session_id 1 false d.

(** The sessions of a user one after the other, up to one that throws. *)
Fixpoint clear_snapshots (sids : list string) (deleted : bool) (d : Disk) : bool * Disk :=
  match sids with
  | [] => (deleted, d)
  | sid :: sids =>
      match json_delete_snapshots sid d with
      | (Ok _, d) => clear_snapshots sids true d
      | (_, d) => (deleted, d)
      end
  end.

Definition json_delete_snapshots_for_super_user (super_user : string) (d : Disk) : bool * Disk :=
  clear_snapshots (subdirectories (user_dir super_user) d) false d.

(** ** Users *)

Definition assoc_erase (key : string) (kvs : list (string * json)) : list (string * json) :=
  filter (λ kv, kv.1 ≠ key) kvs.

(** The end is for what [remove_all] left. *)
Definition json_delete_super_user (super_user : string) (d : Disk) : bool * Disk :=
  let idx := load_index_unlocked d in
  let existed := bool_decide (is_Some (assoc super_user (index_users idx))) in
  let d := (save_index_unlocked
              (with_users (assoc_erase super_user (index_users idx)) idx) d).2 in
  let drop (p : path) (existed : bool) (d : Disk) : option bool * Disk :=
    if exists_ p d then let '(done, d) := remove_all p d in (if done then Some true else None, d)
    else (Some existed, d) in
  match drop (user_dir super_user) existed d with
  | (None, d) => (existed, d)
  | (Some existed, d) =>
      match drop (slash (slash (removelast storage_root_) "agentfiles") super_user) existed d with
      | (None, d) => (existed, d)
      | (Some existed, d) => clear_snapshots (subdirectories (user_dir super_user) d) existed d
      end
  end.

Definition JsonStorageProvider : IStorageProvider Disk := {|
  upsert_conversation := json_upsert_conversation;
  get_conversation := json_get_conversation;
  delete_conversation := json_delete_conversation;
  delete_all_proc_convos := json_delete_all_proc_convos;
  list_proc_convo_ids := json_list_proc_convo_ids;
  list_proc_creator_pids := json_list_proc_creator_pids;
  upsert_super_user := json_upsert_super_user;
  delete_super_user := json_delete_super_user;
  list_super_users := json_list_super_users;
  upsert_session_index_entry := json_upsert_session_index_entry;
  delete_session_index_entry := json_delete_session_index_entry;
  list_session_index_entries := json_list_session_index_entries;
  append_snapshot := json_append_snapshot;
  snapshot_count := json_snapshot_count;
  delete_snapshots := json_delete_snapshots;
  delete_snapshots_for_super_user := json_delete_snapshots_for_super_user |}.
End disk.

(** ** The choice of the provider (provider_factory.cpp) *)

Inductive Backend := SqliteBackend (sqlite_path : string) | JsonBackend (json_root : string).

Section factory.
Context (open_file : string → option string) (read_json : string → option json).

(** The first file that can be opened. *)
Fixpoint load_storage_config (paths : list string) : json :=
  match paths with
  | [] => JObject []
  | p :: paths =>
      match open_file p with
      | None => load_storage_config paths
      | Some text => default (JObject []) (read_json text)
      end
  end.

Definition make_storage_provider_from_config : exc Backend :=
  let cfg := load_storage_config
               ["config/storage.json"; "../config/storage.json"; "build/config/storage.json"] in
  backend ← value_string cfg "backend" "json";
  if decide (backend = "sqlite") then
    p ← value_string cfg "sqlite_path" ".velix/velix.db"; mret (SqliteBackend p)
  else p ← value_string cfg "json_root" "memory/sessions"; mret (JsonBackend p).
End factory.

(** ** Names that are one component of a path *)

Definition plain (s : string) : Prop :=
  has_char "/"%char s = false ∧ s ≠ "" ∧ s ≠ "." ∧ s ≠ "..".

#[export] Instance plain_dec s : Decision (plain s).
Proof. unfold plain. apply _. Defined.

Lemma split_no_slash token s :
  has_char "/"%char s = false → token +:+ s ≠ "" → split_from "/" token s = [token +:+ s].
Proof.
  revert token. induction s as [|c s IH]; intros token Hs Hne; cbn [split_from].
  { rewrite str_app_nil_r in *. by rewrite decide_False by done. }
  cbn [has_char] in Hs. apply orb_false_iff in Hs as [Hc%bool_decide_eq_false Hs].
  rewrite decide_False by congruence. rewrite IH; [by rewrite snoc_app|done|].
  by rewrite snoc_app.
Qed.

Lemma slash_plain dir name : plain name → slash dir name = dir ++ [name].
Proof.
  intros (Hc & Hne & Hdot & Hdots). unfold slash, split.
  rewrite split_no_slash by done. rewrite str_app_nil_l. cbn [resolve_parts].
  rewrite !decide_False by (done || by intros [?|?]).
  destruct (starts_with name "/") eqn:E; [|done].
  apply bool_decide_eq_true in E as [after Ha]. apply strip_prefix_Some in Ha as ->.
  rewrite has_char_app in Hc. done.
Qed.

Lemma plain_app s t :
  has_char "/"%char s = false → has_char "/"%char t = false → (2 < String.length t)%nat →
  plain (s +:+ t).
Proof.
  intros Hs Ht Hl. pose proof (str_app_length s t) as Hlen.
  split_and!; [by rewrite has_char_app, Hs, Ht|..]; intros E; rewrite E in Hlen; simpl in Hlen; lia.
Qed.

Lemma plain_pid (pid : Z) : plain (pretty pid).
Proof.
  assert (∀ n, 0 ≤ n → plain (pretty n)) as Hpos.
  { intros n Hn. pose proof (pretty_Z_digits n Hn) as Hd.
    split_and!; [by apply digits_no_char|by apply pretty_nonempty|..]; intros E; by rewrite E in Hd. }
  destruct (decide (0 ≤ pid)) as [?|Hp]; [by apply Hpos|].
  destruct pid as [|p|p]; [lia..|]. change (pretty (Z.neg p)) with (String "-" (pretty (Z.pos p))).
  destruct (Hpos (Z.pos p) ltac:(lia)) as (Hc & Hne & Hdot & Hdots).
  unfold plain in *. cbn [has_char]. rewrite Hc. split_and!; [done|done|by intros [=]..].
Qed.

Lemma app_inj_two (dir dir' : path) x x' y y' :
  dir ++ [x; y] = dir' ++ [x'; y'] → dir = dir' ∧ x = x' ∧ y = y'.
Proof.
  rewrite (app_assoc dir [x] [y] : dir ++ [x; y] = _).
  rewrite (app_assoc dir' [x'] [y'] : dir' ++ [x'; y'] = _).
  intros [[-> ->]%app_inj_tail ->]%app_inj_tail. done.
Qed.

Lemma substring_0 s : String.substring 0 0 s = "".
Proof. by destruct s. Qed.

Lemma substring_all n s : (String.length s ≤ n)%nat → String.substring 0 n s = s.
Proof.
  revert n. induction s as [|c s IH]; intros [|n] Hn; simpl in *; [done..|lia|]. f_equal. apply IH. lia.
Qed.

(** ** The provider keeps conversations *)

Section json_store.
Context (os : System) (readdir : gset string → list string).
Context (read_json : string → option json) (dump : json → option string).
Context (storage_root_ : path).

(** A disk on which what is written reaches the file. *)
Definition writes_whole : Prop := ∀ p text d, (String.length text ≤ reaches os p text d)%nat.

#[local] Instance provider : IStorageProvider Disk :=
  JsonStorageProvider os readdir read_json dump storage_root_.
#[local] Abbreviation infer_path := (infer_convo_path storage_root_).

(** The file of a conversation carries its id. *)
Definition home (id : string) (p : path) : Prop := ∃ dir, p = dir ++ [id; id +:+ ".json"].

Lemma home_file dir id : plain id → home id (slash (slash dir id) (id +:+ ".json")).
Proof.
  intros Hid. exists dir.
  rewrite !slash_plain by (done || (apply plain_app; [apply Hid|done|simpl; lia])).
  by rewrite <-app_assoc.
Qed.

Lemma infer_home id hint p : plain id → infer_path id hint = Some p → home id p.
Proof.
  intros Hid. unfold infer_convo_path, user_convo_path, process_convo_path.
  intros H. repeat (case_match; simplify_eq); by apply home_file.
Qed.

Lemma home_inj id id' p : home id p → home id' p → id = id'.
Proof. by intros [dir ->] [dir' (_ & -> & _)%app_inj_two]. Qed.

(** Opening for writing: the file is empty then, the others are as they were. *)
Lemma write_json_files p j d b d' :
  write_json os dump p j d = (b, d') →
  (b = true ∧ ∃ text d1, dump j = Some text ∧ files d' = <[p := arrived os p text d1]> (files d)) ∨
  (b = false ∧ (files d' = files d ∨ dump j = None ∧ files d' = <[p := ""]> (files d))).
Proof.
  unfold write_json, open_out. destruct (_ && _); [|intros [= <- <-]; right; by auto].
  destruct (dump j) as [text|]; intros [= <- <-]; [left|right]; simpl; [|by auto].
  split; [done|]. eexists text, _. split; [done|]. by rewrite insert_insert_eq.
Qed.

Lemma create_directories_files p d d' : create_directories os p d = Some d' → files d' = files d.
Proof. unfold create_directories. case_match; intros [= <-]. done. Qed.

Lemma remove_files p d d' :
  remove os p d = Some d' → files d' = delete p (files d).
Proof. unfold remove. case_match; intros [= <-]. done. Qed.

Lemma get_files id d d' :
  (∀ p, infer_path id (-1) = Some p → files d' !! p = files d !! p) →
  get_conversation id d' = get_conversation id d.
Proof.
  intros H. unfold get_conversation. simpl. unfold json_get_conversation.
  destruct (infer_path id (-1)) as [p|]; [|done]. simpl. by rewrite H.
Qed.

(** Where a conversation of [pid], or of a user, is written. *)
Definition written_path (pid : Z) (id : string) : path :=
  if decide (pid > 0) then process_convo_path storage_root_ pid id
  else user_convo_path storage_root_ id.

Lemma written_home pid id : plain id → home id (written_path pid id).
Proof. intros. unfold written_path. case_decide; by apply home_file. Qed.

(** An id that is a name, with a user that is one. *)
Definition file_name (id : string) : Prop := plain id ∧ plain (extract_super_user id).

(** What the provider represents: an id that is a file name, that leads back to where the
    conversation was written, and a content whose text, when it can be made, is read back the
    same, and not at all when it is cut short. *)
Record json_storable (c : Conversation) : Prop := {
  js_typed : conversation_typed c;
  js_name : file_name (cv_convo_id c);
  js_found : infer_path (cv_convo_id c) (-1) = Some (written_path (cv_creator_pid c) (cv_convo_id c));
  js_text text : dump (conversation_json c) = Some text → read_json text = Some (conversation_json c);
  js_cut text n : dump (conversation_json c) = Some text → (n < String.length text)%nat →
    read_json (String.substring 0 n text) = None;
}.

Lemma json_upsert_spec c d b d' :
  conversation_typed c → cv_convo_id c ≠ "" →
  upsert_conversation (conversation_json c) d = Ok (b, d') →
  let p := written_path (cv_creator_pid c) (cv_convo_id c) in
  (b = true ∧ ∃ text d1, dump (conversation_json c) = Some text ∧
     files d' = <[p := arrived os p text d1]> (files d)) ∨
  (b = false ∧ (files d' = files d ∨
     dump (conversation_json c) = None ∧ files d' = <[p := ""]> (files d))).
Proof.
  intros Ht Hne. unfold upsert_conversation. simpl. unfold json_upsert_conversation.
  unfold value_string, value_int, value. simpl.
  rewrite i32_id by apply Ht. rewrite decide_False by done.
  fold (written_path (cv_creator_pid c) (cv_convo_id c)).
  destruct (create_directories _ _ _) as [d1|] eqn:Hd; simpl; intros [= H].
  - rewrite <-(create_directories_files _ _ _ Hd). by apply write_json_files.
  - right. simplify_eq. by auto.
Qed.
(** A path that is not a home of [id] does not matter to it. *)
Lemma home_ne id id' p p' : home id p → home id' p' → id ≠ id' → p ≠ p'.
Proof. intros Hp Hp' Hne ->. apply Hne. by eapply home_inj. Qed.

Lemma get_insert_other id id' p text d d' :
  plain id' → home id p → id' ≠ id → files d' = <[p := text]> (files d) →
  get_conversation id' d' = get_conversation id' d.
Proof.
  intros Hid' Hp Hne Hf. apply get_files. intros p' Hp'. rewrite Hf, lookup_insert_ne; [done|].
  eapply home_ne; [exact Hp|by eapply infer_home|by apply not_eq_sym].
Qed.

Lemma not_exists p d : exists_ p d = false → files d !! p = None.
Proof.
  unfold exists_. intros H%bool_decide_eq_false. apply eq_None_not_Some.
  intros ?. apply H. by left.
Qed.

Lemma delete_conversation_files id pid d b d' :
  plain id → delete_conversation id pid d = (b, d') →
  (b = false ∧ files d' = files d) ∨
  (b = true ∧ ∃ p, infer_path id pid = Some p ∧ files d' = delete p (files d)).
Proof.
  intros Hid. unfold delete_conversation. simpl. unfold json_delete_conversation.
  destruct (infer_path id pid) as [p|] eqn:Hp; [|intros [= <- <-]; by left].
  destruct (exists_ p d) eqn:He.
  - destruct (remove os p d) as [d1|] eqn:Hr; intros [= <- <-]; [|by left].
    right. split; [done|]. exists p. split; [done|]. by apply remove_files.
  - intros [= <- <-]. right. split; [done|]. exists p. split; [done|].
    by rewrite delete_id by (by apply not_exists).
Qed.

(** The hint only matters to an id that is not a session's. *)
Lemma infer_no_hint id pid p :
  infer_path id pid = Some p → infer_path id (-1) = Some p ∨ 0 < pid.
Proof.
  unfold infer_convo_path. destruct (is_session_id id); [by left|].
  destruct (decide (pid > 0)); [right; lia|]. by left.
Qed.

Lemma infer_none id pid : infer_path id pid = None → infer_path id (-1) = None.
Proof.
  unfold infer_convo_path. destruct (is_session_id id); [done|].
  by destruct (decide (pid > 0)).
Qed.

Lemma get_no_file id d :
  (∀ p, infer_path id (-1) = Some p → files d !! p = None) → get_conversation id d = Ok None.
Proof.
  intros H. unfold get_conversation. simpl. unfold json_get_conversation.
  destruct (infer_path id (-1)) as [p|]; [|done]. simpl. by rewrite H.
Qed.

Lemma pretty_no_slash n : 0 ≤ n → has_char "/"%char (pretty n) = false.
Proof. intros. apply digits_no_char; [by apply pretty_Z_digits|done]. Qed.

Lemma snapshot_name_plain sid n : plain sid → 0 ≤ n → plain (sid +:+ "_h" +:+ pretty n +:+ ".json").
Proof.
  intros Hsid Hn. apply plain_app; [apply Hsid|..].
  - rewrite !has_char_app, pretty_no_slash by done. done.
  - rewrite !str_app_length. simpl. lia.
Qed.

Lemma snapshot_path_eq sid n :
  plain sid → 0 ≤ n →
  snapshot_path storage_root_ sid n =
    user_dir storage_root_ (extract_super_user sid) ++
      [sid; sid +:+ "_h" +:+ pretty n +:+ ".json"].
Proof.
  intros Hsid Hn. unfold snapshot_path.
  rewrite !slash_plain by (done || by apply snapshot_name_plain). by rewrite <-app_assoc.
Qed.

(** The file of a snapshot is not that of a conversation. *)
Lemma snapshot_not_home sid n id p :
  plain sid → 0 ≤ n → home id p → snapshot_path storage_root_ sid n ≠ p.
Proof.
  intros Hsid Hn [dir ->]. rewrite snapshot_path_eq by done. intros H.
  apply app_inj_two in H as (_ & -> & Hx).
  assert (String.length (id +:+ "_h" +:+ pretty n +:+ ".json") = String.length (id +:+ ".json"))
    as Hl by (by rewrite Hx).
  rewrite !str_app_length in Hl. simpl in Hl. lia.
Qed.

Lemma free_from_ge fuel sid n d : n ≤ free_from storage_root_ fuel sid n d.
Proof.
  revert n. induction fuel as [|fuel IH]; intros n; simpl; [lia|].
  destruct (exists_ _ _); [|lia]. pose proof (IH (n + 1)). lia.
Qed.

Hypothesis whole : writes_whole.

Lemma arrived_whole p text d : arrived os p text d = text.
Proof. apply substring_all, whole. Qed.

#[export, refine] Instance json_store : ConversationStore Disk := {
  storable := λ c, json_storable c ∧ is_Some (dump (conversation_json c));
  nameable := file_name }.
Proof.
  - by intros c [[]].
  - by intros c [[]].
  - intros c d d' [[Ht [Hp _] Hfound Hread _] _] Hup.
    apply json_upsert_spec in Hup as [(_ & text & d1 & Hdump & Hf)|[? _]]; [|done..|apply Hp].
    rewrite arrived_whole in Hf. apply Hread in Hdump as Htext. unfold get_conversation. simpl. unfold json_get_conversation. rewrite Hfound. simpl.
    rewrite Hf, lookup_insert_eq. simpl. by rewrite Htext.
  - intros c d b d' id [[Ht [Hp _] _ _ _] [text Hdump]] Hup [Hid _] Hne.
    apply json_upsert_spec in Hup as [(-> & text' & d1 & _ & Hf)|[-> [Hf|[Hdump' _]]]];
      [|by apply get_files; intros; rewrite Hf|congruence|done|apply Hp].
    destruct Hne as [?|Hne]; [done|].
    eapply (get_insert_other (cv_convo_id c)); [done|by apply (written_home (cv_creator_pid c))|done..].
  - intros id pid d d' [Hid _] Hdel.
    apply delete_conversation_files in Hdel as [[? _]|(_ & p & Hp & Hf)]; [done| |done].
    destruct (infer_no_hint _ _ _ Hp) as [Hp'|Hpid].
    + left. apply get_no_file. intros q Hq. rewrite Hp' in Hq. injection Hq as <-.
      by rewrite Hf, lookup_delete_eq.
    + destruct (infer_path id (-1)) as [q|] eqn:Hq.
      * destruct (decide (q = p)) as [->|Hne].
        -- left. apply get_no_file. intros ? [= <-]%(transitivity (eq_sym Hq)).
           by rewrite Hf, lookup_delete_eq.
        -- right. split; [done|]. apply get_files. intros ? Hq'. rewrite Hq in Hq'.
           injection Hq' as <-. by rewrite Hf, lookup_delete_ne by done.
      * left. apply get_no_file. intros ? Hq'. congruence.
  - intros id pid d b d' id' [Hid _] [Hid' _] Hdel Hne.
    apply delete_conversation_files in Hdel as [[_ Hf]|(-> & p & Hp & Hf)];
      [by apply get_files; intros; rewrite Hf| |done].
    destruct Hne as [?|Hne]; [done|]. apply get_files. intros q Hq.
    rewrite Hf, lookup_delete_ne; [done|].
    eapply (home_ne id id'); [by eapply infer_home..|by apply not_eq_sym].
  - intros pid d id [Hid _]. unfold delete_all_proc_convos. simpl. unfold json_delete_all_proc_convos.
    destruct (exists_ _ _); [|by left]. simpl.
    unfold get_conversation. simpl. unfold json_get_conversation.
    destruct (infer_path id (-1)) as [p|]; [|by left]. simpl.
    destruct (filter _ _ !! p) as [text|] eqn:E; [left|by right].
    by apply map_lookup_filter_Some in E as [-> _].
  - intros id sid j d b d' [Hid _] [Hsid _]. unfold append_snapshot. simpl. unfold json_append_snapshot.
    set (n := free_from _ _ _ _ _). pose proof (free_from_ge (snapshot_fuel d) sid 1 d) as Hn.
    fold n in Hn. intros [= H]. apply get_files. intros p Hp%infer_home; [|done].
    pose proof (snapshot_not_home sid n id p Hsid ltac:(lia) Hp) as Hne.
    destruct (create_directories _ _ _) as [d1|] eqn:Hc; [|by injection H as _ <-].
    rewrite <-(create_directories_files _ _ _ Hc).
    apply write_json_files in H as [(_ & text & d2 & _ & ->)|(_ & [->|[_ ->]])];
      by rewrite ?lookup_insert_ne by done.
Defined.
End json_store.
