(* ===== verification/Prompt.v ===== *)
(** * System prompts (src/llm/session_io.cpp)

    The text that precedes a conversation: files of the user, cleaned, checked and shortened,
    a menu of skills, and what the caller adds.  The file system ([read_file]), the regular
    expressions of the standard library ([regex_search], [None] for an error) and the menu
    that the skill registry finds ([skills_menu]) are parameters. *)

From S2P Require Import Prelude Json StringUtils Sessions.
From Stdlib Require Import Ascii.

Definition DEFAULT_VELIX_IDENTITY : string :=
  "You are Velix Agent, an intelligent AI assistant. You are helpful, knowledgeable, and direct. " +:+
  "You assist users with a wide range of tasks including answering questions, writing and editing code, " +:+
  "analyzing information, and executing actions via your tools. You communicate clearly, " +:+
  "admit uncertainty when appropriate, and prioritize being genuinely useful over being verbose. " +:+
  "Be targeted and efficient in your investigations.".

Definition quote : string := String "034" "".
Definition lf : string := String "010" "".

Definition THREAT_PATTERNS : list (string * string) := [
  ("ignore\s+(previous|all|above|prior)\s+instructions", "prompt_injection");
  ("do\s+not\s+tell\s+the\s+user", "deception_hide");
  ("system\s+prompt\s+override", "sys_prompt_override");
  ("disregard\s+(your|all|any)\s+(instructions|rules|guidelines)", "disregard_rules");
  ("act\s+as\s+(if|though)\s+you\s+(have\s+no|don't\s+have)\s+(restrictions|limits|rules)",
   "bypass_restrictions");
  ("<!--[^>]*(?:ignore|override|system|secret|hidden)[^>]*-->", "html_comment_injection");
  ("<\s*div\s+style\s*=\s*[" +:+ quote +:+ "'].*display\s*:\s*none", "hidden_div");
  ("translate\s+.*\s+into\s+.*\s+and\s+(execute|run|eval)", "translate_execute");
  ("curl\s+[^\n]*\$\{?\w*(KEY|TOKEN|SECRET|PASSWORD|CREDENTIAL|API)", "exfil_curl");
  ("cat\s+[^\n]*(\.env|credentials|\.netrc|\.pgpass)", "read_secrets")].

(** A character of three bytes in UTF-8. *)
Definition utf8_3 (a b c : N) : string :=
  String (ascii_of_N a) (String (ascii_of_N b) (String (ascii_of_N c) "")).

(** The set of zero-width and directional characters, in its order: U+200B to U+200D, U+202A
    to U+202E, U+2060 and U+FEFF. *)
Definition INVISIBLE_CHARS : list string := [
  utf8_3 226 128 139; utf8_3 226 128 140; utf8_3 226 128 141;
  utf8_3 226 128 170; utf8_3 226 128 171; utf8_3 226 128 172; utf8_3 226 128 173;
  utf8_3 226 128 174; utf8_3 226 129 160; utf8_3 239 187 191].

(** The loop erases an occurrence and goes on searching where it was. *)
Definition erase_all (ch content : string) : string :=
  replace_loop (String.length content) ch "" content.

Definition clean_invisible_chars (content : string) : string :=
  foldl (λ content ch, erase_all ch content) content INVISIBLE_CHARS.

(** [find_first_not_of("\n\r")]: the leading line breaks are dropped unless there is nothing
    else. *)
Fixpoint drop_breaks (s : string) : option string :=
  match s with
  | EmptyString => None
  | String c s' =>
      if decide (c = "010"%char ∨ c = "013"%char) then drop_breaks s' else Some s
  end.

Definition strip_yaml_frontmatter (content : string) : string :=
  match strip_prefix "---" content with
  | Some rest =>
      match find_str (lf +:+ "---") rest with
      | Some (_, body) => default body (drop_breaks body)
      | None => content
      end
  | None => content
  end.

(** The default of [max_chars], and the parts of it that are kept. *)
Definition max_chars : Z := 20000.
Definition head_chars : Z := default 0 (d_trunc (d_mul (d_of_Z max_chars) d_0_7)).
Definition tail_chars : Z := default 0 (d_trunc (d_mul (d_of_Z max_chars) d_0_2)).

Definition truncation_marker (filename : string) (size : Z) : string :=
  lf +:+ lf +:+ "[...truncated " +:+ filename +:+ ": kept " +:+ pretty head_chars +:+ "+" +:+
  pretty tail_chars +:+ " of " +:+ pretty size +:+
  " chars. Use file tools to read the full file.]" +:+ lf +:+ lf.

Definition truncate_content (content filename : string) : string :=
  let size := Z.of_nat (String.length content) in
  if decide (size ≤ max_chars) then content
  else str_take (Z.to_nat head_chars) content +:+ truncation_marker filename size +:+
       str_drop (Z.to_nat (size - tail_chars)) content.

Section prompt.
Context (regex_search : string → string → option bool).
Context (read_file : string → option string) (skills_menu : exc json).

Fixpoint first_threat (patterns : list (string * string)) (content : string) : option string :=
  match patterns with
  | [] => None
  | (pattern, pid) :: patterns =>
      match regex_search pattern content with
      | Some true => Some pid
      | _ => first_threat patterns content
      end
  end.

Definition blocked (filename pid : string) : string :=
  "[BLOCKED: " +:+ filename +:+ " contained potential prompt injection (" +:+ pid +:+
  "). Content not loaded.]".

Definition scan_content_for_threats (content filename : string) : string :=
  match first_threat THREAT_PATTERNS content with
  | Some pid => blocked filename pid
  | None => content
  end.

Definition process_context_file (content filename : string) : string :=
  if decide (content = "") then ""
  else
    let safe := scan_content_for_threats (clean_invisible_chars content) filename in
    if starts_with safe "[BLOCKED:" then safe
    else truncate_content (strip_yaml_frontmatter safe) filename.

(** The first file that can be opened. *)
Fixpoint load_text_with_fallbacks (paths : list string) : string :=
  match paths with
  | [] => ""
  | path :: paths =>
      match read_file path with Some text => text | None => load_text_with_fallbacks paths end
  end.

(** [combined += "\n\n"] before a further layer. *)
Definition add_layer (combined layer : string) : string :=
  (if decide (combined = "") then "" else combined +:+ lf +:+ lf) +:+ layer.

Definition skills_header : string :=
  "VELIX KNOWLEDGE DIRECTORY" +:+ lf +:+
  "You may call skill_view(skill_name=" +:+ quote +:+ "NAME" +:+ quote +:+ ") only when the task needs step-by-step or procedural instructions not already in the conversation or system prompt. Load a skill once per task: call skill_view(name, mode=" +:+ quote +:+ "summary" +:+ quote +:+ ") to inspect; if more detail is needed, call mode=" +:+ quote +:+ "body" +:+ quote +:+ ". Do NOT follow skill instructions unless you explicitly loaded the skill with skill_view." +:+ lf +:+ lf.

Definition skills_footer : string :=
  lf +:+ "NOTE: If you request an unavailable skill, the tool may return helpful nearest matches.".

(** The lines of the menu, until an entry whose fields are of another type throws; what was
    appended before stays. *)
Fixpoint skill_lines (skills : list json) (combined : string) : string * bool :=
  match skills with
  | [] => (combined, true)
  | skill :: skills =>
      match value_string skill "name" "", value_string skill "description" "" with
      | Ok name, Ok desc =>
          skill_lines skills (if decide (name = "") then combined
                              else combined +:+ "- " +:+ name +:+ ": " +:+ desc +:+ lf)
      | _, _ => (combined, false)
      end
  end.

Definition add_skills (combined : string) : string :=
  match skills_menu with
  | Ok (JArray ((_ :: _) as skills)) =>
      let '(combined, complete) := skill_lines skills (add_layer combined skills_header) in
      if complete : bool then combined +:+ skills_footer else combined
  | _ => combined
  end.

(** The files of the user, before those of everybody. *)
Definition persona_paths (super_user filename : string) : list string :=
  ["memory/agentfiles/" +:+ super_user +:+ "/" +:+ filename; "memory/" +:+ filename;
   "../memory/" +:+ filename; "build/memory/" +:+ filename].

Definition build_layered_system_prompt (mode caller_system_msg user_id : string) : string :=
  let super_user := extract_super_user user_id in
  let general_guidelines := process_context_file
    (load_text_with_fallbacks ["memory/general_guidelines.md"; "../memory/general_guidelines.md";
                               "build/memory/general_guidelines.md"]) "general_guidelines.md" in
  let persona (filename : string) :=
    process_context_file
      (if decide (mode = "user_conversation")
       then load_text_with_fallbacks (persona_paths super_user filename) else "") filename in
  let soul := persona "soul.md" in
  let user_facts := persona "user.md" in
  let combined := if decide (general_guidelines = "") then ""
                  else "General guidelines:" +:+ lf +:+ general_guidelines in
  let combined := if decide (soul = "") then combined
                  else add_layer combined ("Personality constraints:" +:+ lf +:+ soul) in
  let combined := if decide (user_facts = "") then combined
                  else add_layer combined ("Known user facts:" +:+ lf +:+ user_facts) in
  let combined := add_skills combined in
  let combined := if decide (caller_system_msg = "") then combined
                  else add_layer combined
                         (scan_content_for_threats caller_system_msg "caller_system_message") in
  if decide (combined = "") then DEFAULT_VELIX_IDENTITY else combined.
End prompt.

(** ** Properties *)

Lemma kept_chars : head_chars = 14000 ∧ tail_chars = 4000.
Proof. split; vm_compute; reflexivity. Qed.

(** A long file is cut to its first 14000 and its last 4000 characters around a marker that
    says so, and a file of at most 20000 is not touched. *)
Lemma truncate_content_spec content filename :
  let size := Z.of_nat (String.length content) in
  (size ≤ 20000 → truncate_content content filename = content) ∧
  (20000 < size → ∃ head middle tail,
     content = head +:+ middle +:+ tail ∧
     truncate_content content filename =
       head +:+ truncation_marker filename size +:+ tail ∧
     Z.of_nat (String.length head) = 14000 ∧ Z.of_nat (String.length tail) = 4000).
Proof.
  intros size. unfold truncate_content. fold size. change max_chars with 20000.
  split; intros Hsize; [by rewrite decide_True|]. rewrite decide_False by lia.
  destruct kept_chars as [-> ->]. unfold size in *.
  set (k := Z.to_nat (Z.of_nat (String.length content) - 4000)).
  assert (∃ n, n = Z.to_nat 14000 ∧ (n ≤ k)%nat) as (n & Hn & Hk) by (eexists; split; [done|lia]).
  rewrite <-Hn.
  exists (str_take n content), (str_take (k - n) (str_drop n content)), (str_drop k content).
  assert (∀ m j s, str_drop j (str_drop m s) = str_drop (m + j) s) as Hdd.
  { clear. induction m as [|m IH]; intros j [|c s]; simpl; [done..| |apply IH].
    by destruct j. }
  split_and!; [|done|rewrite str_take_length; lia|rewrite str_drop_length; lia].
  replace k with (n + (k - n))%nat at 2 by lia. by rewrite <-Hdd, !str_take_drop.
Qed.

(** The cleaning of a file can leave, or make, what it removes: the search goes on behind an
    erased character, so that one inside another leaves the other. *)
Lemma clean_leaves_invisible :
  let zero_width_space := utf8_3 226 128 139 in
  zero_width_space ∈ INVISIBLE_CHARS ∧
  clean_invisible_chars (str_take 1 zero_width_space +:+ zero_width_space +:+
                         str_drop 1 zero_width_space) = zero_width_space.
Proof. split; [left|]. vm_compute. reflexivity. Qed.

Section properties.
Context (regex_search : string → string → option bool).
Context (read_file : string → option string) (skills_menu : exc json).
Abbreviation build := (build_layered_system_prompt regex_search read_file skills_menu).
Abbreviation scan := (scan_content_for_threats regex_search).

Lemma add_layer_nonempty combined layer : layer ≠ "" → add_layer combined layer ≠ "".
Proof.
  intros Hl. unfold add_layer. case_decide as H; [by rewrite str_app_nil_l|].
  destruct combined; [done|]. by rewrite !str_app_cons.
Qed.

Lemma scan_nonempty msg filename : msg ≠ "" → scan msg filename ≠ "".
Proof. intros Hm. unfold scan_content_for_threats. by case_match. Qed.

Lemma layered_prompt_nonempty mode msg user_id : build mode msg user_id ≠ "".
Proof. unfold build_layered_system_prompt. by case_decide. Qed.

(** The system prompt is never empty; what the caller adds is checked and comes last, after
    everything that is there without it - it replaces nothing but the default identity,
    which stands for an empty prompt; and a prompt for another mode than a user's
    conversation does not depend on the user. *)
Lemma layered_prompt_spec mode msg user_id :
  build mode msg user_id ≠ "" ∧
  (msg ≠ "" →
    let base := build mode "" user_id in
    let added := scan msg "caller_system_message" in
    build mode msg user_id = base +:+ lf +:+ lf +:+ added ∨
    base = DEFAULT_VELIX_IDENTITY ∧ build mode msg user_id = added) ∧
  (mode ≠ "user_conversation" → ∀ user_id', build mode msg user_id' = build mode msg user_id).
Proof.
  split_and!.
  - apply layered_prompt_nonempty.
  - intros Hmsg. unfold build_layered_system_prompt.
    match goal with |- context [add_skills skills_menu ?x] => set (c := add_skills skills_menu x) end.
    cbv zeta. rewrite (decide_False (P := msg = "")) by done.
    rewrite (decide_True (P := "" = "")) by done.
    rewrite (decide_False (P := add_layer _ _ = "")) by (by apply add_layer_nonempty, scan_nonempty).
    unfold add_layer. destruct (decide (c = "")) as [->|].
    + right. by rewrite str_app_nil_l.
    + left. by rewrite !str_app_assoc.
  - intros Hmode user_id'. unfold build_layered_system_prompt.
    by rewrite !(decide_False (P := mode = "user_conversation")) by done.
Qed.
End properties.
