(* ===== verification/Conversations.v ===== *)
(** * Conversations (src/llm/session_io.cpp)

    [SessionIO]: a cache of conversations over a storage provider, the resolution of a
    request to a conversation, the messages that a request adds and the messages that are
    sent.  The provider is an instance of [IStorageProvider], as it always is in the
    scheduler and the supervisor; the branches for a missing provider are not modelled.  An
    operation reads the clock once ([now]); creating directories and logging have no effect
    here.  Each operation holds the mutex for its whole body, but for
    [build_conversation_messages_safely], whose two critical sections are two definitions. *)

From Stdlib Require Import Ascii.
From S2P Require Import Prelude Json StringUtils Config LlmRequest Adapters Sessions Storage Prompt.

(** ** Messages *)

Definition is_valid_role (role : string) : bool :=
  bool_decide (role ∈ ["system"; "user"; "assistant"; "tool"; "agent"]).

Definition canonicalize_role (role : string) : string :=
  if decide (role = "agent") then "assistant" else role.

Definition estimate_text_tokens (text : string) : Z :=
  Z.max 1 (Z.of_nat (String.length text) / 3).

(** [tool_calls], where it is an array with elements. *)
Definition calls_of (j : json) : option json :=
  match find j "tool_calls" with
  | Some calls => if is_nonempty_array calls then Some calls else None
  | None => None
  end.

(** [tool_call_id], where it is a text that is not empty. *)
Definition call_id_of (j : json) : option json :=
  match find j "tool_call_id" with
  | Some (JString id) => if decide (id = "") then None else Some (JString id)
  | _ => None
  end.

Definition new_message (now : Z) (role content : string) (extra_fields : json) : json :=
  JObject ([("role", JString role); ("content", JString content)] ++
           option_list (pair "tool_call_id" <$> call_id_of extra_fields) ++
           option_list (pair "tool_calls" <$> calls_of extra_fields) ++
           [("timestamp_ms", JInt now)]).

Definition set_messages (messages : list json) (c : Conversation) : Conversation :=
  {| cv_convo_id := cv_convo_id c; cv_user_id := cv_user_id c;
     cv_creator_pid := cv_creator_pid c; cv_state := cv_state c;
     cv_created_at_ms := cv_created_at_ms c; cv_last_activity_ms := cv_last_activity_ms c;
     cv_turn_count := cv_turn_count c;
     cv_current_context_tokens := cv_current_context_tokens c;
     cv_total_tokens_used := cv_total_tokens_used c; cv_messages := messages;
     cv_metadata := cv_metadata c |}.

Definition set_state (state : string) (c : Conversation) : Conversation :=
  {| cv_convo_id := cv_convo_id c; cv_user_id := cv_user_id c;
     cv_creator_pid := cv_creator_pid c; cv_state := state;
     cv_created_at_ms := cv_created_at_ms c; cv_last_activity_ms := cv_last_activity_ms c;
     cv_turn_count := cv_turn_count c;
     cv_current_context_tokens := cv_current_context_tokens c;
     cv_total_tokens_used := cv_total_tokens_used c; cv_messages := cv_messages c;
     cv_metadata := cv_metadata c |}.

Definition add_message (now : Z) (msg : json) (token_delta : Z) (c : Conversation) :
    Conversation :=
  {| cv_convo_id := cv_convo_id c; cv_user_id := cv_user_id c;
     cv_creator_pid := cv_creator_pid c; cv_state := cv_state c;
     cv_created_at_ms := cv_created_at_ms c; cv_last_activity_ms := now;
     cv_turn_count := cv_turn_count c + 1;
     cv_current_context_tokens := u64 (cv_current_context_tokens c + token_delta);
     cv_total_tokens_used := u64 (cv_total_tokens_used c + token_delta);
     cv_messages := cv_messages c ++ [msg]; cv_metadata := cv_metadata c |}.

Definition token_delta (tokens_used : Z) (content : string) : Z :=
  if decide (tokens_used > 0) then tokens_used else estimate_text_tokens content.

(** [None] is [false]: the conversation is as it was. *)
Definition append_message_unlocked (now : Z) (c : Conversation) (role content : string)
    (tokens_used : Z) (extra_fields : json) : exc (option Conversation) :=
  let canonical_role := canonicalize_role role in
  let has_tool_calls := bool_decide (is_Some (calls_of extra_fields)) in
  if negb (is_valid_role canonical_role) || (bool_decide (content = "") && negb has_tool_calls)
  then mret None
  else
    if decide (cv_turn_count c = INT_MAX) then UB
    else mret (Some (add_message now (new_message now canonical_role content extra_fields)
                       (token_delta tokens_used content) c)).

(** ** Ids *)

(** The empty text where there is none. *)
Definition generate_user_convo_id (user_id : string) : string :=
  if is_session_id user_id then user_id else "".

(** [rand] is drawn from 100000 to 999999. *)
Definition generate_process_convo_id (rand creator_pid : Z) : string :=
  "proc_" +:+ pretty creator_pid +:+ "_" +:+ pretty rand.

Definition new_user_convo (now : Z) (session_id : string) : Conversation := {|
  cv_convo_id := session_id; cv_user_id := extract_super_user session_id;
  cv_creator_pid := -1; cv_state := "ACTIVE"; cv_created_at_ms := now;
  cv_last_activity_ms := now; cv_turn_count := 0; cv_current_context_tokens := 0;
  cv_total_tokens_used := 0; cv_messages := []; cv_metadata := JObject [] |}.

Definition new_process_convo (now rand creator_pid : Z) : Conversation := {|
  cv_convo_id := generate_process_convo_id rand creator_pid; cv_user_id := "";
  cv_creator_pid := creator_pid; cv_state := "ACTIVE"; cv_created_at_ms := now;
  cv_last_activity_ms := now; cv_turn_count := 0; cv_current_context_tokens := 0;
  cv_total_tokens_used := 0; cv_messages := []; cv_metadata := JObject [] |}.

(** ** The inputs of a request *)

Record PendingInput := { pi_role : string; pi_content : string; pi_extra : json }.

Definition call_id_field (j : json) : json :=
  match find j "tool_call_id" with
  | Some (JString id) => JObject [("tool_call_id", JString id)]
  | _ => JObject []
  end.

Definition tool_input (tool_msg : json) : exc (list PendingInput) :=
  if negb (is_object tool_msg) then mret []
  else
    text ← value_string tool_msg "content" "";
    mret (if decide (text = "") then []
          else [{| pi_role := "tool"; pi_content := text; pi_extra := call_id_field tool_msg |}]).

Definition pending_inputs (request : json) : exc (list PendingInput) :=
  user ← (if contains request "user_message" then
            text ← value_string request "user_message" "";
            mret (if decide (text = "") then []
                  else [{| pi_role := "user"; pi_content := text; pi_extra := JObject [] |}])
          else mret []);
  tool ← match find request "tool_message" with Some j => tool_input j | None => mret [] end;
  tools ← match find request "tool_messages" with
          | Some (JArray l) => exc_map tool_input l
          | _ => mret []
          end;
  result ← (if contains request "tool_result" then
              text ← value_string request "tool_result" "";
              mret (if decide (text = "") then []
                    else [{| pi_role := "tool"; pi_content := text;
                             pi_extra := call_id_field request |}])
            else mret []);
  mret (user ++ tool ++ concat tools ++ result).

Definition explicit_system_prompt (request : json) : string :=
  match find request "system_prompt" with
  | Some (JString s) => s
  | _ => string_or_empty request "system_message"
  end.

Definition system_prompt_override (request : json) : exc bool :=
  metadata ← value_json request "metadata" (JObject []);
  override ← value_bool request "system_prompt_override" false;
  if override : bool then mret true
  else
    replace ← value_bool request "replace_system_prompt" false;
    if replace : bool then mret true else value_bool metadata "system_prompt_override" false.

(** ** The new history *)

Definition append_or (error : string) (now : Z) (c : Conversation) (role content : string)
    (extra : json) : exc Conversation :=
  r ← append_message_unlocked now c role content 0 extra;
  match r with Some c => mret c | None => Throw error end.

Definition is_system (msg : json) : exc bool :=
  if is_object msg then role ← value_string msg "role" ""; mret (bool_decide (role = "system"))
  else mret false.

(** [remove_if] *)
Fixpoint without_system (messages : list json) : exc (list json) :=
  match messages with
  | [] => mret []
  | msg :: messages =>
      system ← is_system msg;
      messages ← without_system messages;
      mret (if system : bool then messages else msg :: messages)
  end.

Fixpoint append_inputs (now : Z) (inputs : list PendingInput) (c : Conversation) :
    exc Conversation :=
  match inputs with
  | [] => mret c
  | input :: inputs =>
      c ← append_or "failed to append conversation input message" now c (pi_role input)
            (pi_content input) (pi_extra input);
      append_inputs now inputs c
  end.

Definition update_history (now : Z) (prompt : string) (override : bool)
    (inputs : list PendingInput) (c : Conversation) : exc Conversation :=
  c ← (if decide (prompt = "") then mret c
       else if override then
         messages ← without_system (cv_messages c);
         append_or "failed to set overriding system prompt" now (set_messages messages c)
           "system" prompt (JObject [])
       else if decide (cv_messages c = []) then
         append_or "failed to append initial system prompt" now c "system" prompt (JObject [])
       else mret c);
  append_inputs now inputs c.

(** ** The messages that are sent *)

Fixpoint history_has_system (messages : list json) : exc bool :=
  match messages with
  | [] => mret false
  | msg :: messages =>
      system ← is_system msg;
      if system : bool then mret true else history_has_system messages
  end.

Definition built_message (msg : json) : exc (option json) :=
  role ← value_string msg "role" "";
  let role := canonicalize_role role in
  content ← value_string msg "content" "";
  let calls := calls_of msg in
  if negb (is_valid_role role) || (bool_decide (content = "") && bool_decide (calls = None))
  then mret None
  else
    mret (Some (JObject (
      [("role", JString role); ("content", JString content)] ++
      (if decide (role = "assistant") then option_list (pair "tool_calls" <$> calls) else []) ++
      (if decide (role = "tool") then option_list (pair "tool_call_id" <$> call_id_of msg)
       else [])))).

(** ** SessionIO *)

Record SessionIO (St : Type) := {
  storage_ : St;
  convo_cache_ : gmap string Conversation;
}.
Arguments storage_ {St} _.
Arguments convo_cache_ {St} _.

Definition with_storage {St} (s : St) (io : SessionIO St) : SessionIO St :=
  {| storage_ := s; convo_cache_ := convo_cache_ io |}.

Definition with_cache {St} (f : gmap string Conversation → gmap string Conversation)
    (io : SessionIO St) : SessionIO St :=
  {| storage_ := storage_ io; convo_cache_ := f (convo_cache_ io) |}.

Definition not_found : Conversation := Conversation_init.

Definition default_sampling_params : json :=
  JObject [("temp", JFloat d_0_7); ("top_p", JFloat d_0_9); ("max_tokens", JInt 512)].

(** What a request of a conversation must have, for it to have an input. *)
Definition has_input (request : json) : bool :=
  has_array request "messages" || contains request "tool_result" ||
  contains request "tool_message" || contains request "tool_messages" ||
  contains request "user_message" || contains request "system_message".

Section session_io.
Context {St : Type} `{!IStorageProvider St}.
Context (parse_file : string → exc json) (read_file : string → option string).
Context (regex_search : string → string → option bool) (skills_menu : exc json).
Context (storage_path_ : string).

Abbreviation M := (ST (SessionIO St)).

Definition load_sampling_params : exc json :=
  match open_first read_file ["config/model.json"; "../config/model.json";
                              "build/config/model.json"] with
  | None => mret default_sampling_params
  | Some text =>
      try_catch
        (cfg ← parse_file text;
         mret match find cfg "default_sampling_params" with
              | Some (JObject params) => JObject params
              | _ => default_sampling_params
              end)
        (λ _, mret default_sampling_params)
  end.

Definition load_process_convo_ttl_ms : exc Z :=
  match open_first read_file ["config/supervisor.json"; "../config/supervisor.json";
                              "build/config/supervisor.json"] with
  | None => mret (86400 * 1000)
  | Some text =>
      try_catch
        (cfg ← parse_file text;
         conversation ← value_json cfg "conversation" (JObject []);
         ttl_sec ← value_long conversation "process_convo_ttl_sec" 86400;
         if decide (- 2 ^ 63 ≤ ttl_sec * 1000 < 2 ^ 63) then mret (ttl_sec * 1000) else UB)
        (λ _, mret (86400 * 1000))
  end.

Definition user_convo_path (session_id : string) : string :=
  storage_path_ +:+ "/users/" +:+ extract_super_user session_id +:+ "/" +:+ session_id +:+
  "/" +:+ session_id +:+ ".json".

Definition load_convo_from_path (path : string) : exc Conversation :=
  match read_file path with
  | None => mret not_found
  | Some text => try_catch (parse_file text ≫= conversation_of_json) (λ _, mret not_found)
  end.

(** A call of the provider. *)
Definition provider_call {A} (f : St → exc (A * St)) : M A := λ io,
  match f (storage_ io) with
  | Ok (a, s) => (Ok a, with_storage s io)
  | Throw w => (Throw w, io)
  | UB => (UB, io)
  end.

Definition provider_query {A} (f : St → exc A) : M A := λ io, (f (storage_ io), io).

Definition load_conversation_from_disk_unlocked (convo_id : string) : M Conversation :=
  row ← provider_query (get_conversation convo_id);
  match row with
  | Some (JObject kvs) => lift (conversation_of_json (JObject kvs))
  | _ => mret not_found
  end.

Definition persist_conversation (c : Conversation) : M bool :=
  st_catch (provider_call (upsert_conversation (conversation_json c))) (λ _, mret false).

Definition cached (convo_id : string) : M (option Conversation) :=
  gets (λ io, convo_cache_ io !! convo_id).
Definition cache_put (convo_id : string) (c : Conversation) : M () :=
  modify (with_cache <[convo_id := c]>).
Definition cache_erase (convo_id : string) : M () := modify (with_cache (delete convo_id)).

(** [it != convo_cache_.end() ? it->second : load_conversation_from_disk_unlocked(id)] *)
Definition cached_or_loaded (convo_id : string) : M Conversation :=
  c ← cached convo_id;
  match c with
  | Some c => mret c
  | None => load_conversation_from_disk_unlocked convo_id
  end.

(** ** Operations *)

Definition get_or_create_user_convo_unlocked (now : Z) (user_id : string) : M Conversation :=
  let convo_id := generate_user_convo_id user_id in
  if decide (convo_id = "") then
    lift (Throw "user_conversation requires user_id in session format '{super_user}_s{N}'")
  else
    c ← cached convo_id;
    match c with
    | Some c => mret c
    | None =>
        existing ← lift (load_convo_from_path (user_convo_path convo_id));
        if decide (cv_convo_id existing ≠ "") then
          cache_put convo_id existing;; mret existing
        else
          existing ← load_conversation_from_disk_unlocked convo_id;
          if decide (cv_convo_id existing ≠ "") then
            cache_put convo_id existing;; mret existing
          else
            let convo := new_user_convo now convo_id in
            persist_conversation convo;;
            cache_put convo_id convo;;
            mret convo
    end.

Definition get_or_create_user_convo (now : Z) (user_id : string) : M Conversation :=
  if decide (user_id = "") then
    lift (Throw "user_id must not be empty for user conversations")
  else get_or_create_user_convo_unlocked now user_id.

Definition create_process_convo (now rand creator_pid : Z) : M Conversation :=
  if decide (creator_pid ≤ 0) then
    lift (Throw "creator_pid must be positive for process conversations")
  else
    let convo := new_process_convo now rand creator_pid in
    persist_conversation convo;;
    cache_put (cv_convo_id convo) convo;;
    mret convo.

Definition get_conversation (convo_id : string) : M Conversation :=
  c ← cached convo_id;
  match c with
  | Some c => mret c
  | None =>
      loaded ← load_conversation_from_disk_unlocked convo_id;
      (if decide (cv_convo_id loaded ≠ "") then cache_put convo_id loaded else mret tt);;
      mret loaded
  end.

Definition invalidate_conversation_cache (convo_id : string) : M () :=
  if decide (convo_id = "") then mret tt else cache_erase convo_id.

(** The tail that [append_message] and the operations on the assistant's turns share. *)
Definition append_and_persist (now : Z) (convo_id role content : string) (tokens_used : Z)
    (extra_fields : json) : M bool :=
  convo ← cached_or_loaded convo_id;
  if decide (cv_convo_id convo = "") then mret false
  else
    r ← lift (append_message_unlocked now convo role content tokens_used extra_fields);
    match r with
    | None => mret false
    | Some convo =>
        persisted ← persist_conversation convo;
        if persisted : bool then cache_put convo_id convo;; mret true else mret false
    end.

Definition append_message (now : Z) (convo_id role content : string) (tokens_used : Z)
    (extra_fields : json) : M bool :=
  append_and_persist now convo_id role content tokens_used extra_fields.

Definition delete_conversation (convo_id : string) (creator_pid : Z) : M bool :=
  deleted ← provider_call (λ s, Ok (Storage.delete_conversation convo_id creator_pid s));
  if deleted : bool then cache_erase convo_id;; mret true else mret false.

Definition delete_process_convos_for_pid (creator_pid : Z) : M () :=
  modify (with_cache (filter (λ '(_, c), cv_creator_pid c ≠ creator_pid)));;
  modify (λ io, with_storage (delete_all_proc_convos creator_pid (storage_ io)) io).

Definition get_process_convos_for_pid (creator_pid : Z) : M (list string) :=
  gets (λ io, list_proc_convo_ids creator_pid (storage_ io)).

Definition close_conversation (convo_id : string) : M bool :=
  c ← cached convo_id;
  match c with
  | Some c =>
      cache_put convo_id (set_state "CLOSED" c);;
      persist_conversation (set_state "CLOSED" c);;
      mret true
  | None =>
      convo ← load_conversation_from_disk_unlocked convo_id;
      if decide (cv_convo_id convo ≠ "") then
        persist_conversation (set_state "CLOSED" convo);; mret true
      else mret false
  end.

Definition find_convo_for_user (user_id : string) : string :=
  if decide (user_id = "") then ""
  else
    let convo_id := generate_user_convo_id user_id in
    match read_file (user_convo_path convo_id) with Some _ => convo_id | None => "" end.

(** ** Requests *)

Definition build_simple_mode_messages (user_message caller_system_msg : string) : json :=
  JArray [JObject [("role", JString "system");
                   ("content", JString (build_layered_system_prompt regex_search read_file
                                          skills_menu "simple" caller_system_msg ""))];
          JObject [("role", JString "user"); ("content", JString user_message)]].

Definition with_defaults (raw_request : json) : exc json :=
  normalized ← (if contains raw_request "priority" then mret raw_request
                else set_field "priority" (JInt 1) raw_request);
  match find normalized "sampling_params" with
  | Some (JObject _) => mret normalized
  | _ => params ← load_sampling_params; set_field "sampling_params" params normalized
  end.

(** [normalized[key] = value] for each pair. *)
Fixpoint set_fields (kvs : list (string * json)) (j : json) : exc json :=
  match kvs with
  | [] => mret j
  | (key, v) :: kvs => j ← set_field key v j; set_fields kvs j
  end.

Definition missing_input (mode : string) : string :=
  mode +:+ " mode requires messages[], user_message, system_message, tool_message(s), or tool_result".

(** The branch of [mode == "conversation"]. *)
Definition resolve_process_convo (now rand : Z) (raw_request normalized : json) : M json :=
  source_pid ← lift (value_int raw_request "source_pid" (-1));
  convo_id ← lift (value_string raw_request "convo_id" "");
  user_id ← lift (value_string raw_request "user_id" "");
  if decide (user_id ≠ "") then lift (Throw "conversation mode requires empty user_id")
  else if decide (source_pid ≤ 0) then
    lift (Throw "conversation mode requires positive source_pid")
  else
    convo ← (if decide (convo_id = "") then
               let convo := new_process_convo now rand source_pid in
               persist_conversation convo;; mret convo
             else
               convo ← get_conversation convo_id;
               if decide (cv_convo_id convo = "") then
                 lift (Throw "conversation not found for provided convo_id")
               else if decide (cv_creator_pid convo ≠ source_pid) then
                 lift (Throw "process conversation is owned by a different source_pid")
               else mret convo);
    if negb (has_input raw_request) then lift (Throw (missing_input "conversation"))
    else
      normalized ← lift (set_fields [("convo_id", JString (cv_convo_id convo));
                                     ("user_id", JString "")] normalized);
      cache_put (cv_convo_id convo) convo;;
      mret normalized.

(** The branch of [mode == "user_conversation"]. *)
Definition resolve_user_convo (now : Z) (raw_request normalized : json) : M json :=
  source_pid ← lift (value_int raw_request "source_pid" (-1));
  is_handler ← lift (value_bool raw_request "is_handler" false);
  convo_id ← lift (value_string raw_request "convo_id" "");
  user_id ← lift (value_string raw_request "user_id" "");
  if decide (source_pid ≤ 0) then
    lift (Throw "user_conversation mode requires positive source_pid")
  else if negb is_handler then
    lift (Throw "user_conversation mode is allowed only for handler process")
  else if decide (user_id = "") then
    lift (Throw "user_conversation mode requires non-empty user_id")
  else
    let resolved_session_id := generate_user_convo_id user_id in
    if decide (resolved_session_id = "") then
      lift (Throw "failed to resolve a valid session_id for user_conversation")
    else
      convo ← get_or_create_user_convo_unlocked now resolved_session_id;
      if negb (has_input raw_request) then lift (Throw (missing_input "user_conversation"))
      else if decide (convo_id ≠ "" ∧ convo_id ≠ cv_convo_id convo) then
        lift (Throw "conversation_id does not belong to said user")
      else
        normalized ← lift (set_fields [("convo_id", JString (cv_convo_id convo));
                                       ("user_id", JString resolved_session_id)] normalized);
        cache_put (cv_convo_id convo) convo;;
        mret normalized.

(** The branch of [mode == "simple"]. *)
Definition resolve_simple (raw_request normalized : json) : exc json :=
  convo_id ← value_string raw_request "convo_id" "";
  user_id ← value_string raw_request "user_id" "";
  if decide (convo_id ≠ "" ∨ user_id ≠ "") then
    Throw "simple mode requires empty convo_id and empty user_id"
  else if has_array raw_request "messages" then mret normalized
  else
    user_msg ← value_string raw_request "user_message" "";
    if decide (user_msg = "") then Throw "simple mode requires messages[] or user_message"
    else set_field "messages" (build_simple_mode_messages user_msg "") normalized.

Definition normalize_llm_request (now rand : Z) (raw_request : json) : M json :=
  mode ← lift (value_string raw_request "mode" "");
  normalized ← lift (with_defaults raw_request);
  normalized ← (if decide (mode = "conversation") then
                  resolve_process_convo now rand raw_request normalized
                else if decide (mode = "user_conversation") then
                  resolve_user_convo now raw_request normalized
                else if decide (mode = "simple") then
                  lift (resolve_simple raw_request normalized)
                else lift (Throw ("unsupported mode: " +:+ mode)));
  lift (set_fields [("message_type", JString "LLM_REQUEST"); ("mode", JString mode)] normalized).

(** ** Building the messages *)

Definition build_messages (mode prompt : string) (c : Conversation) : exc json :=
  has_system ← history_has_system (cv_messages c);
  built ← exc_map built_message (cv_messages c);
  mret (JArray (
    (if has_system : bool then []
     else [JObject [("role", JString "system");
                    ("content", JString (build_layered_system_prompt regex_search read_file
                                           skills_menu mode prompt (cv_user_id c)))]]) ++
    omap id built)).

Record BuildInput := {
  bi_convo_id : string;
  bi_mode : string;
  bi_prompt : string;
  bi_override : bool;
  bi_inputs : list PendingInput;
}.

(** What precedes the first critical section. *)
Definition build_input (request : json) : exc BuildInput :=
  convo_id ← value_string request "convo_id" "";
  if decide (convo_id = "") then Throw "convo_id missing when building messages"
  else
    mode ← value_string request "mode" "user_conversation";
    override ← system_prompt_override request;
    inputs ← pending_inputs request;
    if decide (inputs = []) then Throw "conversation mode request missing input text"
    else mret {| bi_convo_id := convo_id; bi_mode := mode;
                 bi_prompt := explicit_system_prompt request; bi_override := override;
                 bi_inputs := inputs |}.

(** The first critical section. *)
Definition build_load (input : BuildInput) : M Conversation :=
  convo ← cached_or_loaded (bi_convo_id input);
  if decide (cv_convo_id convo = "") then
    lift (Throw "conversation not found during build_messages")
  else mret convo.

(** The second critical section, and the messages. *)
Definition build_store (now : Z) (input : BuildInput) (convo : Conversation) : M json :=
  convo ← lift (update_history now (bi_prompt input) (bi_override input) (bi_inputs input) convo);
  persist_conversation convo;;
  cache_put (bi_convo_id input) convo;;
  lift (build_messages (bi_mode input) (bi_prompt input) convo).

Definition build_conversation_messages_safely (now : Z) (request : json) : M json :=
  input ← lift (build_input request);
  convo ← build_load input;
  build_store now input convo.

(** ** The assistant's turns *)

Definition is_conversation_mode (mode : string) : bool :=
  bool_decide (mode = "conversation" ∨ mode = "user_conversation").

Definition persist_assistant_response (now : Z) (normalized_request : json)
    (assistant_text : string) (tokens_used : Z) : M bool :=
  if decide (assistant_text = "") then mret true
  else
    mode ← lift (value_string normalized_request "mode" "simple");
    if negb (is_conversation_mode mode) then mret true
    else
      convo_id ← lift (value_string normalized_request "convo_id" "");
      if decide (convo_id = "") then mret false
      else append_and_persist now convo_id "assistant" assistant_text tokens_used (JObject []).

Definition persist_assistant_tool_call (now : Z) (normalized_request : json)
    (assistant_text : string) (tool_calls : json) (tokens_used : Z) : M bool :=
  mode ← lift (value_string normalized_request "mode" "simple");
  if negb (is_conversation_mode mode) then mret true
  else if negb (is_nonempty_array tool_calls) then mret true
  else
    convo_id ← lift (value_string normalized_request "convo_id" "");
    if decide (convo_id = "") then mret false
    else append_and_persist now convo_id "assistant" assistant_text tokens_used
           (JObject [("tool_calls", tool_calls)]).

(** ** The clean-up *)

(** The last activity of a process, 0 where none is known. *)
Fixpoint most_recent (convos : list string) (recent : Z) : M Z :=
  match convos with
  | [] => mret recent
  | convo_id :: convos =>
      row ← provider_query (Storage.get_conversation convo_id);
      act ← match row with
            | Some (JObject kvs) => lift (value_long (JObject kvs) "last_activity_ms" 0)
            | _ => mret recent
            end;
      most_recent convos (if decide (act > recent) then act else recent)
  end.

Definition clean_process (now ttl_ms : Z) (pid : Z) : M () :=
  convos ← gets (λ io, list_proc_convo_ids pid (storage_ io));
  recent ← most_recent convos 0;
  if decide (recent > 0) then
    if decide (now - recent < - 2 ^ 63) then lift UB
    else if decide (ttl_ms ≤ now - recent) then delete_process_convos_for_pid pid
    else mret tt
  else mret tt.

(** One round of [cleanup_loop]. *)
Definition cleanup (now : Z) : M () :=
  ttl_ms ← lift load_process_convo_ttl_ms;
  stale_pids ← gets (λ io, list_proc_creator_pids (storage_ io));
  st_iter (clean_process now ttl_ms) stale_pids.
End session_io.

(** ** Well-formed conversations *)

(** A message of a conversation: one of the four roles and a text, which is empty only where the
    message calls tools. *)
Definition message_ok (m : json) : Prop :=
  ∃ role content, find m "role" = Some (JString role) ∧ role ∈ provider_roles ∧
    find m "content" = Some (JString content) ∧
    (content = "" → is_Some (calls_of m)).

(** A conversation belongs to a user's session or to a process, and its id says which. *)
Definition owned (c : Conversation) : Prop :=
  (cv_creator_pid c = -1 ∧ is_session_id (cv_convo_id c) = true ∧
   cv_user_id c = extract_super_user (cv_convo_id c)) ∨
  (0 < cv_creator_pid c ∧ cv_user_id c = "" ∧
   ∃ rand, 0 ≤ rand ∧ cv_convo_id c = generate_process_convo_id rand (cv_creator_pid c)).

Record conversation_ok (c : Conversation) : Prop := {
  co_typed : conversation_typed c;
  co_state : cv_state c ∈ ["ACTIVE"; "CLOSED"];
  co_messages : Forall message_ok (cv_messages c);
  co_owned : owned c;
}.

Definition is_long (z : Z) : Prop := - 2 ^ 63 ≤ z < 2 ^ 63.

Lemma message_ok_object m : message_ok m → is_object m = true.
Proof. intros (role & content & Hr & _). by destruct m. Qed.

Lemma valid_role_iff role : is_valid_role (canonicalize_role role) = true ↔
  canonicalize_role role ∈ provider_roles.
Proof.
  unfold is_valid_role, canonicalize_role, provider_roles. rewrite bool_decide_eq_true.
  case_decide; [by split; intros _; set_solver|]. set_solver.
Qed.

Lemma find_new_message now role content extra :
  find (new_message now role content extra) "role" = Some (JString role) ∧
  find (new_message now role content extra) "content" = Some (JString content) ∧
  calls_of (new_message now role content extra) = calls_of extra ∧
  call_id_of (new_message now role content extra) = call_id_of extra.
Proof.
  assert (∀ id, call_id_of extra = Some id → ∃ s, id = JString s ∧ s ≠ "") as Hid.
  { unfold call_id_of. intros id. destruct (find extra "tool_call_id") as [[]|]; try done.
    case_decide; intros; simplify_eq. by eexists. }
  assert (∀ l, calls_of extra = Some l → is_nonempty_array l = true) as Hcalls.
  { unfold calls_of. intros l. destruct (find extra "tool_calls"); [|done].
    destruct (is_nonempty_array _) eqn:?; intros; by simplify_eq. }
  unfold new_message. split_and!; [done..| |].
  - unfold calls_of at 1. destruct (call_id_of extra), (calls_of extra) as [l|] eqn:E; simpl;
      try done; by rewrite (Hcalls l).
  - unfold call_id_of at 1. destruct (call_id_of extra) as [id|] eqn:E; simpl.
    + destruct (Hid id) as (s & -> & Hs); [done|]. by rewrite decide_False.
    + by destruct (calls_of extra).
Qed.

(** What appending does: nothing, or one more message. *)
Lemma append_message_unlocked_inv now c role content tokens extra r :
  append_message_unlocked now c role content tokens extra = Ok r →
  r = None ∨
  cv_turn_count c ≠ INT_MAX ∧ canonicalize_role role ∈ provider_roles ∧
  (content = "" → is_Some (calls_of extra)) ∧
  r = Some (add_message now (new_message now (canonicalize_role role) content extra)
              (token_delta tokens content) c).
Proof.
  unfold append_message_unlocked. destruct (_ || _) eqn:Hc; intros H; [left; by injection H as <-|].
  right. apply orb_false_iff in Hc as [Hr%negb_false_iff%valid_role_iff Hc].
  case_decide as Ht; [done|]. injection H as <-. split_and!; try done. intros ->.
  rewrite bool_decide_true in Hc by done. simpl in Hc. apply negb_false_iff in Hc.
  by apply bool_decide_eq_true in Hc.
Qed.

Lemma new_message_ok now role content extra :
  role ∈ provider_roles → (content = "" → is_Some (calls_of extra)) →
  message_ok (new_message now role content extra).
Proof.
  intros Hr Hc. destruct (find_new_message now role content extra) as (? & ? & Hcalls & _).
  exists role, content. rewrite Hcalls. split_and!; by auto.
Qed.

Lemma u64_typed z : 0 ≤ u64 z < 2 ^ 64.
Proof. apply u64_range. Qed.

Lemma append_message_ok now c role content tokens extra c' :
  is_long now → append_message_unlocked now c role content tokens extra = Ok (Some c') →
  conversation_ok c → conversation_ok c' ∧ cv_convo_id c' = cv_convo_id c.
Proof.
  intros Hnow [H|(Ht & Hr & Hcalls & H)]%append_message_unlocked_inv [[] Hst Hm Ho];
    simplify_eq. split; [|done].
  assert (message_ok (new_message now (canonicalize_role role) content extra)) as Hok.
  { by apply new_message_ok. }
  split; simpl; try done.
  - split; simpl; try done; try apply u64_typed; try lia.
    apply Forall_app. split; [done|]. constructor; [by apply message_ok_object|constructor].
  - apply Forall_app. split; [done|]. by repeat constructor.
Qed.

(** ** Kinds of ids *)

(** The id of a process's conversation is not a session id. *)
Lemma process_id_not_session rand pid :
  0 ≤ rand → 0 < pid → is_session_id (generate_process_convo_id rand pid) = false.
Proof.
  intros Hrand Hpid. apply not_true_iff_false. intros H.
  apply is_session_id_inv in H as (su & digits & H & _).
  assert (has_char "s"%char (generate_process_convo_id rand pid) = false) as Hno.
  { unfold generate_process_convo_id. rewrite !has_char_app.
    rewrite !(digits_no_char "s"%char (pretty _)) by (try done; apply pretty_Z_digits; lia). done. }
  rewrite H, !has_char_app in Hno. by rewrite orb_true_r in Hno.
Qed.

Lemma process_id_nonempty rand pid : generate_process_convo_id rand pid ≠ "".
Proof. done. Qed.

Lemma session_id_nonempty id : is_session_id id = true → id ≠ "".
Proof. by intros H ->. Qed.

Lemma new_user_convo_ok now id :
  is_long now → is_session_id id = true → conversation_ok (new_user_convo now id).
Proof.
  intros Hnow Hid. split; simpl; [split; simpl; try done; lia|set_solver|constructor|].
  left. done.
Qed.

Lemma new_process_convo_ok now rand pid :
  is_long now → 0 ≤ rand → 0 < pid ≤ INT_MAX → conversation_ok (new_process_convo now rand pid).
Proof.
  intros Hnow Hrand Hpid. unfold INT_MAX in *.
  split; simpl; [split; simpl; try done; unfold INT_MAX; lia|set_solver|constructor|].
  right. simpl. split_and!; [lia|done|]. by exists rand.
Qed.

Lemma conversation_ok_set_state c state :
  state ∈ ["ACTIVE"; "CLOSED"] → conversation_ok c → conversation_ok (set_state state c).
Proof. intros Hs [[] ? ? ?]. split; [by split|done..]. Qed.

(** ** The new history of a request *)

Lemma append_or_inv error now c role content extra c' :
  append_or error now c role content extra = Ok c' →
  append_message_unlocked now c role content 0 extra = Ok (Some c').
Proof.
  unfold append_or. intros ([r|] & -> & H)%exc_bind_Ok_inv; [|done]. by injection H as ->.
Qed.

Definition role_is (role : string) (m : json) : bool :=
  bool_decide (string_or_empty m "role" = role).

Lemma is_system_ok m : message_ok m → is_system m = Ok (role_is "system" m).
Proof.
  intros (role & content & Hr & _). unfold is_system, role_is, string_or_empty.
  rewrite Hr. destruct m; try done. simpl is_object. cbn iota.
  unfold value_string. by rewrite (value_present _ _ _ _ (JString role)).
Qed.

Lemma without_system_ok l :
  Forall message_ok l → without_system l = Ok (filter (λ m, role_is "system" m = false) l).
Proof.
  induction 1 as [|m l Hm _ IH]; [done|]. simpl.
  rewrite (is_system_ok m Hm). simpl. rewrite IH. simpl. rewrite filter_cons.
  by destruct (role_is "system" m).
Qed.

Lemma history_has_system_ok l :
  Forall message_ok l → history_has_system l = Ok (existsb (role_is "system") l).
Proof.
  induction 1 as [|m l Hm _ IH]; [done|]. simpl. rewrite (is_system_ok m Hm). simpl.
  by destruct (role_is "system" m).
Qed.

Definition input_ok (input : PendingInput) : Prop :=
  pi_role input ∈ ["user"; "tool"] ∧ pi_content input ≠ "".

Lemma tool_input_ok tm l : tool_input tm = Ok l → Forall input_ok l.
Proof.
  unfold tool_input. destruct (negb _); intros H; [injection H as <-; constructor|].
  apply exc_bind_Ok_inv in H as (text & _ & H). injection H as <-.
  case_decide; [constructor|]. apply Forall_singleton. split; [set_solver|done].
Qed.

Lemma pending_inputs_ok request l : pending_inputs request = Ok l → Forall input_ok l.
Proof.
  unfold pending_inputs. intros (user & Hu & H)%exc_bind_Ok_inv.
  apply exc_bind_Ok_inv in H as (tool & Ht & H). apply exc_bind_Ok_inv in H as (tools & Hs & H).
  apply exc_bind_Ok_inv in H as (result & Hr & H). injection H as <-. rewrite !Forall_app.
  assert (∀ role key extra l, role ∈ ["user"; "tool"] →
    (if contains request key then
       text ← value_string request key "";
       mret (if decide (text = "") then []
             else [{| pi_role := role; pi_content := text; pi_extra := extra |}])
     else mret []) = Ok l → Forall input_ok l) as Hone.
  { intros role key extra l' Hrole. destruct (contains request key); intros H;
      [|injection H as <-; constructor].
    apply exc_bind_Ok_inv in H as (text & _ & H). injection H as <-.
    case_decide; [constructor|]. by apply Forall_singleton. }
  split_and!.
  - eapply (Hone "user" "user_message"), Hu. set_solver.
  - destruct (find request "tool_message"); [by eapply tool_input_ok|].
    injection Ht as <-. constructor.
  - destruct (find request "tool_messages") as [[| | | | |ls|]|];
      try (injection Hs as <-; constructor).
    apply Forall_concat, Forall_forall. intros x [i Hx]%list_elem_of_lookup.
    apply exc_map_Forall2 in Hs. destruct (Forall2_lookup_r _ _ _ _ _ Hs Hx) as (y & _ & ?).
    by eapply tool_input_ok.
  - eapply (Hone "tool" "tool_result"), Hr. set_solver.
Qed.

Lemma append_inputs_ok now inputs : ∀ c c',
  is_long now → Forall input_ok inputs → append_inputs now inputs c = Ok c' →
  conversation_ok c → conversation_ok c' ∧ cv_convo_id c' = cv_convo_id c.
Proof.
  induction inputs as [|input inputs IH]; intros c c' Hnow Hin H Hc; simpl in H.
  { injection H as <-. done. }
  apply Forall_cons in Hin as [[_ Hne] Hin].
  apply exc_bind_Ok_inv in H as (c1 & H1%append_or_inv & H).
  apply append_message_ok in H1 as [Hc1 Hid]; [|done..].
  destruct (IH c1 c') as [? ?]; [done..|]. split; [done|]. congruence.
Qed.

Lemma Forall_filtered {A} (P : A → Prop) (Q : A → Prop) `{∀ x, Decision (Q x)} l :
  Forall P l → Forall P (filter Q l).
Proof.
  rewrite !Forall_forall. intros HP x [_ Hx]%list_elem_of_filter. by apply HP.
Qed.

Lemma update_history_ok now prompt override inputs c c' :
  is_long now → Forall input_ok inputs → update_history now prompt override inputs c = Ok c' →
  conversation_ok c → conversation_ok c' ∧ cv_convo_id c' = cv_convo_id c.
Proof.
  intros Hnow Hin H Hc. apply exc_bind_Ok_inv in H as (c1 & H1 & H).
  assert (conversation_ok c1 ∧ cv_convo_id c1 = cv_convo_id c) as [Hc1 <-];
    [|by eapply append_inputs_ok].
  destruct (decide (prompt = "")); [by injection H1 as <-|]. destruct override.
  - rewrite without_system_ok in H1 by apply Hc. simpl in H1.
    apply append_or_inv, append_message_ok in H1; [exact H1|done..|].
    destruct Hc as [[] ? Hm ?]. split; [|done| |done].
    + split; try done. simpl. by apply Forall_filtered.
    + simpl. by apply Forall_filtered.
  - destruct (decide (cv_messages c = [])); [|by injection H1 as <-].
    apply append_or_inv in H1. by eapply append_message_ok in H1.
Qed.
