(* ===== verification/Histories.v ===== *)
(** * What the operations on conversations guarantee

    The invariant of [SessionIO] over any storage provider that keeps its promises, and the
    properties of its operations: what is appended is kept, who may address which
    conversation, what is sent to the model, what the clean-up leaves. *)

From S2P Require Import Prelude Json StringUtils LlmRequest Adapters Sessions Storage Prompt Conversations.

(** ** Conversations under their ids *)

Definition named (id : string) (c : Conversation) : Prop :=
  conversation_ok c ∧ cv_convo_id c = id.

Lemma named_nonempty id c : named id c → cv_convo_id c ≠ "".
Proof.
  intros [[_ _ _ [(_ & Hs & _)|(_ & _ & rand & _ & ->)]] _]; [by apply session_id_nonempty|done].
Qed.

Definition found (id : string) (c : Conversation) : Prop := c = not_found ∨ named id c.

Lemma found_named id c : found id c → cv_convo_id c ≠ "" → named id c.
Proof. by intros [->|?]. Qed.

Lemma generate_user_convo_id_spec user_id :
  generate_user_convo_id user_id ≠ "" →
  generate_user_convo_id user_id = user_id ∧ is_session_id user_id = true.
Proof. unfold generate_user_convo_id. by destruct (is_session_id user_id). Qed.

Lemma new_process_convo_named now rand pid :
  is_long now → 0 ≤ rand → 0 < pid ≤ INT_MAX →
  named (generate_process_convo_id rand pid) (new_process_convo now rand pid).
Proof. intros. split; [by apply new_process_convo_ok|done]. Qed.

Lemma build_input_inv request input :
  build_input request = Ok input →
  find request "convo_id" = Some (JString (bi_convo_id input)) ∧ bi_convo_id input ≠ "" ∧
  Forall input_ok (bi_inputs input) ∧ bi_inputs input ≠ [] ∧
  bi_prompt input = explicit_system_prompt request.
Proof.
  unfold build_input. intros (id & Hid & H)%exc_bind_Ok_inv. case_decide as Hne; [done|].
  apply exc_bind_Ok_inv in H as (mode & _ & H). apply exc_bind_Ok_inv in H as (override & _ & H).
  apply exc_bind_Ok_inv in H as (inputs & Hin & H). case_decide; [done|]. injection H as <-.
  simpl. apply value_string_inv in Hid as [Hid|[_ ->]]; [|done]. split_and!; try done.
  by eapply pending_inputs_ok.
Qed.

Lemma named_kind id c :
  named id c →
  (is_session_id id = true ∧ cv_creator_pid c = -1 ∧ cv_user_id c = extract_super_user id) ∨
  (is_session_id id = false ∧ 0 < cv_creator_pid c).
Proof.
  intros [[_ _ _ [(? & ? & ?)|(? & _ & rand & ? & Hid)]] <-]; [by left|right].
  split; [|done]. rewrite Hid. by apply process_id_not_session.
Qed.

Lemma set_fields_find kvs : ∀ j j' key,
  set_fields kvs j = Ok j' → key ∉ kvs.*1 → find j' key = find j key.
Proof.
  induction kvs as [|[k v] kvs IH]; intros j j' key H Hkey; simpl in *; [by injection H as <-|].
  apply exc_bind_Ok_inv in H as (j1 & H1 & H). rewrite (IH j1 j' key) by set_solver.
  eapply set_field_find_ne; [done|]. set_solver.
Qed.

Lemma set_fields_first key v kvs j j' :
  set_fields ((key, v) :: kvs) j = Ok j' → key ∉ kvs.*1 → find j' key = Some v.
Proof.
  simpl. intros (j1 & H1 & H)%exc_bind_Ok_inv Hkey. rewrite (set_fields_find kvs j1 j') by done.
  by eapply set_field_find.
Qed.

(** Who says what. *)
Definition said (m : json) : string * string :=
  (string_or_empty m "role", string_or_empty m "content").

Definition said_input (input : PendingInput) : string * string :=
  (pi_role input, pi_content input).

Lemma provider_role_canonical role : role ∈ provider_roles → canonicalize_role role = role.
Proof.
  unfold canonicalize_role, provider_roles. case_decide as H; [|done]. subst.
  intros H. exfalso. set_solver.
Qed.

Lemma value_string_find j key s d : find j key = Some (JString s) → value_string j key d = Ok s.
Proof. intros H. unfold value_string. by rewrite (value_present _ _ _ _ (JString s)). Qed.

Lemma calls_of_nonempty m calls : calls_of m = Some calls → is_nonempty_array calls = true.
Proof.
  unfold calls_of. destruct (find m "tool_calls"); [|done].
  destruct (is_nonempty_array _) eqn:?; intros; by simplify_eq.
Qed.

Lemma call_id_of_string m id : call_id_of m = Some id → ∃ s, id = JString s.
Proof.
  unfold call_id_of. destruct (find m "tool_call_id") as [[]|]; try done.
  case_decide; intros; simplify_eq. by eexists.
Qed.

(** A message whose text is empty only where it is an assistant's. *)
Definition sendable (m : json) : Prop :=
  ∀ role, find m "role" = Some (JString role) → find m "content" = Some (JString "") →
    role = "assistant".

(** A well-formed message is sent, and a provider takes it as it is, unless it is one without a
    text that is not an assistant's. *)
Lemma built_message_ok m :
  message_ok m →
  ∃ out, built_message m = Ok (Some out) ∧ said out = said m ∧
    (sendable m → normalize_provider_message out = Ok (Some out)).
Proof.
  intros (role & content & Hr & Hrole & Hc & Hempty). unfold built_message.
  rewrite (value_string_find m "role" role), (value_string_find m "content" content) by done.
  simpl. rewrite provider_role_canonical by done.
  assert (is_valid_role role = true) as ->.
  { unfold is_valid_role, provider_roles in *. apply bool_decide_eq_true. set_solver. }
  assert (bool_decide (content = "") && bool_decide (calls_of m = None) = false) as ->.
  { apply andb_false_iff. destruct (decide (content = "")) as [He|]; [right|left; by rewrite bool_decide_false].
    destruct (Hempty He) as [? ->]. done. }
  simpl. eexists. split; [done|]. split; [unfold said, string_or_empty; by rewrite Hr, Hc|].
  intros Hsend.
  assert (role ≠ "agent") as Hagent.
  { intros ->. unfold provider_roles in Hrole. set_solver. }
  unfold normalize_provider_message. simpl. rewrite (decide_False (P := role = "agent")) by done.
  rewrite (decide_False (P := role ∉ _)) by (intros Hn; by apply Hn). simpl.
  destruct (decide (role = "assistant")) as [->|Hna].
  - destruct (calls_of m) as [calls|] eqn:Hcalls; simpl.
    + rewrite (calls_of_nonempty m calls) by done. simpl. rewrite andb_false_r. done.
    + rewrite bool_decide_false; [done|]. intros He. destruct (Hempty He) as [? ?]. done.
  - assert (content ≠ "") as Hne by (intros ->; by apply Hna, Hsend).
    rewrite (bool_decide_false (content = "")) by done. simpl.
    destruct (decide (role = "tool")) as [->|]; simpl; [|done].
    destruct (call_id_of m) as [id|] eqn:Hid; simpl; [|done].
    destruct (call_id_of_string m id Hid) as [s ->]. done.
Qed.

Lemma built_messages_ok l :
  Forall message_ok l →
  ∃ outs, exc_map built_message l = Ok (Some <$> outs) ∧ said <$> outs = said <$> l ∧
    (Forall sendable l → Forall (λ m, normalize_provider_message m = Ok (Some m)) outs).
Proof.
  induction 1 as [|m l Hm _ (outs & IH & Hsaid & Hn)]; [by exists []|].
  destruct (built_message_ok m Hm) as (out & Ho & Hs & Hno). exists (out :: outs).
  simpl. rewrite Ho. simpl. rewrite IH. simpl. split; [done|]. split; [by f_equal|].
  intros [? ?]%Forall_cons. constructor; by auto.
Qed.

Lemma omap_id_Some {A} (l : list A) : omap id (Some <$> l) = l.
Proof. induction l as [|x l IH]; [done|]. cbn. f_equal. apply IH. Qed.

Lemma normalize_messages_fixed l :
  l ≠ [] → Forall (λ m, normalize_provider_message m = Ok (Some m)) l →
  normalize_messages_for_provider (JArray l) = Ok (JArray l).
Proof.
  intros Hne Hl. simpl.
  assert (exc_map normalize_provider_message l = Ok (Some <$> l)) as ->.
  { clear Hne. induction Hl as [|m l Hm _ IH]; [done|]. simpl. by rewrite Hm, IH. }
  simpl. rewrite omap_id_Some. by rewrite decide_False.
Qed.

Lemma append_or_said error now c role content extra c' :
  append_or error now c role content extra = Ok c' →
  said <$> cv_messages c' = (said <$> cv_messages c) ++ [(canonicalize_role role, content)] ∧
  cv_user_id c' = cv_user_id c.
Proof.
  intros [?|(_ & _ & _ & [= ->])]%append_or_inv%append_message_unlocked_inv; [done|]. simpl.
  split; [|done]. by rewrite fmap_app.
Qed.

Lemma append_inputs_said now inputs : ∀ c c',
  Forall input_ok inputs → append_inputs now inputs c = Ok c' →
  said <$> cv_messages c' = (said <$> cv_messages c) ++ (said_input <$> inputs).
Proof.
  induction inputs as [|input inputs IH]; intros c c' Hin H; simpl in *.
  { injection H as <-. by rewrite app_nil_r. }
  apply Forall_cons in Hin as [[Hrole _] Hin].
  apply exc_bind_Ok_inv in H as (c1 & H1 & H). rewrite (IH c1 c') by done.
  apply append_or_said in H1 as [-> _]. rewrite <-app_assoc. simpl. do 2 f_equal.
  unfold said_input. f_equal. apply provider_role_canonical. unfold provider_roles. set_solver.
Qed.

Lemma update_history_said now prompt override inputs c c' :
  conversation_ok c → Forall input_ok inputs →
  update_history now prompt override inputs c = Ok c' →
  ∃ before, said <$> cv_messages c' = before ++ (said_input <$> inputs).
Proof.
  intros Hc Hin (c1 & _ & H)%exc_bind_Ok_inv. exists (said <$> cv_messages c1).
  by eapply append_inputs_said.
Qed.

Lemma build_input_inputs request input :
  build_input request = Ok input →
  pending_inputs request = Ok (bi_inputs input) ∧
  value_string request "mode" "user_conversation" = Ok (bi_mode input).
Proof.
  unfold build_input. intros (id & Hid & H)%exc_bind_Ok_inv. case_decide; [done|].
  apply exc_bind_Ok_inv in H as (mode & Hm & H). apply exc_bind_Ok_inv in H as (override & _ & H).
  apply exc_bind_Ok_inv in H as (inputs & Hin & H). case_decide; [done|]. by injection H as <-.
Qed.

(** ** The state *)

Section invariant.
Context {St : Type} `{Hstore : ConversationStore St}.

(** The provider stores what is well-formed. *)
Hypothesis ok_storable : ∀ c, conversation_ok c → nameable (cv_convo_id c) → storable c.

(** Every conversation that the cache or the provider has is well-formed and under its id. *)
Record io_ok (io : SessionIO St) : Prop := {
  io_cache : map_Forall (λ id c, nameable id ∧ named id c) (convo_cache_ io);
  io_store id : nameable id →
    Storage.get_conversation id (storage_ io) = Ok None ∨
    ∃ c, Storage.get_conversation id (storage_ io) = Ok (Some (conversation_json c)) ∧ named id c;
}.

Lemma keeps_load id :
  nameable id → keeps io_ok (load_conversation_from_disk_unlocked id) (found id).
Proof.
  intros Hid io Hio. unfold load_conversation_from_disk_unlocked, provider_query, mbind, ST_bind.
  destruct (io_store io Hio id Hid) as [->|(c & -> & Hc)]; simpl.
  - split; [done|]. intros a [= <-]. by left.
  - unfold lift. split; [done|]. intros a Ha. right.
    change (conversation_of_json (conversation_json c) = Ok a) in Ha.
    rewrite conversation_of_json_json in Ha by apply Hc. by injection Ha as <-.
Qed.

Lemma keeps_persist c :
  conversation_ok c → nameable (cv_convo_id c) →
  keeps io_ok (persist_conversation c) (λ _, True).
Proof.
  intros Hc Hid io Hio. split; [|done].
  unfold persist_conversation, st_catch, provider_call.
  destruct (upsert_conversation (conversation_json c) (storage_ io)) as [[b s']| |] eqn:Hup;
    [|done..]. simpl. destruct Hio as [Hcache Hst]. split; [done|]. simpl. intros id Hn.
  destruct b; [destruct (decide (id = cv_convo_id c)) as [->|Hne]|].
  - right. exists c. split; [|by split]. by eapply upsert_get; auto.
  - rewrite (upsert_other c (storage_ io) true s' id) by auto. by apply Hst.
  - rewrite (upsert_other c (storage_ io) false s' id) by auto. by apply Hst.
Qed.

Lemma keeps_cache_put id c :
  nameable id → named id c → keeps io_ok (cache_put id c) (λ _, True).
Proof.
  intros Hid Hc. apply keeps_modify; [|done]. intros io [Hcache Hst]. split; [|done].
  by apply map_Forall_insert_2.
Qed.

Lemma keeps_cache_erase id : keeps io_ok (cache_erase id) (λ _, True).
Proof.
  apply keeps_modify; [|done]. intros io [Hcache Hst]. split; [|done].
  by apply map_Forall_delete.
Qed.

Lemma keeps_cached id : keeps io_ok (cached id) (λ o, ∀ c, o = Some c → named id c).
Proof.
  apply keeps_gets. intros io [Hcache _] c Hc. by apply (Hcache id c).
Qed.

Lemma keeps_cached_or_loaded id :
  nameable id → keeps io_ok (cached_or_loaded id) (found id).
Proof.
  intros Hid. eapply keeps_bind; [apply keeps_cached|]. intros [c|] Hc.
  - apply keeps_ret. right. by apply Hc.
  - by apply keeps_load.
Qed.

Lemma keeps_get_conversation id :
  nameable id → keeps io_ok (get_conversation id) (found id).
Proof.
  intros Hid. eapply keeps_bind; [apply keeps_cached|]. intros [c|] Hc.
  - apply keeps_ret. right. by apply Hc.
  - eapply keeps_bind; [by apply keeps_load|]. intros c Hf.
    eapply (keeps_bind _ _ _ (λ _, True)); [|intros _ _; by apply keeps_ret].
    case_decide; [|by apply keeps_ret]. apply keeps_cache_put; [done|]. by apply found_named.
Qed.

Lemma keeps_append_and_persist now id role content tokens extra :
  nameable id → is_long now →
  keeps io_ok (append_and_persist now id role content tokens extra) (λ _, True).
Proof.
  intros Hid Hnow. eapply keeps_bind; [by apply keeps_cached_or_loaded|]. intros c Hc.
  case_decide as Hne; [by apply keeps_ret|]. apply found_named in Hc as [Hc Hcid]; [|done].
  eapply (keeps_bind _ _ _ (λ r, ∀ c', r = Some c' → named id c')).
  { apply keeps_lift. intros r Hr c' ->. apply append_message_ok in Hr as [? ?]; [|done..].
    split; [done|congruence]. }
  intros [c'|] Hc'; [|by apply keeps_ret]. specialize (Hc' c' eq_refl).
  pose proof Hc' as [Hok Hcid']. eapply keeps_bind.
  { apply keeps_persist; [done|]. by rewrite Hcid'. }
  intros [] _; [|by apply keeps_ret]. eapply keeps_bind; [by apply keeps_cache_put|].
  intros _ _. by apply keeps_ret.
Qed.

Lemma keeps_put_ret id c (Q : Conversation → Prop) :
  nameable id → named id c → Q c → keeps io_ok (cache_put id c;; mret c) Q.
Proof.
  intros Hid Hc HQ. eapply keeps_bind; [by apply keeps_cache_put|]. intros _ _.
  by apply keeps_ret.
Qed.

Lemma keeps_delete id pid : nameable id → keeps io_ok (delete_conversation id pid) (λ _, True).
Proof.
  intros Hid. eapply (keeps_bind _ _ _ (λ _, True)).
  - intros io [Hcache Hst]. split; [|done]. unfold provider_call. simpl.
    destruct (Storage.delete_conversation id pid (storage_ io)) as [b s'] eqn:Hd.
    split; [done|]. simpl. intros id' Hid'. destruct (decide (b = true ∧ id' = id)) as [[-> ->]|Hn].
    + destruct (delete_get id pid (storage_ io) s') as [->|[_ ->]]; [done..|by left|by apply Hst].
    + rewrite (delete_other id pid (storage_ io) b s' id'); [by apply Hst|done..|].
      destruct b; naive_solver.
  - intros [] _; [|by apply keeps_ret]. eapply keeps_bind; [apply keeps_cache_erase|].
    intros _ _. by apply keeps_ret.
Qed.

Lemma keeps_delete_process pid :
  keeps io_ok (delete_process_convos_for_pid pid) (λ _, True).
Proof.
  eapply (keeps_bind _ _ _ (λ _, True)).
  - apply keeps_modify; [|done]. intros io [Hcache Hst]. split; [|done].
    intros i c [Hc _]%map_lookup_filter_Some. by apply Hcache.
  - intros _ _. apply keeps_modify; [|done]. intros io [Hcache Hst]. split; [done|]. simpl.
    intros id Hid. destruct (delete_all_cases pid (storage_ io) id Hid) as [->| ->];
      [by apply Hst|by left].
Qed.

Lemma keeps_close id : nameable id → keeps io_ok (close_conversation id) (λ _, True).
Proof.
  intros Hid.
  assert (∀ c, named id c → named id (set_state "CLOSED" c)) as Hset.
  { intros c [Hok Hc]. split; [|done]. apply conversation_ok_set_state; [set_solver|done]. }
  assert (∀ c, named id c →
    keeps io_ok (persist_conversation (set_state "CLOSED" c)) (λ _, True)) as Hpersist.
  { intros c Hc%Hset. apply keeps_persist; [apply Hc|]. destruct Hc as [_ ->]. done. }
  eapply keeps_bind; [apply keeps_cached|]. intros [c|] Hc.
  - eapply keeps_bind; [by apply keeps_cache_put; auto|]. intros _ _.
    eapply keeps_bind; [by apply Hpersist; auto|]. intros _ _. by apply keeps_ret.
  - eapply keeps_bind; [by apply keeps_load|]. intros c Hf.
    case_decide; [|by apply keeps_ret]. apply found_named in Hf; [|done].
    eapply keeps_bind; [by apply Hpersist|]. intros _ _. by apply keeps_ret.
Qed.

(** The ids that a request names. *)
Definition request_nameable (request : json) : Prop :=
  ∀ s, find request "convo_id" = Some (JString s) ∨ find request "user_id" = Some (JString s) →
  nameable s.

Lemma value_string_keeps (j : json) key d (P : string → Prop) :
  P d → (∀ s, find j key = Some (JString s) → P s) → keeps io_ok (lift (value_string j key d)) P.
Proof.
  intros Hd HP. apply keeps_lift. intros s [Hs|[_ ->]]%value_string_inv; [by apply HP|done].
Qed.

Lemma keeps_true {A} (e : exc A) : keeps io_ok (lift e) (λ _, True).
Proof. by apply keeps_lift. Qed.

Lemma keeps_fail {A} (e : string) (Q : A → Prop) : keeps io_ok (lift (Throw e)) Q.
Proof. by apply keeps_lift. Qed.

Lemma keeps_build_load input :
  nameable (bi_convo_id input) → keeps io_ok (build_load input) (named (bi_convo_id input)).
Proof.
  intros Hid. eapply keeps_bind; [by apply keeps_cached_or_loaded|]. intros c Hc.
  case_decide; [by apply keeps_fail|]. by apply keeps_ret, found_named.
Qed.

Lemma keeps_response now request text tokens :
  is_long now → request_nameable request →
  keeps io_ok (persist_assistant_response now request text tokens) (λ _, True).
Proof.
  intros Hnow Hreq. unfold persist_assistant_response. case_decide; [by apply keeps_ret|].
  eapply keeps_bind; [apply keeps_true|]. intros mode _. case_match; [by apply keeps_ret|].
  eapply (keeps_bind _ _ _ (λ id, id ≠ "" → nameable id)).
  { apply value_string_keeps; [done|]. intros s Hs _. apply Hreq. by left. }
  intros id Hid. case_decide; [by apply keeps_ret|].
  apply keeps_append_and_persist; [by auto|done..].
Qed.

Lemma keeps_tool_call now request text calls tokens :
  is_long now → request_nameable request →
  keeps io_ok (persist_assistant_tool_call now request text calls tokens) (λ _, True).
Proof.
  intros Hnow Hreq. unfold persist_assistant_tool_call.
  eapply keeps_bind; [apply keeps_true|]. intros mode _.
  case_match; [by apply keeps_ret|]. case_match; [by apply keeps_ret|].
  eapply (keeps_bind _ _ _ (λ id, id ≠ "" → nameable id)).
  { apply value_string_keeps; [done|]. intros s Hs _. apply Hreq. by left. }
  intros id Hid. case_decide; [by apply keeps_ret|].
  apply keeps_append_and_persist; [by auto|done..].
Qed.

Lemma keeps_cleanup parse_file read_file now : keeps io_ok (cleanup parse_file read_file now) (λ _, True).
Proof.
  eapply keeps_bind; [apply keeps_true|]. intros ttl _.
  eapply keeps_bind; [by apply (keeps_gets _ _ (λ _, True))|]. intros pids _.
  apply keeps_iter. intros pid _.
  eapply keeps_bind; [by apply (keeps_gets _ _ (λ _, True))|]. intros convos _.
  eapply (keeps_bind _ _ _ (λ _, True)).
  - generalize 0 as recent. induction convos as [|id convos IH]; intros recent; simpl;
      [by apply keeps_ret|].
    eapply (keeps_bind _ _ _ (λ _, True)); [by intros io Hio; split|]. intros row _.
    eapply (keeps_bind _ _ _ (λ _, True)); [|intros act _; apply IH].
    repeat case_match; first [by apply keeps_true|by apply keeps_ret].
  - intros recent _. case_decide; [|by apply keeps_ret]. case_decide; [by apply keeps_lift|].
    case_decide; [apply keeps_delete_process|by apply keeps_ret].
Qed.

(** ** What an operation sees of a conversation *)

Definition lookup_convo (id : string) (io : SessionIO St) : exc Conversation :=
  (cached_or_loaded id io).1.

Lemma cached_or_loaded_eq id io : cached_or_loaded id io = (lookup_convo id io, io).
Proof.
  unfold lookup_convo, cached_or_loaded, load_conversation_from_disk_unlocked, cached, gets,
    provider_query, lift, mbind, ST_bind. destruct (convo_cache_ io !! id); [done|].
  by destruct (Storage.get_conversation id (storage_ io)) as [[[]|]| |].
Qed.

Lemma lookup_convo_cached id c io : convo_cache_ io !! id = Some c → lookup_convo id io = Ok c.
Proof.
  unfold lookup_convo, cached_or_loaded, cached, gets, mbind, ST_bind. by intros ->.
Qed.

Lemma lookup_convo_stored id c io :
  convo_cache_ io !! id = None →
  Storage.get_conversation id (storage_ io) = Ok (Some (conversation_json c)) →
  conversation_typed c → lookup_convo id io = Ok c.
Proof.
  intros Hn Hg Hc. unfold lookup_convo, cached_or_loaded, load_conversation_from_disk_unlocked,
    cached, gets, provider_query, mbind, ST_bind. rewrite Hn, Hg.
  change (conversation_of_json (conversation_json c) = Ok c). by apply conversation_of_json_json.
Qed.

Lemma lookup_convo_ext id io io' :
  convo_cache_ io' !! id = convo_cache_ io !! id →
  Storage.get_conversation id (storage_ io') = Storage.get_conversation id (storage_ io) →
  lookup_convo id io' = lookup_convo id io.
Proof.
  intros Hc Hg. unfold lookup_convo, cached_or_loaded, load_conversation_from_disk_unlocked,
    cached, gets, provider_query, lift, mbind, ST_bind. rewrite Hc.
  destruct (convo_cache_ io !! id); [done|]. rewrite Hg.
  by destruct (Storage.get_conversation id (storage_ io)) as [[[]|]| |].
Qed.

Lemma lookup_convo_found id io c :
  io_ok io → nameable id → lookup_convo id io = Ok c → found id c.
Proof.
  intros Hio Hid. destruct (keeps_cached_or_loaded id Hid io Hio) as [_ H]. apply H.
Qed.

(** Persisting stores the conversation, or changes nothing that can be read. *)
Lemma persist_spec c io r io' :
  storable c → persist_conversation c io = (r, io') →
  convo_cache_ io' = convo_cache_ io ∧
  (∀ id, nameable id → r ≠ Ok true ∨ id ≠ cv_convo_id c →
     Storage.get_conversation id (storage_ io') = Storage.get_conversation id (storage_ io)) ∧
  (r = Ok true → Storage.get_conversation (cv_convo_id c) (storage_ io') =
     Ok (Some (conversation_json c))).
Proof.
  intros Hc. unfold persist_conversation, st_catch, provider_call.
  destruct (upsert_conversation (conversation_json c) (storage_ io)) as [[b s']| |] eqn:Hup;
    simpl; unfold mret, ST_ret; intros H; simplify_eq.
  2-3: split; [done|split; [done|by intros]].
  split_and!; [done| |].
  - intros id Hid Hor. apply (upsert_other c _ b); [done..|]. destruct b; naive_solver.
  - intros [= ->]. by eapply upsert_get.
Qed.

(** The conversation that appending to [id] makes, where it succeeds; otherwise nothing that
    can be read changes. *)
Lemma append_and_persist_spec now id role content tokens extra io b io' :
  io_ok io → nameable id → is_long now →
  append_and_persist now id role content tokens extra io = (Ok b, io') →
  (∀ id', nameable id' → id' ≠ id ∨ b = false → lookup_convo id' io' = lookup_convo id' io) ∧
  (b = true → ∃ c, lookup_convo id io = Ok c ∧ named id c ∧
     let c' := add_message now (new_message now (canonicalize_role role) content extra)
                 (token_delta tokens content) c in
     named id c' ∧ convo_cache_ io' !! id = Some c' ∧
     Storage.get_conversation id (storage_ io') = Ok (Some (conversation_json c'))).
Proof.
  intros Hio Hid Hnow H. unfold append_and_persist, mbind, ST_bind in H.
  rewrite cached_or_loaded_eq in H.
  destruct (lookup_convo id io) as [c| |] eqn:Hl; [|done..].
  destruct (decide (cv_convo_id c = "")) as [|Hne]; [by injection H as <- <-|].
  assert (named id c) as Hc by (apply found_named; [by eapply lookup_convo_found|done]).
  unfold lift in H.
  destruct (append_message_unlocked now c role content tokens extra) as [[c'|]| |] eqn:Ha;
    [|by injection H as <- <-|done..].
  assert (named id c') as Hc'.
  { pose proof Ha as [? ?]%append_message_ok; [|done|apply Hc]. destruct Hc. split; congruence. }
  apply append_message_unlocked_inv in Ha as [?|(_ & _ & _ & [= ->])]; [done|].
  destruct (persist_conversation _ io) as [r io1] eqn:Hp.
  apply persist_spec in Hp as (Hcache & Hother & Hsame);
    [|by apply ok_storable; [apply Hc'|destruct Hc' as [_ ->]]].
  destruct Hc' as [Hok' Hcid]. destruct r as [[]| |]; [| |done..].
  - unfold cache_put, modify, mret, ST_ret in H. injection H as <- <-. split.
    + intros id' Hid' [Hne'|?]; [|done]. apply lookup_convo_ext; simpl.
      * by rewrite lookup_insert_ne, Hcache by done.
      * apply Hother; [done|]. right. congruence.
    + intros _. exists c. split; [done|]. split; [done|]. split; [by split|]. simpl.
      split; [by rewrite lookup_insert_eq|]. rewrite <-Hcid. by apply Hsame.
  - injection H as <- <-. split; [|done]. intros id' Hid' _. apply lookup_convo_ext.
    + by rewrite Hcache.
    + apply Hother; [done|]. by left.
Qed.

(** What is appended is there, and stays: where appending succeeds, the message is the last
    of the conversation, whose counters grow by one turn and by its tokens; the conversation is
    read back the same from the storage once the cache forgets it; and no other conversation
    changes.  Where it does not succeed, no conversation changes. *)
Lemma append_message_spec now id role content tokens extra io b io' :
  io_ok io → nameable id → is_long now →
  append_message now id role content tokens extra io = (Ok b, io') →
  (b = false → ∀ id', nameable id' → lookup_convo id' io' = lookup_convo id' io) ∧
  (b = true → ∃ c, lookup_convo id io = Ok c ∧
     let c' := add_message now (new_message now (canonicalize_role role) content extra)
                 (token_delta tokens content) c in
     lookup_convo id io' = Ok c' ∧
     lookup_convo id (invalidate_conversation_cache id io').2 = Ok c' ∧
     ∀ id', nameable id' → id' ≠ id → lookup_convo id' io' = lookup_convo id' io).
Proof.
  intros Hio Hid Hnow H.
  destruct (append_and_persist_spec now id role content tokens extra io b io') as [Hother Hsame];
    [done..|]. split.
  - intros -> id' Hid'. apply Hother; [done|by right].
  - intros ->. destruct Hsame as (c & Hl & Hc & Hc' & Hcache & Hst); [done|]. exists c.
    split; [done|]. split; [by apply lookup_convo_cached|]. split.
    + unfold invalidate_conversation_cache. rewrite decide_False.
      * apply lookup_convo_stored; [apply lookup_delete_eq|done|apply Hc'].
      * intros ->. pose proof Hc as [_ Hne]. by apply (named_nonempty "" c).
    + intros id' Hid' Hne. apply Hother; [done|by left].
Qed.

(** The resolved request names the conversation that was resolved, which is in the cache. *)
Lemma finish_resolution c s normalized (io : SessionIO St) out io' :
  (n ← lift (set_fields [("convo_id", JString (cv_convo_id c)); ("user_id", s)] normalized);
   cache_put (cv_convo_id c) c;; mret n) io = (Ok out, io') →
  find out "convo_id" = Some (JString (cv_convo_id c)) ∧
  convo_cache_ io' !! cv_convo_id c = Some c.
Proof.
  intros (n & io1 & [Hn ->]%st_lift_Ok_inv & H)%st_bind_Ok_inv.
  unfold cache_put, modify, mret, ST_ret, mbind, ST_bind in H. injection H as <- <-.
  split; [|simpl; by rewrite lookup_insert_eq].
  eapply set_fields_first; [done|]. simpl. set_solver.
Qed.

(** ** The clean-up *)

Section clean.
Context `{!OwnedStore St} (id : string) (c : Conversation).
Hypothesis id_nameable : nameable id.
Hypothesis c_named : named id c.

(** The provider has the conversation. *)
Definition keeps_it (io : SessionIO St) : Prop :=
  Storage.get_conversation id (storage_ io) = Ok (Some (conversation_json c)).

Lemma most_recent_spec convos : ∀ recent,
  keeps keeps_it (most_recent convos recent)
    (λ r, recent ≤ r ∧ (id ∈ convos → cv_last_activity_ms c ≤ r)).
Proof.
  induction convos as [|id' convos IH]; intros recent; simpl.
  { apply keeps_ret. split; [lia|]. by intros ?%not_elem_of_nil. }
  eapply (keeps_bind _ _ _ (λ row, id' = id → row = Some (conversation_json c))).
  { intros io Hio. split; [done|]. simpl. intros row Hrow ->. rewrite Hio in Hrow.
    by injection Hrow as <-. }
  intros row Hrow. eapply (keeps_bind _ _ _ (λ act, id' = id → act = cv_last_activity_ms c)).
  { destruct (decide (id' = id)) as [He|He].
    - rewrite (Hrow He). apply keeps_lift. intros act Ha _. unfold value_long, value in Ha.
      simpl in Ha. injection Ha as <-. destruct c_named as [[[] _ _ _] _]. by rewrite i64_id.
    - repeat case_match; first [by apply keeps_lift|by apply keeps_ret]. }
  intros act Hact. eapply keeps_mono; [|apply IH]. intros r [Hr Hin]. cbv beta.
  case_decide; (split; [lia|]); intros [->|?]%elem_of_cons; try (by apply Hin);
    rewrite <-Hact by done; lia.
Qed.

Lemma clean_process_spec now ttl pid :
  0 < pid → is_session_id id = true ∨ now - cv_last_activity_ms c < ttl →
  keeps keeps_it (clean_process now ttl pid) (λ _, True).
Proof.
  intros Hpid Hkeep.
  eapply (keeps_bind _ _ _ (λ convos, cv_creator_pid c = pid → id ∈ convos)).
  { apply keeps_gets. intros io Hio <-. by eapply list_ids_complete. }
  intros convos Hconvos. eapply keeps_bind; [apply most_recent_spec|]. intros recent [_ Hrecent].
  case_decide; [|by apply keeps_ret]. case_decide; [by apply keeps_lift|].
  case_decide as Hold; [|by apply keeps_ret].
  assert (cv_creator_pid c ≠ pid) as Hne.
  { intros Hp. specialize (Hrecent (Hconvos Hp)). destruct Hkeep as [Hs|?]; [|lia].
    apply named_kind in c_named as [(_ & ? & _)|[? _]]; [lia|congruence]. }
  eapply (keeps_bind _ _ _ (λ _, True)); [by apply keeps_modify|]. intros _ _.
  apply keeps_modify; [|done]. intros io Hio. unfold keeps_it in *. simpl.
  destruct (delete_all_get pid (storage_ io) id id_nameable) as [->|(j & Hj & Hp)]; [done|].
  rewrite Hio in Hj. injection Hj as <-. simpl in Hp. by injection Hp.
Qed.
End clean.

(** The hourly clean-up takes nothing that is in use: a user's conversation is never
    deleted, whatever its age, nor a process's conversation that was active within the time
    that the configuration gives it - its process's other conversations may be as old as they
    are. *)
Lemma cleanup_spec `{!OwnedStore St} parse_file read_file now ttl io io' id c :
  nameable id → named id c → load_process_convo_ttl_ms parse_file read_file = Ok ttl →
  cleanup parse_file read_file now io = (Ok tt, io') →
  Storage.get_conversation id (storage_ io) = Ok (Some (conversation_json c)) →
  is_session_id id = true ∨ now - cv_last_activity_ms c < ttl →
  Storage.get_conversation id (storage_ io') = Ok (Some (conversation_json c)).
Proof.
  intros Hid Hc Httl H Hget Hkeep. unfold cleanup in H. rewrite Httl in H.
  apply st_bind_Ok_inv in H as (? & ? & [[= <-] ->]%st_lift_Ok_inv & H).
  apply st_bind_Ok_inv in H as (pids & io1 & [= Hpids <-] & H).
  assert (keeps (keeps_it id c) (st_iter (clean_process now ttl) pids) (λ _, True)) as Hit.
  { apply keeps_iter. intros pid Hpid. apply clean_process_spec; [done..| |done].
    rewrite <-Hpids in Hpid. by eapply list_pids_positive. }
  destruct (Hit io Hget) as [Hio' _]. by rewrite H in Hio'.
Qed.

(** ** Requests *)

Section requests.
Context (parse_file : string → exc json) (read_file : string → option string).
Context (regex_search : string → string → option bool) (skills_menu : exc json).
Context (storage_path_ : string).

(** The file that an earlier version may have left for a session is well-formed. *)
Hypothesis process_nameable : ∀ rand pid, nameable (generate_process_convo_id rand pid).
Hypothesis files_ok : ∀ id c,
  load_convo_from_path parse_file read_file (user_convo_path storage_path_ id) = Ok c →
  cv_convo_id c ≠ "" → named id c.

Lemma keeps_user_convo now user_id :
  nameable user_id → is_long now →
  keeps io_ok (get_or_create_user_convo_unlocked parse_file read_file storage_path_ now user_id)
    (λ c, named user_id c ∧ is_session_id user_id = true).
Proof.
  intros Hid Hnow. unfold get_or_create_user_convo_unlocked.
  case_decide as Hne; [by apply keeps_lift|].
  apply generate_user_convo_id_spec in Hne as [-> Hsession].
  eapply keeps_bind; [apply keeps_cached|]. intros [c|] Hc.
  { apply keeps_ret. split; [by apply Hc|done]. }
  eapply (keeps_bind _ _ _ (λ c, cv_convo_id c ≠ "" → named user_id c)).
  { apply keeps_lift. apply files_ok. }
  intros c1 Hc1.
  case_decide; [apply keeps_put_ret; by auto|].
  eapply keeps_bind; [by apply keeps_load|]. intros c2 Hc2.
  case_decide; [apply found_named in Hc2; [|done]; by apply keeps_put_ret|].
  assert (named user_id (new_user_convo now user_id)) as Hnew.
  { split; [by apply new_user_convo_ok|done]. }
  eapply keeps_bind; [by apply keeps_persist; [apply Hnew|]|]. intros _ _.
  by apply keeps_put_ret.
Qed.

Lemma keeps_create_process_convo now rand pid :
  is_long now → 0 ≤ rand → pid ≤ INT_MAX →
  keeps io_ok (create_process_convo now rand pid)
    (λ c, named (generate_process_convo_id rand pid) c).
Proof.
  intros. unfold create_process_convo. case_decide; [by apply keeps_lift|].
  assert (named (generate_process_convo_id rand pid) (new_process_convo now rand pid)) as Hnew
    by (apply new_process_convo_named; [done..|lia]).
  eapply keeps_bind; [apply keeps_persist; [apply Hnew|apply process_nameable]|].
  intros _ _. apply keeps_put_ret; [apply process_nameable|done..].
Qed.

(** Who a request of a process may address: a conversation of its own. *)
Lemma keeps_process_choice now rand source_pid convo_id :
  is_long now → 0 ≤ rand → 0 < source_pid ≤ INT_MAX → (convo_id ≠ "" → nameable convo_id) →
  keeps io_ok
    (if decide (convo_id = "") then
       let convo := new_process_convo now rand source_pid in
       persist_conversation convo;; mret convo
     else
       convo ← get_conversation convo_id;
       if decide (cv_convo_id convo = "") then
         lift (Throw "conversation not found for provided convo_id")
       else if decide (cv_creator_pid convo ≠ source_pid) then
         lift (Throw "process conversation is owned by a different source_pid")
       else mret convo)
    (λ c, ∃ id, nameable id ∧ named id c ∧ cv_creator_pid c = source_pid ∧
       (convo_id ≠ "" → id = convo_id)).
Proof.
  intros Hnow Hrand Hpid Hid. case_decide as He.
  - pose proof (new_process_convo_named now rand source_pid Hnow Hrand Hpid) as Hnew.
    eapply keeps_bind; [apply keeps_persist; [apply Hnew|apply process_nameable]|].
    intros _ _. apply keeps_ret. eexists. split_and!; [apply process_nameable|done..].
  - eapply keeps_bind; [by apply keeps_get_conversation; auto|]. intros c Hc.
    case_decide; [by apply keeps_fail|]. case_decide as Hown; [by apply keeps_fail|].
    apply found_named in Hc; [|done]. apply keeps_ret. exists convo_id.
    split_and!; by auto.
Qed.

Lemma keeps_resolve_process now rand raw normalized :
  is_long now → 0 ≤ rand → request_nameable raw →
  keeps io_ok (resolve_process_convo now rand raw normalized) (λ _, True).
Proof.
  intros Hnow Hrand Hraw. unfold resolve_process_convo.
  eapply (keeps_bind _ _ _ (λ pid, pid ≤ INT_MAX)).
  { apply keeps_lift. intros pid [_ ?]%value_int_range; [done|]. unfold INT_MAX. lia. }
  intros pid Hpid. eapply (keeps_bind _ _ _ (λ id, id ≠ "" → nameable id)).
  { apply value_string_keeps; [done|]. intros s Hs _. apply Hraw. by left. }
  intros convo_id Hid. eapply keeps_bind; [apply keeps_true|]. intros user_id _.
  case_decide; [by apply keeps_fail|]. case_decide; [by apply keeps_fail|].
  eapply keeps_bind; [by apply keeps_process_choice; auto; lia|].
  intros c (id & Hn & Hc & _). case_match; [by apply keeps_fail|].
  eapply keeps_bind; [apply keeps_true|]. intros j _.
  eapply keeps_bind; [|intros _ _; by apply keeps_ret].
  pose proof Hc as [_ ->]. by apply keeps_cache_put.
Qed.

Lemma keeps_resolve_user now raw normalized :
  is_long now → request_nameable raw →
  keeps io_ok (resolve_user_convo parse_file read_file storage_path_ now raw normalized)
    (λ _, True).
Proof.
  intros Hnow Hraw. unfold resolve_user_convo.
  do 2 (eapply keeps_bind; [apply keeps_true|]; intros ? _).
  eapply keeps_bind; [apply keeps_true|]; intros convo_id _.
  eapply (keeps_bind _ _ _ (λ id, id ≠ "" → nameable id)).
  { apply value_string_keeps; [done|]. intros s Hs _. apply Hraw. by right. }
  intros user_id Hid. case_decide; [by apply keeps_fail|].
  case_match; [by apply keeps_fail|]. case_decide as Hu; [by apply keeps_fail|].
  case_decide as Hr; [by apply keeps_fail|].
  apply generate_user_convo_id_spec in Hr as [-> Hs].
  eapply keeps_bind; [by apply keeps_user_convo; auto|]. intros c [Hc _].
  case_match; [by apply keeps_fail|]. case_decide; [by apply keeps_fail|].
  eapply keeps_bind; [apply keeps_true|]. intros j _.
  eapply keeps_bind; [|intros _ _; by apply keeps_ret].
  pose proof Hc as [_ ->]. by apply keeps_cache_put; auto.
Qed.

Lemma keeps_normalize now rand raw :
  is_long now → 0 ≤ rand → request_nameable raw →
  keeps io_ok (normalize_llm_request parse_file read_file regex_search skills_menu storage_path_
                 now rand raw) (λ _, True).
Proof.
  intros Hnow Hrand Hraw. do 2 (eapply keeps_bind; [apply keeps_true|]; intros ? _).
  eapply (keeps_bind _ _ _ (λ _, True)); [|intros ? _; apply keeps_true].
  case_decide; [by apply keeps_resolve_process|].
  case_decide; [by apply keeps_resolve_user|]. case_decide; apply keeps_true.
Qed.

Lemma keeps_build_store now input c id :
  is_long now → nameable id → named id c → bi_convo_id input = id →
  Forall input_ok (bi_inputs input) →
  keeps io_ok (build_store read_file regex_search skills_menu now input c) (λ _, True).
Proof.
  intros Hnow Hid [Hc Hcid] Hin Hinputs. eapply (keeps_bind _ _ _ (named id)).
  { apply keeps_lift. intros c' Hc'. apply update_history_ok in Hc' as [? ?]; [|done..].
    split; [done|congruence]. }
  intros c' Hc'. pose proof Hc' as [? Hcid'].
  eapply keeps_bind; [apply keeps_persist; [done|by rewrite Hcid']|]. intros _ _.
  eapply keeps_bind; [rewrite Hin; by apply keeps_cache_put|]. intros _ _. apply keeps_true.
Qed.

Lemma keeps_build now request :
  is_long now → request_nameable request →
  keeps io_ok (build_conversation_messages_safely read_file regex_search skills_menu now request)
    (λ _, True).
Proof.
  intros Hnow Hreq. eapply (keeps_bind _ _ _ (λ input,
    nameable (bi_convo_id input) ∧ Forall input_ok (bi_inputs input))).
  { apply keeps_lift. intros input (Hid & _ & Hin & _)%build_input_inv. split; [|done].
    apply Hreq. by left. }
  intros input [Hid Hin]. eapply keeps_bind; [by apply keeps_build_load|]. intros c Hc.
  by eapply keeps_build_store.
Qed.

(** ** Reachable states *)

(** The operations that hold the mutex throughout, on the ids a provider can name. *)
Inductive operation : (SessionIO St → SessionIO St) → Prop :=
  | op_get id : nameable id → operation (λ io, (get_conversation id io).2)
  | op_invalidate id : operation (λ io, (invalidate_conversation_cache id io).2)
  | op_user_convo now user_id : nameable user_id → is_long now →
      operation (λ io, (get_or_create_user_convo parse_file read_file storage_path_ now user_id io).2)
  | op_process_convo now rand pid : is_long now → 0 ≤ rand → pid ≤ INT_MAX →
      operation (λ io, (create_process_convo now rand pid io).2)
  | op_append now id role content tokens extra :
      nameable id → is_long now →
      operation (λ io, (append_message now id role content tokens extra io).2)
  | op_delete id pid : nameable id → operation (λ io, (delete_conversation id pid io).2)
  | op_delete_process pid : operation (λ io, (delete_process_convos_for_pid pid io).2)
  | op_close id : nameable id → operation (λ io, (close_conversation id io).2)
  | op_normalize now rand raw : is_long now → 0 ≤ rand → request_nameable raw →
      operation (λ io, (normalize_llm_request parse_file read_file regex_search skills_menu
                          storage_path_ now rand raw io).2)
  | op_response now request text tokens : is_long now → request_nameable request →
      operation (λ io, (persist_assistant_response now request text tokens io).2)
  | op_tool_call now request text calls tokens : is_long now → request_nameable request →
      operation (λ io, (persist_assistant_tool_call now request text calls tokens io).2)
  | op_cleanup now : operation (λ io, (cleanup parse_file read_file now io).2).

(** The state, with the requests that are between the two critical sections of
    [build_conversation_messages_safely] and the conversations that they read. *)
Definition world : Type := SessionIO St * list (BuildInput * Conversation).

Inductive io_step : world → world → Prop :=
  | step_operation f io P : operation f → io_step (io, P) (f io, P)
  | step_build_load request input c io io' P :
      request_nameable request → build_input request = Ok input →
      build_load input io = (Ok c, io') → io_step (io, P) (io', (input, c) :: P)
  | step_build_store now input c io P1 P2 :
      is_long now →
      io_step (io, P1 ++ (input, c) :: P2)
        ((build_store read_file regex_search skills_menu now input c io).2, P1 ++ P2).

Definition pending_ok (p : BuildInput * Conversation) : Prop :=
  nameable (bi_convo_id p.1) ∧ Forall input_ok (bi_inputs p.1) ∧ named (bi_convo_id p.1) p.2.

Lemma operation_ok f io : operation f → io_ok io → io_ok (f io).
Proof.
  assert (∀ A (m : ST (SessionIO St) A) Q, keeps io_ok m Q → io_ok io → io_ok (m io).2)
    as Hkeep by (intros A m Q Hm Hio; by apply Hm).
  intros [] Hio; (eapply Hkeep; [|exact Hio]).
  - by apply keeps_get_conversation.
  - unfold invalidate_conversation_cache.
    case_decide; [by apply (keeps_ret _ _ (λ _, True))|apply keeps_cache_erase].
  - unfold get_or_create_user_convo. case_decide; [|by apply keeps_user_convo].
    by apply keeps_fail.
  - by apply keeps_create_process_convo.
  - by apply keeps_append_and_persist.
  - by apply keeps_delete.
  - apply keeps_delete_process.
  - by apply keeps_close.
  - by apply keeps_normalize.
  - by apply keeps_response.
  - by apply keeps_tool_call.
  - apply keeps_cleanup.
Qed.

Lemma io_step_ok x y :
  io_step x y → io_ok x.1 ∧ Forall pending_ok x.2 → io_ok y.1 ∧ Forall pending_ok y.2.
Proof.
  intros [f io P Hf|request input c io io' P Hreq Hin Hload|now input c io P1 P2 Hnow]
    [Hio HP]; simpl in *.
  - split; [by apply operation_ok|done].
  - apply build_input_inv in Hin as (Hid & _ & Hin & _).
    assert (nameable (bi_convo_id input)) as Hn by (apply Hreq; by left).
    destruct (keeps_build_load input Hn io Hio) as [Hio' Hc]. rewrite Hload in Hio', Hc.
    split; [done|]. constructor; [|done]. split_and!; [done..|]. by apply Hc.
  - apply Forall_app in HP as [HP1 [(Hn & Hin & Hc) HP2]%Forall_cons].
    split; [by eapply keeps_build_store|]. by apply Forall_app.
Qed.

(** C6 Whatever sequence of operations is executed on ids that the storage can name, the two halves
    of building messages interleaved with others as they come, every conversation in the cache
    and in the storage stays well-formed: its fields are in the ranges of their types, its
    messages are objects with one of the four roles and a text, which is empty only where the
    message carries calls of tools, its state is one of the two, it is kept under its own id,
    and it belongs either to the user's session that its id names or to the process that its id
    names.  This rests on what is outside: the storage is a map for the conversations that it
    can represent and can represent every well-formed one, the ids of processes can be named,
    a session's file that an earlier version left behind holds, where it is read, a well-formed
    conversation of that id, and a clock and a random number are in the range of their type. *)
Theorem session_io_typed io io' P :
  io_ok io → rtc io_step (io, []) (io', P) →
  map_Forall named (convo_cache_ io') ∧
  ∀ id, nameable id →
    Storage.get_conversation id (storage_ io') = Ok None ∨
    ∃ c, Storage.get_conversation id (storage_ io') = Ok (Some (conversation_json c)) ∧
      named id c.
Proof.
  intros Hio Hsteps.
  assert (io_ok io' ∧ Forall pending_ok P) as [[Hcache Hst] _].
  { apply (rtc_invariant io_step (λ x, io_ok x.1 ∧ Forall pending_ok x.2) (io, []) (io', P));
      [by intros x y Hx Hs; apply io_step_ok in Hs|done|by split]. }
  split; [|done]. intros id c Hc. by apply Hcache.
Qed.

Lemma resolve_process_owner now rand raw normalized io out io' :
  io_ok io → request_nameable raw → is_long now → 0 ≤ rand →
  resolve_process_convo now rand raw normalized io = (Ok out, io') →
  ∃ pid id c, value_int raw "source_pid" (-1) = Ok pid ∧ 0 < pid ∧
    find out "convo_id" = Some (JString id) ∧ convo_cache_ io' !! id = Some c ∧
    cv_creator_pid c = pid ∧ is_session_id id = false.
Proof.
  intros Hio Hraw Hnow Hrand H. unfold resolve_process_convo in H.
  apply st_bind_Ok_inv in H as (pid & ? & [Hpid ->]%st_lift_Ok_inv & H).
  apply st_bind_Ok_inv in H as (convo_id & ? & [Hid ->]%st_lift_Ok_inv & H).
  apply st_bind_Ok_inv in H as (user_id & ? & [_ ->]%st_lift_Ok_inv & H).
  case_decide; [done|]. case_decide; [done|].
  apply st_bind_Ok_inv in H as (c & io1 & Hc & H).
  assert (0 < pid ≤ INT_MAX) as Hp.
  { apply value_int_range in Hpid; [lia|]. unfold INT_MAX. lia. }
  assert (convo_id ≠ "" → nameable convo_id) as Hn.
  { intros ?. apply value_string_inv in Hid as [?|[_ ->]]; [|done]. apply Hraw. by left. }
  destruct (keeps_process_choice now rand pid convo_id Hnow Hrand Hp Hn io Hio) as [_ Hq].
  destruct (Hq c (f_equal fst Hc)) as (id & _ & Hnamed & Hown & _).
  destruct (negb (has_input raw)); [done|]. apply finish_resolution in H as [Hf Hcache].
  pose proof Hnamed as [_ Hcid]. rewrite Hcid in Hf, Hcache.
  exists pid, id, c. split_and!; try done; [lia|].
  apply named_kind in Hnamed as [(_ & ? & _)|[? _]]; [lia|done].
Qed.

Lemma resolve_user_owner now raw normalized io out io' :
  io_ok io → request_nameable raw → is_long now →
  resolve_user_convo parse_file read_file storage_path_ now raw normalized io = (Ok out, io') →
  ∃ id c, value_bool raw "is_handler" false = Ok true ∧
    value_string raw "user_id" "" = Ok id ∧ is_session_id id = true ∧
    find out "convo_id" = Some (JString id) ∧ convo_cache_ io' !! id = Some c ∧
    cv_creator_pid c = -1 ∧ cv_user_id c = extract_super_user id.
Proof.
  intros Hio Hraw Hnow H. unfold resolve_user_convo in H.
  apply st_bind_Ok_inv in H as (pid & ? & [_ ->]%st_lift_Ok_inv & H).
  apply st_bind_Ok_inv in H as (is_handler & ? & [Hh ->]%st_lift_Ok_inv & H).
  apply st_bind_Ok_inv in H as (convo_id & ? & [_ ->]%st_lift_Ok_inv & H).
  apply st_bind_Ok_inv in H as (user_id & ? & [Hu ->]%st_lift_Ok_inv & H).
  case_decide; [done|]. destruct is_handler; [|done]. simpl in H.
  case_decide as Hne; [done|]. case_decide as Hr; [done|].
  apply generate_user_convo_id_spec in Hr as [Hr Hs]. rewrite Hr in H.
  apply st_bind_Ok_inv in H as (c & io1 & Hc & H).
  assert (nameable user_id) as Hn.
  { apply value_string_inv in Hu as [?|[_ ->]]; [|done]. apply Hraw. by right. }
  destruct (keeps_user_convo now user_id Hn Hnow io Hio) as [_ Hq].
  destruct (Hq c (f_equal fst Hc)) as [Hnamed _].
  destruct (negb (has_input raw)); [done|]. case_decide; [done|].
  apply finish_resolution in H as [Hf Hcache].
  pose proof Hnamed as [_ Hcid]. rewrite Hcid in Hf, Hcache.
  exists user_id, c. apply named_kind in Hnamed as [(_ & ? & ?)|[? _]]; [|congruence].
  by split_and!.
Qed.

(** C33 A request is given no conversation but one of its own: in conversation mode the
    conversation belongs to the process that sends the request, and is not a user's session;
    in a user's conversation only the handler is served, with the session that the request
    names, which belongs to the user of that name and to no process. *)
Theorem request_owner now rand raw io out io' :
  io_ok io → request_nameable raw → is_long now → 0 ≤ rand →
  normalize_llm_request parse_file read_file regex_search skills_menu storage_path_ now rand raw io
    = (Ok out, io') →
  (value_string raw "mode" "" = Ok "conversation" →
   ∃ pid id c, value_int raw "source_pid" (-1) = Ok pid ∧ 0 < pid ∧
     find out "convo_id" = Some (JString id) ∧ convo_cache_ io' !! id = Some c ∧
     cv_creator_pid c = pid ∧ is_session_id id = false) ∧
  (value_string raw "mode" "" = Ok "user_conversation" →
   ∃ id c, value_bool raw "is_handler" false = Ok true ∧
     value_string raw "user_id" "" = Ok id ∧ is_session_id id = true ∧
     find out "convo_id" = Some (JString id) ∧ convo_cache_ io' !! id = Some c ∧
     cv_creator_pid c = -1 ∧ cv_user_id c = extract_super_user id).
Proof.
  intros Hio Hraw Hnow Hrand H.
  apply st_bind_Ok_inv in H as (mode & ? & [-> ->]%st_lift_Ok_inv & H).
  apply st_bind_Ok_inv in H as (normalized & ? & [_ ->]%st_lift_Ok_inv & H).
  apply st_bind_Ok_inv in H as (n & io1 & Hres & [Hset ->]%st_lift_Ok_inv).
  assert (find out "convo_id" = find n "convo_id") as ->
    by (eapply set_fields_find; [done|]; simpl; set_solver).
  split; intros [= ->]; simpl in Hres.
  - by eapply resolve_process_owner.
  - by eapply resolve_user_owner.
Qed.

(** ** The messages that are sent *)

Lemma build_store_inv now input c io out io' :
  build_store read_file regex_search skills_menu now input c io = (Ok out, io') →
  ∃ c', update_history now (bi_prompt input) (bi_override input) (bi_inputs input) c = Ok c' ∧
    lookup_convo (bi_convo_id input) io' = Ok c' ∧
    build_messages read_file regex_search skills_menu (bi_mode input) (bi_prompt input) c' = Ok out.
Proof.
  intros H. apply st_bind_Ok_inv in H as (c' & ? & [Hu ->]%st_lift_Ok_inv & H).
  apply st_bind_Ok_inv in H as (b & io1 & _ & H).
  apply st_bind_Ok_inv in H as ([] & io2 & [= <-] & [Hb ->]%st_lift_Ok_inv).
  exists c'. split_and!; [done| |done]. apply lookup_convo_cached. simpl. by rewrite lookup_insert_eq.
Qed.

Lemma build_inv now request io out io' :
  build_conversation_messages_safely read_file regex_search skills_menu now request io
    = (Ok out, io') →
  ∃ input c, build_input request = Ok input ∧ lookup_convo (bi_convo_id input) io = Ok c ∧
    cv_convo_id c ≠ "" ∧
    build_store read_file regex_search skills_menu now input c io = (Ok out, io').
Proof.
  intros H. apply st_bind_Ok_inv in H as (input & ? & [Hin ->]%st_lift_Ok_inv & H).
  apply st_bind_Ok_inv in H as (c & io1 & Hload & H). exists input.
  unfold build_load in Hload. apply st_bind_Ok_inv in Hload as (c1 & io2 & Hl & Hload).
  rewrite cached_or_loaded_eq in Hl. injection Hl as Hl <-.
  case_decide; [done|]. unfold mret, ST_ret in Hload. injection Hload as <- <-. by exists c1.
Qed.

Lemma build_messages_ok mode prompt c out :
  Forall message_ok (cv_messages c) → cv_messages c ≠ [] →
  build_messages read_file regex_search skills_menu mode prompt c = Ok out →
  ∃ l, out = JArray l ∧
    (Forall sendable (cv_messages c) → normalize_messages_for_provider out = Ok out) ∧
    said <$> l =
      (if existsb (role_is "system") (cv_messages c) then []
       else [("system", build_layered_system_prompt regex_search read_file skills_menu
                          mode prompt (cv_user_id c))]) ++ (said <$> cv_messages c).
Proof.
  intros Hm Hne. unfold build_messages. rewrite history_has_system_ok by done. simpl.
  destruct (built_messages_ok _ Hm) as (outs & -> & Hsaid & Hn). simpl. intros [= <-].
  eexists. split; [done|]. rewrite omap_id_Some. destruct (existsb _ _); cbn [app].
  - split; [|done]. intros Hsend. apply normalize_messages_fixed; [|by apply Hn]. intros ->.
    symmetry in Hsaid. by apply fmap_nil_inv in Hsaid.
  - split; [|rewrite fmap_cons, Hsaid; done]. intros Hsend.
    apply normalize_messages_fixed; [done|]. constructor; [|by apply Hn].
    unfold normalize_provider_message. simpl. rewrite bool_decide_false; [done|].
    apply layered_prompt_nonempty.
Qed.

(** The messages of a request are the conversation: they say what its messages say, in
    order, the inputs of the request last, after a system prompt where the conversation has no
    system message of its own; the conversation is kept with these inputs; and the adapters
    send the messages as they are, so that none is lost on the way to the provider, when only
    assistants have left their text empty. *)
Lemma built_messages_spec now request io out io' :
  io_ok io → request_nameable request → is_long now →
  build_conversation_messages_safely read_file regex_search skills_menu now request io
    = (Ok out, io') →
  ∃ id c l mode inputs before,
    find request "convo_id" = Some (JString id) ∧
    value_string request "mode" "user_conversation" = Ok mode ∧
    pending_inputs request = Ok inputs ∧
    lookup_convo id io' = Ok c ∧ out = JArray l ∧
    said <$> cv_messages c = before ++ (said_input <$> inputs) ∧
    said <$> l =
      (if existsb (role_is "system") (cv_messages c) then []
       else [("system", build_layered_system_prompt regex_search read_file skills_menu
                          mode (explicit_system_prompt request) (cv_user_id c))]) ++
      (said <$> cv_messages c) ∧
    (Forall sendable (cv_messages c) → normalize_messages_for_provider out = Ok out).
Proof.
  intros Hio Hreq Hnow (input & c & Hin & Hl & Hne & H)%build_inv.
  pose proof Hin as (Hid & _ & Hinputs & Hsome & Hprompt)%build_input_inv.
  pose proof Hin as [Hpending Hmode]%build_input_inputs.
  assert (nameable (bi_convo_id input)) as Hn by (apply Hreq; by left).
  assert (named (bi_convo_id input) c) as [Hc _]
    by (apply found_named; [by eapply lookup_convo_found|done]).
  apply build_store_inv in H as (c' & Hu & Hl' & Hb).
  pose proof Hu as [before Hsaid]%update_history_said; [|done..].
  apply update_history_ok in Hu as [Hc' _]; [|done..].
  apply build_messages_ok in Hb as (l & -> & Hnorm & Hs); [| |].
  - exists (bi_convo_id input), c', l, (bi_mode input), (bi_inputs input), before.
    rewrite <-Hprompt. by split_and!.
  - apply Hc'.
  - intros Hempty. rewrite Hempty in Hsaid. symmetry in Hsaid.
    apply app_eq_nil in Hsaid as [_ Hsaid%fmap_nil_inv]. done.
Qed.

(** A message that is appended between the two critical sections of building the messages
    of a request is lost: the conversation that was read before is what is extended, written
    and sent. *)
Lemma build_loses_append now now' input c io io1 role content tokens extra io2 out io3 :
  io_ok io → nameable (bi_convo_id input) → is_long now →
  build_load input io = (Ok c, io1) →
  append_message now (bi_convo_id input) role content tokens extra io1 = (Ok true, io2) →
  build_store read_file regex_search skills_menu now' input c io2 = (Ok out, io3) →
  ∃ c2 c3, lookup_convo (bi_convo_id input) io2 = Ok c2 ∧
    said <$> cv_messages c2 = (said <$> cv_messages c) ++ [(canonicalize_role role, content)] ∧
    lookup_convo (bi_convo_id input) io3 = Ok c3 ∧
    update_history now' (bi_prompt input) (bi_override input) (bi_inputs input) c = Ok c3 ∧
    build_messages read_file regex_search skills_menu (bi_mode input) (bi_prompt input) c3 = Ok out.
Proof.
  intros Hio Hid Hnow Hload Happ Hstore'.
  unfold build_load in Hload. apply st_bind_Ok_inv in Hload as (c1 & io0 & Hl & Hload).
  rewrite cached_or_loaded_eq in Hl. injection Hl as Hl <-.
  case_decide; [done|]. unfold mret, ST_ret in Hload. injection Hload as <- <-.
  apply append_and_persist_spec in Happ as [_ Happ]; [|done..].
  destruct Happ as (c & Hl0 & _ & _ & Hcache & _); [done|].
  rewrite Hl in Hl0. injection Hl0 as <-.
  apply build_store_inv in Hstore' as (c3 & Hu & Hl3 & Hb).
  eexists _, c3. split; [by apply lookup_convo_cached|]. split; [|by split_and!].
  simpl. by rewrite fmap_app.
Qed.

(** The system prompt that a caller sends with the first message of a conversation replaces
    the guidelines, the persona and the facts about the user, and is not checked: it becomes a
    message of the history, and a history with a system message is sent without the layered
    prompt - from then on, in every request. *)
Lemma first_prompt_replaces_layers now input c io out io' :
  named (bi_convo_id input) c → cv_messages c = [] → bi_prompt input ≠ "" →
  Forall input_ok (bi_inputs input) → is_long now →
  build_store read_file regex_search skills_menu now input c io = (Ok out, io') →
  ∃ l, out = JArray l ∧
    said <$> l = ("system", bi_prompt input) :: (said_input <$> bi_inputs input).
Proof.
  intros [Hc _] Hempty Hprompt Hin Hnow (c' & Hu & _ & Hb)%build_store_inv.
  pose proof Hu as [Hc' _]%update_history_ok; [|done..].
  apply exc_bind_Ok_inv in Hu as (c1 & H1 & Hu). rewrite decide_False in H1 by done.
  assert (said <$> cv_messages c1 = [("system", bi_prompt input)]) as Hs1.
  { destruct (bi_override input).
    - rewrite Hempty in H1. simpl in H1. by apply append_or_said in H1 as [-> _].
    - rewrite decide_True in H1 by done. apply append_or_said in H1 as [-> _]. by rewrite Hempty. }
  apply append_inputs_said in Hu; [|done]. rewrite Hs1 in Hu. simpl in Hu.
  apply build_messages_ok in Hb as (l & -> & _ & Hs); [|apply Hc'|by intros Hn; rewrite Hn in Hu].
  exists l. split; [done|]. rewrite Hs, Hu.
  destruct (cv_messages c') as [|m ms]; [done|]. rewrite fmap_cons in Hu. injection Hu as Hm _ _.
  cbn [existsb]. unfold role_is at 1. by rewrite Hm.
Qed.

(** The file that the JSON provider left for a session is preferred to what the provider
    in use has: as long as the file is there, the first request after a start continues from
    it, and the next turn that is kept overwrites the stored conversation with it. *)
Lemma legacy_file_wins now id text c io role content tokens extra io' :
  io_ok io → nameable id → is_session_id id = true → is_long now →
  convo_cache_ io !! id = None →
  read_file (user_convo_path storage_path_ id) = Some text →
  parse_file text ≫= conversation_of_json = Ok c → cv_convo_id c = id →
  let get := get_or_create_user_convo parse_file read_file storage_path_ now id io in
  get.1 = Ok c ∧
  (append_message now id role content tokens extra get.2 = (Ok true, io') →
   Storage.get_conversation id (storage_ io') =
     Ok (Some (conversation_json
       (add_message now (new_message now (canonicalize_role role) content extra)
          (token_delta tokens content) c)))).
Proof.
  intros Hio Hid Hs Hnow Hn Hfile Hparse Hc get.
  assert (id ≠ "") as Hne by (by apply session_id_nonempty).
  assert (get = (Ok c, with_cache <[id:=c]> io)) as ->.
  { unfold get, get_or_create_user_convo. rewrite decide_False by done.
    unfold get_or_create_user_convo_unlocked, generate_user_convo_id. rewrite Hs.
    rewrite decide_False by done. unfold cached, gets, lift, mbind, ST_bind. rewrite Hn.
    unfold load_convo_from_path. rewrite Hfile, Hparse. simpl.
    rewrite decide_True by congruence. done. }
  split; [done|]. simpl. intros Happ.
  assert (named id c) as Hnamed.
  { apply files_ok; [|congruence]. unfold load_convo_from_path. by rewrite Hfile, Hparse. }
  apply append_and_persist_spec in Happ as [_ Happ]; [|by apply (keeps_cache_put id c)|done..].
  destruct Happ as (c0 & Hl & _ & _ & _ & Hst); [done|].
  rewrite (lookup_convo_cached id c) in Hl by (simpl; by rewrite lookup_insert_eq).
  by injection Hl as <-.
Qed.
End requests.
End invariant.
