(* ===== verification/SessionManager.v ===== *)
(** * The session manager (src/llm/session_manager.cpp)

    The sessions of the users over a storage provider: creating, listing, naming, deleting
    and describing them, and the estimate of how full a context is.  The provider is always
    there ([make_storage_provider_from_config] returns one), so that the branches without one
    are not modelled; creating directories is taken to succeed. *)

From S2P Require Import Prelude Json StringUtils LlmRequest Sessions Storage Prompt.

Record SessionLiveStats := {
  ls_current_context_tokens : Z;
  ls_total_tokens_used : Z;
  ls_turn_count : Z;
  ls_compacted : bool;
  ls_needs_compaction : bool;
}.

Record SessionInfo := {
  si_session_id : string;
  si_title : string;
  si_snapshot_count : Z;
  si_live_stats : SessionLiveStats;
}.

Record SuperUserInfo := { su_super_user : string; su_sessions : list SessionInfo }.

Record ContextUsage := {
  session_tokens : Z;
  system_prompt_tokens : Z;
  tool_schema_tokens : Z;
  request_tokens : Z;
  total_context_tokens : Z;
  max_context_tokens : Z;
  context_fill_pct : double;
}.

(** The title of the first entry of the session. *)
Fixpoint title_of (session_id : string) (entries : list json) : exc string :=
  match entries with
  | [] => mret ""
  | entry :: entries =>
      if negb (is_object entry) then title_of session_id entries
      else
        sid ← value_string entry "session_id" "";
        if decide (sid = session_id) then value_string entry "title" ""
        else title_of session_id entries
  end.

(** The ids of the entries of an index. *)
Fixpoint entry_ids (entries : list json) : exc (list string) :=
  match entries with
  | [] => mret []
  | entry :: entries =>
      if negb (is_object entry) then entry_ids entries
      else
        sid ← value_string entry "session_id" "";
        sids ← entry_ids entries;
        mret (if decide (sid = "") then sids else sid :: sids)
  end.

(** [static_cast<double>(static_cast<int>(x)) / 10.0] *)
Definition tenths (x : double) : exc double :=
  match d_trunc x with
  | Some z => if decide (- 2 ^ 31 ≤ z ≤ INT_MAX) then mret (d_div (d_of_Z z) (d_of_Z 10)) else UB
  | None => UB
  end.

Definition build_session_object (info : SessionInfo) (max_ctx : Z) : exc json :=
  let stats := si_live_stats info in
  let session := [
    ("session_id", JString (si_session_id info)); ("title", JString (si_title info));
    ("current_context_tokens", JInt (ls_current_context_tokens stats));
    ("total_tokens_used", JInt (ls_total_tokens_used stats));
    ("turn_count", JInt (ls_turn_count stats));
    ("snapshot_count", JInt (si_snapshot_count info));
    ("compacted", JBool (ls_compacted stats));
    ("needs_compaction", JBool (ls_needs_compaction stats))] in
  if decide (max_ctx > 0) then
    let fill := d_mul (d_div (d_of_Z (ls_current_context_tokens stats)) (d_of_Z max_ctx))
                  (d_of_Z 100) in
    pct ← tenths (d_mul fill (d_of_Z 10));
    mret (JObject (session ++ [("max_context_tokens", JInt max_ctx);
                               ("context_fill_pct", JFloat pct)]))
  else mret (JObject session).

Section manager.
Context {St : Type} `{!IStorageProvider St}.
Context (regex_search : string → string → option bool).
Context (read_file : string → option string) (skills_menu : exc json).

Abbreviation M := (ST St).

(** A call of the provider that returns whether it was done. *)
Definition call (f : St → bool * St) : M bool := λ s, let '(b, s) := f s in (Ok b, s).
Definition query {A} (f : St → exc A) : M A := λ s, (f s, s).

Definition load_index : M json :=
  gets (λ s, JObject [("users", JObject (foldl (λ users super_user,
    assoc_set super_user (JArray (list_session_index_entries super_user s)) users)
    [] (list_super_users s)))]).

Definition index_upsert_session (super_user session_id title : string) : M () :=
  call (upsert_super_user super_user);;
  call (upsert_session_index_entry super_user session_id title);;
  mret tt.

Definition list_sessions (super_user : string) : M (list string) :=
  entries ← gets (list_session_index_entries super_user);
  lift (entry_ids entries ≫= sort_sessions).

Definition get_or_create_active_session (super_user : string) : M string :=
  sessions ← list_sessions super_user;
  match last sessions with
  | Some sid => mret sid
  | None =>
      let sid := super_user +:+ "_s1" in
      index_upsert_session super_user sid "";;
      mret sid
  end.

Definition new_session (super_user title : string) : M string :=
  lift (validate_super_user_name super_user);;
  sessions ← list_sessions super_user;
  sid ← lift (next_session_id super_user sessions);
  index_upsert_session super_user sid title;;
  mret sid.

Definition create_super_user (super_user : string) : M string :=
  lift (validate_super_user_name super_user);;
  call (upsert_super_user super_user);;
  mret super_user.

Definition set_session_title (session_id new_title : string) : M () :=
  if negb (is_session_id session_id) then
    lift (Throw "set_session_title requires session_id")
  else index_upsert_session (extract_super_user session_id) session_id new_title.

Definition delete_session (session_id : string) : M bool :=
  if negb (is_session_id session_id) then lift (Throw "delete_session requires session_id")
  else
    existed_idx ← call (delete_session_index_entry (extract_super_user session_id) session_id);
    delete_snapshots session_id;;
    deleted_convo ← call (delete_conversation session_id (-1));
    mret (existed_idx || deleted_convo).

Definition delete_super_user (super_user : string) : M bool :=
  lift (validate_super_user_name super_user);;
  call (Storage.delete_super_user super_user).

(** [needing] is [sessions_needing_compaction_]. *)
Definition session_needs_compaction (needing : gset string) (session_id : string) : bool :=
  bool_decide (session_id ∈ needing).

(** What the stored conversation says; all zero for a session without one. *)
Definition live_stats (row : option json) (needs_compaction : bool) : exc SessionLiveStats :=
  match row with
  | Some (JObject kvs) =>
      current ← value_uint64 (JObject kvs) "current_context_tokens" 0;
      total ← value_uint64 (JObject kvs) "total_tokens_used" 0;
      turns ← value_int (JObject kvs) "turn_count" 0;
      compacted ← value_bool (JObject kvs) "compacted" false;
      mret {| ls_current_context_tokens := current; ls_total_tokens_used := total;
              ls_turn_count := turns; ls_compacted := compacted;
              ls_needs_compaction := needs_compaction |}
  | _ => mret {| ls_current_context_tokens := 0; ls_total_tokens_used := 0; ls_turn_count := 0;
                 ls_compacted := false; ls_needs_compaction := needs_compaction |}
  end.

Definition get_session_info (needing : gset string) (session_id : string) : M SessionInfo :=
  idx ← load_index;
  title ← lift match find idx "users" with
               | Some users =>
                   match find users (extract_super_user session_id) with
                   | Some (JArray entries) => title_of session_id entries
                   | _ => mret ""
                   end
               | None => mret ""
               end;
  row ← query (get_conversation session_id);
  stats ← lift (live_stats row (session_needs_compaction needing session_id));
  count ← gets (snapshot_count session_id);
  mret {| si_session_id := session_id; si_title := title; si_snapshot_count := count;
          si_live_stats := stats |}.

Fixpoint session_infos (needing : gset string) (sids : list string) : M (list SessionInfo) :=
  match sids with
  | [] => mret []
  | sid :: sids =>
      info ← get_session_info needing sid;
      infos ← session_infos needing sids;
      mret (info :: infos)
  end.

Definition get_super_user_info (needing : gset string) (super_user : string) : M SuperUserInfo :=
  sids ← list_sessions super_user;
  infos ← session_infos needing sids;
  mret {| su_super_user := super_user; su_sessions := infos |}.

Definition get_session_object (needing : gset string) (session_id : string) (max_ctx : Z) :
    M json :=
  info ← get_session_info needing session_id;
  lift (build_session_object info max_ctx).

(** [schemas] is the text of the tools' schemas. *)
Definition compute_context_usage (needing : gset string) (schemas : exc string)
    (session_id : string) (request_messages : json) (mode : string) (max_tokens : Z) :
    M ContextUsage :=
  info ← get_session_info needing session_id;
  let prompt := build_layered_system_prompt regex_search read_file skills_menu mode ""
                  (if decide (mode = "user_conversation") then session_id else "") in
  schemas ← lift schemas;
  request ← lift (estimate_request_tokens request_messages);
  let session := ls_current_context_tokens (si_live_stats info) in
  let total := u64 (session + estimate_tokens prompt + estimate_tokens schemas + request) in
  mret {| session_tokens := session; system_prompt_tokens := estimate_tokens prompt;
          tool_schema_tokens := estimate_tokens schemas; request_tokens := request;
          total_context_tokens := total; max_context_tokens := max_tokens;
          context_fill_pct :=
            if decide (max_tokens > 0)
            then d_mul (d_div (d_of_Z total) (d_of_Z max_tokens)) (d_of_Z 100)
            else d_zero |}.

(** [snapshot_n] is the count plus one. *)
Definition save_snapshot (now : Z) (session_id : string) (history : list json) : M () :=
  n ← gets (snapshot_count session_id);
  if decide (n = INT_MAX) then lift UB
  else
    let snap := JObject [("session_id", JString session_id); ("snapshot_n", JInt (n + 1));
                         ("snapshot_ms", JInt now); ("messages", JArray history)] in
    (λ s, match append_snapshot session_id snap s with
          | Ok (_, s) => (Ok tt, s)
          | Throw w => (Throw w, s)
          | UB => (UB, s)
          end).
End manager.

(** ** Over SQLite *)

Section sqlite.
Context (parse : string → exc json) (dump : json → exc string).
Context (completes : string → Sqlite → bool).

#[local] Instance sqlite_provider : IStorageProvider Sqlite :=
  SqliteStorageProvider parse dump completes.

(** The sessions of a user in the index. *)
Definition indexed (super_user : string) (db : Sqlite) : list string :=
  filter (λ sid, sid ≠ "") (order_by_text ((map_to_list
    (filter (λ '(_, (user, _)), user = super_user) (session_index db))).*1)).

Lemma elem_of_indexed super_user db sid :
  sid ∈ indexed super_user db ↔
  sid ≠ "" ∧ ∃ title, session_index db !! sid = Some (super_user, title).
Proof.
  unfold indexed, order_by_text. rewrite list_elem_of_filter, insertion_sort_perm.
  apply and_iff_compat_l. rewrite list_elem_of_fmap. split.
  - intros ([sid' [user title]] & -> & H%elem_of_map_to_list). simpl.
    apply map_lookup_filter_Some in H as [H ->]. by exists title.
  - intros [title H]. exists (sid, (super_user, title)). split; [done|].
    by apply elem_of_map_to_list, map_lookup_filter_Some_2.
Qed.

Lemma entry_ids_spec titles sids :
  entry_ids ((λ sid, index_entry sid (titles sid)) <$> sids) = Ok (filter (λ sid, sid ≠ "") sids).
Proof.
  induction sids as [|sid sids IH]; [done|]. rewrite fmap_cons. simpl.
  unfold value_string, value. simpl. rewrite IH. simpl. rewrite filter_cons.
  destruct (decide (sid = "")); [rewrite decide_False by naive_solver|rewrite decide_True by done];
    done.
Qed.

Lemma list_sessions_sqlite super_user db :
  c_str super_user = super_user →
  list_sessions super_user db = (sort_sessions (indexed super_user db), db).
Proof.
  intros Hsu. unfold list_sessions, gets, lift, mbind, ST_bind. simpl.
  unfold sqlite_list_session_index_entries. rewrite entry_ids_spec. simpl. by rewrite Hsu.
Qed.

Lemma valid_name_chars su : validate_super_user_name su = Ok tt → all_name_chars su = true.
Proof.
  unfold validate_super_user_name. case_decide; [done|].
  destruct (match rfind_str "_s" su with Some _ => _ | None => _ end); [done|].
  by destruct (all_name_chars su).
Qed.

Lemma valid_name_no_nul su : validate_super_user_name su = Ok tt → c_str su = su.
Proof.
  intros H%valid_name_chars. pose proof (name_no_nul su "" H) as Hn.
  by rewrite !str_app_nil_r in Hn.
Qed.

Lemma digits_no_nul s : all_digits s = true → c_str s = s.
Proof.
  induction s as [|c s IH]; [done|]. cbn [all_digits c_str]. intros [Hc Hs]%andb_true_iff.
  rewrite decide_False by (by intros ->). by rewrite IH.
Qed.

Lemma session_id_no_nul su n :
  all_name_chars su = true → 0 ≤ n → c_str (su +:+ "_s" +:+ pretty n) = su +:+ "_s" +:+ pretty n.
Proof.
  intros Hsu Hn. rewrite (name_no_nul su ("_s" +:+ pretty n)) by done. f_equal.
  change (c_str ("_s" +:+ pretty n)) with ("_s" +:+ c_str (pretty n)).
  by rewrite digits_no_nul by (by apply pretty_Z_digits).
Qed.

(** The listed session with the greatest number is the active one. *)
Lemma greatest_is_active su sid n db :
  c_str su = su → Forall (λ s, is_Some (session_number s)) (indexed su db) →
  sid ∈ indexed su db → session_number sid = Some n →
  (∀ s m, s ∈ indexed su db → session_number s = Some m → s = sid ∨ m < n) →
  get_or_create_active_session su db = (Ok sid, db).
Proof.
  intros Hsu Hall Hin Hn Hgreatest. unfold get_or_create_active_session, mbind, ST_bind.
  rewrite list_sessions_sqlite by done.
  destruct (sort_sessions_spec _ Hall) as (l & -> & Hperm & _ & Hlast).
  rewrite <-Hperm in Hin.
  destruct (last l) as [active|] eqn:El;
    [|apply last_None in El; subst; by apply not_elem_of_nil in Hin].
  assert (active ∈ indexed su db) as Ha.
  { rewrite <-Hperm. apply last_Some in El as [l' ->]. set_solver. }
  rewrite Forall_forall in Hall. destruct (Hall active Ha) as [m Hm].
  destruct (Hgreatest active m Ha Hm) as [->|Hlt]; [done|]. rewrite Hperm in Hin.
  pose proof (Hlast active eq_refl sid n m Hin Hn Hm). lia.
Qed.

Lemma listed_number_le sids s n :
  s ∈ sids → session_number s = Some n → n ≤ max_session_number sids.
Proof.
  intros Hs Hn. destruct (max_session_number_ge sids) as [Hpos Hge]. unfold session_number in Hn.
  destruct (rfind_str "_s" s) as [[bf sf]|] eqn:Er; [by eapply Hge|]. injection Hn as <-. done.
Qed.

(** The next id, with its number. *)
Lemma next_session_id_number su sids sid :
  next_session_id su sids = Ok sid →
  ∃ n, max_session_number sids < n ∧ 0 ≤ n ≤ INT_MAX ∧ sid = su +:+ "_s" +:+ pretty n ∧
    session_number sid = Some n.
Proof.
  unfold next_session_id. case_decide as Hm; [done|]. intros [= <-].
  destruct (max_session_number_ge sids) as [? _]. pose proof (max_session_number_le sids).
  exists (max_session_number sids + 1). split_and!; [lia..|done|].
  unfold session_number. rewrite rfind_suffix by (apply pretty_Z_digits; lia).
  apply stoi_pretty. lia.
Qed.

(** A provider over which every statement completes adds what it is asked to add. *)
Lemma index_upsert_sqlite su sid title db :
  (∀ sql db, completes sql db = true) → c_str su = su → c_str sid = sid →
  index_upsert_session su sid title db =
    (Ok tt, with_session_index <[sid := (su, c_str title)]> (with_super_users (union {[su]})
              (with_super_users (union {[su]}) db))).
Proof.
  intros Hok Hsu Hsid. unfold index_upsert_session, call, mbind, ST_bind. simpl.
  unfold sqlite_upsert_session_index_entry, sqlite_upsert_super_user, execute.
  rewrite !Hok, Hsu, Hsid. simpl. by rewrite decide_True by set_solver.
Qed.

(** A session that is created is new, belongs to the user who asked for it, and is the
    active one: its id was not in the user's index, the index gains it with the title and
    nothing else, and the next request for the active session gets it - provided that the
    numbers of the user's sessions can be read. *)
Lemma new_session_spec su title sid db db' :
  (∀ sql db, completes sql db = true) →
  (∀ s t, session_index db !! s = Some (su, t) → is_Some (session_number s)) →
  new_session su title db = (Ok sid, db') →
  (∀ t, session_index db !! sid ≠ Some (su, t)) ∧
  is_session_id sid = true ∧ extract_super_user sid = su ∧
  session_index db' = <[sid := (su, c_str title)]> (session_index db) ∧
  get_or_create_active_session su db' = (Ok sid, db').
Proof.
  intros Hok Hnum H.
  apply st_bind_Ok_inv in H as ([] & ? & [Hvalid ->]%st_lift_Ok_inv & H).
  pose proof (valid_name_no_nul su Hvalid) as Hsu.
  apply st_bind_Ok_inv in H as (sids & db1 & Hlist & H).
  rewrite list_sessions_sqlite in Hlist by done. injection Hlist as Hsort <-.
  apply st_bind_Ok_inv in H as (sid' & ? & [Hnext ->]%st_lift_Ok_inv & H).
  assert (Forall (λ s, is_Some (session_number s)) (indexed su db)) as Hall.
  { apply Forall_forall. intros s [_ [t Ht]]%elem_of_indexed. by eapply Hnum. }
  pose proof (sort_sessions_spec _ Hall) as (l & Hl & Hperm & _).
  rewrite Hl in Hsort. injection Hsort as ->.
  destruct (next_session_id_spec su sids) as [[_ Hub]|(s & Hs & Hnew & Hid & Hex)];
    [congruence|]. rewrite Hs in Hnext. injection Hnext as ->.
  destruct (next_session_id_number su sids sid' Hs) as (n & Hn & Hrange & Hsid' & Hsn).
  assert (c_str sid' = sid') as Hnul.
  { rewrite Hsid'. apply session_id_no_nul; [by apply valid_name_chars|lia]. }
  apply st_bind_Ok_inv in H as ([] & db1 & Hup & H). unfold mret, ST_ret in H.
  injection H as -> <-. rewrite index_upsert_sqlite in Hup by done. injection Hup as <-.
  assert (sid ≠ "") as Hne by (by intros ->).
  assert (∀ s t, s ∈ indexed su (with_session_index <[sid:=(su, t)]>
    (with_super_users (union {[su]}) (with_super_users (union {[su]}) db))) →
    s = sid ∨ s ∈ indexed su db) as Hin.
  { intros s t [Hs1 [t' Ht]]%elem_of_indexed. simpl in Ht. destruct (decide (s = sid)); [by left|].
    rewrite lookup_insert_ne in Ht by done. right. apply elem_of_indexed. by eauto. }
  split_and!; [|done..|].
  - intros t Ht. apply Hnew. rewrite Hperm. apply elem_of_indexed. by eauto.
  - rewrite Forall_forall in Hall. apply (greatest_is_active _ _ n); [done| | |done|].
    + apply Forall_forall. intros s [->|Hs1]%Hin; [by rewrite Hsn|by apply Hall].
    + apply elem_of_indexed. split; [done|]. eexists. simpl. by rewrite lookup_insert_eq.
    + intros s m [->|Hold]%Hin Hm; [by left|right]. rewrite <-Hperm in Hold.
      pose proof (listed_number_le sids s m Hold Hm). lia.
Qed.

(** Deleting a session removes its entry in the index, its snapshots and its conversation,
    and nothing else; it answers that the session existed, whether it did or not. *)
Lemma delete_session_spec sid db :
  (∀ sql db, completes sql db = true) → is_session_id sid = true → c_str sid = sid →
  ∃ db', delete_session sid db = (Ok true, db') ∧
    session_index db' = delete sid (session_index db) ∧
    session_snapshots db' = delete sid (session_snapshots db) ∧
    conversations db' = delete sid (conversations db) ∧
    super_users db' = super_users db.
Proof.
  intros Hok Hid Hnul. unfold delete_session. rewrite Hid. simpl.
  unfold call, mbind, ST_bind. simpl. unfold sqlite_delete_session_index_entry,
    sqlite_delete_snapshots, sqlite_delete_conversation, execute. rewrite !Hok, Hnul. simpl.
  eexists. split_and!; [done..| |done]. simpl.
  destruct (conversations db !! sid) eqn:E; [done|]. by rewrite delete_id.
Qed.

(** A session is never reported as compacted: what is stored has no such member - the mark
    that compaction leaves is kept in the metadata -, so that the member of that name, which
    the description of a session reads, is never there. *)
Lemma compacted_never_reported needing sid db info db' :
  get_session_info needing sid db = (Ok info, db') →
  ls_compacted (si_live_stats info) = false.
Proof.
  intros H. apply st_bind_Ok_inv in H as (idx & ? & [= _ <-] & H).
  apply st_bind_Ok_inv in H as (title & ? & [_ ->]%st_lift_Ok_inv & H).
  apply st_bind_Ok_inv in H as (row & ? & [= Hrow <-] & H).
  apply st_bind_Ok_inv in H as (stats & ? & [Hstats ->]%st_lift_Ok_inv & H).
  apply st_bind_Ok_inv in H as (count & ? & [= _ <-] & H). unfold mret, ST_ret in H.
  injection H as <- _. simpl. unfold live_stats in Hstats.
  unfold sqlite_get_conversation in Hrow.
  destruct (conversations db !! c_str sid) as [r|]; [|injection Hrow as <-; by injection Hstats as <-].
  apply exc_bind_Ok_inv in Hrow as (j & Hj & Hrow). injection Hrow as <-. unfold row_json in Hj.
  apply exc_bind_Ok_inv in Hj as (messages & _ & Hj).
  apply exc_bind_Ok_inv in Hj as (metadata & _ & Hj). injection Hj as <-.
  apply exc_bind_Ok_inv in Hstats as (current & _ & Hstats).
  apply exc_bind_Ok_inv in Hstats as (total & _ & Hstats).
  apply exc_bind_Ok_inv in Hstats as (turns & _ & Hstats).
  apply exc_bind_Ok_inv in Hstats as (compacted & Hc & Hstats).
  unfold value_bool, value in Hc. simpl in Hc. injection Hc as <-. by injection Hstats as <-.
Qed.
End sqlite.
