(* ===== verification/DiskStore.v ===== *)
(** * What the default provider promises

    The conversations of the provider over JSON files (JsonStorage.v) are a finite map, and
    what every operation that changes the disk does to the map is said, whatever fails
    underneath. Its snapshots are numbered without gaps and never overwritten. A session
    that is deleted leaves its directory, from which it is listed again. *)

From Stdlib Require Import Ascii.
From S2P Require Import Prelude Json StringUtils Prompt Conversations SessionManager Sessions Storage JsonStorage.

(** ** The disk *)

(** Every name is one component, and what is there is in a directory. *)
Record disk_ok (d : Disk) : Prop := {
  dk_plain q : q ∈ dirs d → Forall plain q;
  dk_dirs q : q ∈ dirs d → removelast q = [] ∨ removelast q ∈ dirs d;
  dk_files p : is_Some (files d !! p) → p ≠ [] ∧ removelast p ∈ dirs d;
  dk_apart p : p ∈ dirs d → files d !! p = None;
}.

(** The files of the conversations are as they were, but for those in [gone]. *)
Definition homes_but (gone : path → bool) (d d' : Disk) : Prop :=
  ∀ id p, home id p → files d' !! p = if gone p then None else files d !! p.

Abbreviation same_homes := (homes_but (λ _, false)).

Lemma same_homes_refl d : same_homes d d.
Proof. by intros id p _. Qed.

Lemma same_homes_trans gone d1 d2 d3 :
  same_homes d1 d2 → homes_but gone d2 d3 → homes_but gone d1 d3.
Proof. intros H12 H23 id p Hp. rewrite (H23 id p Hp). by rewrite (H12 id p Hp). Qed.

Lemma homes_but_trans gone gone' d1 d2 d3 :
  homes_but gone d1 d2 → homes_but gone' d2 d3 → homes_but (λ p, gone p || gone' p) d1 d3.
Proof.
  intros H12 H23 id p Hp. rewrite (H23 id p Hp), (H12 id p Hp).
  by destruct (gone p), (gone' p).
Qed.

Lemma elem_of_prefixes q p :
  q ∈ prefixes p ↔ ∃ n, (n < length p)%nat ∧ q = take (Datatypes.S n) p.
Proof.
  unfold prefixes. rewrite list_elem_of_fmap. split.
  - intros (n & -> & Hn%elem_of_seq). exists (pred n). split; [lia|]. f_equal. lia.
  - intros (n & Hn & ->). exists (Datatypes.S n). split; [done|]. apply elem_of_seq. lia.
Qed.

Lemma removelast_snoc {A} (l : list A) x : removelast (l ++ [x]) = l.
Proof. by rewrite removelast_last. Qed.

Lemma under_self p : under p p = true.
Proof. apply bool_decide_true. by rewrite take_ge. Qed.

(** What is under [p] and is not [p] is in a directory under [p]. *)
Lemma under_snoc p q x : under p (q ++ [x]) = true → p = q ++ [x] ∨ under p q = true.
Proof.
  unfold under. rewrite !bool_decide_eq_true. intros H.
  destruct (decide (length p ≤ length q)%nat).
  - right. by rewrite take_app_le in H.
  - left. rewrite take_ge in H; [done|]. rewrite length_app. simpl. lia.
Qed.

Lemma under_removelast p q : under p (removelast q) = true → under p q = true.
Proof.
  destruct q as [|x q _] using rev_ind; [done|]. rewrite removelast_snoc. unfold under.
  rewrite !bool_decide_eq_true. intros H. rewrite <-H at 2. rewrite take_app_le; [done|].
  rewrite <-H, length_take. lia.
Qed.

Lemma under_exists d p q :
  disk_ok d → p ≠ [] → is_Some (files d !! q) ∨ q ∈ dirs d → under p q = true →
  exists_ p d = true.
Proof.
  intros Hd Hp. induction q as [|x q IH] using rev_ind; intros Hq Hu.
  { unfold under in Hu. rewrite take_nil in Hu. apply bool_decide_eq_true in Hu. by subst. }
  apply under_snoc in Hu as [->|Hu]; [by apply bool_decide_true|].
  assert (q = [] ∨ q ∈ dirs d) as [->|Hdir].
  { destruct Hq as [[_ Hq]%(dk_files _ Hd)|Hq%(dk_dirs _ Hd)]; rewrite removelast_snoc in Hq; by auto. }
  - unfold under in Hu. rewrite take_nil in Hu. apply bool_decide_eq_true in Hu. by subst.
  - by apply IH; [right|].
Qed.

Lemma removelast_under q s : under q s = true → under (removelast q) s = true.
Proof.
  destruct q as [|x q _] using rev_ind; [done|]. rewrite removelast_snoc. unfold under.
  rewrite !bool_decide_eq_true, length_app. intros H.
  apply (f_equal (take (length q))) in H. rewrite take_take, take_app_length in H.
  by rewrite Nat.min_l in H by lia.
Qed.

(** What survives a removal is in directories that do. *)
Lemma survives_removelast p left q : survives p left q = true → survives p left (removelast q) = true.
Proof.
  unfold survives. rewrite !orb_true_iff, !negb_true_iff. intros [Hu|Hl].
  - left. apply not_true_iff_false. intros Hr%under_removelast. congruence.
  - right. rewrite existsb_exists in *. destruct Hl as (s & Hs & Hl). exists s.
    by auto using removelast_under.
Qed.

(** Under [p], and not a file of [d']. *)
Definition lost_from (p : path) (d' : Disk) (q : path) : bool :=
  under p q && bool_decide (files d' !! q = None).

Lemma plain_two x y : plain x → plain y → Forall plain [x; y].
Proof. intros Hx Hy. by constructor; [|constructor; [|constructor]]. Qed.

Section disk.
Context (os : System) (readdir : gset string → list string).

Lemma create_directories_ok p d d' :
  create_directories os p d = Some d' → Forall plain p → disk_ok d →
  disk_ok d' ∧ (∀ q, q ∈ prefixes p → q ∈ dirs d').
Proof.
  unfold create_directories. destruct (_ && _) eqn:Hc; [|done].
  apply andb_true_iff in Hc as [_ Hc]. rewrite forallb_forall in Hc. intros [= <-] Hp [Hpl Hdirs Hfiles Hapart].
  split; [split|]; simpl; intros q.
  - rewrite elem_of_union, elem_of_list_to_set, elem_of_prefixes.
    intros [(n & _ & ->)|Hq]; [by apply Forall_take|by apply Hpl].
  - rewrite !elem_of_union, !elem_of_list_to_set, !elem_of_prefixes.
    intros [(n & Hn & ->)|Hq]; [|destruct (Hdirs q Hq); by auto].
    rewrite removelast_firstn by done. destruct n as [|n]; [by left|]. right. left.
    exists n. split; [lia|done].
  - intros Hq. rewrite elem_of_union. destruct (Hfiles q Hq); by auto.
  - rewrite elem_of_union, elem_of_list_to_set. intros [Hq|Hq]; [|by apply Hapart].
    apply (bool_decide_eq_true_1 (files d !! q = None)), Hc. by apply list_elem_of_In.
  - intros Hq. apply elem_of_union_l. by apply elem_of_list_to_set.
Qed.

Lemma remove_ok p d d' : remove os p d = Some d' → disk_ok d → disk_ok d'.
Proof.
  unfold remove. destruct (works os _ _ _); [|done]. simpl.
  destruct (is_empty p d) eqn:He; [|done]. intros [= <-] [Hpl Hdirs Hfiles Hapart].
  unfold is_empty in He. rewrite forallb_forall in He.
  assert (∀ q, is_Some (files d !! q) ∨ q ∈ dirs d → q ≠ [] → removelast q ≠ p) as Hne.
  { intros q Hq Hnil Hr. apply Hnil, last_None.
    assert (name_in p q = None) as Hn.
    { apply (bool_decide_eq_true_1 (name_in p q = None)), He, list_elem_of_In, elem_of_app.
      destruct Hq as [[text Hq]|Hq]; [left|right; by apply elem_of_elements].
      apply list_elem_of_fmap. exists (q, text). split; [done|]. by apply elem_of_map_to_list. }
    unfold name_in in Hn. by rewrite decide_True in Hn. }
  split; simpl; intros q; rewrite ?elem_of_difference, ?not_elem_of_singleton.
  - intros [Hq _]. by apply Hpl.
  - intros [Hq _]. destruct (Hdirs q Hq) as [|Hr]; [by left|].
    destruct (decide (q = [])) as [->|Hnil]; [by left|]. right. split; [done|].
    by apply Hne; [right|].
  - intros [text [Hq1 Hq2]%lookup_delete_Some]. destruct (Hfiles q) as [Hnil Hq]; [by eexists|].
    split_and!; [done..|]. apply Hne; [left; by eexists|done].
  - intros [Hq _]. rewrite lookup_delete_None. right. by apply Hapart.
Qed.

Lemma remove_all_ok p d done d' :
  remove_all os p d = (done, d') → p ≠ [] → disk_ok d →
  disk_ok d' ∧ (done = true → exists_ p d' = false) ∧
  (∀ q, exists_ q d = false → exists_ q d' = false) ∧
  ∀ q, files d' !! q = if lost_from p d' q then None else files d !! q.
Proof.
  unfold remove_all. set (left := if works _ _ _ _ then [] else _). intros [= <- <-] Hp [Hpl Hdirs Hfiles Hapart].
  assert (∀ q, filter (λ '(q, _), survives p left q = true) (files d) !! q =
    if survives p left q then files d !! q else None) as Hlook.
  { intros q. destruct (survives p left q) eqn:Hu.
    - destruct (files d !! q) as [text|] eqn:Hq;
        [by apply map_lookup_filter_Some_2|by apply map_lookup_filter_None_2; left].
    - apply map_lookup_filter_None_2. right. intros text _. congruence. }
  split_and!; [split| | |]; simpl.
  - intros q [_ Hq]%elem_of_filter. by apply Hpl.
  - intros q. rewrite !elem_of_filter. intros [Hu Hq]. destruct (Hdirs q Hq); [by left|]. right.
    split; [|done]. by apply survives_removelast.
  - intros q. rewrite Hlook. destruct (survives p left q) eqn:Hu; [|by intros []]. intros Hq.
    destruct (Hfiles q Hq). split; [done|]. apply elem_of_filter. split; [|done].
    by apply survives_removelast.
  - intros q [_ Hq]%elem_of_filter. rewrite Hlook, Hapart by done. by case_match.
  - intros Hdone. unfold left in *. rewrite Hdone in *. apply bool_decide_false. simpl.
    rewrite Hlook, elem_of_filter. unfold survives. rewrite under_self. simpl.
    intros [[]|[? _]]; done.
  - intros q. unfold exists_. rewrite !bool_decide_eq_false. simpl.
    rewrite Hlook, elem_of_filter. intros Hq [Ht|[_ Ht]]; apply Hq; [left|by right].
    by destruct (survives p left q).
  - intros q. unfold lost_from. simpl. rewrite Hlook. destruct (survives p left q) eqn:Hu.
    + destruct (files d !! q); by destruct (under p q).
    + unfold survives in Hu. apply orb_false_iff in Hu as [Hu%negb_false_iff _]. by rewrite Hu.
Qed.

Lemma write_json_ok (dump : json → option string) p j d b d' :
  write_json os dump p j d = (b, d') → disk_ok d → disk_ok d'.
Proof.
  unfold write_json, open_out. destruct (_ && _) eqn:Ho; [|by intros [= _ <-]].
  apply andb_true_iff in Ho as [[_ Hp%bool_decide_eq_true]%andb_true_iff
    Hr%bool_decide_eq_true].
  assert (∀ text d', dirs d' = dirs d → disk_ok d' →
    disk_ok (with_files <[p := text]> d')) as Hins.
  { intros text d1 Hd1 [Hpl Hdirs Hfiles Hapart]. rewrite <-Hd1 in *. split; [done..| |]; intros q; simpl.
    - intros [text' [[<- _]|[_ Hq]]%lookup_insert_Some]; [|apply Hfiles; by eexists].
      split; [|done]. by intros ->.
    - intros Hq. rewrite lookup_insert_ne by (by intros ->). by apply Hapart. }
  destruct (dump j) as [text|]; intros [= _ <-] Hd; [by apply Hins, Hins|by apply Hins].
Qed.
End disk.

(** ** The operations *)

Section store.
Context (os : System) (readdir : gset string → list string).
Context (read_json : string → option json) (dump : json → option string).
Context (up : path) (root : string).

(** The directory of the provider has a name of its own. *)
Abbreviation storage_root_ := (up ++ [root]).

Hypothesis root_plain : Forall plain storage_root_.
Hypothesis root_name : root ≠ "session_index" ∧ root ≠ "agentfiles".
Hypothesis readdir_sound : ∀ X x, x ∈ readdir X → x ∈ X.
Hypothesis read_empty : read_json "" = None.

#[local] Instance disk_provider : IStorageProvider Disk :=
  JsonStorageProvider os readdir read_json dump storage_root_.

Lemma index_path : session_index_path storage_root_ = storage_root_ ++ ["session_index.json"].
Proof. apply slash_plain. by apply (bool_decide_unpack _). Qed.

Lemma index_not_home id p : home id p → p ≠ session_index_path storage_root_.
Proof.
  intros [dir ->] H. rewrite index_path, <-(app_assoc up) in H. simpl in H.
  apply app_inj_two in H as (_ & -> & Hi). apply (proj1 root_name).
  change "session_index.json" with ("session_index" +:+ ".json") in Hi.
  by apply (str_app_inj_r _ _ ".json").
Qed.

Lemma save_index_ok idx d b d' :
  save_index_unlocked os dump storage_root_ idx d = (b, d') → disk_ok d →
  disk_ok d' ∧ same_homes d d'.
Proof.
  unfold save_index_unlocked. destruct (create_directories _ _ _) as [d1|] eqn:Hc.
  - intros Hw Hd. rewrite index_path in Hc. rewrite removelast_snoc in Hc.
    destruct (create_directories_ok _ _ _ _ Hc root_plain Hd) as [Hd1 _].
    split; [by eapply write_json_ok|]. intros id p Hp%index_not_home.
    rewrite <-(create_directories_files _ _ _ _ Hc).
    apply write_json_files in Hw as [(_ & text & d2 & _ & ->)|(_ & [->|[_ ->]])];
      by rewrite ?lookup_insert_ne by done.
  - intros [= _ <-] Hd. split; [done|apply same_homes_refl].
Qed.
Lemma user_dir_eq su : plain su → user_dir storage_root_ su = storage_root_ ++ ["users"; su].
Proof.
  intros Hsu. unfold user_dir. rewrite !slash_plain by (done || by apply (bool_decide_unpack _)).
  by rewrite <-(app_assoc storage_root_).
Qed.

Lemma pid_dir_eq pid : pid_dir storage_root_ pid = storage_root_ ++ ["procs"; pretty pid].
Proof.
  unfold pid_dir. rewrite (slash_plain _ "procs") by by apply (bool_decide_unpack _).
  rewrite slash_plain by apply plain_pid.
  by rewrite <-(app_assoc storage_root_).
Qed.

Lemma agent_dir_eq su :
  plain su → slash (slash (removelast storage_root_) "agentfiles") su = up ++ ["agentfiles"; su].
Proof.
  intros Hsu. rewrite removelast_snoc, !slash_plain by (done || by apply (bool_decide_unpack _)).
  by rewrite <-app_assoc.
Qed.

Lemma user_dir_plain su : plain su → Forall plain (user_dir storage_root_ su).
Proof.
  intros Hsu. rewrite user_dir_eq by done. apply Forall_app. split; [apply root_plain|].
  apply plain_two; [by apply (bool_decide_unpack _)|done].
Qed.

Lemma subdirectories_plain p d x : disk_ok d → x ∈ subdirectories readdir p d → plain x.
Proof.
  intros Hd Hx%readdir_sound. apply elem_of_list_to_set, list_elem_of_omap in Hx as (q & Hq & Hx).
  unfold name_in in Hx. case_decide; [|done]. apply last_Some in Hx as [l ->].
  apply elem_of_elements, (dk_plain _ Hd), Forall_app in Hq as [_ Hq]. by inversion Hq.
Qed.

Lemma remove_from_ok fuel sid n deleted d r d' :
  plain sid → 0 ≤ n → remove_from os storage_root_ fuel sid n deleted d = (r, d') →
  disk_ok d → disk_ok d' ∧ same_homes d d'.
Proof.
  intros Hsid. revert n deleted d. induction fuel as [|fuel IH]; intros n deleted d Hn H Hd.
  { injection H as _ <-. split; [done|apply same_homes_refl]. }
  simpl in H. destruct (exists_ _ d);
    [|injection H as _ <-; split; [done|apply same_homes_refl]].
  destruct (remove os _ d) as [d1|] eqn:Hr;
    [|injection H as _ <-; split; [done|apply same_homes_refl]].
  destruct (IH (n + 1) true d1 ltac:(lia) H (remove_ok _ _ _ _ Hr Hd)) as [Hd' Hh].
  split; [done|]. eapply same_homes_trans; [|exact Hh]. intros id p Hp.
  rewrite (remove_files _ _ _ _ Hr), lookup_delete_ne; [done|]. by apply (snapshot_not_home _ _ _ id).
Qed.

Lemma clear_snapshots_ok sids deleted d b d' :
  Forall plain sids → clear_snapshots os storage_root_ sids deleted d = (b, d') →
  disk_ok d → disk_ok d' ∧ same_homes d d'.
Proof.
  intros Hsids. revert deleted d. induction Hsids as [|sid sids Hsid _ IH]; intros deleted d H Hd.
  { injection H as _ <-. split; [done|apply same_homes_refl]. }
  simpl in H. destruct (json_delete_snapshots os storage_root_ sid d) as [r d1] eqn:Hr.
  eapply remove_from_ok in Hr as [Hd1 Hh]; [|done|lia|done].
  destruct r; [|by injection H as _ <-..]. destruct (IH true d1 H Hd1).
  split; [done|]. by eapply same_homes_trans.
Qed.

(** *** The operations that leave the conversations alone *)

Lemma upsert_super_user_ok su d b d' :
  plain su → upsert_super_user su d = (b, d') → disk_ok d → disk_ok d' ∧ same_homes d d'.
Proof.
  intros Hsu H Hd. unfold upsert_super_user in H. simpl in H. unfold json_upsert_super_user in H.
  destruct (create_directories os (user_dir _ su) d) as [d1|] eqn:H1;
    [|injection H as _ <-; split; [done|apply same_homes_refl]].
  destruct (create_directories_ok _ _ _ _ H1 (user_dir_plain su Hsu) Hd) as [Hd1 _].
  assert (same_homes d d1) as Hh1 by (by intros ???; rewrite (create_directories_files _ _ _ _ H1)).
  rewrite agent_dir_eq in H by done.
  destruct (create_directories os _ d1) as [d2|] eqn:H2; [|by injection H as _ <-].
  assert (Forall plain (up ++ ["agentfiles"; su])) as Hpl.
  { apply Forall_app in root_plain as [Hup _]. apply Forall_app. split; [done|].
    apply plain_two; [by apply (bool_decide_unpack _)|done]. }
  destruct (create_directories_ok _ _ _ _ H2 Hpl Hd1) as [Hd2 _].
  apply save_index_ok in H as [Hd' Hh]; [|done]. split; [done|].
  eapply same_homes_trans; [exact Hh1|]. eapply same_homes_trans; [|exact Hh].
  intros ???. by rewrite (create_directories_files _ _ _ _ H2).
Qed.

Lemma upsert_entry_ok su sid title d b d' :
  upsert_session_index_entry su sid title d = (b, d') → disk_ok d → disk_ok d' ∧ same_homes d d'.
Proof.
  unfold upsert_session_index_entry. simpl. unfold json_upsert_session_index_entry.
  destruct (set_title _ _ _); [apply save_index_ok|by intros [= _ <-]..].
Qed.

Lemma delete_entry_ok su sid d b d' :
  delete_session_index_entry su sid d = (b, d') → disk_ok d → disk_ok d' ∧ same_homes d d'.
Proof.
  unfold delete_session_index_entry. simpl. unfold json_delete_session_index_entry.
  destruct (user_entries _ _); [|by intros [= _ <-]].
  destruct (drop_entries _ _) as [[existed filtered]| |]; [|by intros [= _ <-]..].
  intros [= _ <-]. eapply save_index_ok, surjective_pairing.
Qed.

Lemma append_snapshot_ok sid j d b d' :
  file_name sid → append_snapshot sid j d = Ok (b, d') →
  disk_ok d → disk_ok d' ∧ same_homes d d'.
Proof.
  intros [Hsid Hsu]. unfold append_snapshot. simpl. unfold json_append_snapshot.
  set (n := free_from _ _ _ _ _).
  pose proof (free_from_ge storage_root_ (snapshot_fuel d) sid 1 d) as Hn. fold n in Hn.
  intros [= H] Hd.
  destruct (create_directories _ _ _) as [d1|] eqn:Hc;
    [|injection H as _ <-; split; [done|apply same_homes_refl]].
  rewrite snapshot_path_eq in Hc by (done || lia).
  destruct (create_directories_ok _ _ _ _ Hc) as [Hd1 _]; [|done|].
  { rewrite removelast_app by done. apply Forall_app. split; [by apply user_dir_plain|].
    constructor; [done|constructor]. }
  split; [by eapply write_json_ok|]. intros id p Hp.
  pose proof (snapshot_not_home storage_root_ sid n id p Hsid ltac:(lia) Hp).
  rewrite <-(create_directories_files _ _ _ _ Hc).
  apply write_json_files in H as [(_ & text & d2 & _ & ->)|(_ & [->|[_ ->]])];
    by rewrite ?lookup_insert_ne by done.
Qed.
(** *** The conversations as a map *)

Abbreviation storable_on := (json_storable read_json dump storage_root_).

Record holds (d : Disk) (m : gmap string Conversation) : Prop := {
  hd_disk : disk_ok d;
  hd_storable id c : m !! id = Some c → cv_convo_id c = id ∧ storable_on c;
  hd_reads id : file_name id → get_conversation id d = Ok (conversation_json <$> m !! id);
}.

Lemma get_homes_but gone d d' id :
  plain id → homes_but gone d d' →
  get_conversation id d' = get_conversation id d ∨
  get_conversation id d' = Ok None ∧
    ∃ p, infer_convo_path storage_root_ id (-1) = Some p ∧ gone p = true.
Proof.
  intros Hid Hh. unfold get_conversation. simpl. unfold json_get_conversation.
  destruct (infer_convo_path _ _ _) as [p|] eqn:Hp; [|by left]. simpl.
  rewrite (Hh id p) by (by eapply infer_home). destruct (gone p) eqn:Hg; [right|by left].
  split; [done|]. by exists p.
Qed.

(** An operation that only takes the conversations in [gone] away filters the map. *)
Lemma holds_homes_but gone (keep : Conversation → Prop) `{!∀ c, Decision (keep c)} d d' m :
  holds d m → disk_ok d' → homes_but gone d d' →
  (∀ c, storable_on c →
     gone (written_path storage_root_ (cv_creator_pid c) (cv_convo_id c)) = true ↔ ¬ keep c) →
  holds d' (filter (λ '(_, c), keep c) m).
Proof.
  intros [Hd Hst Hr] Hd' Hh Hgone. split; [done|..].
  { intros id c [Hc _]%map_lookup_filter_Some. by apply Hst. }
  intros id Hname. specialize (Hr id Hname). destruct Hname as [Hid _].
  destruct (m !! id) as [c|] eqn:Hc.
  - destruct (Hst id c Hc) as [Hcid Hs]. pose proof (js_found _ _ _ _ Hs) as Hfound.
    rewrite Hcid in Hfound. specialize (Hgone c Hs). rewrite Hcid in Hgone.
    destruct (decide (keep c)) as [Hk|Hk].
    + rewrite (map_lookup_filter_Some_2 _ _ id c) by done.
      destruct (get_homes_but gone d d' id Hid Hh) as [->|(_ & p & Hp & Hg)]; [done|].
      rewrite Hfound in Hp. injection Hp as <-. by apply Hgone in Hg.
    + rewrite (map_lookup_filter_None_2 _ _ id); [|right; congruence].
      unfold get_conversation. simpl. unfold json_get_conversation. rewrite Hfound. simpl.
      rewrite (Hh id) by (by eapply infer_home). by rewrite (proj2 Hgone).
  - rewrite (map_lookup_filter_None_2 _ _ id) by (by left).
    by destruct (get_homes_but gone d d' id Hid Hh) as [->|[-> _]].
Qed.

Lemma holds_same_homes d d' m : holds d m → disk_ok d' → same_homes d d' → holds d' m.
Proof.
  intros Hm Hd' Hh. rewrite <-(map_filter_id (λ '(_, _), True) m) by by intros.
  by apply (holds_homes_but (λ _, false) (λ _, True) d).
Qed.

(** Whose directory a conversation is in. *)
Lemma written_path_eq c :
  storable_on c →
  written_path storage_root_ (cv_creator_pid c) (cv_convo_id c) =
    storage_root_ ++
      (if decide (cv_creator_pid c > 0) then ["procs"; pretty (cv_creator_pid c)]
       else ["users"; extract_super_user (cv_convo_id c)]) ++
      [cv_convo_id c; cv_convo_id c +:+ ".json"].
Proof.
  intros [_ [Hp Hu] _ _]. unfold written_path, process_convo_path, user_convo_path.
  assert (plain (cv_convo_id c +:+ ".json")) as Hjson.
  { apply plain_app; [apply Hp|done|simpl; lia]. }
  case_decide as Hc; [rewrite pid_dir_eq|rewrite user_dir_eq by done];
    rewrite !slash_plain by done; by rewrite <-!(app_assoc storage_root_).
Qed.

Lemma under_root p q : under (storage_root_ ++ p) (storage_root_ ++ q) = under p q.
Proof.
  unfold under. apply bool_decide_ext. rewrite length_app, take_app_add. split; [|by intros ->].
  by intros H%app_inv_head.
Qed.

(** The conversations of a process's own. *)
Definition of_process (pid : Z) (c : Conversation) : Prop := cv_creator_pid c > 0 ∧ cv_creator_pid c = pid.

Lemma under_pid_dir pid c :
  storable_on c →
  under (pid_dir storage_root_ pid)
    (written_path storage_root_ (cv_creator_pid c) (cv_convo_id c)) = true ↔ of_process pid c.
Proof.
  intros Hc. rewrite pid_dir_eq, written_path_eq, under_root by done.
  unfold under, of_process. rewrite bool_decide_eq_true. case_decide; simpl.
  - split; [|by intros [_ ->]]. intros [= Hx]. split; [done|]. by apply (inj pretty).
  - split; [done|]. by intros [? _].
Qed.

(** The conversations of a user's sessions. *)
Definition of_user (su : string) (c : Conversation) : Prop :=
  cv_creator_pid c ≤ 0 ∧ extract_super_user (cv_convo_id c) = su.

Lemma under_user_dir su c :
  plain su → storable_on c →
  under (user_dir storage_root_ su)
    (written_path storage_root_ (cv_creator_pid c) (cv_convo_id c)) = true ↔ of_user su c.
Proof.
  intros Hsu Hc. rewrite user_dir_eq, written_path_eq, under_root by done.
  unfold under, of_user. rewrite bool_decide_eq_true. case_decide; simpl.
  - split; [done|]. intros [? _]. lia.
  - split; [intros [= Hx]; split; [lia|done]|]. by intros [_ ->].
Qed.

(** The conversation [c] is in what is left of the directory [p]. *)
Definition left_in (p : path) (d : Disk) (c : Conversation) : Prop :=
  exists_ p d = true ∧
  is_Some (files d !! written_path storage_root_ (cv_creator_pid c) (cv_convo_id c)).

Lemma lost_from_iff p d c (mine : Prop) :
  disk_ok d → p ≠ [] →
  (under p (written_path storage_root_ (cv_creator_pid c) (cv_convo_id c)) = true ↔ mine) →
  lost_from p d (written_path storage_root_ (cv_creator_pid c) (cv_convo_id c)) = true ↔
  ¬ (mine → left_in p d c).
Proof.
  intros Hd Hp Hof. unfold lost_from, left_in. rewrite andb_true_iff, bool_decide_eq_true, Hof.
  split.
  - intros [Ho Hn] Hl. destruct (Hl Ho) as [_ [text Ht]]. congruence.
  - intros Hn. destruct (under p _) eqn:Hu.
    + split; [by apply Hof|]. apply eq_None_not_Some. intros Ht. apply Hn. intros _.
      split; [|done]. eapply under_exists; [done..| |exact Hu]. by left.
    + exfalso. apply Hn. intros Ho. by apply Hof in Ho.
Qed.

#[export] Instance of_process_dec pid c : Decision (of_process pid c).
Proof. unfold of_process. apply _. Defined.
#[export] Instance of_user_dec su c : Decision (of_user su c).
Proof. unfold of_user. apply _. Defined.
#[export] Instance left_in_dec p d c : Decision (left_in p d c).
Proof. unfold left_in. apply _. Defined.

(** A directory of the provider is removed, as far as that works. *)
Lemma drop_ok p (existed : bool) d r d' :
  (if exists_ p d then let '(done, d) := remove_all os p d in (if done then Some true else None, d)
   else (Some existed, d)) = (r, d') →
  p ≠ [] → disk_ok d →
  disk_ok d' ∧ homes_but (lost_from p d') d d' ∧
  (∀ q, exists_ q d = false → exists_ q d' = false) ∧ (is_Some r → exists_ p d' = false).
Proof.
  intros H Hp Hd. destruct (exists_ p d) eqn:He.
  - destruct (remove_all os p d) as [ok d1] eqn:Hr. injection H as <- <-.
    destruct (remove_all_ok _ _ _ _ _ Hr Hp Hd) as (Hd' & Hex & Hmono & Hf).
    split_and!; [done| |done|]; [intros id q _; by apply Hf|].
    destruct ok; [by auto|by intros []].
  - injection H as <- <-. split_and!; [done| |done..]. intros id q _.
    unfold lost_from. destruct (under p q), (files d !! q) eqn:Hq; try done.
Qed.

Lemma delete_all_ok pid d :
  disk_ok d →
  let d' := delete_all_proc_convos pid d in
  disk_ok d' ∧ homes_but (lost_from (pid_dir storage_root_ pid) d') d d'.
Proof.
  intros Hd. unfold delete_all_proc_convos. simpl. unfold json_delete_all_proc_convos.
  pose proof (drop_ok (pid_dir storage_root_ pid) true d _ _ (surjective_pairing _)) as H.
  specialize (H ltac:(rewrite pid_dir_eq; by destruct up) Hd).
  destruct (exists_ (pid_dir storage_root_ pid) d); [|by destruct H as (? & ? & _)].
  destruct (remove_all _ _ _) as [done d']. by destruct H as (? & ? & _).
Qed.
Lemma agents_apart su q :
  under (up ++ ["agentfiles"; su]) (storage_root_ ++ q) = false.
Proof.
  apply bool_decide_false. rewrite length_app, <-app_assoc, take_app_add. simpl.
  intros [= H _]%app_inv_head. by apply root_name.
Qed.

(** A directory that is not there has no entries. *)
Lemma subdirectories_absent p d :
  disk_ok d → p ≠ [] → exists_ p d = false → subdirectories readdir p d = [].
Proof.
  intros Hd Hp He. apply elem_of_nil_inv. intros x Hx%readdir_sound.
  apply elem_of_list_to_set, list_elem_of_omap in Hx as (q & Hq%elem_of_elements & Hx).
  unfold name_in in Hx. case_decide as Hn; [|done]. destruct Hn as [_ Hr].
  apply bool_decide_eq_false in He. apply He. right.
  destruct (dk_dirs _ Hd q Hq) as [Hnil|Hdir]; [|by rewrite <-Hr].
  by rewrite Hr in Hnil.
Qed.

Lemma delete_super_user_ok su d b d' :
  plain su → Storage.delete_super_user su d = (b, d') → disk_ok d →
  disk_ok d' ∧ ∃ gone, homes_but gone d d' ∧ ∀ c, storable_on c →
    let p := written_path storage_root_ (cv_creator_pid c) (cv_convo_id c) in
    gone p = lost_from (user_dir storage_root_ su) d' p.
Proof.
  intros Hsu. unfold Storage.delete_super_user. simpl. unfold json_delete_super_user.
  destruct (save_index_unlocked _ _ _ _ d) as [saved d1] eqn:Hsave. cbn [snd]. intros H Hd.
  destruct (save_index_ok _ _ _ _ Hsave Hd) as [Hd1 Hh1].
  assert (user_dir storage_root_ su ≠ []) as Hne by (rewrite user_dir_eq by done; by destruct up).
  match type of H with context [match ?u with _ => _ end] => destruct u as [eu d2] eqn:Hu end.
  apply drop_ok in Hu as (Hd2 & Hh2 & _ & Hex2); [|done..].
  destruct eu as [eu|].
  2: { injection H as _ <-. split; [done|]. exists (lost_from (user_dir storage_root_ su) d2).
       split; [by eapply same_homes_trans|done]. }
  specialize (Hex2 ltac:(by eexists)). rewrite agent_dir_eq in H by done.
  match type of H with context [match ?u with _ => _ end] => destruct u as [ea d3] eqn:Ha end.
  apply drop_ok in Ha as (Hd3 & Hh3 & Hmono & _); [|by destruct up|done].
  assert (d' = d3) as ->.
  { destruct ea; [|by injection H as _ ->].
    rewrite subdirectories_absent in H by auto. by injection H as _ <-. }
  split; [done|]. eexists. split.
  { eapply same_homes_trans; [exact Hh1|]. by eapply homes_but_trans. }
  intros c Hc. cbv zeta.
  assert (∀ d, lost_from (up ++ ["agentfiles"; su]) d
    (written_path storage_root_ (cv_creator_pid c) (cv_convo_id c)) = false) as Hapart.
  { intros d4. unfold lost_from. by rewrite written_path_eq, agents_apart by done. }
  cbv beta. rewrite Hapart, orb_false_r. unfold lost_from.
  rewrite (Hh3 (cv_convo_id c)), Hapart; [done|]. apply written_home, Hc.
Qed.

(** *** Every change of the disk *)

(** Writing a conversation: whether it is answered, and the map then.  Once the file is opened
    what was there is lost, and the conversation with it where its text cannot be made, which
    is answered [false], and where the text does not all reach the file, which is not. *)
Definition upserted (c : Conversation) (d : Disk) (m : gmap string Conversation) :
    bool * gmap string Conversation :=
  let p := written_path storage_root_ (cv_creator_pid c) (cv_convo_id c) in
  match create_directories os (removelast p) d ≫= open_out os p with
  | None => (false, m)
  | Some d =>
      match dump (conversation_json c) with
      | None => (false, delete (cv_convo_id c) m)
      | Some text =>
          (true, if decide (String.length text ≤ reaches os p text d)%nat
                 then <[cv_convo_id c := c]> m else delete (cv_convo_id c) m)
      end
  end.

(** Deleting one: nothing is lost when it fails, or when the creator that is named leads to
    another file than the one that is read. *)
Definition deleted (id : string) (pid : Z) (b : bool) (m : gmap string Conversation) :
    gmap string Conversation :=
  if b && bool_decide (infer_convo_path storage_root_ id pid = infer_convo_path storage_root_ id (-1))
  then delete id m else m.

(** The calls that change the disk, with what they do to the map. *)
Inductive disk_call : Disk → gmap string Conversation → Disk → gmap string Conversation → Prop :=
  | disk_upsert c d b d' m :
      storable_on c → upsert_conversation (conversation_json c) d = Ok (b, d') →
      disk_call d m d' (upserted c d m).2
  | disk_delete id pid d b d' m :
      file_name id → delete_conversation id pid d = (b, d') →
      disk_call d m d' (deleted id pid b m)
  | disk_delete_all pid d m :
      let d' := delete_all_proc_convos pid d in
      disk_call d m d'
        (filter (λ '(_, c), of_process pid c → left_in (pid_dir storage_root_ pid) d' c) m)
  | disk_delete_user su d b d' m :
      plain su → Storage.delete_super_user su d = (b, d') →
      disk_call d m d'
        (filter (λ '(_, c), of_user su c → left_in (user_dir storage_root_ su) d' c) m)
  | disk_upsert_user su d b d' m :
      plain su → upsert_super_user su d = (b, d') → disk_call d m d' m
  | disk_upsert_entry su sid title d b d' m :
      upsert_session_index_entry su sid title d = (b, d') → disk_call d m d' m
  | disk_delete_entry su sid d b d' m :
      delete_session_index_entry su sid d = (b, d') → disk_call d m d' m
  | disk_append_snapshot sid j d b d' m :
      file_name sid → append_snapshot sid j d = Ok (b, d') →
      disk_call d m d' m
  | disk_delete_snapshots sid d r d' m :
      plain sid → delete_snapshots sid d = (r, d') → disk_call d m d' m
  | disk_delete_all_snapshots su d b d' m :
      delete_snapshots_for_super_user su d = (b, d') → disk_call d m d' m.

Definition disk_step (x y : Disk * gmap string Conversation) : Prop := disk_call x.1 x.2 y.1 y.2.
Lemma upsert_conversation_eq c d :
  storable_on c →
  let p := written_path storage_root_ (cv_creator_pid c) (cv_convo_id c) in
  upsert_conversation (conversation_json c) d =
    Ok match create_directories os (removelast p) d with
       | None => (false, d)
       | Some d => write_json os dump p (conversation_json c) d
       end.
Proof.
  intros Hc. unfold upsert_conversation. simpl. unfold json_upsert_conversation.
  unfold value_string, value_int, value. simpl.
  rewrite i32_id by apply (js_typed _ _ _ _ Hc).
  rewrite decide_False by apply (js_name _ _ _ _ Hc).
  fold (written_path storage_root_ (cv_creator_pid c) (cv_convo_id c)).
  by destruct (create_directories _ _ _).
Qed.

Lemma upsert_conversation_ok c d b d' :
  storable_on c → upsert_conversation (conversation_json c) d = Ok (b, d') →
  disk_ok d → disk_ok d'.
Proof.
  intros Hc. rewrite upsert_conversation_eq by done. intros [= H] Hd.
  destruct (create_directories _ _ _) as [d1|] eqn:Hd1; [|by injection H as _ <-].
  eapply write_json_ok; [exact H|].
  eapply create_directories_ok; [exact Hd1| |done]. rewrite written_path_eq by done.
  rewrite app_assoc, removelast_app by done. simpl.
  apply Forall_app. split; [|constructor; [apply Hc|constructor]].
  apply Forall_app. split; [apply root_plain|].
  case_decide; apply plain_two; try apply plain_pid; try (by apply (bool_decide_unpack _)).
  apply (js_name _ _ _ _ Hc).
Qed.

(** The file of [c] is written, with a text that is read back as [r]. *)
Lemma holds_written c r text d d' m :
  storable_on c → r = None ∨ r = Some c → read_json text = conversation_json <$> r →
  files d' = <[written_path storage_root_ (cv_creator_pid c) (cv_convo_id c) := text]> (files d) →
  disk_ok d' → holds d m → holds d' (partial_alter (λ _, r) (cv_convo_id c) m).
Proof.
  intros Hc Hr Hread Hf Hd' [_ Hst Hreads]. split; [done|..].
  - intros id c' Hid. destruct (decide (id = cv_convo_id c)) as [->|Hne].
    + rewrite lookup_partial_alter_eq in Hid. destruct Hr as [->| ->]; [done|]. by injection Hid as <-.
    + rewrite lookup_partial_alter_ne in Hid by done. by apply Hst.
  - intros id Hid. destruct (decide (id = cv_convo_id c)) as [->|Hne].
    + rewrite lookup_partial_alter_eq. unfold get_conversation. simpl. unfold json_get_conversation.
      rewrite (js_found _ _ _ _ Hc). simpl. rewrite Hf, lookup_insert_eq. simpl. by rewrite Hread.
    + rewrite lookup_partial_alter_ne, <-Hreads by done.
      eapply get_insert_other; [apply Hid| |exact Hne|exact Hf]. apply written_home, Hc.
Qed.

Lemma holds_files d d' m : holds d m → disk_ok d' → files d' = files d → holds d' m.
Proof.
  intros [_ Hst Hreads] Hd' Hf. split; [done..|]. intros id Hid. rewrite <-Hreads by done.
  apply get_files. by rewrite Hf.
Qed.

Lemma upsert_holds c d b d' m :
  storable_on c → upsert_conversation (conversation_json c) d = Ok (b, d') → holds d m →
  b = (upserted c d m).1 ∧ holds d' (upserted c d m).2.
Proof.
  intros Hc Hup Hm. pose proof (upsert_conversation_ok _ _ _ _ Hc Hup (hd_disk _ _ Hm)) as Hd'.
  rewrite upsert_conversation_eq in Hup by done. injection Hup as Hup. unfold upserted.
  destruct (create_directories _ _ _) as [d1|] eqn:Hd1; simpl;
    [|injection Hup as <- <-; by split].
  apply create_directories_files in Hd1. unfold write_json in Hup.
  destruct (open_out _ _ d1) as [d2|] eqn:Ho;
    [|injection Hup as <- <-; split; [done|by eapply holds_files]].
  unfold open_out in Ho. destruct (_ && _); [|done]. injection Ho as Ho.
  destruct (dump _) as [text|] eqn:Hdump; injection Hup as <- <-; (split; [done|]).
  - rewrite <-Ho in *. simpl. case_decide as Hfit.
    + eapply (holds_written c (Some c)); [done|by right| | |done..].
      * apply (js_text _ _ _ _ Hc _ Hdump).
      * simpl. unfold arrived. rewrite substring_all by done. by rewrite insert_insert_eq, Hd1.
    + eapply (holds_written c None);
        [done|by left| |by simpl; rewrite insert_insert_eq, Hd1|done..].
      eapply (js_cut _ _ _ _ Hc); [exact Hdump|by apply Nat.nle_gt].
  - eapply (holds_written c None); [done|by left|exact read_empty| |done..].
    rewrite <-Ho. simpl. by rewrite Hd1.
Qed.

Lemma delete_conversation_ok id pid d b d' :
  delete_conversation id pid d = (b, d') → disk_ok d → disk_ok d'.
Proof.
  unfold delete_conversation. simpl. unfold json_delete_conversation.
  destruct (infer_convo_path _ _ _) as [p|]; [|by intros [= _ <-]].
  destruct (exists_ p d); [|by intros [= _ <-]].
  destruct (remove os p d) as [d1|] eqn:Hr; intros [= _ <-]; [by eapply remove_ok|done].
Qed.

Lemma delete_holds id pid d b d' m :
  file_name id → delete_conversation id pid d = (b, d') → holds d m → holds d' (deleted id pid b m).
Proof.
  intros [Hid Hu] Hdel Hm. pose proof (delete_conversation_ok _ _ _ _ _ Hdel (hd_disk _ _ Hm)) as Hd'.
  apply delete_conversation_files in Hdel as [[-> Hf]|(-> & p & Hp & Hf)]; [|..|done].
  { by eapply holds_files. }
  destruct Hm as [_ Hst Hreads]. unfold deleted. simpl. case_bool_decide as Hsame.
  - split; [done|..].
    { intros id' c [_ Hc]%lookup_delete_Some. by apply Hst. }
    intros id' [Hid' Hu']. destruct (decide (id' = id)) as [->|Hne].
    + rewrite lookup_delete_eq. apply get_no_file. intros q Hq.
      rewrite <-Hsame, Hp in Hq. injection Hq as <-. by rewrite Hf, lookup_delete_eq.
    + rewrite lookup_delete_ne, <-Hreads by done. apply get_files. intros q Hq.
      rewrite Hf, lookup_delete_ne; [done|].
      eapply (home_ne id id'); [by eapply infer_home..|by apply not_eq_sym].
  - split; [done..|]. intros id' [Hid' Hu']. rewrite <-Hreads by done. apply get_files.
    intros q Hq. rewrite Hf, lookup_delete_ne; [done|]. intros ->.
    assert (id' = id) as -> by (by eapply home_inj; eapply infer_home).
    congruence.
Qed.

Lemma disk_call_holds d m d' m' : disk_call d m d' m' → holds d m → holds d' m'.
Proof.
  intros [c d1 b d1' m1 Hc Hup|id pid d1 b d1' m1 Hid Hdel|pid d1 m1 d1'
    |su d1 b d1' m1 Hsu Hdel|su d1 b d1' m1 Hsu H|su sid title d1 b d1' m1 H|su sid d1 b d1' m1 H
    |sid j d1 b d1' m1 Hsid H|sid d1 r d1' m1 Hsid H|su d1 b d1' m1 H] Hm;
    pose proof (hd_disk _ _ Hm) as Hd.
  - by eapply upsert_holds.
  - by eapply delete_holds.
  - destruct (delete_all_ok pid d1 Hd) as [Hd' Hh]. fold d1' in Hd', Hh.
    eapply holds_homes_but; [done..|]. intros c Hc.
    apply lost_from_iff; [done|rewrite pid_dir_eq; by destruct up|by apply under_pid_dir].
  - destruct (delete_super_user_ok su d1 b d1' Hsu Hdel Hd) as (Hd' & gone & Hh & Hgone).
    eapply (holds_homes_but gone); [done..|]. intros c Hc. rewrite (Hgone c Hc).
    apply lost_from_iff; [done|rewrite user_dir_eq by done; by destruct up|by apply under_user_dir].
  - destruct (upsert_super_user_ok _ _ _ _ Hsu H Hd). by eapply holds_same_homes.
  - destruct (upsert_entry_ok _ _ _ _ _ _ H Hd). by eapply holds_same_homes.
  - destruct (delete_entry_ok _ _ _ _ _ H Hd). by eapply holds_same_homes.
  - destruct (append_snapshot_ok _ _ _ _ _ Hsid H Hd). by eapply holds_same_homes.
  - eapply remove_from_ok in H as [? ?]; [by eapply holds_same_homes|done|lia|done].
  - eapply clear_snapshots_ok in H as [? ?]; [by eapply holds_same_homes| |done].
    apply Forall_forall. intros x. by apply subdirectories_plain.
Qed.

(** The provider starts on an empty disk with no conversation. *)
Lemma init_holds :
  holds (JsonStorageProvider_init os storage_root_ {| files := ∅; dirs := ∅ |}) ∅.
Proof.
  assert (∀ name d d', create_directories os (slash storage_root_ name) d = Some d' →
    plain name → disk_ok d → files d = ∅ → disk_ok d' ∧ files d' = ∅) as Hstep.
  { intros name d d' Hc Hname Hd Hf. rewrite (create_directories_files _ _ _ _ Hc).
    split; [|done]. eapply create_directories_ok; [exact Hc| |done].
    rewrite slash_plain by done. apply Forall_app. split; [apply root_plain|by constructor]. }
  assert (disk_ok {| files := ∅; dirs := ∅ |}) as H0.
  { split; simpl; [intros ? []%not_elem_of_empty..|intros ? []|done]. done. }
  assert (disk_ok (JsonStorageProvider_init os storage_root_ {| files := ∅; dirs := ∅ |}) ∧
    files (JsonStorageProvider_init os storage_root_ {| files := ∅; dirs := ∅ |}) = ∅)
    as [Hd Hf].
  { unfold JsonStorageProvider_init. destruct (create_directories _ _ _) as [d1|] eqn:H1; [|done].
    apply Hstep in H1 as [Hd1 Hf1]; [|by apply (bool_decide_unpack _)|done..].
    destruct (create_directories _ _ d1) as [d2|] eqn:H2; [|done].
    by apply Hstep in H2; [|by apply (bool_decide_unpack _)|..]. }
  split; [done|by intros|]. intros id _. apply get_no_file. intros p _. by rewrite Hf.
Qed.

(** What [SessionIO] stores is what the provider represents, if its text can be made and
    read back: the condition under which its theorems hold over this provider. *)
Lemma json_ok_storable c :
  conversation_ok c → file_name (cv_convo_id c) →
  (∀ text, dump (conversation_json c) = Some text → read_json text = Some (conversation_json c)) →
  (∀ text n, dump (conversation_json c) = Some text → (n < String.length text)%nat →
     read_json (String.substring 0 n text) = None) →
  storable_on c.
Proof.
  intros [Ht _ _ Ho] Hname Htext Hcut. split; [done..| |done|done]. unfold written_path, infer_convo_path.
  destruct Ho as [(-> & -> & _)|(Hpid & _ & rand & Hrand & Hid)]; [done|].
  rewrite Hid, process_id_not_session by done. rewrite decide_False by lia.
  rewrite (decide_True (P := cv_creator_pid c > 0)) by lia.
  assert (strip_prefix "proc_" (generate_process_convo_id rand (cv_creator_pid c)) =
    Some (pretty (cv_creator_pid c) +:+ String "_" (pretty rand))) as ->
    by by apply strip_prefix_Some.
  rewrite find_char_app.
  - rewrite stoi_pretty; [done|]. pose proof (ct_creator_pid _ Ht). lia.
  - apply digits_no_char; [apply pretty_Z_digits; lia|done].
Qed.

(** ** Snapshots *)

Lemma snapshot_path_inj sid m n :
  plain sid → 0 ≤ m → 0 ≤ n →
  snapshot_path storage_root_ sid m = snapshot_path storage_root_ sid n → m = n.
Proof.
  intros Hsid Hm Hn. rewrite !snapshot_path_eq by done.
  intros (_ & _ & H)%app_inj_two. apply (inj (String.append sid)) in H.
  apply (inj (String.append "_h")), str_app_inj_r in H. by apply (inj pretty).
Qed.

Lemma free_from_taken fuel sid n d :
  (∀ k, n ≤ k < free_from storage_root_ fuel sid n d →
     exists_ (snapshot_path storage_root_ sid k) d = true) ∧
  (exists_ (snapshot_path storage_root_ sid (free_from storage_root_ fuel sid n d)) d = false ∨
   free_from storage_root_ fuel sid n d = n + Z.of_nat fuel).
Proof.
  revert n. induction fuel as [|fuel IH]; intros n; cbn [free_from]; [split; [lia|right; lia]|].
  destruct (exists_ (snapshot_path _ sid n) d) eqn:He; [|split; [lia|by left]].
  destruct (IH (n + 1)) as [Htaken Hend]. split; [|destruct Hend; [by left|right; lia]].
  intros k Hk. destruct (decide (k = n)) as [->|]; [done|]. apply Htaken. lia.
Qed.

(** There are no more numbers taken than paths. *)
Lemma taken_bound sid n k d :
  plain sid → 0 ≤ n →
  (∀ i, n ≤ i < n + Z.of_nat k → exists_ (snapshot_path storage_root_ sid i) d = true) →
  (k ≤ size (files d) + size (dirs d))%nat.
Proof.
  intros Hsid Hn Htaken.
  assert (NoDup (snapshot_path storage_root_ sid <$> seqZ n (Z.of_nat k))) as Hnodup.
  { apply NoDup_fmap_2_strong; [|apply NoDup_seqZ].
    intros x y Hx%elem_of_seqZ Hy%elem_of_seqZ. apply snapshot_path_inj; by lia || done. }
  apply (NoDup_submseteq _ ((map_to_list (files d)).*1 ++ elements (dirs d))) in Hnodup.
  - apply submseteq_length in Hnodup.
    rewrite length_app, !length_fmap, length_seqZ, length_map_to_list, Nat2Z.id in Hnodup.
    exact Hnodup.
  - intros p (i & -> & Hi%elem_of_seqZ)%list_elem_of_fmap.
    specialize (Htaken i Hi). unfold exists_ in Htaken. apply bool_decide_eq_true in Htaken.
    apply elem_of_app. destruct Htaken as [[text Ht]|Ht]; [left|right; by apply elem_of_elements].
    apply list_elem_of_fmap. exists (snapshot_path storage_root_ sid i, text).
    split; [done|]. by apply elem_of_map_to_list.
Qed.

(** The fuel is enough: the search ends at a free number. *)
Lemma free_from_free sid d :
  plain sid →
  let n := free_from storage_root_ (snapshot_fuel d) sid 1 d in
  1 ≤ n ∧ exists_ (snapshot_path storage_root_ sid n) d = false ∧
  ∀ k, 1 ≤ k < n → exists_ (snapshot_path storage_root_ sid k) d = true.
Proof.
  intros Hsid n. destruct (free_from_taken (snapshot_fuel d) sid 1 d) as [Htaken Hend].
  fold n in Htaken, Hend. split_and!; [apply free_from_ge| |done].
  destruct Hend as [?|Hend]; [done|]. exfalso.
  pose proof (taken_bound sid 1 (snapshot_fuel d) d Hsid ltac:(lia)) as Hle.
  rewrite <-Hend in Hle. specialize (Hle Htaken). unfold snapshot_fuel in Hle. lia.
Qed.

(** The snapshots of a session are numbered from 1 on without a gap, as many as are counted.
    Saving one gives it the next number, in its content as in its file's name, and no file is
    ever overwritten; that it could not be written, or was cut short, is not reported. *)
Lemma snapshots_numbered now sid history d r d' :
  plain sid → snapshot_count sid d < INT_MAX →
  save_snapshot now sid history d = (r, d') →
  let n := snapshot_count sid d in
  let snap := JObject [("session_id", JString sid); ("snapshot_n", JInt (n + 1));
                       ("snapshot_ms", JInt now); ("messages", JArray history)] in
  r = Ok tt ∧ 0 ≤ n ∧
  (∀ k, 1 ≤ k ≤ n → exists_ (snapshot_path storage_root_ sid k) d = true) ∧
  exists_ (snapshot_path storage_root_ sid (n + 1)) d = false ∧
  (files d' = files d ∨
   ∃ text, files d' = <[snapshot_path storage_root_ sid (n + 1) := text]> (files d) ∧
     match dump snap with Some whole => ∃ k, text = String.substring 0 k whole | None => text = "" end) ∧
  (∀ p, is_Some (files d !! p) → files d' !! p = files d !! p).
Proof.
  intros Hsid Hmax H n snap. destruct (free_from_free sid d Hsid) as (Hge & Hfree & Htaken).
  assert (free_from storage_root_ (snapshot_fuel d) sid 1 d = n + 1) as Hn.
  { unfold n. change (snapshot_count sid d)
      with (free_from storage_root_ (snapshot_fuel d) sid 1 d - 1). lia. }
  rewrite Hn in *. unfold save_snapshot, gets, mbind, ST_bind in H.
  fold n in H, Hmax. rewrite decide_False in H by lia. fold snap in H.
  change (append_snapshot sid snap d)
    with (json_append_snapshot os dump storage_root_ sid snap d) in H.
  unfold json_append_snapshot in H. rewrite Hn in H. unfold mret, exc_ret in H.
  assert (files d' = files d ∨
   ∃ text, files d' = <[snapshot_path storage_root_ sid (n + 1) := text]> (files d) ∧
     match dump snap with Some whole => ∃ k, text = String.substring 0 k whole | None => text = "" end)
    as Hf.
  { destruct (create_directories _ _ _) as [d1|] eqn:Hc; [|injection H as _ <-; by left].
    rewrite <-(create_directories_files _ _ _ _ Hc).
    destruct (write_json _ _ _ _ d1) as [b d2] eqn:Hw. injection H as _ <-.
    apply write_json_files in Hw as [(_ & text & d3 & -> & ->)|(_ & [->|[-> ->]])];
      [right|by left|right; by exists ""].
    eexists. split; [done|]. by eexists. }
  split_and!; [|lia|intros; apply Htaken; lia|done|done|].
  - by destruct (create_directories _ _ _); [destruct (write_json _ _ _ _ _)|]; injection H as <- _.
  - intros p Hp. apply bool_decide_eq_false in Hfree.
    destruct Hf as [->|(text & -> & _)]; [done|].
    rewrite lookup_insert_ne; [done|]. intros <-. apply Hfree. by left.
Qed.
(** ** A text that cannot be written *)

Lemma prefixes_dirs p q d : disk_ok d → p ∈ dirs d → q ∈ prefixes p → q ∈ dirs d.
Proof.
  intros Hd. revert q. induction p as [|x p IH] using rev_ind; intros q Hp.
  { intros (n & Hn & _)%elem_of_prefixes. simpl in Hn. lia. }
  intros (n & Hn & ->)%elem_of_prefixes. rewrite length_app in Hn. simpl in Hn.
  destruct (decide (n < length p)%nat) as [Hlt|Hge].
  - rewrite take_app_le by lia. apply (IH (take (Datatypes.S n) p)).
    + destruct (dk_dirs _ Hd _ Hp) as [Hnil|Hdir]; rewrite removelast_snoc in *; [|done].
      subst p. simpl in Hlt. lia.
    + apply elem_of_prefixes. by exists n.
  - rewrite take_ge; [done|]. rewrite length_app. simpl. lia.
Qed.

(** The file is emptied before the text is made: where the text of a conversation cannot be
    made, the call answers that nothing was written, and the conversation that was there
    before is lost. *)
Lemma unwritable_conversation_lost c old d :
  (∀ what p d, works os what p d = true) → read_json "" = None →
  disk_ok d → conversation_typed c → file_name (cv_convo_id c) →
  infer_convo_path storage_root_ (cv_convo_id c) (-1) =
    Some (written_path storage_root_ (cv_creator_pid c) (cv_convo_id c)) →
  get_conversation (cv_convo_id c) d = Ok (Some old) →
  dump (conversation_json c) = None →
  ∃ d', upsert_conversation (conversation_json c) d = Ok (false, d') ∧
    get_conversation (cv_convo_id c) d' = Ok None.
Proof.
  intros Hworks Hempty Hd Ht [Hid _] Hfound Hget Hdump.
  unfold get_conversation in *. simpl in *. unfold json_get_conversation in *.
  rewrite Hfound in *. simpl in *.
  set (p := written_path storage_root_ (cv_creator_pid c) (cv_convo_id c)) in *.
  assert (is_Some (files d !! p)) as Hp by (destruct (files d !! p); [by eexists|done]).
  destruct (dk_files _ Hd p Hp) as [_ Hdir].
  unfold upsert_conversation. simpl. unfold json_upsert_conversation.
  unfold value_string, value_int, value. simpl. rewrite i32_id by apply Ht.
  rewrite decide_False by apply Hid. fold (written_path storage_root_ (cv_creator_pid c) (cv_convo_id c)).
  fold p. unfold create_directories. rewrite Hworks.
  rewrite (proj2 (forallb_forall _ _)).
  2: { intros q Hq%list_elem_of_In. apply bool_decide_true.
       by apply (dk_apart _ Hd), (prefixes_dirs (removelast p)). }
  simpl. unfold write_json, open_out, is_directory. rewrite Hworks. simpl.
  rewrite bool_decide_true; [|rewrite elem_of_union, elem_of_list_to_set].
  2: { intros Hq. assert (p ∈ dirs d) as Hpd.
       { destruct Hq; [by eapply prefixes_dirs|done]. }
       apply (dk_apart _ Hd) in Hpd. destruct Hp. congruence. }
  rewrite bool_decide_true by (apply elem_of_union; by right). simpl. rewrite Hdump.
  eexists. split; [done|]. simpl. rewrite lookup_insert_eq. simpl. by rewrite Hempty.
Qed.
(** ** A deleted session *)

Abbreviation index_of := (load_index_unlocked read_json storage_root_).

(** A saved index is loaded again, or the files are as they were. *)
Lemma save_index_load idx users text d b d' :
  writes_whole os →
  find idx "users" = Some (JObject users) → dump idx = Some text → read_json text = Some idx →
  save_index_unlocked os dump storage_root_ idx d = (b, d') →
  (∀ q, q ∈ dirs d → q ∈ dirs d') ∧ (index_of d' = idx ∨ files d' = files d).
Proof.
  intros Hwhole Hu Hdump Hread. unfold save_index_unlocked, create_directories.
  destruct (_ && _); [|intros [= _ <-]; by auto]. intros Hw.
  assert (∀ q, q ∈ dirs d → q ∈ dirs d') as Hdirs.
  { intros q Hq. unfold write_json, open_out in Hw. destruct (_ && _);
      [rewrite Hdump in Hw|]; injection Hw as _ <-; apply elem_of_union; by right. }
  split; [done|].
  apply write_json_files in Hw as [(_ & text' & d1 & Ht & Hf)|(_ & [Hf|[Ht _]])]; [left|by right|congruence].
  rewrite Hdump in Ht. injection Ht as <-. rewrite arrived_whole in Hf by done.
  unfold load_index_unlocked, load_index_from. rewrite Hf, lookup_insert_eq. simpl. by rewrite Hread, Hu.
Qed.

Lemma find_with_users users kvs :
  find (with_users users (JObject kvs)) "users" = Some (JObject users).
Proof. unfold with_users. simpl. by rewrite assoc_set_eq. Qed.

(** What is above the files of a session is as it was. *)
Definition keeps_above (d d' : Disk) : Prop :=
  ∀ q, (length q < length up + 5)%nat →
    (q ∈ dirs d → q ∈ dirs d') ∧ files d' !! q = files d !! q.

Lemma keeps_above_refl d : keeps_above d d.
Proof. by intros q _. Qed.

Lemma keeps_above_trans d1 d2 d3 : keeps_above d1 d2 → keeps_above d2 d3 → keeps_above d1 d3.
Proof.
  intros H12 H23 q Hq. destruct (H12 q Hq) as [Hd1 Hf1], (H23 q Hq) as [Hd2 Hf2].
  split; [by auto|congruence].
Qed.

Lemma remove_keeps_above p d d' :
  remove os p d = Some d' → (length up + 5 ≤ length p)%nat → keeps_above d d'.
Proof.
  intros Hr Hp q Hq. assert (p ≠ q) as Hne by (intros ->; lia).
  split; [|by rewrite (remove_files _ _ _ _ Hr), lookup_delete_ne].
  unfold remove in Hr. destruct (_ && _); [|done]. injection Hr as <-. simpl. intros Hd.
  apply elem_of_difference. split; [done|]. by apply not_elem_of_singleton, not_eq_sym.
Qed.

Lemma index_keeps_above d d' : keeps_above d d' → index_of d' = index_of d.
Proof.
  intros Hk. unfold index_of, load_index_unlocked, load_index_from. rewrite index_path.
  rewrite removelast_snoc, slash_plain by by apply (bool_decide_unpack _).
  rewrite (proj2 (Hk ((up ++ [root]) ++ ["session_index.json"])
    ltac:(rewrite !length_app; simpl; lia))).
  rewrite (proj2 (Hk (up ++ ["session_index.json"]) ltac:(rewrite !length_app; simpl; lia))).
  done.
Qed.

Lemma remove_from_keeps fuel sid n deleted d r d' :
  file_name sid → 0 ≤ n → remove_from os storage_root_ fuel sid n deleted d = (r, d') →
  keeps_above d d'.
Proof.
  intros [Hsid Hsu]. revert n deleted d. induction fuel as [|fuel IH]; intros n deleted d Hn H.
  { injection H as _ <-. apply keeps_above_refl. }
  simpl in H. destruct (exists_ _ d); [|injection H as _ <-; apply keeps_above_refl].
  destruct (remove os _ d) as [d1|] eqn:Hr; [|injection H as _ <-; apply keeps_above_refl].
  eapply keeps_above_trans; [|eapply (IH (n + 1) true d1); [lia|done]].
  eapply remove_keeps_above; [exact Hr|]. rewrite snapshot_path_eq, user_dir_eq by done.
  rewrite !length_app. simpl. lia.
Qed.

Lemma delete_conversation_keeps sid d b d' :
  is_session_id sid = true → file_name sid →
  delete_conversation sid (-1) d = (b, d') → keeps_above d d'.
Proof.
  intros Hid [Hsid Hsu]. unfold delete_conversation. simpl. unfold json_delete_conversation.
  unfold infer_convo_path. rewrite Hid.
  destruct (exists_ _ d); [|intros [= _ <-]; apply keeps_above_refl].
  destruct (remove os _ d) as [d1|] eqn:Hr; intros [= _ <-]; [|apply keeps_above_refl].
  eapply remove_keeps_above; [exact Hr|]. unfold user_convo_path.
  rewrite user_dir_eq, !slash_plain
    by (done || (apply plain_app; [apply Hsid|done|simpl; lia])).
  rewrite !length_app. simpl. lia.
Qed.
Lemma user_entries_object su entries idx :
  user_entries su idx = Some entries → ∃ kvs, idx = JObject kvs.
Proof.
  unfold user_entries, index_users. destruct idx as [| | | | | |kvs]; try done. by exists kvs.
Qed.

Lemma user_entries_with su entries kvs :
  user_entries su (with_entries su entries (JObject kvs)) = Some entries.
Proof.
  unfold user_entries, with_entries, index_users at 1. rewrite find_with_users.
  by rewrite assoc_set_eq.
Qed.

(** Only one session in the index of its user: taking it out. *)
Lemma delete_only_entry sid title su d b d' :
  writes_whole os →
  user_entries su (index_of d) = Some [index_entry sid title] →
  (let idx := with_entries su [] (index_of d) in
   ∃ text, dump idx = Some text ∧ read_json text = Some idx) →
  delete_session_index_entry su sid d = (b, d') →
  b = true ∧ (∀ q, q ∈ dirs d → q ∈ dirs d') ∧
  (user_entries su (index_of d') = Some [] ∨
   user_entries su (index_of d') = Some [index_entry sid title]).
Proof.
  intros Hwhole Hu (text & Hdump & Hread) H. unfold delete_session_index_entry in H. simpl in H.
  unfold json_delete_session_index_entry in H. rewrite Hu in H. simpl in H.
  unfold value_string, value in H. simpl in H. rewrite decide_True in H by done.
  destruct (user_entries_object _ _ _ Hu) as [kvs Hkvs].
  destruct (save_index_unlocked _ _ _ _ d) as [saved d1] eqn:Hs. injection H as <- <-.
  split; [done|]. simpl. rewrite Hkvs in Hdump, Hread, Hs.
  eapply save_index_load in Hs as [Hdirs Hidx]; [|done|apply find_with_users|done..].
  split; [done|]. destruct Hidx as [->|Hf]; [left; apply user_entries_with|right].
  unfold load_index_unlocked in *. unfold load_index_from in *. by rewrite Hf.
Qed.

(** A user's only session that is deleted is there again: it is taken out of the index and
    loses its conversation's file, but its directory stays, and for a user with no session in
    the index the sessions are the directories. The deletion answers true, and the session is listed
    again. *)
Lemma deleted_session_returns sid title d b d' l d'' :
  writes_whole os →
  (∀ X x, x ∈ X → x ∈ readdir X) →
  is_session_id sid = true → file_name sid →
  let su := extract_super_user sid in
  user_dir storage_root_ su ++ [sid] ∈ dirs d →
  user_entries su (index_of d) = Some [index_entry sid title] →
  (let idx := with_entries su [] (index_of d) in
   ∃ text, dump idx = Some text ∧ read_json text = Some idx) →
  delete_session sid d = (Ok b, d') →
  list_sessions su d' = (Ok l, d'') → b = true ∧ sid ∈ l.
Proof.
  intros Hwhole Hcomplete Hid Hname su Hdir Hu Hrt H Hl. unfold delete_session in H.
  rewrite Hid in H. cbn [negb] in H.
  apply st_bind_Ok_inv in H as (b1 & d1 & H1 & H).
  apply st_bind_Ok_inv in H as (deleted & d2 & H2 & H).
  apply st_bind_Ok_inv in H as (b3 & d3 & H3 & H).
  unfold call in H1, H3.
  destruct (delete_session_index_entry _ sid d) as [b1' d1'] eqn:E1. injection H1 as -> ->.
  destruct (delete_conversation sid (-1) d2) as [b3' d3'] eqn:E3. injection H3 as -> ->.
  destruct (delete_only_entry sid title su d b1 d1 Hwhole Hu Hrt E1) as (-> & Hdirs & Hidx).
  unfold mret, ST_ret in H. cbn [orb] in H. injection H as <- <-. split; [done|].
  assert (keeps_above d1 d3) as Hk.
  { eapply keeps_above_trans; [|by eapply delete_conversation_keeps].
    by eapply remove_from_keeps; [..|exact H2]. }
  rewrite <-(index_keeps_above _ _ Hk) in Hidx.
  assert (∃ titles sids, sid ∈ sids ∧
    list_session_index_entries su d3 = (λ s, index_entry s (titles s)) <$> sids) as Hlist.
  { unfold list_session_index_entries. simpl. unfold json_list_session_index_entries.
    destruct Hidx as [->| ->]; [exists (λ _, ""), (subdirectories readdir (user_dir storage_root_ su) d3)
      |exists (λ _, title), [sid]; split; [set_solver|done]].
    split; [|done]. apply Hcomplete, elem_of_list_to_set, list_elem_of_omap.
    exists (user_dir storage_root_ su ++ [sid]). split.
    - apply elem_of_elements, (Hk _), Hdirs, Hdir.
      rewrite user_dir_eq, !length_app by apply Hname. simpl. lia.
    - unfold name_in. rewrite removelast_snoc, decide_True; [by rewrite last_snoc|].
      split; [by destruct (user_dir _ _)|done]. }
  destruct Hlist as (titles & sids & Hin & Hlist). unfold list_sessions, gets, mbind, ST_bind in Hl.
  rewrite Hlist, entry_ids_spec in Hl. unfold lift, mbind, exc_bind, sort_sessions, std_sort in Hl.
  destruct (strict_weak_order _ _); [|done]. injection Hl as <- _.
  rewrite insertion_sort_perm. apply list_elem_of_filter. split; [|done]. by intros ->.
Qed.
End store.
