(* ===== verification/Compaction.v ===== *)
(** * Compaction (src/llm/compacter.cpp, src/llm/session_manager.cpp)

    Old turns of a long conversation are replaced by a summary that the model writes.  The
    exchange with the scheduler is a parameter [ask]: what attempt [n] at a request answers,
    or the exception that the sockets or the scheduler end it with.  Compaction reads the
    conversation, waits for the summary without any lock, and then writes: the reading and
    the writing are two operations on the state of [SessionIO]. *)

From S2P Require Import Prelude Json StringUtils Config LlmRequest Adapters Sessions Storage Prompt Conversations Histories SessionManager.

(** ** The configuration *)

Record CompacterConfig := mkCompacterConfig {
  cc_enabled : bool;
  cc_keep_recent_turns : Z;
  cc_summary_max_tokens : Z;
  cc_summary_temp : double;
  cc_summary_top_p : double;
  cc_scheduler_timeout_ms : Z;
  cc_summary_retry_count : Z;
  cc_summary_retry_backoff_ms : Z;
  cc_summary_tree_id : string;
  cc_summary_source_pid : Z;
}.

Definition CompacterConfig_init : CompacterConfig :=
  mkCompacterConfig true 16 300 d_0_2 d_0_9 30000 2 250 "TREE_HANDLER" kCompacterInternalPid.

(** The assignments of the [try] block, in order. *)
Definition compacter_settings : list (json → CompacterConfig → exc CompacterConfig) := [
  (λ j '(mkCompacterConfig e k m t p o c b i s),
    e ← value_bool j "enabled" e; mret (mkCompacterConfig e k m t p o c b i s));
  (λ j '(mkCompacterConfig e k m t p o c b i s),
    k ← value_uint64 j "keep_recent_turns" k; mret (mkCompacterConfig e k m t p o c b i s));
  (λ j '(mkCompacterConfig e k m t p o c b i s),
    m ← value_uint64 j "summary_max_tokens" m; mret (mkCompacterConfig e k m t p o c b i s));
  (λ j '(mkCompacterConfig e k m t p o c b i s),
    t ← value_double j "summary_temp" t; mret (mkCompacterConfig e k m t p o c b i s));
  (λ j '(mkCompacterConfig e k m t p o c b i s),
    p ← value_double j "summary_top_p" p; mret (mkCompacterConfig e k m t p o c b i s));
  (λ j '(mkCompacterConfig e k m t p o c b i s),
    o ← value_int j "scheduler_timeout_ms" o; mret (mkCompacterConfig e k m t p o c b i s));
  (λ j '(mkCompacterConfig e k m t p o c b i s),
    c ← value_int j "summary_retry_count" c; mret (mkCompacterConfig e k m t p o c b i s));
  (λ j '(mkCompacterConfig e k m t p o c b i s),
    b ← value_int j "summary_retry_backoff_ms" b; mret (mkCompacterConfig e k m t p o c b i s));
  (λ j '(mkCompacterConfig e k m t p o c b i s),
    i ← value_string j "summary_tree_id" i; mret (mkCompacterConfig e k m t p o c b i s));
  (λ j '(mkCompacterConfig e k m t p o c b i s),
    s ← value_int j "summary_source_pid" s; mret (mkCompacterConfig e k m t p o c b i s))].

(** An exception leaves what was assigned before it. *)
Fixpoint apply_settings (settings : list (json → CompacterConfig → exc CompacterConfig))
    (j : json) (cfg : CompacterConfig) : exc CompacterConfig :=
  match settings with
  | [] => mret cfg
  | setting :: settings =>
      match setting j cfg with
      | Ok cfg => apply_settings settings j cfg
      | Throw _ => mret cfg
      | UB => UB
      end
  end.

(** A sum of [int]s. *)
Definition add_int (a b : Z) : exc Z :=
  if decide (- 2 ^ 31 ≤ a + b ≤ INT_MAX) then mret (a + b) else UB.

Section config.
Context (parse_file : string → exc json) (read_file : string → option string).

Definition load_scheduler_wait_timeout_ms : exc Z :=
  match open_first read_file ["config/model.json"; "../config/model.json";
                              "build/config/model.json"] with
  | None => mret 65000
  | Some text =>
      try_catch
        (model ← parse_file text;
         request_timeout_ms ← value_int model "request_timeout_ms" 60000;
         add_int request_timeout_ms 5000)
        (λ _, mret 65000)
  end.

Definition load_compacter_config : exc CompacterConfig :=
  match open_first read_file ["config/compacter.json"; "../config/compacter.json";
                              "build/config/compacter.json"] with
  | None => mret CompacterConfig_init
  | Some text =>
      '(mkCompacterConfig e k m t p o c b i s) ←
        match parse_file text with
        | Ok j => apply_settings compacter_settings j CompacterConfig_init
        | Throw _ => mret CompacterConfig_init
        | UB => UB
        end;
      wait ← load_scheduler_wait_timeout_ms;
      aligned ← add_int wait 2000;
      mret (mkCompacterConfig e (if decide (k = 0) then 1 else k) m t p
              (if decide (o < aligned) then aligned else o)
              (if decide (c < 0) then 0 else c) (if decide (b < 0) then 0 else b) i s)
  end.
End config.

(** ** The summary *)

Definition transient_errors : list string :=
  ["Recv timeout"; "Resource temporarily unavailable"; "errno 11";
   "scheduler_request_deadline_exceeded"; "deadline_exceeded"].

Definition is_transient_summary_error (error_text : string) : bool :=
  existsb (contains_str error_text) transient_errors.

Definition classify_summary_skip_reason (error_text : string) : string :=
  if is_transient_summary_error error_text then "summary_queue_timeout"
  else if contains_str error_text "Scheduler summarization failed:" then "summary_model_error"
  else "summary_generation_failed".

Fixpoint serialize_turns_for_summary_prompt (older_turns : list json) : exc string :=
  match older_turns with
  | [] => mret ""
  | turn :: older_turns =>
      if negb (is_object turn) then serialize_turns_for_summary_prompt older_turns
      else
        role ← value_string turn "role" "unknown";
        content ← value_string turn "content" "";
        body ← serialize_turns_for_summary_prompt older_turns;
        mret (if decide (content = "") then body
              else "[" +:+ match find turn "timestamp" with
                           | Some (JString s) => s
                           | _ => "unknown-time"
                           end +:+ "] " +:+ role +:+ ": " +:+ content +:+ lf +:+ body)
  end.

Definition compaction_marker : string := "[CONTEXT COMPACTION]".

Definition SUMMARY_PREFIX : string :=
  compaction_marker +:+ " Earlier turns in this conversation were compacted to save context space. The summary below describes work that was already completed, and the current session state may still reflect that work (for example, files may already be changed). Use the summary and the current state to continue from where things left off, and avoid repeating work:" +:+
  lf +:+ lf.

Definition update_prompt (previous content max_tokens : string) : string :=
  "Update the following technical handoff summary by incorporating the new conversation turns." +:+
  lf +:+ lf +:+ "PREVIOUS SUMMARY:" +:+ lf +:+ previous +:+ lf +:+ lf +:+
  "NEW TURNS TO INCORPORATE:" +:+ lf +:+ content +:+ lf +:+ lf +:+
  "Update the summary using this exact structure. PRESERVE all existing information that is still relevant. ADD new progress. Move items from " +:+
  quote +:+ "In Progress" +:+ quote +:+ " to " +:+ quote +:+ "Done" +:+ quote +:+
  " when completed. Remove information only if it is clearly obsolete." +:+ lf +:+ lf +:+
  "## Goal" +:+ lf +:+
  "[What the user is trying to accomplish — preserve from previous summary, update if goal evolved]" +:+
  lf +:+ lf +:+ "## Constraints & Preferences" +:+ lf +:+
  "[User preferences, coding style, constraints, important decisions — accumulate across compactions]" +:+
  lf +:+ lf +:+ "## Progress" +:+ lf +:+ "### Done" +:+ lf +:+
  "[Completed work — include specific file paths, commands run, results obtained]" +:+ lf +:+
  "### In Progress" +:+ lf +:+ "[Work currently underway]" +:+ lf +:+ "### Blocked" +:+ lf +:+
  "[Any blockers or issues encountered]" +:+ lf +:+ lf +:+ "## Key Decisions" +:+ lf +:+
  "[Important technical decisions and why they were made]" +:+ lf +:+ lf +:+
  "## Relevant Files" +:+ lf +:+
  "[Files read, modified, or created — with brief note on each. Accumulate across compactions.]" +:+
  lf +:+ lf +:+ "## Next Steps" +:+ lf +:+ "[What needs to happen next to continue the work]" +:+
  lf +:+ lf +:+ "## Critical Context" +:+ lf +:+
  "[Any specific values, error messages, configuration details, or data that would be lost without explicit preservation]" +:+
  lf +:+ lf +:+ "Target ~" +:+ max_tokens +:+
  " tokens. Be specific — include file paths, command outputs, error messages, and concrete values rather than vague descriptions." +:+
  lf +:+ lf +:+ "Write only the summary body. Do not include any preamble or prefix.".

Definition create_prompt (content max_tokens : string) : string :=
  "Create a structured technical handoff summary for a later assistant that will continue this conversation after earlier turns are compacted." +:+
  lf +:+ lf +:+ "TURNS TO SUMMARIZE:" +:+ lf +:+ content +:+ lf +:+ lf +:+
  "Use this exact structure:" +:+ lf +:+ lf +:+ "## Goal" +:+ lf +:+
  "[What the user is trying to accomplish]" +:+ lf +:+ lf +:+ "## Constraints & Preferences" +:+
  lf +:+ "[User preferences, coding style, constraints, important decisions]" +:+ lf +:+ lf +:+
  "## Progress" +:+ lf +:+ "### Done" +:+ lf +:+
  "[Completed work — include specific file paths, commands run, results obtained]" +:+ lf +:+
  "### In Progress" +:+ lf +:+ "[Work currently underway]" +:+ lf +:+ "### Blocked" +:+ lf +:+
  "[Any blockers or issues encountered]" +:+ lf +:+ lf +:+ "## Key Decisions" +:+ lf +:+
  "[Important technical decisions and why they were made]" +:+ lf +:+ lf +:+
  "## Relevant Files" +:+ lf +:+
  "[Files read, modified, or created — with brief note on each]" +:+ lf +:+ lf +:+
  "## Next Steps" +:+ lf +:+ "[What needs to happen next to continue the work]" +:+ lf +:+ lf +:+
  "## Critical Context" +:+ lf +:+
  "[Any specific values, error messages, configuration details, or data that would be lost without explicit preservation]" +:+
  lf +:+ lf +:+ "Target ~" +:+ max_tokens +:+
  " tokens. Be specific — include file paths, command outputs, error messages, and concrete values rather than vague descriptions. The goal is to prevent the next assistant from repeating work or losing important details." +:+
  lf +:+ lf +:+ "Write only the summary body. Do not include any preamble or prefix.".

(** The summary that the first of the turns carries, if it does. *)
Definition previous_summary (older_turns : list json) : exc string :=
  match older_turns with
  | first :: _ =>
      if is_object first then
        first_content ← value_string first "content" "";
        mret (default "" (strip_prefix SUMMARY_PREFIX first_content))
      else mret ""
  | [] => mret ""
  end.

Definition summary_prompt (cfg : CompacterConfig) (older_turns : list json) : exc string :=
  previous ← previous_summary older_turns;
  content ← serialize_turns_for_summary_prompt
              (if decide (previous = "") then older_turns else tail older_turns);
  let max_tokens := pretty (cc_summary_max_tokens cfg) in
  mret (if decide (previous = "") then create_prompt content max_tokens
        else update_prompt previous content max_tokens).

Definition summary_request (cfg : CompacterConfig) (request_id timestamp prompt : string) : json :=
  JObject [
    ("message_type", JString "LLM_REQUEST"); ("request_id", JString request_id);
    ("tree_id", JString (cc_summary_tree_id cfg));
    ("source_pid", JInt (cc_summary_source_pid cfg)); ("mode", JString "simple");
    ("convo_id", JString ""); ("user_id", JString ""); ("priority", JInt INT_MAX);
    ("inherit_key", JNull);
    ("messages", JArray [
       JObject [("role", JString "system");
                ("content", JString "You are an expert technical summarizer that preserves project state across context compactions.")];
       JObject [("role", JString "user"); ("content", JString prompt)]]);
    ("sampling_params", JObject [("temp", JFloat (cc_summary_temp cfg));
                                 ("top_p", JFloat (cc_summary_top_p cfg));
                                 ("max_tokens", JInt (cc_summary_max_tokens cfg))]);
    ("metadata", JObject [("request_origin", JString "compacter");
                          ("compaction_request", JBool true);
                          ("timestamp", JString timestamp)])].

Record CompactResult := {
  cr_history : list json;
  cr_compacted : bool;
  cr_summary : string;
  cr_skip_reason : string;
}.

Definition skipped (history : list json) (reason : string) : CompactResult :=
  {| cr_history := history; cr_compacted := false; cr_summary := ""; cr_skip_reason := reason |}.

(** The time and the metadata of the last of the older turns that is an object. *)
Definition older_metadata (older_turns : list json) : list (string * json) :=
  match last (filter (λ m, is_object m = true) older_turns) with
  | Some turn =>
      match find turn "timestamp" with Some (JString s) => [("timestamp", JString s)] | _ => [] end ++
      match find turn "metadata" with Some (JObject m) => [("metadata", JObject m)] | _ => [] end
  | None => []
  end.

Section compacter.
(** [ask n] is the exchange of attempt [n] with the scheduler. *)
Context (ask : nat → json → exc json).
Context (random_id : nat → string) (now_iso8601 : string).

Definition request_llm_summary (cfg : CompacterConfig) (attempt : nat) (older_turns : list json) :
    exc string :=
  prompt ← summary_prompt cfg older_turns;
  response ← ask attempt (summary_request cfg (random_id attempt) now_iso8601 prompt);
  status ← value_string response "status" "error";
  if decide (status ≠ "ok") then
    error ← value_string response "error" "unknown";
    Throw ("Scheduler summarization failed: " +:+ error)
  else
    summary ← value_string response "response" "";
    if decide (summary = "") then Throw "Scheduler summarization returned empty summary"
    else mret summary.

(** The loop over the attempts, [n] of them left: the summary and the last error. *)
Fixpoint summary_attempts (cfg : CompacterConfig) (n attempt : nat) (older_turns : list json) :
    exc (string * string) :=
  match n with
  | O => mret ("", "")
  | S n =>
      match request_llm_summary cfg attempt older_turns with
      | Ok summary => mret (summary, "")
      | Throw error =>
          if negb (is_transient_summary_error error) || bool_decide (n = 0%nat)
          then mret ("", error)
          else summary_attempts cfg n (S attempt) older_turns
      | UB => UB
      end
  end.

Definition summary_message (summary : string) (older_turns : list json) : json :=
  let message := [("role", JString "assistant"); ("content", JString (SUMMARY_PREFIX +:+ summary))] ++
                 older_metadata older_turns in
  JObject (match assoc "timestamp" message with
           | Some _ => message
           | None => message ++ [("timestamp", JString now_iso8601)]
           end).

Definition compact_history_if_needed (cfg : CompacterConfig) (history : list json) :
    exc CompactResult :=
  let size := Z.of_nat (length history) in
  if negb (cc_enabled cfg) then mret (skipped history "disabled")
  else if decide (size ≤ u64 (cc_keep_recent_turns cfg + 1)) then
    mret (skipped history "below_preserve_limit")
  else
    let split_index := Z.to_nat (u64 (size - cc_keep_recent_turns cfg)) in
    let older := take split_index history in
    let recent := drop split_index history in
    attempts ← add_int (cc_summary_retry_count cfg) 1;
    '(llm_summary, last_error) ← summary_attempts cfg (Z.to_nat attempts) 1 older;
    if decide (llm_summary = "") then
      mret (skipped history (classify_summary_skip_reason last_error))
    else
      mret {| cr_history := summary_message llm_summary older :: recent; cr_compacted := true;
              cr_summary := llm_summary; cr_skip_reason := "" |}.
End compacter.

(** ** SessionManager::compact *)

(** The synthetic exchange that a compacted conversation starts with. *)
Definition seed_messages (summary : string) : list json := [
  JObject [("role", JString "user"); ("content", JString "retrieve previous session summary")];
  JObject [("role", JString "assistant"); ("content", JString "");
           ("tool_calls", JArray [JObject [
              ("id", JString "tc_summary_001"); ("type", JString "function");
              ("function", JObject [
                 ("name", JString "session_summary_retrieve");
                 ("arguments", JString ("{" +:+ quote +:+ "query" +:+ quote +:+ ": " +:+ quote +:+
                                        "previous session summary" +:+ quote +:+ "}"))])]])];
  JObject [("role", JString "tool"); ("tool_call_id", JString "tc_summary_001");
           ("content", JString ("[PREVIOUS SESSION SUMMARY]" +:+ lf +:+ summary))]].

Definition objects (l : list json) : list json := filter (λ m, is_object m = true) l.

(** [max(1, size / 3)] of the contents, summed by [add]. *)
Fixpoint sum_content_tokens (add : Z → Z → exc Z) (messages : list json) (total : Z) : exc Z :=
  match messages with
  | [] => mret total
  | m :: messages =>
      if negb (is_object m) then sum_content_tokens add messages total
      else
        content ← value_string m "content" "";
        total ← add total (estimate_tokens content);
        sum_content_tokens add messages total
  end.

Fixpoint count_turns (messages : list json) : exc Z :=
  match messages with
  | [] => mret 0
  | m :: messages =>
      if negb (is_object m) then count_turns messages
      else
        role ← value_string m "role" "";
        n ← count_turns messages;
        mret (if decide (role = "user" ∨ role = "assistant") then n + 1 else n)
  end.

Definition build_seeded_conversation (session_id summary : string) (retained_recent : list json) :
    exc json :=
  let messages := seed_messages summary ++ objects retained_recent in
  seeded_tokens ← sum_content_tokens (λ a b, mret (u64 (a + b))) messages 0;
  real_turn_count ← count_turns messages;
  mret (JObject [("messages", JArray messages); ("convo_id", JString session_id);
                 ("compacted", JBool true); ("turn_count", JInt real_turn_count);
                 ("current_context_tokens", JInt seeded_tokens)]).

(** The recent turns without those that carry a marker. *)
Fixpoint without_marker (messages : list json) : exc (list json) :=
  match messages with
  | [] => mret []
  | m :: messages =>
      if negb (is_object m) then without_marker messages
      else
        content ← value_string m "content" "";
        messages ← without_marker messages;
        mret (if contains_str content compaction_marker then messages else m :: messages)
  end.

(** What follows the first line of the first message with a marker. *)
Fixpoint marked_summary (messages : list json) : exc string :=
  match messages with
  | [] => mret ""
  | m :: messages =>
      if negb (is_object m) then marked_summary messages
      else
        content ← value_string m "content" "";
        if contains_str content compaction_marker then
          mret match find_str lf content with Some (_, rest) => rest | None => content end
        else marked_summary messages
  end.

Definition kFallbackKeep : nat := 6.

(** [retained_recent] without a user's message at its end. *)
Definition drop_last_user (messages : list json) : exc (list json) :=
  match last messages with
  | Some m =>
      if is_object m then
        role ← value_string m "role" "";
        mret (if decide (role = "user") then removelast messages else messages)
      else mret messages
  | None => mret messages
  end.

Record ManagerCompactResult := {
  mc_session_id : string;
  mc_summary : string;
  mc_compacted : bool;
  mc_compact_reason : string;
  mc_tokens_before : Z;
  mc_tokens_after : Z;
  mc_compacted_conversation : json;
}.

(** The part of [compact] before anything is stored: the result where nothing is compacted, or
    whether there is something to compact, the summary, and the turns that are retained. *)
Definition plan_compaction (compacter : list json → exc CompactResult) (history : list json)
    (is_auto : bool) : exc (string + bool * string * list json) :=
  r ← (if decide (history = []) then mret (inr (false, "", []))
       else
         cr ← compacter history;
         if negb (cr_compacted cr) then
           mret (inl (if decide (cr_skip_reason cr = "") then "below_compaction_limit"
                      else cr_skip_reason cr))
         else
           retained ← without_marker (cr_history cr);
           summary ← (if decide (cr_summary cr = "") then marked_summary (cr_history cr)
                      else mret (cr_summary cr));
           mret (inr (true, summary, retained)));
  match r with
  | inl reason => mret (inl reason)
  | inr (compacted, summary, retained) =>
      let summary :=
        if decide (summary = "") then "(No summary available — conversation was short or empty.)"
        else summary in
      let retained :=
        if decide (retained = []) then objects (drop (length history - kFallbackKeep) history)
        else retained in
      retained ← (if is_auto : bool then drop_last_user retained else mret retained);
      mret (inr (compacted, summary, retained))
  end.

Section compact.
Context {St : Type} `{!IStorageProvider St}.
Context (compacter : list json → exc CompactResult).

Definition compact (now : Z) (session_id : string) (history : list json) (is_auto : bool) :
    ST St ManagerCompactResult :=
  before ← lift (sum_content_tokens add_int history 0);
  plan ← lift (plan_compaction compacter history is_auto);
  match plan with
  | inl reason =>
      mret {| mc_session_id := session_id; mc_summary := ""; mc_compacted := false;
              mc_compact_reason := reason; mc_tokens_before := before;
              mc_tokens_after := before; mc_compacted_conversation := JObject [] |}
  | inr (compacted, summary, retained) =>
      (if decide (history = []) then mret tt else save_snapshot now session_id history);;
      seeded ← lift (build_seeded_conversation session_id summary retained);
      after ← lift (add_int (i32 (estimate_tokens summary)) (if is_auto then 60 else 50));
      mret {| mc_session_id := session_id; mc_summary := summary; mc_compacted := compacted;
              mc_compact_reason := ""; mc_tokens_before := before; mc_tokens_after := after;
              mc_compacted_conversation := seeded |}
  end.

(** ** The guard *)

Record AutoCompactGuardResult := {
  ag_threshold_exceeded : bool;
  ag_compact_attempted : bool;
  ag_compacted : bool;
  ag_skip_reason : string;
  ag_tokens_before : Z;
  ag_tokens_after : Z;
}.

Definition guard_skipped (reason : string) : AutoCompactGuardResult :=
  {| ag_threshold_exceeded := false; ag_compact_attempted := false; ag_compacted := false;
     ag_skip_reason := reason; ag_tokens_before := 0; ag_tokens_after := 0 |}.

(** The ratio is below the threshold, 0.7 where none is set. *)
Definition below_threshold (usage : ContextUsage) (threshold : double) : bool :=
  let threshold := if SFleb threshold d_zero then d_0_7 else threshold in
  SFltb (d_div (d_of_Z (total_context_tokens usage)) (d_of_Z (max_context_tokens usage))) threshold.

(** A computation on the provider that the session manager and [SessionIO] share. *)
Definition on_storage {A} (m : ST St A) : ST (SessionIO St) A := λ io,
  let '(r, s) := m (storage_ io) in (r, with_storage s io).

Definition compacted_convo (convo : Conversation) (r : ManagerCompactResult) : exc Conversation :=
  messages ← value_json (mc_compacted_conversation r) "messages" (JArray []);
  turn_count ← value_int (mc_compacted_conversation r) "turn_count" (cv_turn_count convo);
  tokens ← value_uint64 (mc_compacted_conversation r) "current_context_tokens"
             (cv_current_context_tokens convo);
  metadata ← set_field "compacted" (JBool true) (cv_metadata convo);
  metadata ← set_field "needs_compaction" (JBool false) metadata;
  mret {| cv_convo_id := cv_convo_id convo; cv_user_id := cv_user_id convo;
          cv_creator_pid := cv_creator_pid convo; cv_state := cv_state convo;
          cv_created_at_ms := cv_created_at_ms convo;
          cv_last_activity_ms := cv_last_activity_ms convo; cv_turn_count := turn_count;
          cv_current_context_tokens := tokens;
          cv_total_tokens_used := cv_total_tokens_used convo;
          cv_messages := match messages with JArray l => objects l | _ => [] end;
          cv_metadata := metadata |}.

(** What happens to the result: the conversation that was read is written, compacted, and the
    cache forgets it. *)
Definition guard_write (convo_id : string) (convo : Conversation) (r : ManagerCompactResult) :
    ST (SessionIO St) AutoCompactGuardResult :=
  (if mc_compacted r && negb (json_empty (mc_compacted_conversation r)) then
     convo ← lift (compacted_convo convo r);
     persist_conversation convo;;
     invalidate_conversation_cache convo_id
   else mret tt);;
  mret {| ag_threshold_exceeded := true; ag_compact_attempted := true;
          ag_compacted := mc_compacted r;
          ag_skip_reason := if negb (mc_compacted r) && bool_decide (mc_compact_reason r = "")
                            then "below_compaction_limit" else mc_compact_reason r;
          ag_tokens_before := mc_tokens_before r; ag_tokens_after := mc_tokens_after r |}.

Definition run_auto_compact_guard (now : Z) (convo_id : string) (usage : ContextUsage)
    (threshold : double) : ST (SessionIO St) AutoCompactGuardResult :=
  if decide (convo_id = "") then mret (guard_skipped "missing_convo_id")
  else if decide (max_context_tokens usage = 0) then mret (guard_skipped "unknown_context_limit")
  else if below_threshold usage threshold then mret (guard_skipped "below_compaction_limit")
  else
    convo ← Conversations.get_conversation convo_id;
    r ← on_storage (compact now convo_id (objects (cv_messages convo)) true);
    guard_write convo_id convo r.
End compact.

(** ** The queue of compactions *)

Record QueueItem := { qi_session_id : string; qi_usage : ContextUsage; qi_threshold : double }.

(** Where the worker is: waiting, in [run_auto_compact_guard], between the two sets that it
    clears afterwards, or gone. *)
Inductive Worker : Type :=
  | Waiting
  | Compacting (item : QueueItem)
  | Clearing (item : QueueItem)
  | Returned.

Record CompactionQueue := {
  queue_ : list QueueItem;
  queued_sessions_ : gset string;
  stopping_ : bool;
  worker_ : Worker;
  sessions_needing_compaction_ : gset string;
}.

Definition CompactionQueue_init : CompactionQueue :=
  {| queue_ := []; queued_sessions_ := ∅; stopping_ := false; worker_ := Waiting;
     sessions_needing_compaction_ := ∅ |}.

Definition enqueue (item : QueueItem) (q : CompactionQueue) : CompactionQueue :=
  if decide (qi_session_id item = "" ∨ qi_session_id item ∈ queued_sessions_ q) then q
  else {| queue_ := queue_ q ++ [item];
          queued_sessions_ := {[qi_session_id item]} ∪ queued_sessions_ q;
          stopping_ := stopping_ q; worker_ := worker_ q;
          sessions_needing_compaction_ := sessions_needing_compaction_ q |}.

Definition set_needing (f : gset string → gset string) (q : CompactionQueue) : CompactionQueue :=
  {| queue_ := queue_ q; queued_sessions_ := queued_sessions_ q; stopping_ := stopping_ q;
     worker_ := worker_ q; sessions_needing_compaction_ := f (sessions_needing_compaction_ q) |}.

(** What [enqueue_auto_compaction_if_needed] decides, and the item that it enqueues. *)
Definition compaction_wanted (convo_id : string) (usage : ContextUsage) (threshold : double) :
    option QueueItem :=
  if decide (convo_id = "" ∨ max_context_tokens usage = 0) then None
  else if below_threshold usage threshold then None
  else Some {| qi_session_id := convo_id; qi_usage := usage;
               qi_threshold := if SFleb threshold d_zero then d_0_7 else threshold |}.

(** One step of [worker_loop]; [None] where it waits or has returned. *)
Definition worker_step (q : CompactionQueue) : option CompactionQueue :=
  let with_worker w queue queued needing :=
    {| queue_ := queue; queued_sessions_ := queued; stopping_ := stopping_ q; worker_ := w;
       sessions_needing_compaction_ := needing |} in
  match worker_ q with
  | Waiting =>
      match queue_ q with
      | item :: queue =>
          Some (with_worker (Compacting item) queue (queued_sessions_ q)
                  (sessions_needing_compaction_ q))
      | [] =>
          if stopping_ q then
            Some (with_worker Returned [] (queued_sessions_ q) (sessions_needing_compaction_ q))
          else None
      end
  | Compacting item =>
      Some (with_worker (Clearing item) (queue_ q) (queued_sessions_ q ∖ {[qi_session_id item]})
              (sessions_needing_compaction_ q))
  | Clearing item =>
      Some (with_worker Waiting (queue_ q) (queued_sessions_ q)
              (sessions_needing_compaction_ q ∖ {[qi_session_id item]}))
  | Returned => None
  end.

(** The steps of the worker and of the threads that enqueue: marking a session and enqueueing
    it take different mutexes. *)
Inductive queue_step : CompactionQueue → CompactionQueue → Prop :=
  | queue_mark convo_id usage threshold item q :
      compaction_wanted convo_id usage threshold = Some item →
      queue_step q (set_needing (union {[convo_id]}) q)
  | queue_enqueue convo_id usage threshold item q :
      compaction_wanted convo_id usage threshold = Some item → queue_step q (enqueue item q)
  | queue_worker q q' : worker_step q = Some q' → queue_step q q'
  | queue_stop q :
      queue_step q {| queue_ := queue_ q; queued_sessions_ := queued_sessions_ q;
                      stopping_ := true; worker_ := worker_ q;
                      sessions_needing_compaction_ := sessions_needing_compaction_ q |}.

(** ** Properties *)

Definition queued_ids (q : CompactionQueue) : list string :=
  match worker_ q with Compacting item => [qi_session_id item] | _ => [] end ++
  (qi_session_id <$> queue_ q).

Definition queue_ok (q : CompactionQueue) : Prop :=
  NoDup (queued_ids q) ∧ ∀ id, id ∈ queued_sessions_ q ↔ id ∈ queued_ids q.

Lemma queue_step_ok q q' : queue_step q q' → queue_ok q → queue_ok q'.
Proof.
  intros [id u t item q0 _|id u t item q0 _|q0 q0' Hw|q0] [Hnd Hset]; [done| | |done].
  - unfold enqueue. case_decide as Hc; [done|]. unfold queue_ok, queued_ids in *. simpl.
    rewrite fmap_app, app_assoc. simpl. split.
    + apply NoDup_app. split_and!; [done| |apply NoDup_singleton].
      intros x Hx ->%list_elem_of_singleton. apply Hc. right. by apply Hset.
    + intros x. rewrite elem_of_app, list_elem_of_singleton, elem_of_union, elem_of_singleton, Hset.
      tauto.
  - unfold worker_step in Hw. unfold queue_ok, queued_ids in *.
    destruct (worker_ q0) as [|item|item|] eqn:Ew; simpl in *; [| |by injection Hw as <-|done].
    + destruct (queue_ q0) as [|item queue]; [destruct (stopping_ q0); [by injection Hw as <-|done]|].
      by injection Hw as <-.
    + injection Hw as <-. simpl. apply NoDup_cons in Hnd as [Hni Hnd]. split; [done|].
      intros x. rewrite elem_of_difference, elem_of_singleton, Hset, elem_of_cons. split.
      * by intros [[?|?] ?].
      * intros Hx. split; [by right|]. by intros ->.
Qed.

(** C28 However the requests for compaction interleave with the worker, no session is queued
    twice, nor queued while the worker compacts it, and the set of queued sessions is exactly
    the sessions in the queue and the one in work. *)
Theorem compaction_exclusive q :
  rtc queue_step CompactionQueue_init q →
  NoDup (queued_ids q) ∧ ∀ id, id ∈ queued_sessions_ q ↔ id ∈ queued_ids q.
Proof.
  intros Hsteps. apply (rtc_invariant queue_step queue_ok CompactionQueue_init q);
    [by intros x y Hx Hs; eapply queue_step_ok|done|].
  split; [apply NoDup_nil_2|]. intros id. unfold queued_ids. simpl. set_solver.
Qed.

(** The worker's steps. *)
Definition steps_left (q : CompactionQueue) : nat :=
  3 * length (queue_ q) +
  match worker_ q with Returned => 0 | Waiting => 1 | Clearing _ => 2 | Compacting _ => 3 end.

Lemma worker_step_decreases q q' : worker_step q = Some q' → (steps_left q' < steps_left q)%nat.
Proof.
  unfold worker_step, steps_left. destruct (worker_ q); [|by intros [= <-]; simpl; lia..|done].
  destruct (queue_ q); [destruct (stopping_ q)|]; intros; simplify_eq; simpl; lia.
Qed.

(** What the worker compacts from here on, in this order. *)
Inductive worker_run : CompactionQueue → list string → CompactionQueue → Prop :=
  | run_end q : worker_step q = None → worker_run q [] q
  | run_take q q' ids q'' item :
      worker_step q = Some q' → worker_ q' = Compacting item → worker_run q' ids q'' →
      worker_run q (qi_session_id item :: ids) q''
  | run_other q q' ids q'' :
      worker_step q = Some q' → (∀ item, worker_ q' ≠ Compacting item) → worker_run q' ids q'' →
      worker_run q ids q''.

(** Once the queue is told to stop, the worker returns: after finitely many steps, bounded
    by the queue's length, in which it compacts every session that is queued, in order. *)
Lemma worker_returns q :
  stopping_ q = true →
  well_founded (λ q' q, worker_step q = Some q') ∧
  ∃ q', worker_run q (if worker_ q is Returned then [] else qi_session_id <$> queue_ q) q' ∧
    worker_ q' = Returned ∧ (worker_ q ≠ Returned → queue_ q' = []).
Proof.
  intros Hstop. split.
  { apply (wf_projected lt steps_left); [intros x y; apply worker_step_decreases|apply lt_wf]. }
  remember (steps_left q) as n eqn:Hn. revert q Hn Hstop.
  induction (lt_wf n) as [n _ IH]. intros q -> Hstop.
  destruct (worker_step q) as [q1|] eqn:Hw.
  2: { exists q. unfold worker_step in Hw. destruct (worker_ q) eqn:Ew; try done.
    - destruct (queue_ q); [by rewrite Hstop in Hw|done].
    - split_and!; [|done..]. constructor. unfold worker_step. by rewrite Ew. }
  pose proof (worker_step_decreases q q1 Hw) as Hlt.
  assert (stopping_ q1 = true) as Hstop1.
  { unfold worker_step in Hw. repeat case_match; by simplify_eq. }
  destruct (IH _ Hlt q1 eq_refl Hstop1) as (q' & Hrun & Hret & Hempty).
  exists q'. pose proof Hw as Hw'. unfold worker_step in Hw'.
  destruct (worker_ q) as [|item|item|] eqn:Ew; [| | |done].
  - destruct (queue_ q) as [|item queue] eqn:Eq.
    + rewrite Hstop in Hw'. injection Hw' as <-. split_and!; [by eapply run_other|done|].
      intros _. inversion Hrun; subst; [done|..];
        match goal with H : worker_step _ = Some _ |- _ => discriminate H end.
    + injection Hw' as <-. split_and!; [by eapply run_take|done|]. intros _. by apply Hempty.
  - injection Hw' as <-. split_and!; [by eapply run_other|done|]. intros _. by apply Hempty.
  - injection Hw' as <-. split_and!; [by eapply run_other|done|]. intros _. by apply Hempty.
Qed.

(** ** What compaction keeps *)

Section compacter_properties.
Context (ask : nat → json → exc json) (random_id : nat → string) (now_iso8601 : string).

Lemma request_llm_summary_nonempty cfg attempt older s :
  request_llm_summary ask random_id now_iso8601 cfg attempt older = Ok s → s ≠ "".
Proof.
  unfold request_llm_summary. intros (prompt & _ & H)%exc_bind_Ok_inv.
  apply exc_bind_Ok_inv in H as (response & _ & H). apply exc_bind_Ok_inv in H as (status & _ & H).
  case_decide; [by apply exc_bind_Ok_inv in H as (e & _ & H)|].
  apply exc_bind_Ok_inv in H as (summary & _ & H). case_decide; [done|]. by injection H as <-.
Qed.

(** The attempts: all but the last failed for a reason that may pass. *)
Lemma summary_attempts_spec cfg older : ∀ n attempt s e,
  summary_attempts ask random_id now_iso8601 cfg n attempt older = Ok (s, e) → s ≠ "" →
  ∃ k, (attempt ≤ k < attempt + n)%nat ∧
    request_llm_summary ask random_id now_iso8601 cfg k older = Ok s ∧
    ∀ a, (attempt ≤ a < k)%nat → ∃ error,
      request_llm_summary ask random_id now_iso8601 cfg a older = Throw error ∧
      is_transient_summary_error error = true.
Proof.
  induction n as [|n IH]; intros attempt s e H Hs; simpl in H; [by injection H as <- <-|].
  destruct (request_llm_summary ask random_id now_iso8601 cfg attempt older) as [s'|error|] eqn:Hr;
    [|destruct (is_transient_summary_error error) eqn:Ht|done].
  - injection H as <- <-. exists attempt. split_and!; [lia..|done|]. intros a ?. lia.
  - simpl in H. case_bool_decide; [by injection H as <- <-|].
    destruct (IH (S attempt) s e H Hs) as (k & Hk & Hok & Hall). exists k. split_and!; [lia..|done|].
    intros a Ha. destruct (decide (a = attempt)) as [->|]; [by exists error|]. apply Hall. lia.
  - simpl in H. by injection H as <- <-.
Qed.

Lemma compact_history_inv cfg history r :
  0 ≤ cc_keep_recent_turns cfg < 2 ^ 64 - 1 → Z.of_nat (length history) < 2 ^ 64 →
  compact_history_if_needed ask random_id now_iso8601 cfg history = Ok r →
  (cr_compacted r = false ∧ cr_history r = history ∧ cr_skip_reason r ≠ "") ∨
  ∃ older recent attempts e, history = older ++ recent ∧
    Z.of_nat (length recent) = cc_keep_recent_turns cfg ∧ (2 ≤ length older)%nat ∧
    add_int (cc_summary_retry_count cfg) 1 = Ok attempts ∧ cr_summary r ≠ "" ∧
    summary_attempts ask random_id now_iso8601 cfg (Z.to_nat attempts) 1 older =
      Ok (cr_summary r, e) ∧
    cr_compacted r = true ∧ cr_history r = summary_message now_iso8601 (cr_summary r) older :: recent.
Proof.
  intros Hkeep Hlen H. unfold compact_history_if_needed in H.
  destruct (negb (cc_enabled cfg)); [injection H as <-; by left|].
  rewrite u64_id in H by lia. case_decide; [injection H as <-; by left|].
  rewrite u64_id in H by lia.
  set (split := Z.to_nat (Z.of_nat (length history) - cc_keep_recent_turns cfg)) in H.
  apply exc_bind_Ok_inv in H as (attempts & Hatt & H).
  apply exc_bind_Ok_inv in H as ([s e] & Hs & H). case_decide as Hne; injection H as <-.
  - left. split_and!; [done..|]. simpl. unfold classify_summary_skip_reason.
    by repeat case_match.
  - right. exists (take split history), (drop split history), attempts, e. simpl.
    rewrite take_drop, length_drop, length_take. by split_and!; try done; lia.
Qed.

(** The compacter keeps the recent turns as they are, as many as it is told to, and puts one
    message with a summary of all the others before them - at least two, and the summary is
    not empty; it asks for the summary at most once more than it may retry, and again only
    after an error that may pass.  When it does not compact it returns the history unchanged,
    with a reason. *)
Lemma compact_history_spec cfg history r :
  0 ≤ cc_keep_recent_turns cfg < 2 ^ 64 - 1 → Z.of_nat (length history) < 2 ^ 64 →
  0 ≤ cc_summary_retry_count cfg →
  compact_history_if_needed ask random_id now_iso8601 cfg history = Ok r →
  (cr_compacted r = false → cr_history r = history ∧ cr_skip_reason r ≠ "") ∧
  (cr_compacted r = true → ∃ older recent attempt,
     history = older ++ recent ∧ Z.of_nat (length recent) = cc_keep_recent_turns cfg ∧
     (2 ≤ length older)%nat ∧ cr_summary r ≠ "" ∧
     cr_history r = summary_message now_iso8601 (cr_summary r) older :: recent ∧
     1 ≤ Z.of_nat attempt ≤ cc_summary_retry_count cfg + 1 ∧
     request_llm_summary ask random_id now_iso8601 cfg attempt older = Ok (cr_summary r) ∧
     ∀ a, (1 ≤ a < attempt)%nat → ∃ error,
       request_llm_summary ask random_id now_iso8601 cfg a older = Throw error ∧
       is_transient_summary_error error = true).
Proof.
  intros Hkeep Hlen Hretry H.
  destruct (compact_history_inv cfg history r Hkeep Hlen H) as
    [(-> & ? & ?)|(older & recent & attempts & e & -> & Hrec & Hold & Hatt & Hne & Hs & -> & Hh)];
    [done|]. split; [done|]. intros _. apply summary_attempts_spec in Hs as (k & Hk & Hok & Hall); [|done].
  unfold add_int in Hatt. case_decide; [|done]. injection Hatt as <-.
  exists older, recent, k. split_and!; try done; lia.
Qed.
End compacter_properties.

Lemma without_marker_sublist l : ∀ l', without_marker l = Ok l' → l' `sublist_of` l.
Proof.
  induction l as [|m l IH]; intros l' H; simpl in H; [by injection H as <-|].
  destruct (negb (is_object m)); [by apply sublist_cons, IH|].
  apply exc_bind_Ok_inv in H as (content & _ & H). apply exc_bind_Ok_inv in H as (l1 & Hl1 & H).
  injection H as <-. destruct (contains_str content compaction_marker);
    [by apply sublist_cons, IH|by apply sublist_skip, IH].
Qed.

Lemma objects_sublist l : objects l `sublist_of` l.
Proof. apply sublist_filter. Qed.

(** A message that carries the marker of a compaction. *)
Definition marked (m : json) : Prop :=
  is_object m = true ∧
  ∃ content, value_string m "content" "" = Ok content ∧
    contains_str content compaction_marker = true.

Lemma summary_message_marked now summary older : marked (summary_message now summary older).
Proof.
  split; [done|]. exists (SUMMARY_PREFIX +:+ summary). split.
  - apply value_string_find. unfold summary_message. by destruct (assoc "timestamp" _).
  - unfold contains_str, SUMMARY_PREFIX. rewrite !str_app_assoc, find_str_prefix. done.
Qed.

(** What a compacter that does its work leaves of a history. *)
Definition compacts_well (compacter : list json → exc CompactResult) (history : list json) : Prop :=
  ∀ cr, compacter history = Ok cr → cr_compacted cr = true →
    cr_summary cr ≠ "" ∧ ∃ sm recent, cr_history cr = sm :: recent ∧ marked sm ∧
      recent `suffix_of` history.

Lemma compacter_compacts_well ask random_id now_iso8601 cfg history :
  0 ≤ cc_keep_recent_turns cfg < 2 ^ 64 - 1 → Z.of_nat (length history) < 2 ^ 64 →
  compacts_well (compact_history_if_needed ask random_id now_iso8601 cfg) history.
Proof.
  intros Hkeep Hlen cr Hcr Hc.
  destruct (compact_history_inv _ _ _ cfg history cr Hkeep Hlen Hcr) as
    [(? & _)|(older & recent & attempts & e & -> & _ & _ & _ & Hne & _ & _ & ->)]; [congruence|].
  split; [done|]. eexists _, recent. split_and!; [done|apply summary_message_marked|].
  by exists older.
Qed.

Lemma removelast_sublist {A} (l : list A) : removelast l `sublist_of` l.
Proof.
  induction l as [|x l IH]; [done|]. destruct l as [|y l]; [apply sublist_nil_l|].
  by apply sublist_skip.
Qed.

Lemma drop_last_user_sublist l l' : drop_last_user l = Ok l' → l' `sublist_of` l.
Proof.
  unfold drop_last_user. destruct (last l); [|by intros [= <-]].
  destruct (is_object j); [|by intros [= <-]].
  intros (role & _ & H)%exc_bind_Ok_inv. injection H as <-. case_decide; [|done].
  apply removelast_sublist.
Qed.

(** The turns that are retained are turns of the history, in order. *)
Lemma plan_retained compacter history is_auto summary retained :
  compacts_well compacter history →
  plan_compaction compacter history is_auto = Ok (inr (true, summary, retained)) →
  summary ≠ "" ∧ retained `sublist_of` history.
Proof.
  intros Hwell. unfold plan_compaction. intros (r & Hr & H)%exc_bind_Ok_inv.
  case_decide; [injection Hr as <-; by apply exc_bind_Ok_inv in H as (? & _ & H)|].
  apply exc_bind_Ok_inv in Hr as (cr & Hcr & Hr).
  destruct (cr_compacted cr) eqn:Hc; simpl in Hr; [|injection Hr as <-; by injection H as ?].
  destruct (Hwell cr Hcr Hc) as (Hne & sm & recent & Hh & (Hobj & content & Hcont & Hmark) & Hsuf).
  rewrite decide_False, Hh in Hr by done. simpl in Hr. rewrite Hobj, Hcont in Hr. simpl in Hr.
  apply exc_bind_Ok_inv in Hr as (kept & Hkept & Hr).
  apply exc_bind_Ok_inv in Hkept as (kept' & Hkept & Hk). rewrite Hmark in Hk.
  injection Hk as <-. injection Hr as <-. rewrite (decide_False (P := cr_summary cr = "")) in H by done.
  apply exc_bind_Ok_inv in H as (last' & Hlast & H). injection H as <- <-. split; [done|].
  set (retained0 := if decide (kept' = []) then _ else _) in Hlast.
  assert (retained0 `sublist_of` history) as Hsub.
  { unfold retained0. case_decide.
    - etrans; [apply objects_sublist|]. apply sublist_drop.
    - etrans; [by apply without_marker_sublist|]. destruct Hsuf as [k ->]; by apply sublist_inserts_l. }
  destruct is_auto; [|by injection Hlast as <-].
  etrans; [by apply drop_last_user_sublist|done].
Qed.

Lemma sum_content_tokens_u64 l : ∀ a n,
  sum_content_tokens (λ a b, mret (u64 (a + b))) l a = Ok n → 0 ≤ a < 2 ^ 64 → 0 ≤ n < 2 ^ 64.
Proof.
  induction l as [|m l IH]; intros a n H Ha; simpl in H; [by injection H as <-|].
  destruct (negb (is_object m)); [by eapply IH|].
  apply exc_bind_Ok_inv in H as (content & _ & H). eapply IH; [exact H|]. apply u64_range.
Qed.

Lemma objects_ok l : Forall (λ m, is_object m = true) l → objects l = l.
Proof.
  induction 1 as [|m l Hm _ IH]; [done|]. unfold objects in *.
  by rewrite filter_cons, decide_True, IH.
Qed.

Lemma objects_app l k : objects (l ++ k) = objects l ++ objects k.
Proof. apply filter_app. Qed.

Lemma objects_idem l : objects (objects l) = objects l.
Proof. apply objects_ok, Forall_forall. by intros m [? _]%list_elem_of_filter. Qed.

Lemma seed_messages_ok summary : Forall message_ok (seed_messages summary).
Proof.
  repeat constructor.
  - exists "user", "retrieve previous session summary". split_and!; [done|set_solver|done|done].
  - exists "assistant", "". split_and!; [done|set_solver|done|]. intros _.
    by eexists.
  - exists "tool", ("[PREVIOUS SESSION SUMMARY]" +:+ lf +:+ summary).
    split_and!; [done|set_solver|done|done].
Qed.

Lemma Forall_sublist {A} (P : A → Prop) l l' : l' `sublist_of` l → Forall P l → Forall P l'.
Proof.
  rewrite !Forall_forall. intros Hs HP x Hx. apply HP. by eapply elem_of_sublist.
Qed.

(** The result of [compact] and what it stores. *)
Lemma compact_result {St} `{!IStorageProvider St} compacter now id history is_auto (s : St) r s' :
  compact compacter now id history is_auto s = (Ok r, s') →
  ∃ before plan, sum_content_tokens add_int history 0 = Ok before ∧
    plan_compaction compacter history is_auto = Ok plan ∧
    match plan with
    | inl reason =>
        r = {| mc_session_id := id; mc_summary := ""; mc_compacted := false;
               mc_compact_reason := reason; mc_tokens_before := before;
               mc_tokens_after := before; mc_compacted_conversation := JObject [] |} ∧ s' = s
    | inr (compacted, summary, retained) =>
        ∃ seeded after, build_seeded_conversation id summary retained = Ok seeded ∧
          add_int (i32 (estimate_tokens summary)) (if is_auto then 60 else 50) = Ok after ∧
          r = {| mc_session_id := id; mc_summary := summary; mc_compacted := compacted;
                 mc_compact_reason := ""; mc_tokens_before := before; mc_tokens_after := after;
                 mc_compacted_conversation := seeded |} ∧
          (if decide (history = []) then mret tt else save_snapshot now id history) s = (Ok tt, s')
    end.
Proof.
  intros H. unfold compact in H.
  apply st_bind_Ok_inv in H as (before & ? & [Hbefore ->]%st_lift_Ok_inv & H).
  apply st_bind_Ok_inv in H as (plan & ? & [Hplan ->]%st_lift_Ok_inv & H).
  exists before, plan. split; [done|]. split; [done|].
  destruct plan as [reason|[[compacted summary] retained]].
  { unfold mret, ST_ret in H. by injection H as <- <-. }
  apply st_bind_Ok_inv in H as ([] & s1 & Hsave & H).
  apply st_bind_Ok_inv in H as (seeded & ? & [Hseed ->]%st_lift_Ok_inv & H).
  apply st_bind_Ok_inv in H as (after & ? & [Hafter ->]%st_lift_Ok_inv & H).
  unfold mret, ST_ret in H. injection H as <- <-. by exists seeded, after.
Qed.

Section guard_properties.
Context {St : Type} `{Hstore : ConversationStore St}.
Context (compacter : list json → exc CompactResult).
Hypothesis ok_storable : ∀ c, conversation_ok c → nameable (cv_convo_id c) → storable c.

(** What a compaction that was done hands over. *)
Lemma compact_inv now id history is_auto (s : St) r s' :
  compact compacter now id history is_auto s = (Ok r, s') → mc_compacted r = true →
  ∃ retained seeded, plan_compaction compacter history is_auto =
      Ok (inr (true, mc_summary r, retained)) ∧
    build_seeded_conversation id (mc_summary r) retained = Ok seeded ∧
    mc_compacted_conversation r = seeded.
Proof.
  intros (before & plan & _ & Hplan & H)%compact_result Hc.
  destruct plan as [reason|[[compacted summary] retained]]; [by destruct H as [-> _]|].
  destruct H as (seeded & after & Hseed & _ & -> & _). simpl in *. subst compacted.
  by exists retained, seeded.
Qed.

(** The conversation that a compaction makes of a well-formed one. *)
Lemma compacted_convo_spec c id r retained seeded cc :
  conversation_ok c → build_seeded_conversation id (mc_summary r) retained = Ok seeded →
  mc_compacted_conversation r = seeded → Forall message_ok retained →
  compacted_convo c r = Ok cc →
  conversation_ok cc ∧ cv_convo_id cc = cv_convo_id c ∧
  cv_messages cc = seed_messages (mc_summary r) ++ retained.
Proof.
  intros Hc Hseed Hr Hret H. unfold build_seeded_conversation in Hseed.
  apply exc_bind_Ok_inv in Hseed as (tokens & Htok & Hseed).
  apply exc_bind_Ok_inv in Hseed as (turns & Hturns & Hseed). injection Hseed as <-.
  apply sum_content_tokens_u64 in Htok; [|lia].
  unfold compacted_convo in H. rewrite Hr in H. simpl in H.
  unfold value_json, value_int, value_uint64, value in H. simpl in H.
  apply exc_bind_Ok_inv in H as (md & _ & H). apply exc_bind_Ok_inv in H as (md' & _ & H).
  injection H as <-. pose proof (seed_messages_ok (mc_summary r)) as Hseeds.
  assert (objects retained = retained) as Hobj.
  { apply objects_ok. eapply Forall_impl; [exact Hret|]. apply message_ok_object. }
  rewrite u64_id by done.
  assert (∀ a b d : json, objects (a :: b :: d :: retained) = objects [a; b; d] ++ retained) as Happ.
  { intros a b d. rewrite <-Hobj at 2. by rewrite <-objects_app. }
  destruct Hc as [[] Hst Hm Ho]. split; [|split; [done|]].
  - split; [| done| |done].
    + split; simpl; try done; [apply i32_range|]. rewrite Hobj.
      apply Forall_forall. by intros m [? _]%list_elem_of_filter.
    + simpl. rewrite Hobj, Happ. apply Forall_app. split; [|done].
      eapply Forall_sublist; [apply objects_sublist|exact Hseeds].
  - simpl. rewrite Hobj, Happ. done.
Qed.

Lemma save_snapshot_get now sid history (s : St) r s' id :
  nameable id → nameable sid → save_snapshot now sid history s = (r, s') →
  Storage.get_conversation id s' = Storage.get_conversation id s.
Proof.
  intros Hid Hsid. unfold save_snapshot, gets, mbind, ST_bind. case_decide; [by intros [= <- <-]|].
  destruct (append_snapshot _ _ s) as [[b s1]| |] eqn:E; intros [= <- <-]; [|done..].
  by eapply snapshot_get.
Qed.

Lemma compact_get now sid history is_auto (s : St) r s' id :
  nameable id → nameable sid → compact compacter now sid history is_auto s = (r, s') →
  Storage.get_conversation id s' = Storage.get_conversation id s.
Proof.
  intros Hid Hsid. unfold compact, lift, mbind, ST_bind.
  destruct (sum_content_tokens add_int history 0); [|by intros [= <- <-]..].
  destruct (plan_compaction compacter history is_auto) as [[reason|[[compacted summary] retained]]| |];
    [by intros [= <- <-]| |by intros [= <- <-]..].
  destruct (if decide (history = []) then _ else _) as [r1 s1] eqn:E.
  assert (Storage.get_conversation id s1 = Storage.get_conversation id s) as <-.
  { case_decide; [by injection E as <- <-|by eapply save_snapshot_get in E]. }
  destruct r1; [|by intros [= <- <-]..].
  destruct (build_seeded_conversation sid summary retained); [|by intros [= <- <-]..].
  destruct (add_int _ _); by intros [= <- <-].
Qed.

(** Whether the provider would take a conversation. *)
Definition persisted (c : Conversation) (io : SessionIO St) : bool :=
  match (persist_conversation c io).1 with Ok b => b | _ => false end.

(** Writing a compaction: the conversation is stored compacted, or is not stored; no other
    changes. *)
Lemma guard_write_spec id c r retained seeded io g io' :
  named id c → nameable id → Forall message_ok retained →
  build_seeded_conversation id (mc_summary r) retained = Ok seeded →
  mc_compacted_conversation r = seeded → mc_compacted r = true →
  guard_write id c r io = (Ok g, io') →
  ∃ cc, compacted_convo c r = Ok cc ∧ named id cc ∧
    cv_messages cc = seed_messages (mc_summary r) ++ retained ∧
    convo_cache_ io' !! id = None ∧
    Storage.get_conversation id (storage_ io') =
      (if persisted cc io then Ok (Some (conversation_json cc))
       else Storage.get_conversation id (storage_ io)) ∧
    ∀ id', nameable id' → id' ≠ id → lookup_convo id' io' = lookup_convo id' io.
Proof.
  intros Hnamed Hid Hret Hseed Hconv Hc H. unfold guard_write in H. rewrite Hc in H.
  assert (json_empty (mc_compacted_conversation r) = false) as He.
  { rewrite Hconv. unfold build_seeded_conversation in Hseed.
    apply exc_bind_Ok_inv in Hseed as (? & _ & Hseed).
    by apply exc_bind_Ok_inv in Hseed as (? & _ & [= <-]). }
  rewrite He in H. simpl in H.
  apply st_bind_Ok_inv in H as ([] & io1 & H & Hret'). unfold mret, ST_ret in Hret'.
  injection Hret' as _ <-.
  apply st_bind_Ok_inv in H as (cc & ? & [Hcc ->]%st_lift_Ok_inv & H).
  apply st_bind_Ok_inv in H as (b & io2 & Hp & H).
  pose proof Hnamed as [Hok Hcid].
  destruct (compacted_convo_spec c id r retained seeded cc) as (Hok' & Hcid' & Hm); [done..|].
  rewrite Hcid in Hcid'. assert (named id cc) as Hnamed' by done.
  exists cc. split_and!; try done.
  all: unfold invalidate_conversation_cache in H;
    rewrite decide_False in H by (intros ->; by apply (named_nonempty "" cc));
    injection H as <-.
  all: destruct (persist_spec cc io (Ok b) io2) as (Hcache & Hother & Hsame);
    [apply ok_storable; [done|by rewrite Hcid']|done|].
  - apply lookup_delete_eq.
  - unfold persisted. rewrite Hp. simpl. destruct b.
    + rewrite <-Hcid'. by apply Hsame.
    + apply Hother; [done|by left].
  - intros id' Hid' Hne. apply lookup_convo_ext; simpl.
    + by rewrite lookup_delete_ne, Hcache by done.
    + apply Hother; [done|]. right. by rewrite Hcid'.
Qed.

Lemma get_conversation_inv id (io : SessionIO St) c io1 :
  Conversations.get_conversation id io = (Ok c, io1) →
  lookup_convo id io = Ok c ∧ storage_ io1 = storage_ io ∧
  ∀ id', lookup_convo id' io1 = lookup_convo id' io.
Proof.
  intros H. apply st_bind_Ok_inv in H as (o & ? & [= Ho <-] & H). destruct o as [c0|].
  { unfold mret, ST_ret in H. injection H as <- <-. split_and!; [|done..].
    by apply lookup_convo_cached. }
  pose proof (cached_or_loaded_eq id io) as Heq. unfold cached_or_loaded, cached, gets, mbind,
    ST_bind in Heq. rewrite Ho in Heq.
  apply st_bind_Ok_inv in H as (c0 & io2 & Hl & H). rewrite Hl in Heq. injection Heq as Hc ->.
  apply st_bind_Ok_inv in H as ([] & io3 & Hput & H). unfold mret, ST_ret in H.
  injection H as <- <-. split; [done|].
  case_decide; [|by injection Hput as <-]. injection Hput as <-. split; [done|].
  intros id'. destruct (decide (id' = id)) as [->|].
  - rewrite <-Hc. apply lookup_convo_cached. simpl. by rewrite lookup_insert_eq.
  - apply lookup_convo_ext; [|done]. simpl. by rewrite lookup_insert_ne.
Qed.

(** The guard, where it compacts: what it read, planned and wrote. *)
Lemma compaction_steps now id c io r io1 g io2 :
  named id c → nameable id → compacts_well compacter (cv_messages c) →
  on_storage (compact compacter now id (objects (cv_messages c)) true) io = (Ok r, io1) →
  mc_compacted r = true → guard_write id c r io1 = (Ok g, io2) →
  ∃ retained cc, mc_summary r ≠ "" ∧ retained `sublist_of` cv_messages c ∧
    compacted_convo c r = Ok cc ∧ named id cc ∧
    cv_messages cc = seed_messages (mc_summary r) ++ retained ∧
    convo_cache_ io2 !! id = None ∧
    lookup_convo id io2 =
      (if persisted cc io1 then Ok cc
       else lookup_convo id (with_cache (delete id) io)) ∧
    ∀ id', nameable id' → id' ≠ id → lookup_convo id' io2 = lookup_convo id' io.
Proof.
  intros Hnamed Hid Hwell Hcompact Hc Hwrite. pose proof Hnamed as [Hok _].
  assert (objects (cv_messages c) = cv_messages c) as Hobj by (apply objects_ok, Hok).
  rewrite Hobj in Hcompact. unfold on_storage in Hcompact.
  destruct (compact compacter now id (cv_messages c) true (storage_ io)) as [r1 s1] eqn:E.
  injection Hcompact as -> <-.
  assert (∀ id', nameable id' →
    Storage.get_conversation id' s1 = Storage.get_conversation id' (storage_ io))
    as Hget by (intros; eapply compact_get; [done|exact Hid|exact E]).
  apply compact_inv in E as (retained & seeded & Hplan & Hseed & Hconv); [|done].
  apply plan_retained in Hplan as [Hne Hsub]; [|done].
  assert (Forall message_ok retained) as Hret by (eapply Forall_sublist; [done|apply Hok]).
  apply (guard_write_spec id c r retained seeded) in Hwrite
    as (cc & Hcc & Hnamed' & Hm & Hcache & Hst & Hother); [|done..].
  exists retained, cc. split_and!; [done..|exact Hcache| |].
  - destruct (persisted cc _) eqn:Hp.
    + apply lookup_convo_stored; [done|done|apply Hnamed'].
    + apply lookup_convo_ext; simpl; [by rewrite Hcache, lookup_delete_eq|]. rewrite Hst. by apply Hget.
  - intros id' Hid' Hne'. rewrite Hother by done. apply lookup_convo_ext; [done|by apply Hget].
Qed.

(** C27 A compaction replaces a conversation by a synthetic exchange that carries a summary,
    which is not empty, followed by turns of the conversation, in their order; the result is
    well-formed, and keeps its owner, its state and its count of all tokens.  Where the storage
    accepts it, it is what the storage has and what is read from then on.  Where the storage
    refuses it the guard says "compacted" all the same, and what is read from then on is what
    the storage held before, since the cache forgets the conversation in either case.  No other
    conversation changes.  The storage keeps the promises of the interface, the conversations
    that are cached are well-formed, the id is one that the storage can name, and the compacter
    answers a summary that is not empty and the last turns of what it is given. *)
Theorem compaction_spec now id usage threshold io g io' :
  io_ok io → nameable id →
  (∀ c, lookup_convo id io = Ok c → compacts_well compacter (cv_messages c)) →
  run_auto_compact_guard compacter now id usage threshold io = (Ok g, io') →
  ag_compacted g = true →
  ∃ c r s retained cc, lookup_convo id io = Ok c ∧
    compact compacter now id (objects (cv_messages c)) true (storage_ io) = (Ok r, s) ∧
    mc_summary r ≠ "" ∧ retained `sublist_of` cv_messages c ∧
    named id cc ∧ cv_messages cc = seed_messages (mc_summary r) ++ retained ∧
    cv_creator_pid cc = cv_creator_pid c ∧ cv_user_id cc = cv_user_id c ∧
    cv_state cc = cv_state c ∧ cv_total_tokens_used cc = cv_total_tokens_used c ∧
    convo_cache_ io' !! id = None ∧
    match upsert_conversation (conversation_json cc) s with
    | Ok (true, _) => lookup_convo id io' = Ok cc
    | _ => lookup_convo id io' = lookup_convo id (with_cache (delete id) io)
    end ∧
    ∀ id', nameable id' → id' ≠ id → lookup_convo id' io' = lookup_convo id' io.
Proof.
  intros Hio Hid Hwell H Hg. unfold run_auto_compact_guard in H.
  case_decide as Hne; [injection H as <- <-; done|].
  case_decide; [injection H as <- <-; done|].
  destruct (below_threshold usage threshold); [injection H as <- <-; done|].
  apply st_bind_Ok_inv in H as (c & io1 & Hget & H).
  apply st_bind_Ok_inv in H as (r & io2 & Hcompact & Hwrite).
  assert (mc_compacted r = true) as Hc.
  { unfold guard_write in Hwrite. apply st_bind_Ok_inv in Hwrite as ([] & io3 & _ & Hret).
    unfold mret, ST_ret in Hret. injection Hret as <- _. done. }
  apply get_conversation_inv in Hget as (Hl & Hst & Hsame).
  destruct (lookup_convo_found id io c Hio Hid Hl) as [->|Hnamed].
  { exfalso. unfold on_storage in Hcompact.
    destruct (compact compacter now id _ true (storage_ io1)) as [r1 s1] eqn:E.
    injection Hcompact as -> <-. apply compact_inv in E as (retained & seeded & Hplan & _); [|done].
    simpl in Hplan. unfold plan_compaction in Hplan. rewrite decide_True in Hplan by done.
    simpl in Hplan. done. }
  destruct (compaction_steps now id c io1 r io2 g io')
    as (retained & cc & Hs & Hsub & Hcc & Hnamed' & Hm & Hcache & Hlook & Hother); [by auto..|].
  assert (compact compacter now id (objects (cv_messages c)) true (storage_ io) =
    (Ok r, storage_ io2)) as Hrun.
  { unfold on_storage in Hcompact. rewrite Hst in Hcompact.
    destruct (compact _ _ _ _ _ _) as [r1 s1]. by injection Hcompact as -> <-. }
  exists c, r, (storage_ io2), retained, cc.
  assert (cv_creator_pid cc = cv_creator_pid c ∧ cv_user_id cc = cv_user_id c ∧
    cv_state cc = cv_state c ∧ cv_total_tokens_used cc = cv_total_tokens_used c) as (?&?&?&?).
  { unfold compacted_convo in Hcc. exc_run Hcc; done. }
  split_and!; try done.
  - assert (persisted cc io2 =
      match upsert_conversation (conversation_json cc) (storage_ io2) with
      | Ok (true, _) => true | _ => false end) as Hpers.
    { unfold persisted, persist_conversation, st_catch, provider_call.
      by destruct (upsert_conversation _ _) as [[[] ?]| |]. }
    assert (lookup_convo id (with_cache (delete id) io1) =
      lookup_convo id (with_cache (delete id) io)) as <-.
    { apply lookup_convo_ext; simpl; [by rewrite !lookup_delete_eq|by rewrite Hst]. }
    rewrite Hpers in Hlook. by destruct (upsert_conversation _ _) as [[[] ?]| |].
  - intros id' Hid' Hne'. by rewrite Hother, Hsame.
Qed.

(** A message that arrives while the summary is being written is lost: the guard writes the
    conversation that it read before, so that a turn that was appended - and persisted - in
    between is in no message of the conversation that remains, unless it equals one. *)
Lemma compaction_loses_messages now now' id c io io1 role content tokens extra io2 r io3 g io4 :
  io_ok io → nameable id → is_long now' →
  Conversations.get_conversation id io = (Ok c, io1) → compacts_well compacter (cv_messages c) →
  append_message now' id role content tokens extra io1 = (Ok true, io2) →
  on_storage (compact compacter now id (objects (cv_messages c)) true) io2 = (Ok r, io3) →
  mc_compacted r = true → guard_write id c r io3 = (Ok g, io4) →
  (∀ cc, compacted_convo c r = Ok cc → persisted cc io3 = true) →
  let added := new_message now' (canonicalize_role role) content extra in
  ∃ c2 c4, lookup_convo id io2 = Ok c2 ∧ cv_messages c2 = cv_messages c ++ [added] ∧
    lookup_convo id io4 = Ok c4 ∧
    ∀ m, m ∈ cv_messages c4 → m ∈ seed_messages (mc_summary r) ∨ m ∈ cv_messages c.
Proof.
  intros Hio Hid Hnow Hget Hwell Happ Hcompact Hc Hwrite Hpersist added.
  assert (io_ok io1) as Hio1.
  { destruct (keeps_get_conversation id Hid io Hio) as [Hio1 _]. by rewrite Hget in Hio1. }
  apply get_conversation_inv in Hget as (Hl & _ & Hsame). rewrite <-Hsame in Hl.
  apply append_and_persist_spec in Happ as [_ Happ]; [|done..].
  destruct Happ as (c0 & Hl0 & Hnamed & _ & Hcache & _); [done|].
  rewrite Hl in Hl0. injection Hl0 as <-.
  destruct (compaction_steps now id c io2 r io3 g io4)
    as (retained & cc & _ & Hsub & Hcc & _ & Hm & _ & Hlook & _); [done..|].
  rewrite (Hpersist cc Hcc) in Hlook. eexists _, cc.
  split; [by apply lookup_convo_cached|]. split; [done|]. split; [done|].
  rewrite Hm. intros m [Hin|Hin]%elem_of_app; [by left|right]. by eapply elem_of_sublist.
Qed.
End guard_properties.

(** ** What compaction breaks *)

(** The ids of the calls that a message makes. *)
Definition call_ids (m : json) : list json :=
  match find m "tool_calls" with
  | Some (JArray calls) => omap (λ call, find call "id") calls
  | _ => []
  end.

Lemma drop_last_user_head t l l' :
  value_string t "role" "" = Ok "tool" → drop_last_user (t :: l) = Ok l' →
  ∃ rest, l' = t :: rest.
Proof.
  intros Ht. unfold drop_last_user. destruct (last (t :: l)) as [m|] eqn:E; [|by apply last_None in E].
  destruct (is_object m); [|intros [= <-]; by eexists].
  intros (role & Hr & H)%exc_bind_Ok_inv. injection H as <-. case_decide as Hu; [|by eexists].
  subst. destruct l as [|z l]; [injection E as ->; congruence|]. by eexists.
Qed.

(** A compaction may leave the answer of a tool without its call: when the recent turns
    begin with such an answer, it follows the synthetic exchange, and no message before it
    makes the call that it names - a request that providers reject. *)
Lemma compaction_orphans_tool_result compacter history sm t recent cr id summary retained seeded x content :
  compacter history = Ok cr → cr_compacted cr = true → cr_summary cr ≠ "" →
  cr_history cr = sm :: t :: recent → marked sm →
  is_object t = true → value_string t "role" "" = Ok "tool" →
  value_string t "content" "" = Ok content → contains_str content compaction_marker = false →
  find t "tool_call_id" = Some (JString x) → x ≠ "tc_summary_001" →
  plan_compaction compacter history true = Ok (inr (true, summary, retained)) →
  build_seeded_conversation id summary retained = Ok seeded →
  ∃ l, find seeded "messages" = Some (JArray l) ∧ l !! 3%nat = Some t ∧
    ∀ m, m ∈ take 3 l → JString x ∉ call_ids m.
Proof.
  intros Hcr Hc Hs Hh (Hobj & mark & Hmark & Hcontains) Hto Hrole Hcont Hno Hid Hx Hplan Hseed.
  unfold plan_compaction in Hplan. apply exc_bind_Ok_inv in Hplan as (r & Hr & Hplan).
  case_decide; [injection Hr as <-; by apply exc_bind_Ok_inv in Hplan as (? & _ & Hplan)|].
  rewrite Hcr in Hr. simpl in Hr. rewrite Hc, Hh in Hr. simpl in Hr.
  rewrite (decide_False (P := cr_summary cr = "")) in Hr by done.
  rewrite Hobj, Hmark in Hr. simpl in Hr. rewrite Hto, Hcont in Hr. simpl in Hr.
  apply exc_bind_Ok_inv in Hr as (kept & Hkept & Hr). injection Hr as <-.
  apply exc_bind_Ok_inv in Hkept as (k1 & Hk1 & Hkept). rewrite Hcontains in Hkept.
  injection Hkept as <-. apply exc_bind_Ok_inv in Hk1 as (k2 & _ & Hk1). rewrite Hno in Hk1.
  injection Hk1 as <-. rewrite (decide_False (P := t :: k2 = [])) in Hplan by done.
  apply exc_bind_Ok_inv in Hplan as (retained' & Hdrop & Hplan). injection Hplan as _ <-.
  apply drop_last_user_head in Hdrop as [rest ->]; [|done].
  unfold build_seeded_conversation in Hseed.
  apply exc_bind_Ok_inv in Hseed as (tokens & _ & Hseed).
  apply exc_bind_Ok_inv in Hseed as (turns & _ & Hseed). injection Hseed as <-.
  eexists. split; [done|].
  assert (objects (t :: rest) = t :: objects rest) as ->
    by (unfold objects; by rewrite filter_cons, decide_True).
  split; [done|]. intros m Hm. simpl in Hm.
  repeat (apply elem_of_cons in Hm as [->|Hm]); [..|by apply not_elem_of_nil in Hm];
    unfold call_ids; simpl; try apply not_elem_of_nil.
  rewrite list_elem_of_singleton. congruence.
Qed.

(** Whether the snapshot of the history was saved makes no difference: where the storage
    refuses it, the compaction goes on with the same result, and the history is then nowhere. *)
Lemma unsaved_snapshot_ignored {St} `{!IStorageProvider St} compacter now id history is_auto
    (s : St) r s' :
  (∀ snapshot, append_snapshot id snapshot s = Ok (false, s)) →
  compact compacter now id history is_auto s = (Ok r, s') →
  s' = s ∧ ∀ (s2 : St) r2 s2', compact compacter now id history is_auto s2 = (Ok r2, s2') → r2 = r.
Proof.
  intros Hfail (before & plan & Hb & Hp & H)%compact_result. split.
  - destruct plan as [reason|[[compacted summary] retained]]; [by destruct H as [_ ->]|].
    destruct H as (seeded & after & _ & _ & _ & Hsave).
    case_decide; [by injection Hsave as <-|]. unfold save_snapshot, gets, mbind, ST_bind in Hsave.
    case_decide; [done|]. rewrite Hfail in Hsave. by injection Hsave as <-.
  - intros s2 r2 s2' (before2 & plan2 & Hb2 & Hp2 & H2)%compact_result.
    assert (before2 = before) as -> by congruence. assert (plan2 = plan) as -> by congruence.
    destruct plan as [reason|[[compacted summary] retained]];
      [by destruct H as [-> _], H2 as [-> _]|].
    destruct H as (seeded & after & Hs & Ha & -> & _).
    destruct H2 as (seeded2 & after2 & Hs2 & Ha2 & -> & _).
    assert (seeded2 = seeded) as -> by congruence. assert (after2 = after) as -> by congruence.
    done.
Qed.
