(* ===== verification/SessionControl.v ===== *)
(** * Session control (src/llm/scheduler.cpp)

    The actions that a client asks of the sessions: [handle_session_control] over the session
    manager, [SessionIO] and the compacter, which share one storage provider.  The reply is a
    value; sending it is left out. *)

From S2P Require Import Prelude Json StringUtils LlmRequest Adapters Sessions Storage Prompt Conversations Histories SessionManager Compaction.

Section control.
Context {St : Type} `{!IStorageProvider St}.
Context (compacter : list json → exc CompactResult) (dump : json → exc string).
(** The marked sessions, the clock, and the context length of the model. *)
Context (needing : gset string) (now max_ctx : Z).

Abbreviation M := (ST (SessionIO St)).

(** [reply["session"]] with its aliases. *)
Definition describe (session_id : string) : M (list (string * json)) :=
  session ← on_storage (get_session_object needing session_id max_ctx);
  sid ← lift (value_string session "session_id" "");
  title ← lift (value_string session "title" "");
  mret [("session", session); ("session_id", JString sid); ("title", JString title)].

Definition require (ok : bool) (error : string) : M () :=
  if ok then mret tt else lift (Throw error).

Definition nonempty (s : string) : bool := bool_decide (s ≠ "").

(** The session, or the active session of the user. *)
Definition resolved_target (target : SessionTarget) : M string :=
  if nonempty (tg_session_id target) then mret (tg_session_id target)
  else on_storage (get_or_create_active_session (tg_super_user target)).

Definition compact_action (target : SessionTarget) : M (list (string * json)) :=
  sid ← resolved_target target;
  convo ← Conversations.get_conversation sid;
  r ← on_storage (compact compacter now sid (objects (cv_messages convo)) false);
  (if mc_compacted r then
     (if json_empty (mc_compacted_conversation r) then mret tt
      else provider_call (upsert_conversation (mc_compacted_conversation r));; mret tt);;
     invalidate_conversation_cache sid
   else mret tt);;
  fields ← describe sid;
  mret (fields ++ [("summary", JString (mc_summary r));
                   ("tokens_before", JInt (mc_tokens_before r));
                   ("tokens_after", JInt (mc_tokens_after r));
                   ("session_compacted", JBool (mc_compacted r));
                   ("compact_reason", JString (mc_compact_reason r))]).

Definition recounted (kept : list json) (turns toks : Z) (c : Conversation) : Conversation :=
  {| cv_convo_id := cv_convo_id c; cv_user_id := cv_user_id c;
     cv_creator_pid := cv_creator_pid c; cv_state := cv_state c;
     cv_created_at_ms := cv_created_at_ms c; cv_last_activity_ms := now;
     cv_turn_count := turns; cv_current_context_tokens := toks;
     cv_total_tokens_used := cv_total_tokens_used c; cv_messages := kept;
     cv_metadata := cv_metadata c |}.

Definition undo_action (target : SessionTarget) : M (list (string * json)) :=
  sid ← resolved_target target;
  convo ← Conversations.get_conversation sid;
  '(kept, removed, counts) ← lift (undo dump (cv_messages convo));
  match counts with
  | Some (turns, toks) =>
      persist_conversation (recounted kept turns toks convo);;
      invalidate_conversation_cache sid
  | None => mret tt
  end;;
  fields ← describe sid;
  mret (fields ++ [("turns_removed", JInt removed);
                   ("turns_remaining", JInt (Z.of_nat (length kept)))]).

Fixpoint session_objects (infos : list SessionInfo) : exc (list json) :=
  match infos with
  | [] => mret []
  | info :: infos =>
      session ← build_session_object info max_ctx;
      sessions ← session_objects infos;
      mret (session :: sessions)
  end.

(** One user of [list_super_users]. *)
Definition user_summary (info : SuperUserInfo) : json :=
  JObject [("super_user", JString (su_super_user info));
           ("session_count", JInt (Z.of_nat (length (su_sessions info))));
           ("sessions", JArray ((λ si, JObject [
              ("session_id", JString (si_session_id si)); ("title", JString (si_title si));
              ("turn_count", JInt (ls_turn_count (si_live_stats si)))]) <$> su_sessions info))].

Fixpoint user_summaries (users : list string) : ST St (list json) :=
  match users with
  | [] => mret []
  | user :: users =>
      info ← get_super_user_info needing user;
      summaries ← user_summaries users;
      mret (user_summary info :: summaries)
  end.

Definition session_action (envelope : json) (action user_id title : string) :
    M (list (string * json)) :=
  let target := resolve_target user_id in
  let super_user := tg_super_user target in
  let session_id := tg_session_id target in
  if decide (action = "get_or_create") then
    require (nonempty super_user) "'get_or_create' requires user_id";;
    sid ← on_storage (get_or_create_active_session super_user);
    describe sid
  else if decide (action = "new") then
    require (nonempty super_user) "'new' requires user_id";;
    sid ← on_storage (new_session super_user title);
    describe sid
  else if decide (action = "create_super_user") then
    let name := or_default (string_or_empty envelope "super_user") user_id in
    on_storage (create_super_user name);;
    mret [("super_user", JString name)]
  else if decide (action = "set_title") then
    require (nonempty session_id) "'set_title' requires a full session_id (e.g. vivek_s2)";;
    on_storage (set_session_title session_id title);;
    describe session_id
  else if decide (action = "delete") then
    require (nonempty session_id) "'delete' requires a full session_id (e.g. vivek_s2)";;
    deleted ← on_storage (delete_session session_id);
    Conversations.delete_conversation session_id (-1);;
    invalidate_conversation_cache session_id;;
    mret [("deleted", JBool deleted); ("session_id", JString session_id);
          ("super_user", JString super_user)]
  else if decide (action = "destroy_user") then
    require (nonempty super_user) "'destroy_user' requires user_id";;
    sessions ← on_storage (list_sessions super_user);
    st_iter invalidate_conversation_cache sessions;;
    deleted ← on_storage (delete_super_user super_user);
    mret [("destroyed", JBool deleted); ("super_user", JString super_user)]
  else if decide (action = "compact") then compact_action target
  else if decide (action = "undo") then undo_action target
  else if decide (action = "list") then
    require (nonempty super_user) "'list' requires user_id";;
    info ← on_storage (get_super_user_info needing super_user);
    sessions ← lift (session_objects (su_sessions info));
    mret [("super_user", JString super_user); ("sessions", JArray sessions)]
  else if decide (action = "list_super_users") then
    users ← on_storage (gets list_super_users);
    summaries ← on_storage (user_summaries users);
    mret [("super_users", JArray summaries)]
  else lift (Throw ("Unknown SESSION_CONTROL action: '" +:+ action +:+ "'")).

Definition handle_session_control (envelope : json) : M json :=
  action ← lift (value_string envelope "action" "");
  user_id ← lift (value_string envelope "user_id" "");
  title ← lift (value_string envelope "title" "");
  let reply := [("message_type", JString "SESSION_RESPONSE"); ("action", JString action)] in
  st_catch (fields ← session_action envelope action user_id title;
            mret (JObject (reply ++ fields)))
           (λ what, mret (JObject (reply ++ [("error", JString what)]))).
End control.

(** ** Properties *)

(** Every request for an action is answered: with the fields of the action, or with the text
    of the exception that ended it - whatever the storage, the model and the request do, short
    of undefined behaviour; an action that does not exist is refused without any effect. *)
Lemma session_control_replies {St} `{!IStorageProvider St} compacter dump needing now max_ctx
    envelope action user_id title (io : SessionIO St) :
  value_string envelope "action" "" = Ok action →
  value_string envelope "user_id" "" = Ok user_id →
  value_string envelope "title" "" = Ok title →
  let '(r, io') := handle_session_control compacter dump needing now max_ctx envelope io in
  (r = UB ∨ ∃ fields, r = Ok (JObject (
     [("message_type", JString "SESSION_RESPONSE"); ("action", JString action)] ++ fields)) ∧
     ((∃ what, fields = [("error", JString what)]) ∨
      (session_action compacter dump needing now max_ctx envelope action user_id title io).1 =
        Ok fields)) ∧
  (action ∉ ["get_or_create"; "new"; "create_super_user"; "set_title"; "delete"; "destroy_user";
             "compact"; "undo"; "list"; "list_super_users"] →
   io' = io ∧ r = Ok (JObject [
     ("message_type", JString "SESSION_RESPONSE"); ("action", JString action);
     ("error", JString ("Unknown SESSION_CONTROL action: '" +:+ action +:+ "'"))])).
Proof.
  intros Ha Hu Ht. unfold handle_session_control, lift, mbind, ST_bind. rewrite Ha, Hu, Ht.
  unfold st_catch.
  destruct (session_action compacter dump needing now max_ctx envelope action user_id title io)
    as [[fields|what|] io'] eqn:E; simpl.
  - split; [right; by eauto|]. intros Hn. exfalso. unfold session_action in E.
    repeat (rewrite decide_False in E by set_solver). done.
  - split; [right; eauto|]. intros Hn. unfold session_action in E.
    repeat (rewrite decide_False in E by set_solver). by injection E as <- <-.
  - split; [by left|]. intros Hn. exfalso. unfold session_action in E.
    repeat (rewrite decide_False in E by set_solver). done.
Qed.

(** What is left of a conversation that is compacted by hand. *)
Definition forgotten (id : string) (turns tokens : Z) (messages : list json) : Conversation := {|
  cv_convo_id := id; cv_user_id := ""; cv_creator_pid := -1; cv_state := "ACTIVE";
  cv_created_at_ms := 0; cv_last_activity_ms := 0; cv_turn_count := turns;
  cv_current_context_tokens := tokens; cv_total_tokens_used := 0; cv_messages := messages;
  cv_metadata := JObject [] |}.

Lemma on_storage_query {St A} (m : ST St A) (io : SessionIO St) :
  (m (storage_ io)).2 = storage_ io → (on_storage m io).2 = io.
Proof.
  unfold on_storage. destruct (m (storage_ io)) as [r s]. simpl. intros ->. by destruct io.
Qed.

Lemma get_session_info_state {St} `{!IStorageProvider St} needing sid (s : St) :
  (get_session_info needing sid s).2 = s.
Proof.
  unfold get_session_info, load_index, gets, query, lift, mbind, ST_bind.
  repeat (case_match; simplify_eq/=; try done).
Qed.

Lemma describe_state {St} `{!IStorageProvider St} needing max_ctx sid (io : SessionIO St) :
  (describe needing max_ctx sid io).2 = io.
Proof.
  unfold describe, mbind, ST_bind.
  pose proof (on_storage_query (get_session_object needing sid max_ctx) io) as H.
  destruct (on_storage _ io) as [[session| |] io']; simpl in *.
  2-3: apply H; unfold get_session_object, mbind, ST_bind;
    pose proof (get_session_info_state needing sid (storage_ io));
    by destruct (get_session_info needing sid (storage_ io)) as [[]].
  assert (io' = io) as ->.
  { apply H. unfold get_session_object, mbind, ST_bind.
    pose proof (get_session_info_state needing sid (storage_ io)).
    by destruct (get_session_info needing sid (storage_ io)) as [[]]. }
  unfold lift. destruct (value_string session "session_id" ""); [|done..].
  by destruct (value_string session "title" "").
Qed.

Section sqlite.
Context (parse : string → exc json) (dump : json → exc string).
Context (completes : string → Sqlite → bool).
Hypothesis parse_defined : ∀ text, parse text ≠ UB.

#[local] Instance sqlite_provider : IStorageProvider Sqlite :=
  SqliteStorageProvider parse dump completes.

(** Storing the seeded conversation is storing a conversation without the rest. *)
Lemma upsert_seeded id summary retained seeded (db : Sqlite) :
  build_seeded_conversation id summary retained = Ok seeded →
  ∃ turns tokens,
    upsert_conversation seeded db =
    upsert_conversation (conversation_json
      (forgotten id turns tokens (seed_messages summary ++ objects retained))) db ∧
    (- 2 ^ 31 ≤ turns ≤ INT_MAX) ∧ 0 ≤ tokens < 2 ^ 64.
Proof.
  intros H. unfold build_seeded_conversation in H.
  apply exc_bind_Ok_inv in H as (tokens & Htok & H). apply sum_content_tokens_u64 in Htok; [|lia].
  apply exc_bind_Ok_inv in H as (turns & _ & H). injection H as <-.
  exists (i32 turns), tokens. split; [|split; [apply i32_range|done]].
  unfold upsert_conversation. simpl. unfold sqlite_upsert_conversation.
  unfold value_string, value_int, value_long, value_uint64, value_json, value. simpl.
  by rewrite (i32_id (i32 turns)) by apply i32_range.
Qed.

(** Compacting a session by hand forgets whose it is: what is stored is only the messages,
    the turns and the tokens, so that the conversation that is read from then on has no user -
    its persona and facts are no longer loaded -, no time of creation, no metadata, and a total
    of no tokens, whatever it had before. *)
Lemma manual_compact_forgets compacter sid needing now max_ctx c io r io1 db messages fields io2 :
  c_str sid = sid → sid ≠ "" → (∀ sql db, completes sql db = true) →
  Conversations.get_conversation sid io = (Ok c, io1) →
  compact compacter now sid (objects (cv_messages c)) false (storage_ io1) = (Ok r, db) →
  mc_compacted r = true →
  find (mc_compacted_conversation r) "messages" = Some (JArray messages) →
  column_roundtrip parse dump (JArray messages) → column_roundtrip parse dump (JObject []) →
  compact_action compacter needing now max_ctx
    {| tg_is_session_id := true; tg_super_user := extract_super_user sid; tg_session_id := sid |} io
    = (Ok fields, io2) →
  ∃ turns tokens, lookup_convo sid io2 = Ok (forgotten sid turns tokens messages).
Proof.
  intros Hnul Hne Hok Hget Hcompact Hc Hm Hcol Hcol0 H. unfold compact_action in H.
  assert (nonempty sid = true) as Hn by by apply bool_decide_eq_true.
  apply st_bind_Ok_inv in H as (sid' & ? & Hs & H). unfold resolved_target in Hs. simpl in Hs.
  rewrite Hn in Hs. unfold mret, ST_ret in Hs. injection Hs as <- <-.
  apply st_bind_Ok_inv in H as (c' & io1' & Hget' & H). rewrite Hget in Hget'.
  injection Hget' as <- <-.
  apply st_bind_Ok_inv in H as (r' & io3 & Hc' & H). unfold on_storage in Hc'.
  rewrite Hcompact in Hc'. injection Hc' as <- <-. rewrite Hc in H.
  apply st_bind_Ok_inv in H as ([] & io4 & Hw & H).
  apply st_bind_Ok_inv in H as (fs & io5 & Hd & H). unfold mret, ST_ret in H.
  injection H as _ <-. pose proof (describe_state needing max_ctx sid io4) as Hd'.
  rewrite Hd in Hd'. simpl in Hd'. subst io5.
  apply compact_inv in Hcompact as (retained & seeded & _ & Hseed & Hconv); [|done].
  rewrite Hconv in Hm, Hw.
  destruct (upsert_seeded sid (mc_summary r) retained seeded db Hseed)
    as (turns & tokens & Hup & Hturns & Htokens). exists turns, tokens.
  assert (messages = seed_messages (mc_summary r) ++ objects retained) as Hms.
  { unfold build_seeded_conversation in Hseed.
    apply exc_bind_Ok_inv in Hseed as (? & _ & Hseed).
    apply exc_bind_Ok_inv in Hseed as (? & _ & Hseed). injection Hseed as <-.
    by injection Hm as <-. }
  rewrite <-Hms in Hup.
  assert (sqlite_storable parse dump (forgotten sid turns tokens messages)) as Hst.
  { split_and!; try done. split; simpl; try done; unfold INT_MAX in *; try lia.
    rewrite Hms. apply Forall_app. split; [by repeat constructor|].
    apply Forall_forall. by intros m [? _]%list_elem_of_filter. }
  assert (json_empty seeded = false) as He by by destruct seeded as [| | | | | |[|]].
  rewrite He in Hw.
  apply st_bind_Ok_inv in Hw as ([] & io5 & Hw & Hinv).
  apply st_bind_Ok_inv in Hw as (b & io6 & Hw & Hr). unfold mret, ST_ret in Hr. injection Hr as <-.
  unfold provider_call in Hw. simpl in Hw, Hup. rewrite Hup in Hw.
  destruct (sqlite_upsert_spec parse dump completes (forgotten sid turns tokens messages) db Hst)
    as (row & Hrow & Hjson). unfold upsert_conversation in Hrow. simpl in Hrow.
  rewrite Hrow in Hw. unfold execute in Hw. rewrite Hok in Hw. injection Hw as <- <-.
  unfold invalidate_conversation_cache in Hinv. rewrite decide_False in Hinv by done.
  injection Hinv as <-. apply lookup_convo_stored; [apply lookup_delete_eq| |apply Hst].
  unfold Storage.get_conversation. simpl. unfold sqlite_get_conversation. rewrite Hnul. simpl.
  cbn [cv_convo_id forgotten] in Hjson. by rewrite lookup_insert_eq, Hjson.
Qed.
End sqlite.
