(* ===== verification/Tools.v ===== *)
(** * The registry of the tools (src/llm/tools/registry.hpp)

    The manifests of the directory of tools, one subdirectory each, and the schemas that are
    made of them.  The subdirectories are a list, in the order of [directory_iterator], each
    with the text of its manifest where it has one. *)

From S2P Require Import Prelude Json StringUtils Sessions Storage LlmRequest.

Record ToolManifest := {
  tm_name : string;
  tm_type : string;
  tm_description : string;
  tm_runtime : string;
  tm_workdir : string;
  tm_command : string;
  tm_command_args : list string;
  tm_parameters : json;
}.

Definition get_string_or (obj : json) (key fallback : string) : string :=
  match find obj key with Some (JString s) => s | _ => fallback end.

Definition manifest_of (dir_name : string) (manifest_json : json) : ToolManifest :=
  let run := match find manifest_json "run" with Some (JObject r) => JObject r | _ => JObject [] end in
  {| tm_name := get_string_or manifest_json "name" dir_name;
     tm_type := get_string_or manifest_json "type" "tool";
     tm_description := get_string_or manifest_json "description" "";
     tm_runtime := get_string_or manifest_json "runtime" "";
     tm_workdir := get_string_or manifest_json "workdir" "";
     tm_command := get_string_or run "command" "";
     tm_command_args := match find run "args" with Some (JArray l) => json_strings l | _ => [] end;
     tm_parameters := match find manifest_json "parameters" with
                      | Some (JObject p) => JObject p
                      | _ => JObject []
                      end |}.

Record ToolRegistry := {
  manifests_ : gmap string ToolManifest;
  cached_schemas_ : list json;
}.

Definition tool_schema (name : string) (manifest : ToolManifest) : json :=
  JObject [("type", JString "function");
           ("function", JObject [("name", JString name);
                                 ("description", JString (tm_description manifest));
                                 ("parameters", tm_parameters manifest)])].

(** In the order of the names. *)
Definition recompute_cached_schemas (manifests : gmap string ToolManifest) : list json :=
  omap (λ name, tool_schema name <$> manifests !! name)
    (order_by_text (map_to_list manifests).*1).

Section load.
Context (parse_file : string → exc json).

(** A subdirectory without a manifest, or whose manifest is not JSON, is passed over. *)
Definition load_manifest (manifests : gmap string ToolManifest) (entry : string * option string) :
    gmap string ToolManifest :=
  match entry.2 with
  | None => manifests
  | Some text =>
      match parse_file text with
      | Ok j => let m := manifest_of entry.1 j in <[tm_name m := m]> manifests
      | _ => manifests
      end
  end.

(** [reload] is the same: nothing of what was loaded before stays. *)
Definition load_from_tools_directory (entries : list (string * option string)) : ToolRegistry :=
  let manifests := foldl load_manifest ∅ entries in
  {| manifests_ := manifests; cached_schemas_ := recompute_cached_schemas manifests |}.

(** ** Properties *)

Definition schema_name (schema : json) : option string :=
  match find schema "function" with
  | Some fn => match find fn "name" with Some (JString s) => Some s | _ => None end
  | None => None
  end.

(** The tools that the directory offers: the manifests that are there and are JSON. *)
Definition offered (entries : list (string * option string)) : list ToolManifest :=
  omap (λ '(dir, text), text ≫= λ text,
    match parse_file text with Ok j => Some (manifest_of dir j) | _ => None end) entries.

Lemma load_lookup entries : ∀ m name,
  foldl load_manifest m entries !! name =
    match last (filter (λ t, tm_name t = name) (offered entries)) with
    | Some t => Some t
    | None => m !! name
    end.
Proof.
  induction entries as [|[dir text] entries IH] using rev_ind; intros m name; [done|].
  rewrite foldl_app. cbn [foldl]. unfold offered. rewrite omap_app. fold (offered entries).
  rewrite filter_app. unfold load_manifest at 1. cbn [fst snd].
  destruct text as [text|]; cbn [omap list_omap]; simpl.
  2: by rewrite app_nil_r, IH.
  destruct (parse_file text) as [j| |]; simpl; [|by rewrite app_nil_r, IH..].
  rewrite filter_cons, filter_nil. destruct (decide (tm_name (manifest_of dir j) = name)) as [<-|Hne].
  - by rewrite lookup_insert_eq, last_snoc.
  - by rewrite lookup_insert_ne, app_nil_r, IH.
Qed.

(** Every tool that the directory offers is in the schemas exactly once and under its name -
    the last one read, where two have the same name -, nothing else is, and the schemas are in
    the order of the names. *)
Lemma tool_schemas_spec entries :
  let schemas := cached_schemas_ (load_from_tools_directory entries) in
  let names := order_by_text (map_to_list (manifests_ (load_from_tools_directory entries))).*1 in
  schema_name <$> schemas = Some <$> names ∧ NoDup names ∧
  (∀ name, name ∈ names ↔ name ∈ tm_name <$> offered entries) ∧
  ∀ name schema, schema ∈ schemas → schema_name schema = Some name →
    ∃ t, last (filter (λ t, tm_name t = name) (offered entries)) = Some t ∧
      schema = tool_schema name t.
Proof.
  intros schemas names.
  assert (∀ name, name ∈ names ↔ is_Some (manifests_ (load_from_tools_directory entries) !! name))
    as Hnames.
  { intros name. unfold names, order_by_text. rewrite insertion_sort_perm, list_elem_of_fmap. split.
    - intros ([k t] & -> & H%elem_of_map_to_list). by exists t.
    - intros [t Ht]. exists (name, t). split; [done|]. by apply elem_of_map_to_list. }
  split; [|split; [|split]].
  - unfold schemas. simpl. unfold recompute_cached_schemas. fold names.
    assert (∀ l : list string, (∀ name, name ∈ l → name ∈ names) →
      schema_name <$> omap (λ name, tool_schema name <$>
        foldl load_manifest ∅ entries !! name) l = Some <$> l) as H; [|by apply H].
    induction l as [|name l IH]; intros Hl; [done|]. simpl.
    destruct (proj1 (Hnames name) (Hl name (list_elem_of_here _ _))) as [t Ht]. simpl in Ht.
    rewrite Ht. simpl. f_equal. apply IH. intros n Hn. apply Hl. by right.
  - unfold names, order_by_text. rewrite insertion_sort_perm. apply NoDup_fst_map_to_list.
  - intros name. rewrite Hnames. simpl. rewrite load_lookup, lookup_empty, list_elem_of_fmap. split.
    + destruct (last _) as [t|] eqn:E; [intros _|by intros [??]].
      apply last_Some in E as [l' E].
      assert (t ∈ filter (λ t, tm_name t = name) (offered entries)) as Ht by (rewrite E; set_solver).
      apply list_elem_of_filter in Ht as [<- ?]. by exists t.
    + intros (t & -> & Ht). destruct (last _) eqn:E; [done|]. apply last_None in E.
      assert (t ∈ filter (λ t', tm_name t' = tm_name t) (offered entries)) as H.
      { by apply list_elem_of_filter. }
      rewrite E in H. by apply not_elem_of_nil in H.
  - intros name schema Hin Hname. unfold schemas in Hin. simpl in Hin.
    apply list_elem_of_omap in Hin as (name' & _ & Hs).
    destruct (foldl load_manifest ∅ entries !! name') as [t|] eqn:Ht; [|done]. simpl in Hs.
    injection Hs as <-. injection Hname as ->. exists t. split; [|done].
    rewrite load_lookup, lookup_empty in Ht. by destruct (last _).
Qed.
End load.
