(* ===== verification/SessionQuery.v ===== *)
(** * Queries and the dispatch of connections (src/llm/scheduler.cpp)

    [handle_session_query], the other endpoints of the control plane, and what
    [handle_client_connection] does with a message.  A reply is a value; sending it is left
    out. *)

From S2P Require Import Prelude Json StringUtils Provider Scheduler LlmRequest ServiceConfig Sessions Storage Prompt Conversations Histories SessionManager Compaction SessionControl.

(** [static_cast<int>] of a double. *)
Definition int_of_double (x : double) : exc Z :=
  match d_trunc x with
  | Some z => if decide (- 2 ^ 31 ≤ z ≤ INT_MAX) then mret z else UB
  | None => UB
  end.

(** ** Queues, model and tools *)

(** The number of requests that wait under a key, and in all. *)
Definition queue_sizes (queue_key : string) (queues : gmap string TreeQueue) : exc (Z * Z) :=
  let size q := Z.of_nat (length (requests q)) in
  let total := foldr Z.add 0 (size <$> (map_to_list queues).*2) in
  let depth := if decide (queue_key = "") then total
               else match queues !! queue_key with Some q => size q | None => 0 end in
  if decide (total ≤ INT_MAX) then mret (depth, total) else UB.

Definition queue_depth_fields (queue_key : string) (queues : gmap string TreeQueue) :
    exc (list (string * json)) :=
  '(depth, total) ← queue_sizes queue_key queues;
  mret [("queue_key", JString (if decide (queue_key = "") then "(all)" else queue_key));
        ("queue_depth", JInt depth); ("total_pending", JInt total)].

Definition threshold_pct (threshold : double) : exc Z := int_of_double (d_mul threshold (d_of_Z 100)).

Definition model_info_fields (cfg : SchedulerConfig) : exc (list (string * json)) :=
  let mc := model_info cfg in
  pct ← threshold_pct (auto_compact_threshold cfg);
  mret [("model_name", JString (model_name mc)); ("model_type", JString (model_type mc));
        ("active_adapter", JString (mc_active_adapter mc));
        ("context_length", JInt (context_length mc));
        ("max_context_tokens", JInt (context_length mc));
        ("max_simultaneous_llm_requests", JInt (max_simultaneous_llm_requests mc));
        ("enabled", JBool (mc_enabled mc)); ("auto_compact_threshold_pct", JInt pct)].

Definition tool_summary (schema : json) : exc (list json) :=
  if negb (is_object schema) then mret []
  else
    function ← value_json schema "function" (JObject []);
    name ← value_string function "name" "";
    description ← value_string function "description" "";
    mret [JObject [("name", JString name); ("description", JString description)]].

Definition tool_info_fields (dump : json → exc string) (schemas : list json) (context_length : Z) :
    exc (list (string * json)) :=
  text ← dump (JArray schemas);
  let tool_context_tokens := i32 (estimate_tokens text) in
  tools ← exc_map tool_summary schemas;
  let fields := [("tool_count", JInt (i32 (Z.of_nat (length schemas))));
                 ("tools", JArray (concat tools));
                 ("tool_context_tokens", JInt tool_context_tokens)] in
  if decide (context_length > 0) then
    pct ← tenths (d_mul (d_div (d_of_Z tool_context_tokens) (d_of_Z context_length))
                    (d_of_Z 1000));
    mret (fields ++ [("tool_context_pct", JFloat pct)])
  else mret fields.

(** ** handle_session_query *)

Section query.
Context {St : Type} `{!IStorageProvider St}.
Context (regex_search : string → string → option bool).
Context (read_file : string → option string) (skills_menu : exc json).
Context (dump : json → exc string) (schemas : list json) (needing : gset string).
Context (queues : gmap string TreeQueue) (cfg : SchedulerConfig).

Abbreviation M := (ST St).

Definition usage_fields (usage : ContextUsage) : list (string * json) :=
  [("session_tokens", JInt (session_tokens usage));
   ("system_prompt_tokens", JInt (system_prompt_tokens usage));
   ("tool_schema_tokens", JInt (tool_schema_tokens usage));
   ("request_tokens", JInt (request_tokens usage));
   ("total_context_tokens", JInt (total_context_tokens usage));
   ("max_context_tokens", JInt (max_context_tokens usage));
   ("context_fill_pct", JFloat (context_fill_pct usage))].

(** Where the usage cannot be computed, the error is added to what the reply already says. *)
Definition info_query (target : SessionTarget) : M (list (string * json)) :=
  let mc := model_info cfg in
  let threshold := auto_compact_threshold cfg in
  if decide (tg_super_user target = "") then lift (Throw "'info' query requires user_id")
  else
    sid ← (if decide (tg_session_id target = "")
           then get_or_create_active_session (tg_super_user target)
           else mret (tg_session_id target));
    info ← get_session_info needing sid;
    session ← lift (build_session_object info (context_length mc));
    let mode := if starts_with sid "proc_" then "conversation" else "user_conversation" in
    st_catch
      (usage ← compute_context_usage regex_search read_file skills_menu needing
                 (dump (JArray schemas)) sid (JArray []) mode (context_length mc);
       pct ← lift (threshold_pct threshold);
       let fill := d_div (d_of_Z (total_context_tokens usage))
                         (d_of_Z (max_context_tokens usage)) in
       mret ([("session", session)] ++ usage_fields usage ++
             [("auto_compact_threshold_pct", JInt pct)] ++
             (if decide (max_context_tokens usage > 0)
              then [("context_warning", JBool (SFleb threshold fill))] else [])))
      (λ what, mret [("session", session); ("error", JString what)]).

(** One user of [all_sessions]. *)
Fixpoint users_with_sessions (users : list string) : M (list json) :=
  match users with
  | [] => mret []
  | user :: users =>
      su_info ← get_super_user_info needing user;
      sessions ← lift (session_objects (context_length (model_info cfg)) (su_sessions su_info));
      rest ← users_with_sessions users;
      mret (JObject [("super_user", JString user);
                     ("session_count", JInt (i32 (Z.of_nat (length (su_sessions su_info)))));
                     ("sessions", JArray sessions)] :: rest)
  end.

Definition query_fields (envelope : json) (query_type user_id : string) :
    M (list (string * json)) :=
  let target := resolve_target user_id in
  if decide (query_type = "info") then info_query target
  else if decide (query_type = "queue_depth") then
    queue_key ← lift (value_string envelope "queue_key" "");
    lift (queue_depth_fields queue_key queues)
  else if decide (query_type = "model_info") then lift (model_info_fields cfg)
  else if decide (query_type = "tool_info") then
    lift (tool_info_fields dump schemas (context_length (model_info cfg)))
  else if decide (query_type = "all_sessions") then
    users ← gets list_super_users;
    users ← users_with_sessions users;
    mret [("super_users", JArray users)]
  else lift (Throw ("Unknown SESSION_QUERY query_type: '" +:+ query_type +:+ "'")).

(** No other query has set a field of the reply when it fails. *)
Definition handle_session_query (envelope : json) : M json :=
  query_type ← lift (value_string envelope "query_type" "");
  user_id ← lift (value_string envelope "user_id" "");
  let reply := [("message_type", JString "SESSION_QUERY_RESPONSE");
                ("query_type", JString query_type)] in
  st_catch (fields ← query_fields envelope query_type user_id; mret (JObject (reply ++ fields)))
           (λ what, mret (JObject (reply ++ [("error", JString what)]))).
End query.

(** ** The other endpoints, and the dispatch *)

(** [GET_LLM_COUNT]: of one tree, or of all. *)
Definition llm_count_reply (tree_id : string) (S : Scheduler) : json :=
  JObject ([("message_type", JString "LLM_COUNT_RESPONSE"); ("status", JString "ok")] ++
    (if decide (tree_id = "") then
       [("counts", JObject ((λ '(tid, count), (tid, JInt count)) <$>
                            map_to_list (llm_request_counts S)))]
     else [("tree_id", JString tree_id);
           ("count", JInt (default 0 (llm_request_counts S !! tree_id)))])).

Definition reload_tools_reply : json :=
  JObject [("message_type", JString "RELOAD_TOOLS_RESPONSE"); ("status", JString "ok")].

(** What a connection asks for: one of the endpoints, or a request that is queued. *)
Inductive Endpoint :=
  | SessionControlEndpoint
  | SessionQueryEndpoint
  | LlmCountEndpoint (tree_id : string)
  | ReloadToolsEndpoint
  | LlmRequestEndpoint (req : PendingRequest).

Definition dispatch (now : Z) (promise : nat) (envelope : json) : exc Endpoint :=
  message_type ← value_string envelope "message_type" "";
  if decide (message_type = "SESSION_CONTROL") then mret SessionControlEndpoint
  else if decide (message_type = "SESSION_QUERY") then mret SessionQueryEndpoint
  else if decide (message_type = "GET_LLM_COUNT") then
    LlmCountEndpoint <$> value_string envelope "tree_id" ""
  else if decide (message_type = "RELOAD_TOOLS") then mret ReloadToolsEndpoint
  else LlmRequestEndpoint <$> parse_request_payload now promise envelope.

(** What [handle_client_connection] answers when an exception ends it. *)
Definition client_error (what : string) : json :=
  JObject [("message_type", JString "LLM_RESPONSE"); ("status", JString "error");
           ("error", JString what)].

(** ** Properties *)

Section read_only.
Context {St : Type} `{!IStorageProvider St}.
Context (needing : gset string).

(** [m] leaves the state as it is, whatever its outcome. *)
Definition reads {T A} (m : ST T A) : Prop := ∀ s, (m s).2 = s.

Lemma reads_bind {T A B} (m : ST T A) (f : A → ST T B) :
  reads m → (∀ a, reads (f a)) → reads (m ≫= f).
Proof.
  intros Hm Hf s. specialize (Hm s). unfold mbind, ST_bind.
  destruct (m s) as [[a| |] s']; simpl in *; subst; [apply Hf|done..].
Qed.

Lemma reads_lift {T A} (e : exc A) : reads (lift (St:=T) e).
Proof. done. Qed.

Lemma reads_ret {T A} (a : A) : reads (mret (M:=ST T) a).
Proof. done. Qed.

Lemma reads_gets {T A} (f : T → A) : reads (gets f).
Proof. done. Qed.

Lemma reads_catch {T A} (m : ST T A) h : reads m → (∀ w, reads (h w)) → reads (st_catch m h).
Proof.
  intros Hm Hh s. specialize (Hm s). unfold st_catch.
  destruct (m s) as [[a|w|] s']; simpl in *; subst; [done|apply Hh|done].
Qed.

Lemma reads_session_info sid : reads (get_session_info (St:=St) needing sid).
Proof. intros s. apply get_session_info_state. Qed.

Lemma reads_super_user_info user : reads (get_super_user_info (St:=St) needing user).
Proof.
  apply reads_bind; [apply reads_bind; [apply reads_gets|intros; apply reads_lift]|].
  intros sids. apply reads_bind; [|intros; apply reads_ret].
  induction sids as [|sid sids IH]; [apply reads_ret|].
  apply reads_bind; [apply reads_session_info|]. intros info.
  apply reads_bind; [apply IH|intros; apply reads_ret].
Qed.

Lemma reads_users cfg users : reads (users_with_sessions (St:=St) needing cfg users).
Proof.
  induction users as [|user users IH]; [apply reads_ret|].
  apply reads_bind; [apply reads_super_user_info|]. intros info.
  apply reads_bind; [apply reads_lift|]. intros sessions.
  apply reads_bind; [apply IH|intros; apply reads_ret].
Qed.

Context (regex_search : string → string → option bool).
Context (read_file : string → option string) (skills_menu : exc json).
Context (dump : json → exc string) (schemas : list json).
Context (queues : gmap string TreeQueue) (cfg : SchedulerConfig).

Lemma reads_usage sid msgs mode n :
  reads (compute_context_usage (St:=St) regex_search read_file skills_menu needing
           (dump (JArray schemas)) sid msgs mode n).
Proof.
  apply reads_bind; [apply reads_session_info|]. intros info.
  do 2 (apply reads_bind; [apply reads_lift|]; intros ?). apply reads_ret.
Qed.

Lemma reads_info target :
  tg_session_id target ≠ "" →
  reads (info_query (St:=St) regex_search read_file skills_menu dump schemas needing cfg target).
Proof.
  intros Hs. unfold info_query. case_decide; [apply reads_lift|].
  rewrite decide_False by done. apply reads_bind; [apply reads_ret|]. intros sid.
  apply reads_bind; [apply reads_session_info|]. intros info.
  apply reads_bind; [apply reads_lift|]. intros session.
  apply reads_catch; [|intros; apply reads_ret].
  apply reads_bind; [apply reads_usage|]. intros usage.
  apply reads_bind; [apply reads_lift|]. intros pct. apply reads_ret.
Qed.

Abbreviation fields := (query_fields (St:=St) regex_search read_file skills_menu dump schemas
  needing queues cfg).

Lemma reads_query envelope query_type user_id :
  query_type ≠ "info" ∨ tg_session_id (resolve_target user_id) ≠ "" →
  reads (fields envelope query_type user_id).
Proof.
  intros Hinfo. unfold query_fields.
  case_decide; [apply reads_info; by destruct Hinfo|].
  case_decide; [apply reads_bind; [apply reads_lift|intros; apply reads_lift]|].
  do 2 (case_decide; [apply reads_lift|]). case_decide; [|apply reads_lift].
  apply reads_bind; [apply reads_gets|]. intros users.
  apply reads_bind; [apply reads_users|intros; apply reads_ret].
Qed.

(** A query does not change anything, but that one for a user without a session creates it;
    and it is always answered, with an error where it fails. *)
Lemma session_query_reads envelope query_type user_id (s : St) :
  value_string envelope "query_type" "" = Ok query_type →
  value_string envelope "user_id" "" = Ok user_id →
  let '(r, s') := handle_session_query regex_search read_file skills_menu dump schemas needing
                    queues cfg envelope s in
  (r = UB ∨ ∃ fields, r = Ok (JObject (
     [("message_type", JString "SESSION_QUERY_RESPONSE"); ("query_type", JString query_type)] ++
     fields))) ∧
  (query_type ≠ "info" ∨ tg_session_id (resolve_target user_id) ≠ "" → s' = s).
Proof.
  intros Hq Hu. unfold handle_session_query, lift, mbind, ST_bind. rewrite Hq, Hu.
  unfold st_catch. pose proof (reads_query envelope query_type user_id) as Hr.
  destruct (fields envelope query_type user_id s) as [[fs|what|] s'] eqn:E; simpl;
    (split; [by eauto|intros Hi; specialize (Hr Hi s); by rewrite E in Hr]).
Qed.
End read_only.

(** A connection reaches the queues only with a valid request, and only by another kind of
    message than those of the control plane. *)
Lemma dispatch_request now promise envelope req :
  dispatch now promise envelope = Ok (LlmRequestEndpoint req) →
  parse_request_payload now promise envelope = Ok req ∧
  ∀ t, value_string envelope "message_type" "" = Ok t →
    t ∉ ["SESSION_CONTROL"; "SESSION_QUERY"; "GET_LLM_COUNT"; "RELOAD_TOOLS"].
Proof.
  intros (ty & Ht & H)%exc_bind_Ok_inv.
  do 2 (case_decide; [done|]). case_decide.
  { apply exc_fmap_Ok_inv in H as (? & _ & ?). done. }
  case_decide; [done|]. apply exc_fmap_Ok_inv in H as (req' & Hp & [= <-]). split; [done|].
  intros t Ht'. rewrite Ht in Ht'. injection Ht' as <-. set_solver.
Qed.
