(* ===== verification/Inference.v ===== *)
(** * Serving a request (src/llm/scheduler.cpp)

    What a worker does between taking a request and answering it: the conversation is
    resolved and its messages are built, the provider is asked through the adapter in use, the
    assistant's turn is kept, and a compaction is asked for where the context is full.  The
    stages are definitions of their own, since other threads work on the conversations in
    between; the clock is read once in each. *)

From S2P Require Import Prelude Json StringUtils Provider Sse Scheduler LlmRequest Adapters Config ServiceConfig Sessions Storage Prompt Conversations Histories SessionManager Compaction.

(** ** One call of the provider *)

Section provider.
Context (parse : string → exc json) (dump : json → exc string) (clock : nat → Z).
Context (openssl : bool).
Context (http_post : HttpRequest → option (Z * string)) (http_stream : HttpRequest → transport).

(** The virtual methods of an adapter; that of llama.cpp inherits both. *)
Definition call_chat (adapter : Adapter) : AdapterConfig → ChatRequest → exc ChatResponse :=
  match adapter with
  | OpenAICompatible | LlamaCpp => openai_call_chat parse dump openssl http_post
  | Ollama => ollama_call_chat parse dump clock openssl http_post
  | Anthropic => anthropic_call_chat parse dump openssl http_post
  end.

Definition call_chat_stream {C} (callback : StreamChunk → C → exc C) (adapter : Adapter) :
    AdapterConfig → ChatRequest → C → exc C :=
  match adapter with
  | OpenAICompatible | LlamaCpp =>
      openai_call_chat_stream parse dump openssl http_stream callback
  | Ollama => ollama_call_chat_stream parse dump clock openssl http_stream callback
  | Anthropic => anthropic_call_chat_stream parse dump openssl http_stream callback
  end.

(** What the calls of the callback were put together to. *)
Definition aggregated (st : StreamState) : ChatResponse := {|
  rs_content := agg_content st;
  rs_tool_calls := JArray (omap finish_call (partial_tool_calls st));
  rs_has_tool_calls := false; rs_finish_reason := agg_finish_reason st;
  rs_usage := JObject []; rs_raw := JObject [] |}.

(** With the texts that were passed to [on_token]. *)
Definition run_chat_once (adapter : Adapter) (cfg : AdapterConfig) (request : ChatRequest) :
    exc (ChatResponse * list string) :=
  if cr_stream request then
    st ← call_chat_stream on_chunk adapter cfg request StreamState_init;
    mret (aggregated st, tokens st)
  else
    response ← call_chat adapter cfg request;
    mret (response, []).
End provider.

(** ** The assistant's turn *)

Section calls.
Context (parse : string → exc json) (dump : json → exc string).
Context (uuid : nat → string).   (* the text drawn for the call at an index *)

Fixpoint normalize_calls (calls : list json) (call_index : nat) : exc (list json) :=
  match calls with
  | [] => mret []
  | tool_call :: calls =>
      call ← normalize_tool_call parse dump (uuid call_index) tool_call (Z.of_nat call_index);
      calls ← normalize_calls calls (S call_index);
      mret (call :: calls)
  end.

Definition normalized_tool_calls (response : ChatResponse) : exc (list json) :=
  match rs_tool_calls response with JArray l => normalize_calls l 0 | _ => mret [] end.

(** The tokens of the answer: those the provider says, or an estimate. *)
Definition tokens_used (response : ChatResponse) (calls : list json) : exc Z :=
  completion_tokens ← value_uint64 (rs_usage response) "completion_tokens" 0;
  completion_estimate ← (if decide (rs_content response ≠ "") then
                           mret (estimate_tokens (rs_content response))
                         else text ← dump (JArray calls); mret (estimate_tokens text));
  mret (if decide (completion_tokens > 0) then completion_tokens else completion_estimate).
End calls.

(** The fields of the reply that a conversation adds; what is said of a compaction is read
    from the request. *)
Definition conversation_fields (payload : json) : exc (list (string * json)) :=
  convo_id ← value_string payload "convo_id" "";
  auto_compacted ← value_bool payload "auto_compacted" false;
  reason ← value_string payload "compact_skip_reason" "";
  session_compacted ← value_bool payload "session_compacted" false;
  compacted ← (if session_compacted : bool then
                 before ← value_int payload "tokens_before" 0;
                 after ← value_int payload "tokens_after" 0;
                 mret [("session_compacted", JBool true); ("tokens_before", JInt before);
                       ("tokens_after", JInt after)]
               else mret []);
  mret ([("convo_id", JString convo_id); ("auto_compacted", JBool auto_compacted);
         ("compact_skip_reason", JString reason)] ++ compacted).

Definition assistant_message (content : string) (calls : list json) : json :=
  JObject ([("role", JString "assistant"); ("tool_calls", JArray calls)] ++
           (if decide (content = "") then [] else [("content", JString content)])).

Definition answer_fields (response : ChatResponse) (calls : list json) : list (string * json) :=
  [("response", JString (rs_content response));
   ("assistant_message", assistant_message (rs_content response) calls);
   ("tool_calls", JArray calls); ("finish_reason", JString (rs_finish_reason response));
   ("usage", rs_usage response); ("raw_provider_response", rs_raw response)].

(** ** The stages of a request *)

Section stages.
Context {St : Type} `{!IStorageProvider St}.
Context (parse : string → exc json) (dump : json → exc string) (clock : nat → Z).
Context (openssl : bool).
Context (http_post : HttpRequest → option (Z * string)) (http_stream : HttpRequest → transport).
Context (uuid : nat → string) (latency : Z).
Context (parse_file : string → exc json) (read_file : string → option string).
Context (regex_search : string → string → option bool) (skills_menu : exc json).
Context (storage_path_ : string).
(** [tool_registry.get_tool_schemas()] and the marked sessions. *)
Context (schemas : json) (needing : gset string).
Context (cfg : SchedulerConfig).

Abbreviation M := (ST (SessionIO St)).

(** The request that the worker completes: its mode and its payload. *)
Definition prepare (now now' rand : Z) (req : PendingRequest) : M (string * json) :=
  raw ← lift (set_field "is_handler" (JBool (bool_decide (tree_id req = "TREE_HANDLER")))
                (payload req));
  request ← normalize_llm_request parse_file read_file regex_search skills_menu storage_path_
              now rand raw;
  mode ← lift (value_string request "mode" "simple");
  if is_conversation_mode mode then
    owner_pid ← lift (value_int request "owner_pid" (-1));
    request ← lift (if decide (owner_pid ≤ 0 ∧ source_pid req > 0)
                    then set_field "owner_pid" (JInt (source_pid req)) request
                    else mret request);
    if has_array request "messages" then mret (mode, request)
    else
      messages ← build_conversation_messages_safely read_file regex_search skills_menu now'
                   request;
      request ← lift (set_field "messages" messages request);
      mret (mode, request)
  else mret (mode, request).

(** What is asked of the provider. *)
Definition provider_request (tree_id : string) (request : json) : exc (json * ChatRequest) :=
  request ← clamp_max_tokens (context_length (model_info cfg)) request;
  _ ← value_string request "mode" "simple";
  let chat_cfg := {| LlmRequest.adapter_cfg := sc_adapter_cfg cfg; tool_schemas := schemas |} in
  messages ← match find request "messages" with Some m => mret m | None => mret JNull end;
  chat_request ← build_chat_request dump tree_id request chat_cfg messages;
  mret (request, chat_request).

(** [process_llm_request_stateless] up to the answer of the provider. *)
Definition infer (tree_id : string) (request : json) : exc (json * (ChatResponse * list string)) :=
  '(request, chat_request) ← provider_request tree_id request;
  answer ← run_chat_once parse dump clock openssl http_post http_stream
             (make_adapter (sc_active_adapter cfg)) (sc_adapter_cfg cfg) chat_request;
  mret (request, answer).

(** The rest of it: the turn is kept, and the reply is put together. *)
Definition complete (now : Z) (req : PendingRequest) (request : json) (response : ChatResponse) :
    M json :=
  mode ← lift (value_string request "mode" "simple");
  calls ← lift (normalized_tool_calls parse dump uuid response);
  used ← lift (tokens_used dump response calls);
  (if is_conversation_mode mode && negb (bool_decide (calls = [])) then
     persist_assistant_tool_call now request (rs_content response) (JArray calls) used
   else mret true);;
  (if is_conversation_mode mode && negb (bool_decide (rs_content response = "")) &&
      bool_decide (calls = []) then
     persist_assistant_response now request (rs_content response) used
   else mret true);;
  fields ← lift (if is_conversation_mode mode then conversation_fields request else mret []);
  mret (JObject (
    [("message_type", JString "LLM_RESPONSE"); ("status", JString "ok");
     ("request_id", JString (request_id req)); ("tree_id", JString (tree_id req));
     ("mode", JString mode); ("latency_ms", JInt latency)] ++
    fields ++ answer_fields response calls)).

(** [current] is what [is_attempt_current] says when the provider has answered. *)
Definition process_llm_request_stateless (now : Z) (current : bool) (req : PendingRequest)
    (request : json) : M json :=
  '(request, (response, _)) ← lift (infer (tree_id req) request);
  if current then complete now req request response else mret JNull.

(** The usage of a context that is full enough for a compaction. *)
Definition full_context (mode convo_id : string) : M (option ContextUsage) :=
  usage ← on_storage (compute_context_usage regex_search read_file skills_menu needing
            (dump schemas) convo_id (JArray []) mode (context_length (model_info cfg)));
  if decide (max_context_tokens usage > 0) then
    let threshold := if SFltb d_zero (auto_compact_threshold cfg)
                     then auto_compact_threshold cfg else d_0_7 in
    let fill_ratio := d_div (d_of_Z (total_context_tokens usage))
                        (d_of_Z (max_context_tokens usage)) in
    mret (if SFleb threshold fill_ratio then Some usage else None)
  else mret None.

(** The [try] block of the worker, for a request whose client is there: the response, and the
    compaction that it asks for. *)
Definition run_request (now now' now'' rand : Z) (current : bool) (req : PendingRequest) :
    M (json * option (string * ContextUsage)) :=
  '(mode, request) ← prepare now now' rand req;
  response ← process_llm_request_stateless now'' current req request;
  if is_conversation_mode mode then
    status ← lift (value_string response "status" "error");
    convo_id ← lift (if decide (status = "ok") then value_string request "convo_id" "" else mret "");
    if decide (convo_id = "") then mret (response, None)
    else
      usage ← full_context mode convo_id;
      match usage with
      | None => mret (response, None)
      | Some usage =>
          response ← lift (set_fields [("needs_compaction", JBool true);
                                       ("auto_compaction_queued", JBool true)] response);
          mret (response, Some (convo_id, usage))
      end
  else mret (response, None).

(** The item that the worker enqueues after it has answered. *)
Definition queued_compaction (asked : option (string * ContextUsage)) : option QueueItem :=
  '(convo_id, usage) ← asked;
  compaction_wanted convo_id usage (auto_compact_threshold cfg).

(** What [worker_finish] is given. *)
Definition worker_outcome {A} (r : exc (json * A)) : option (json + string) :=
  match r with
  | Ok (response, _) => Some (inl response)
  | Throw what => Some (inr what)
  | UB => None
  end.
End stages.

(** ** What resolving a request changes of it *)

Lemma set_field_find_other key key' v j j' :
  set_field key v j = Ok j' → key' ≠ key → find j' key' = find j key'.
Proof. intros. by eapply set_field_find_ne. Qed.

Lemma is_conversation_mode_true mode :
  is_conversation_mode mode = true ↔ mode = "conversation" ∨ mode = "user_conversation".
Proof. apply bool_decide_eq_true. Qed.

(** The members that are set when a request is resolved. *)
Definition resolved_keys : list string :=
  ["message_type"; "mode"; "convo_id"; "user_id"; "priority"; "sampling_params"].

Lemma with_defaults_find parse_file read_file raw out key :
  with_defaults parse_file read_file raw = Ok out → key ∉ ["priority"; "sampling_params"] →
  find out key = find raw key.
Proof.
  intros (n & Hn & H)%exc_bind_Ok_inv Hkey.
  assert (find n key = find raw key) as <-.
  { destruct (contains raw "priority"); [by exc_run Hn|].
    eapply set_field_find_other; [done|set_solver]. }
  assert ((params ← load_sampling_params parse_file read_file;
           set_field "sampling_params" params n) = Ok out → find out key = find n key) as Hset.
  { clear H. intros H. exc_run H. eapply set_field_find_other; [done|set_solver]. }
  destruct (find n "sampling_params") as [[]|]; first [by apply Hset|by exc_run H].
Qed.

(** The inputs of a request, and its prompt, are in other members. *)
Lemma pending_inputs_ext j j' :
  (∀ key, key ∉ "owner_pid" :: "is_handler" :: resolved_keys → find j' key = find j key) →
  is_object j = true → is_object j' = true → pending_inputs j' = pending_inputs j.
Proof.
  intros H Hj Hj'. unfold pending_inputs, contains, call_id_field, value_string, value.
  destruct j, j'; try done. cbn [find] in *.
  assert (∀ key, key ∈ ["user_message"; "tool_message"; "tool_messages"; "tool_result";
    "tool_call_id"] → assoc key kvs0 = assoc key kvs) as Hk.
  { intros key Hkey. apply H. unfold resolved_keys. set_solver. }
  by rewrite !Hk by set_solver.
Qed.

Lemma explicit_prompt_ext j j' :
  (∀ key, key ∉ "owner_pid" :: "is_handler" :: resolved_keys → find j' key = find j key) →
  explicit_system_prompt j' = explicit_system_prompt j.
Proof.
  intros H. unfold explicit_system_prompt, string_or_empty.
  rewrite (H "system_prompt"), (H "system_message"); [done|by apply (bool_decide_unpack _)..].
Qed.

Lemma prompt_override_ext j j' :
  (∀ key, key ∉ "owner_pid" :: "is_handler" :: resolved_keys → find j' key = find j key) →
  is_object j = true → is_object j' = true → system_prompt_override j' = system_prompt_override j.
Proof.
  intros H Hj Hj'. unfold system_prompt_override, value_json, value_bool, value.
  destruct j, j'; try done. cbn [find] in *.
  assert (∀ key, key ∈ ["metadata"; "system_prompt_override"; "replace_system_prompt"] →
    assoc key kvs0 = assoc key kvs) as Hk.
  { intros key Hkey. apply H. unfold resolved_keys. set_solver. }
  by rewrite !Hk by set_solver.
Qed.

Lemma set_fields_object kvs : ∀ j j',
  set_fields kvs j = Ok j' → is_object j = true → is_object j' = true.
Proof.
  induction kvs as [|[k v] kvs IH]; intros j j' H Hj; simpl in *; [by injection H as <-|].
  destruct j; try done. by apply (IH _ _ H).
Qed.

Lemma with_defaults_object parse_file read_file raw out :
  with_defaults parse_file read_file raw = Ok out → is_object raw = true → is_object out = true.
Proof.
  intros (n & Hn & H)%exc_bind_Ok_inv Hraw. destruct raw; try done.
  assert (is_object n = true) as Ho.
  { destruct (contains _ _); unfold set_field, mret, exc_ret in Hn; by simplify_eq. }
  destruct n as [| | | | | |kvs']; try done.
  assert ((params ← load_sampling_params parse_file read_file;
           set_field "sampling_params" params (JObject kvs')) = Ok out → is_object out = true)
    as Hset.
  { clear H. intros (params & _ & H)%exc_bind_Ok_inv. by injection H as <-. }
  destruct (find _ _) as [[]|]; first [by apply Hset|by exc_run H].
Qed.

Section open_session.
Context {St : Type} `{!IStorageProvider St}.
Context (parse_file : string → exc json) (read_file : string → option string).
Context (regex_search : string → string → option bool) (skills_menu : exc json).
Context (storage_path_ : string).

(** A request in a session that is open only gets its members filled in. *)
Lemma resolve_open now raw normalized id c (io : SessionIO St) out io' :
  value_string raw "user_id" "" = Ok id → convo_cache_ io !! id = Some c → cv_convo_id c = id →
  resolve_user_convo parse_file read_file storage_path_ now raw normalized io = (Ok out, io') →
  io' = io ∧ set_fields [("convo_id", JString id); ("user_id", JString id)] normalized = Ok out.
Proof.
  intros Hu Hc Hid H.
  apply st_bind_Ok_inv in H as (pid & ? & [_ ->]%st_lift_Ok_inv & H).
  apply st_bind_Ok_inv in H as (is_handler & ? & [_ ->]%st_lift_Ok_inv & H).
  apply st_bind_Ok_inv in H as (convo_id & ? & [_ ->]%st_lift_Ok_inv & H).
  apply st_bind_Ok_inv in H as (user_id & ? & [Hu' ->]%st_lift_Ok_inv & H).
  rewrite Hu in Hu'. injection Hu' as <-.
  case_decide; [done|]. destruct (negb is_handler); [done|].
  case_decide; [done|]. cbv zeta in H. case_decide as Hr; [done|].
  pose proof (generate_user_convo_id_spec id Hr) as [Hr' Hs]. rewrite !Hr' in H.
  apply st_bind_Ok_inv in H as (c' & io1 & Hget & H).
  unfold get_or_create_user_convo_unlocked in Hget. rewrite !Hr', decide_False in Hget by congruence.
  unfold cached, gets, mbind, ST_bind in Hget. rewrite Hc in Hget. unfold mret, ST_ret in Hget.
  injection Hget as <- <-. rewrite Hid in H.
  destruct (negb (has_input raw)); [done|]. case_decide; [done|].
  apply st_bind_Ok_inv in H as (n & ? & [Hn ->]%st_lift_Ok_inv & H).
  unfold cache_put, modify, mret, ST_ret, mbind, ST_bind in H. injection H as <- <-.
  split; [|done]. destruct io as [s cache]. unfold with_cache. simpl in *.
  by rewrite insert_id.
Qed.

Lemma normalize_open now rand raw id c (io : SessionIO St) out io' :
  value_string raw "mode" "" = Ok "user_conversation" → is_object raw = true →
  value_string raw "user_id" "" = Ok id → convo_cache_ io !! id = Some c → cv_convo_id c = id →
  normalize_llm_request parse_file read_file regex_search skills_menu storage_path_ now rand raw io
    = (Ok out, io') →
  io' = io ∧ is_object out = true ∧ find out "convo_id" = Some (JString id) ∧
  find out "mode" = Some (JString "user_conversation") ∧
  ∀ key, key ∉ resolved_keys → find out key = find raw key.
Proof.
  intros Hmode Hraw Hu Hc Hid H.
  apply st_bind_Ok_inv in H as (mode & ? & [Hm ->]%st_lift_Ok_inv & H).
  rewrite Hmode in Hm. injection Hm as <-.
  apply st_bind_Ok_inv in H as (d & ? & [Hd ->]%st_lift_Ok_inv & H).
  apply st_bind_Ok_inv in H as (n & io1 & Hres & [Hset ->]%st_lift_Ok_inv). simpl in Hres.
  pose proof (resolve_open _ _ _ _ _ _ _ _ Hu Hc Hid Hres) as [-> Hn].
  pose proof (with_defaults_object _ _ _ _ Hd Hraw) as Hod.
  pose proof (set_fields_object _ _ _ Hn Hod) as Hon.
  pose proof (set_fields_object _ _ _ Hset Hon) as Ho.
  split_and!; [done|done| | |].
  - rewrite (set_fields_find _ _ _ "convo_id" Hset) by (simpl; set_solver).
    eapply set_fields_first; [done|]. simpl. set_solver.
  - destruct n; try done. unfold set_fields in Hset. simpl in Hset. injection Hset as <-.
    simpl. apply assoc_set_eq.
  - intros key Hkey. unfold resolved_keys in Hkey.
    rewrite (set_fields_find _ _ _ key Hset), (set_fields_find _ _ _ key Hn) by
      (simpl; set_solver).
    eapply with_defaults_find; [done|set_solver].
Qed.
End open_session.

(** ** The messages that are sent *)

Lemma value_string_role m role : value_string m "role" "" = Ok role → string_or_empty m "role" = role.
Proof.
  intros [H|[H ->]]%value_string_inv; unfold string_or_empty; by rewrite H.
Qed.

Lemma split_system_said l : ∀ system others,
  Forall (λ m, is_object m = true) l → split_system l = Ok (system, others) →
  said <$> system = filter (λ p, p.1 = "system") (said <$> l) ∧
  said <$> others = filter (λ p, p.1 ≠ "system") (said <$> l).
Proof.
  induction l as [|m l IH]; intros system others Ho H; simpl in H.
  { by injection H as <- <-. }
  apply Forall_cons in Ho as [Hm Ho]. rewrite Hm in H. simpl in H.
  apply exc_bind_Ok_inv in H as (role & Hr%value_string_role & H).
  apply exc_bind_Ok_inv in H as ([sys oth] & Hs & H).
  destruct (IH sys oth Ho Hs) as [IH1 IH2]. injection H as H.
  rewrite fmap_cons, !filter_cons. unfold said at 2 4. simpl. rewrite Hr.
  destruct (decide (role = "system")); injection H as <- <-.
  - rewrite decide_False by tauto. by rewrite fmap_cons, IH1.
  - rewrite decide_True by done. by rewrite fmap_cons, IH2.
Qed.

Lemma normalize_message_said dump m m' : normalize_message dump m = Ok m' → said m' = said m.
Proof.
  unfold normalize_message. intros (role & _ & H)%exc_bind_Ok_inv.
  case_decide; [by injection H as <-|].
  destruct (find m "tool_calls") as [[]|]; try by injection H as <-.
  apply exc_bind_Ok_inv in H as (calls & _ & H).
  unfold said, string_or_empty. by rewrite !(set_field_find_other _ _ _ _ _ H).
Qed.

Lemma exc_map_said f l : ∀ l',
  (∀ m m', f m = Ok m' → said m' = said m) → exc_map f l = Ok l' → said <$> l' = said <$> l.
Proof.
  induction l as [|m l IH]; intros l' Hf H; simpl in H; [by injection H as <-|].
  apply exc_bind_Ok_inv in H as (m' & Hm & H). apply exc_bind_Ok_inv in H as (l1 & Hl & H).
  injection H as <-. by rewrite !fmap_cons, (Hf m m'), (IH l1).
Qed.

(** The provider is told what the messages say, the system's first. *)
Lemma chat_messages_said dump l out :
  Forall (λ m, is_object m = true) l → chat_messages dump (JArray l) = Ok out →
  ∃ l', out = JArray l' ∧
    said <$> l' = filter (λ p, p.1 = "system") (said <$> l) ++
                  filter (λ p, p.1 ≠ "system") (said <$> l).
Proof.
  intros Ho ([sys oth] & Hs & H)%exc_bind_Ok_inv. apply exc_bind_Ok_inv in H as (l' & Hl & H).
  injection H as <-. exists l'. split; [done|]. apply exc_map_said in Hl; [|apply normalize_message_said].
  destruct (split_system_said l sys oth Ho Hs) as [<- <-]. by rewrite Hl, fmap_app.
Qed.

Lemma clamp_find length payload payload' key :
  clamp_max_tokens length payload = Ok payload' → key ∉ ["max_tokens"; "sampling_params"] →
  find payload' key = find payload key.
Proof.
  unfold clamp_max_tokens. intros H Hkey.
  assert (key ≠ "max_tokens" ∧ key ≠ "sampling_params") as [??] by set_solver.
  destruct (find payload "messages") as [[]|]; try done. exc_run H; try done.
  all: by repeat match goal with
    | E : set_field _ _ _ = Ok ?j |- find ?j _ = _ => rewrite (set_field_find_ne _ _ _ _ _ E) by done
    end.
Qed.

(** Where [x <= y] there is no [y < x]. *)
Lemma d_leb_ltb x y : SFleb x y = true → SFltb y x = false.
Proof.
  unfold SFleb, SFltb, SFcompare.
  destruct x as [[]|[]| |[] mx ex], y as [[]|[]| |[] my ey]; try done;
    rewrite (Z.compare_antisym ex ey); destruct (Z.compare ex ey); simpl; try done;
    fold (Pos.compare mx my) (Pos.compare my mx); rewrite (Pos.compare_antisym mx my);
    by destruct (Pos.compare mx my).
Qed.

(** ** A turn of a session *)

(** What the system prompt of a request does to the history. *)
Definition prompted (prompt : string) (override : bool) (history : list (string * string)) :
    list (string * string) :=
  if decide (prompt = "") then history
  else if override then filter (λ p, p.1 ≠ "system") history ++ [("system", prompt)]
  else if decide (history = []) then [("system", prompt)]
  else history.

Lemma said_without_system (l : list json) :
  said <$> filter (λ m, role_is "system" m = false) l = filter (λ p, p.1 ≠ "system") (said <$> l).
Proof.
  induction l as [|m l IH]; [done|]. rewrite fmap_cons.
  destruct (decide (string_or_empty m "role" = "system")) as [Hs|Hs].
  - rewrite filter_cons_False, filter_cons_False; [done|by intros H; apply H|].
    unfold role_is. by rewrite bool_decide_eq_true_2.
  - rewrite filter_cons_True, filter_cons_True, fmap_cons, IH; [done|done|].
    unfold role_is. by rewrite bool_decide_eq_false_2.
Qed.

Lemma update_history_told now prompt override inputs c c' :
  conversation_ok c → Forall input_ok inputs →
  update_history now prompt override inputs c = Ok c' →
  said <$> cv_messages c' =
    prompted prompt override (said <$> cv_messages c) ++ (said_input <$> inputs).
Proof.
  intros Hc Hin (c1 & H1 & H)%exc_bind_Ok_inv. rewrite (append_inputs_said now inputs c1 c') by done.
  f_equal. unfold prompted. destruct (decide (prompt = "")); [by injection H1 as <-|].
  destruct override.
  - rewrite without_system_ok in H1 by apply Hc. simpl in H1.
    apply append_or_said in H1 as [-> _]. simpl. by rewrite said_without_system.
  - destruct (decide (cv_messages c = [])) as [He|He].
    + apply append_or_said in H1 as [-> _]. rewrite He. done.
    + injection H1 as <-. rewrite decide_False; [done|]. by intros ?%fmap_nil_inv.
Qed.

Section turns.
Context {St : Type} `{Hstore : ConversationStore St}.
Context (parse_file : string → exc json) (read_file : string → option string).
Context (regex_search : string → string → option bool) (skills_menu : exc json).
Context (storage_path_ : string).
Hypothesis ok_storable : ∀ c, conversation_ok c → nameable (cv_convo_id c) → storable c.

(** A request of the handler in an open session, that brings its inputs and a system prompt, if
    one, but no messages of its own. *)
Record session_request (req : PendingRequest) (id prompt : string) (override : bool)
    (inputs : list PendingInput) : Prop := {
  sr_object : is_object (payload req) = true;
  sr_mode : value_string (payload req) "mode" "" = Ok "user_conversation";
  sr_user : value_string (payload req) "user_id" "" = Ok id;
  sr_messages : has_array (payload req) "messages" = false;
  sr_prompt : explicit_system_prompt (payload req) = prompt;
  sr_override : system_prompt_override (payload req) = Ok override;
  sr_inputs : pending_inputs (payload req) = Ok inputs;
}.

Abbreviation prepare_request := (prepare parse_file read_file regex_search skills_menu storage_path_).

(** The prompt that is put before a history without a system message. *)
Definition layers (user prompt : string) (history : list (string * string)) : list (string * string) :=
  if existsb (λ p, bool_decide (p.1 = "system")) history then []
  else [("system", build_layered_system_prompt regex_search read_file skills_menu
                     "user_conversation" prompt user)].

Lemma layers_said prompt c :
  layers (cv_user_id c) prompt (said <$> cv_messages c) =
    if existsb (role_is "system") (cv_messages c) then []
    else [("system", build_layered_system_prompt regex_search read_file skills_menu
                       "user_conversation" prompt (cv_user_id c))].
Proof.
  unfold layers. enough (existsb (λ p, bool_decide (p.1 = "system")) (said <$> cv_messages c) =
    existsb (role_is "system") (cv_messages c)) as -> by done.
  generalize (cv_messages c). intros l. induction l as [|m l IH]; [done|].
  rewrite fmap_cons. cbn [existsb]. by rewrite IH.
Qed.

(** What the provider is told of a history: the system's messages first. *)
Definition told (user prompt : string) (history : list (string * string)) :
    list (string * string) :=
  let all := layers user prompt history ++ history in
  filter (λ p, p.1 = "system") all ++ filter (λ p, p.1 ≠ "system") all.

Lemma named_user id c c' : named id c → named id c' → cv_user_id c = cv_user_id c'.
Proof.
  intros [[_ _ _ H] Hc] [[_ _ _ H'] Hc'].
  destruct H as [(_ & Hs & ->)|(? & -> & r & Hr & Hid)],
    H' as [(_ & Hs' & ->)|(? & -> & r' & Hr' & Hid')];
    [congruence| | |done].
  - rewrite Hc, <-Hc', Hid' in Hs. rewrite (process_id_not_session r' _) in Hs; done.
  - rewrite Hc', <-Hc, Hid in Hs'. rewrite (process_id_not_session r _) in Hs'; done.
Qed.

Lemma built_message_object m out : built_message m = Ok (Some out) → is_object out = true.
Proof.
  unfold built_message. intros H. exc_run H; try done; by injection H as <-.
Qed.

Lemma build_messages_objects mode prompt c l :
  build_messages read_file regex_search skills_menu mode prompt c = Ok (JArray l) →
  Forall (λ m, is_object m = true) l.
Proof.
  intros (has & _ & H)%exc_bind_Ok_inv. apply exc_bind_Ok_inv in H as (built & Hb & H).
  injection H as <-. apply Forall_app. split; [destruct has; repeat constructor|].
  revert built Hb. generalize (cv_messages c). intros ms. induction ms as [|m ms IH]; intros built H.
  { injection H as <-. constructor. }
  simpl in H. apply exc_bind_Ok_inv in H as (o & Ho & H).
  apply exc_bind_Ok_inv in H as (os & Hos & H). injection H as <-.
  destruct o as [o|]; [|exact (IH os Hos)].
  constructor; [by eapply built_message_object|exact (IH os Hos)].
Qed.

(** Building the messages in an open session. *)
Lemma build_open now request id prompt override inputs c (io : SessionIO St) out io1 :
  io_ok io → nameable id → is_long now → convo_cache_ io !! id = Some c →
  find request "convo_id" = Some (JString id) →
  find request "mode" = Some (JString "user_conversation") →
  explicit_system_prompt request = prompt → system_prompt_override request = Ok override →
  pending_inputs request = Ok inputs →
  build_conversation_messages_safely read_file regex_search skills_menu now request io
    = (Ok out, io1) →
  io_ok io1 ∧ ∃ c1 l, convo_cache_ io1 !! id = Some c1 ∧
    said <$> cv_messages c1 =
      prompted prompt override (said <$> cv_messages c) ++ (said_input <$> inputs) ∧
    out = JArray l ∧ Forall (λ m, is_object m = true) l ∧
    said <$> l = layers (cv_user_id c1) prompt (said <$> cv_messages c1) ++ (said <$> cv_messages c1).
Proof.
  intros Hio Hid Hnow Hc Hrid Hmode Hprompt Hover Hinputs (input & c0 & Hin & Hl & Hne & H)%build_inv.
  destruct (io_cache io Hio id c Hc) as [_ Hnamed].
  pose proof Hin as (Hid' & _ & Hok & Hsome & Hpr)%build_input_inv.
  pose proof Hin as [Hpend Hbm]%build_input_inputs.
  assert (bi_override input = override) as Hbo.
  { unfold build_input in Hin. exc_run Hin. rewrite Hover in E1. by injection E1 as <-. }
  destruct input as [bid bmode bprompt boverride ins]. simpl in *. subst boverride.
  rewrite Hrid in Hid'. injection Hid' as <-.
  rewrite (lookup_convo_cached id c io Hc) in Hl. injection Hl as <-.
  rewrite Hinputs in Hpend. injection Hpend as <-. rewrite Hprompt in Hpr. subst bprompt.
  rewrite (value_string_find _ _ _ _ Hmode) in Hbm. injection Hbm as <-.
  split.
  { pose proof (keeps_build_store ok_storable read_file regex_search skills_menu now
      (Build_BuildInput id "user_conversation" prompt override inputs) c id Hnow Hid Hnamed
      eq_refl Hok io Hio) as [Hio2 _]. by rewrite H in Hio2. }
  apply st_bind_Ok_inv in H as (c1 & ? & [Hu ->]%st_lift_Ok_inv & H). simpl in Hu.
  apply st_bind_Ok_inv in H as (b & io3 & _ & H).
  apply st_bind_Ok_inv in H as ([] & io4 & [= <-] & [Hb ->]%st_lift_Ok_inv). simpl in *.
  pose proof Hu as [Hc1 _]%update_history_ok; [|by try apply Hnamed..].
  apply update_history_told in Hu; [|by try apply Hnamed..].
  pose proof Hb as (l & -> & _ & Hsaid)%build_messages_ok; [|apply Hc1|].
  - apply build_messages_objects in Hb. exists c1, l.
    split_and!; [by rewrite lookup_insert_eq|done..|]. by rewrite layers_said.
  - intros Hempty. rewrite Hempty in Hu. symmetry in Hu. apply app_eq_nil in Hu as [_ Hu].
    by apply fmap_nil_inv in Hu.
Qed.

(** What the worker adds to a request before its messages are built. *)
Lemma prepare_resolve now now' rand req id prompt override inputs c (io : SessionIO St) mode request io1 :
  session_request req id prompt override inputs → convo_cache_ io !! id = Some c →
  cv_convo_id c = id →
  prepare_request now now' rand req io = (Ok (mode, request), io1) →
  mode = "user_conversation" ∧ ∃ r out,
    build_conversation_messages_safely read_file regex_search skills_menu now' r io
      = (Ok out, io1) ∧ set_field "messages" out r = Ok request ∧
    find r "convo_id" = Some (JString id) ∧
    find r "mode" = Some (JString "user_conversation") ∧
    explicit_system_prompt r = prompt ∧ system_prompt_override r = Ok override ∧
    pending_inputs r = Ok inputs.
Proof.
  intros [Hobj Hmode Huser Hmsgs Hprompt Hover Hinputs] Hc Hcid H.
  apply st_bind_Ok_inv in H as (raw & ? & [Hraw ->]%st_lift_Ok_inv & H).
  assert (∀ key, key ≠ "is_handler" → find raw key = find (payload req) key) as Hfr.
  { intros key Hkey. by eapply set_field_find_other. }
  assert (is_object raw = true) as Horaw.
  { destruct (payload req); try done. by injection Hraw as <-. }
  assert (∀ key, key ≠ "is_handler" →
    value_string raw key "" = value_string (payload req) key "") as Hvr.
  { intros key Hkey. unfold value_string, value. specialize (Hfr key Hkey).
    destruct raw, (payload req); try done. simpl in Hfr. by rewrite Hfr. }
  apply st_bind_Ok_inv in H as (n & io0 & Hn & H).
  eapply normalize_open in Hn as (-> & Hon & Hnid & Hnmode & Hnf);
    [|by rewrite Hvr|done|by rewrite Hvr|done|done].
  apply st_bind_Ok_inv in H as (m & ? & [Hm ->]%st_lift_Ok_inv & H).
  rewrite (value_string_find _ _ _ _ Hnmode) in Hm. injection Hm as <-.
  change (is_conversation_mode "user_conversation") with true in H. cbv iota in H.
  apply st_bind_Ok_inv in H as (owner & ? & [_ ->]%st_lift_Ok_inv & H).
  apply st_bind_Ok_inv in H as (r & ? & [Hr ->]%st_lift_Ok_inv & H).
  assert (is_object r = true ∧ ∀ key, key ≠ "owner_pid" → find r key = find n key) as [Hor Hfo].
  { case_decide; [|by injection Hr as <-]. split; [|by intros; eapply set_field_find_other].
    destruct n; try done. by injection Hr as <-. }
  assert (∀ key, key ∉ "owner_pid" :: "is_handler" :: resolved_keys →
    find r key = find (payload req) key) as Hall.
  { intros key Hkey. rewrite Hfo, Hnf, Hfr by set_solver. done. }
  assert (has_array r "messages" = false) as Hnomsg.
  { unfold has_array. rewrite Hall; [exact Hmsgs|by apply (bool_decide_unpack _)]. }
  rewrite Hnomsg in H.
  apply st_bind_Ok_inv in H as (out & io2 & Hb & H).
  apply st_bind_Ok_inv in H as (r' & ? & [Hr' ->]%st_lift_Ok_inv & H).
  unfold mret, ST_ret in H. injection H as <- <- <-. split; [done|]. exists r, out.
  rewrite (explicit_prompt_ext (payload req) r Hall), (pending_inputs_ext (payload req) r Hall),
    (prompt_override_ext (payload req) r Hall) by done.
  rewrite !Hfo by done. by split_and!.
Qed.

Lemma prepare_open now now' rand req id prompt override inputs c (io : SessionIO St) mode request io1 :
  io_ok io → nameable id → is_long now' → session_request req id prompt override inputs →
  convo_cache_ io !! id = Some c →
  prepare_request now now' rand req io = (Ok (mode, request), io1) →
  mode = "user_conversation" ∧ find request "mode" = Some (JString "user_conversation") ∧
  find request "convo_id" = Some (JString id) ∧ io_ok io1 ∧
  ∃ c1 l, convo_cache_ io1 !! id = Some c1 ∧
    said <$> cv_messages c1 =
      prompted prompt override (said <$> cv_messages c) ++ (said_input <$> inputs) ∧
    find request "messages" = Some (JArray l) ∧ Forall (λ m, is_object m = true) l ∧
    said <$> l = layers (cv_user_id c1) prompt (said <$> cv_messages c1) ++ (said <$> cv_messages c1).
Proof.
  intros Hio Hid Hnow Hreq Hc H. destruct (io_cache io Hio id c Hc) as [_ [_ Hcid]].
  eapply prepare_resolve in H as (-> & r & out & Hb & Hset & Hrid & Hrm & Hpr & Hov & Hin); [|done..].
  rewrite !(set_field_find_other _ _ _ _ _ Hset) by done.
  eapply build_open in Hb as (? & c1 & l & ? & ? & -> & ? & ?); [|done..].
  split_and!; try done. exists c1, l. split_and!; try done. by eapply set_field_find.
Qed.

(** *** The assistant's turn is kept *)

(** The provider takes whatever it can represent. *)
Definition accepting : Prop := ∀ c s,
  storable c → ∃ s', upsert_conversation (conversation_json c) s = Ok (true, s').

Lemma append_accepted now id content tokens extra c (io : SessionIO St) b io' :
  accepting → io_ok io → nameable id → is_long now → convo_cache_ io !! id = Some c →
  content ≠ "" ∨ is_Some (calls_of extra) →
  append_and_persist now id "assistant" content tokens extra io = (Ok b, io') →
  io_ok io' ∧ ∃ c', convo_cache_ io' !! id = Some c' ∧
    said <$> cv_messages c' = (said <$> cv_messages c) ++ [("assistant", content)].
Proof.
  intros Hacc Hio Hid Hnow Hc Hcalls H.
  destruct (io_cache io Hio id c Hc) as [_ Hnamed].
  assert (b = true) as ->.
  { unfold append_and_persist, mbind, ST_bind in H. rewrite cached_or_loaded_eq in H.
    rewrite (lookup_convo_cached id c io Hc), decide_False in H by by eapply named_nonempty.
    unfold lift in H.
    destruct (append_message_unlocked now c "assistant" content tokens extra) as [[c'|]| |] eqn:Ha;
      [|exfalso|done..].
    - pose proof Ha as [Hok Hid']%append_message_ok; [|done|apply Hnamed].
      destruct Hnamed as [_ Hcid].
      destruct (Hacc c' (storage_ io)) as [s' Hs']; [by apply ok_storable; [|rewrite Hid', Hcid]|].
      unfold persist_conversation, st_catch, provider_call in H. rewrite Hs' in H.
      by injection H as <- <-.
    - unfold append_message_unlocked in Ha.
      change (is_valid_role (canonicalize_role "assistant")) with true in Ha. simpl in Ha.
      destruct Hcalls as [Hne|Hsome].
      + rewrite (bool_decide_false (content = "")) in Ha by done. simpl in Ha. by case_decide.
      + rewrite (bool_decide_true (is_Some _)), andb_false_r in Ha by done. by case_decide. }
  destruct (keeps_append_and_persist ok_storable now id "assistant" content tokens extra
    Hid Hnow io Hio) as [Hio' _].
  rewrite H in Hio'. split; [done|].
  apply append_and_persist_spec in H as [_ H]; [|done..].
  destruct H as (c0 & Hl & _ & _ & Hcache & _); [done|].
  rewrite (lookup_convo_cached id c io Hc) in Hl. injection Hl as <-.
  eexists. split; [done|]. simpl. rewrite fmap_app. done.
Qed.
(** What the history gets of an answer. *)
Definition turn_of (content : string) (calls : list json) : list (string * string) :=
  if decide (content = "" ∧ calls = []) then [] else [("assistant", content)].

Section complete.
Context (parse : string → exc json) (dump : json → exc string).
Context (uuid : nat → string) (latency : Z).

Lemma complete_spec now req request response id c (io : SessionIO St) reply io' :
  accepting → io_ok io → nameable id → is_long now → convo_cache_ io !! id = Some c →
  find request "convo_id" = Some (JString id) →
  find request "mode" = Some (JString "user_conversation") →
  complete parse dump uuid latency now req request response io = (Ok reply, io') →
  ∃ calls fields c', normalized_tool_calls parse dump uuid response = Ok calls ∧
    conversation_fields request = Ok fields ∧
    reply = JObject (
      [("message_type", JString "LLM_RESPONSE"); ("status", JString "ok");
       ("request_id", JString (request_id req)); ("tree_id", JString (tree_id req));
       ("mode", JString "user_conversation"); ("latency_ms", JInt latency)] ++
      fields ++ answer_fields response calls) ∧
    io_ok io' ∧ convo_cache_ io' !! id = Some c' ∧
    said <$> cv_messages c' = (said <$> cv_messages c) ++ turn_of (rs_content response) calls.
Proof.
  intros Hacc Hio Hid Hnow Hc Hrid Hmode H. destruct (io_cache io Hio id c Hc) as [_ Hnamed].
  assert (id ≠ "") as Hne.
  { pose proof (named_nonempty id c Hnamed). destruct Hnamed as [_ <-]. done. }
  apply st_bind_Ok_inv in H as (mode & ? & [Hm ->]%st_lift_Ok_inv & H).
  rewrite (value_string_find _ _ _ _ Hmode) in Hm. injection Hm as <-.
  apply st_bind_Ok_inv in H as (calls & ? & [Hcalls ->]%st_lift_Ok_inv & H).
  apply st_bind_Ok_inv in H as (used & ? & [_ ->]%st_lift_Ok_inv & H).
  change (is_conversation_mode "user_conversation") with true in H. cbn [andb] in H.
  apply st_bind_Ok_inv in H as (b1 & io1 & H1 & H).
  apply st_bind_Ok_inv in H as (b2 & io2 & H2 & H).
  apply st_bind_Ok_inv in H as (fields & ? & [Hf ->]%st_lift_Ok_inv & H).
  unfold mret, ST_ret in H. injection H as <- <-. exists calls, fields.
  assert (io_ok io2 ∧ ∃ c', convo_cache_ io2 !! id = Some c' ∧
    said <$> cv_messages c' = (said <$> cv_messages c) ++ turn_of (rs_content response) calls)
    as (Hio2 & c' & Hl & Hs); [|by exists c'].
  unfold turn_of. destruct calls as [|call calls]; simpl in H1, H2.
  - unfold mret, ST_ret in H1. injection H1 as _ <-.
    destruct (decide (rs_content response = "")) as [He|Hn].
    + rewrite decide_True by done. rewrite bool_decide_true in H2 by done. simpl in H2.
      unfold mret, ST_ret in H2. injection H2 as _ <-. split; [done|]. exists c.
      by rewrite app_nil_r.
    + rewrite decide_False by tauto. rewrite bool_decide_false in H2 by done. simpl in H2.
      unfold persist_assistant_response in H2. rewrite decide_False in H2 by done.
      unfold lift, mbind, ST_bind in H2.
      rewrite (value_string_find _ _ _ _ Hmode), (value_string_find _ _ _ _ Hrid) in H2.
      simpl in H2. rewrite decide_False in H2 by done.
      eapply append_accepted in H2; eauto.
  - rewrite decide_False by (by intros [_ ?]). rewrite andb_false_r in H2. simpl in H2.
    unfold mret, ST_ret in H2. injection H2 as _ <-.
    unfold persist_assistant_tool_call, lift, mbind, ST_bind in H1.
    rewrite (value_string_find _ _ _ _ Hmode), (value_string_find _ _ _ _ Hrid) in H1.
    simpl in H1. rewrite decide_False in H1 by done.
    eapply append_accepted in H1; eauto.
Qed.
End complete.
(** *** A served turn, and one that is not *)

Section serving.
Context (parse : string → exc json) (dump : json → exc string) (clock : nat → Z).
Context (openssl : bool).
Context (http_post : HttpRequest → option (Z * string)) (http_stream : HttpRequest → transport).
Context (uuid : nat → string) (latency : Z) (schemas : json) (needing : gset string).
Context (cfg : SchedulerConfig).

Lemma provider_request_said tree_id request request' sent l :
  find request "messages" = Some (JArray l) → Forall (λ m, is_object m = true) l →
  provider_request dump schemas cfg tree_id request = Ok (request', sent) →
  (∀ key, key ∉ ["max_tokens"; "sampling_params"] → find request' key = find request key) ∧
  ∃ l', cr_messages sent = JArray l' ∧
    said <$> l' = filter (λ p, p.1 = "system") (said <$> l) ++
                  filter (λ p, p.1 ≠ "system") (said <$> l).
Proof.
  intros Hm Hl (r & Hclamp & H)%exc_bind_Ok_inv.
  assert (∀ key, key ∉ ["max_tokens"; "sampling_params"] → find r key = find request key) as Hf.
  { intros key Hkey. by eapply clamp_find. }
  apply exc_bind_Ok_inv in H as (mode & _ & H).
  rewrite (Hf "messages"), Hm in H by by apply (bool_decide_unpack _).
  apply exc_bind_Ok_inv in H as (m & [= <-] & H). apply exc_bind_Ok_inv in H as (q & Hq & H).
  injection H as <- <-. split; [done|].
  apply exc_bind_Ok_inv in Hq as (out & Hout & Hq).
  apply chat_messages_said in Hout as (l' & -> & Hsaid); [|done].
  exists l'. split; [|done]. by exc_run Hq.
Qed.

(** One turn. *)
Lemma session_turn_spec now now' now'' rand req id prompt override inputs c (io : SessionIO St) mode request io1
    io1' request' sent response toks reply io2 :
  accepting → io_ok io → nameable id → is_long now' → is_long now'' →
  session_request req id prompt override inputs → convo_cache_ io !! id = Some c →
  prepare_request now now' rand req io = (Ok (mode, request), io1) →
  io_ok io1' → convo_cache_ io1' !! id = convo_cache_ io1 !! id →
  provider_request dump schemas cfg (tree_id req) request = Ok (request', sent) →
  run_chat_once parse dump clock openssl http_post http_stream
    (make_adapter (sc_active_adapter cfg)) (sc_adapter_cfg cfg) sent = Ok (response, toks) →
  complete parse dump uuid latency now'' req request' response io1' = (Ok reply, io2) →
  let history := prompted prompt override (said <$> cv_messages c) ++ (said_input <$> inputs) in
  ∃ l calls c2,
    cr_messages sent = JArray l ∧ said <$> l = told (cv_user_id c) prompt history ∧
    normalized_tool_calls parse dump uuid response = Ok calls ∧
    io_ok io2 ∧ convo_cache_ io2 !! id = Some c2 ∧
    said <$> cv_messages c2 = history ++ turn_of (rs_content response) calls ∧
    find reply "status" = Some (JString "ok") ∧ find reply "convo_id" = Some (JString id) ∧
    find reply "request_id" = Some (JString (request_id req)).
Proof.
  intros Hacc Hio Hid Hnow' Hnow'' Hreq Hc Hprep Hio1' Hsame Hpr _ Hcomp history.
  eapply prepare_open in Hprep as (-> & Hmode & Hrid & Hio1 & c1 & l & Hc1 & Hsaid1 & Hm & Hl & Hs);
    [|done..].
  eapply provider_request_said in Hpr as (Hf & l' & Hsent & Hsaid'); [|done..].
  rewrite Hc1 in Hsame.
  eapply complete_spec in Hcomp as (calls & fields & c2 & Hcalls & Hfields & -> & Hio2 & Hl2 & Hsaid2);
    [|done..| |]; [|rewrite Hf by (by apply (bool_decide_unpack _)); done..].
  destruct (io_cache io Hio id c Hc) as [_ Hn].
  destruct (io_cache io1 Hio1 id c1 Hc1) as [_ Hn1].
  exists l', calls, c2. split; [done|]. split.
  { rewrite Hsaid', Hs, (named_user id c c1), Hsaid1 by done. done. }
  split; [done|]. split; [done|]. split; [done|]. split; [by rewrite Hsaid2, Hsaid1|].
  split; [done|]. split; [|done]. simpl.
  unfold conversation_fields in Hfields.
  rewrite (value_string_find request' "convo_id" id) in Hfields; [by exc_run Hfields|].
  rewrite Hf by (by apply (bool_decide_unpack _)). done.
Qed.

(** A reply promises a compaction only where one is enqueued for the conversation, or already
    waits there. *)
Lemma promised_compaction now now' now'' rand current req (io : SessionIO St) response id usage io' :
  run_request parse dump clock openssl http_post http_stream uuid latency parse_file read_file
    regex_search skills_menu storage_path_ schemas needing cfg now now' now'' rand current req io
    = (Ok (response, Some (id, usage)), io') →
  ∃ item, queued_compaction cfg (Some (id, usage)) = Some item ∧ qi_session_id item = id.
Proof.
  intros ([mode request] & io1 & _ & H)%st_bind_Ok_inv.
  apply st_bind_Ok_inv in H as (r & io2 & _ & H). destruct (is_conversation_mode mode); [|done].
  apply st_bind_Ok_inv in H as (status & ? & [_ ->]%st_lift_Ok_inv & H).
  apply st_bind_Ok_inv in H as (convo_id & ? & [_ ->]%st_lift_Ok_inv & H).
  case_decide as Hne; [done|]. apply st_bind_Ok_inv in H as (u & io3 & Hfull & H).
  destruct u as [u|]; [|done].
  apply st_bind_Ok_inv in H as (r' & ? & [_ ->]%st_lift_Ok_inv & H).
  unfold mret, ST_ret in H. injection H as _ -> -> _.
  apply st_bind_Ok_inv in Hfull as (u & io4 & _ & H). case_decide as Hmax; [|done].
  cbv zeta in H. unfold mret, ST_ret in H.
  destruct (SFleb _ _) eqn:Hle in H; [|done]. injection H as -> _.
  simpl. unfold compaction_wanted. rewrite decide_False by (intros [?|?]; [done|lia]).
  assert (below_threshold usage (auto_compact_threshold cfg) = false) as ->; [|by eexists].
  unfold below_threshold. apply d_leb_ltb in Hle.
  destruct (auto_compact_threshold cfg) as [[]|[]| |[]]; try exact Hle.
  by destruct (d_div _ _) as [[]|[]| |[]].
Qed.
(** A turn of a session: the system prompt of the request, and whether it replaces the one
    there is; its inputs; what the provider was told, and what the session got of the answer,
    for a request that was answered. *)
Record Turn := {
  t_prompt : string;
  t_override : bool;
  t_inputs : list (string * string);
  t_asked : option (list (string * string));
  t_answer : list (string * string);
}.

(** What the operations on other conversations may do in the meantime. *)
Definition elsewhere (id : string) (io io' : SessionIO St) : Prop :=
  io_ok io' ∧ convo_cache_ io' !! id = convo_cache_ io !! id.

(** A request that is answered, and one whose messages are built and that ends in an exception
    then: the provider fails, or a retry has superseded it. *)
Inductive served (id : string) (io : SessionIO St) (turn : Turn) (io2 : SessionIO St) : Prop :=
  | served_intro now now' now'' rand req prompt override inputs mode request io1 io1' request'
      sent l response toks calls reply :
      is_long now' → is_long now'' → session_request req id prompt override inputs →
      prepare_request now now' rand req io = (Ok (mode, request), io1) →
      elsewhere id io1 io1' →
      provider_request dump schemas cfg (tree_id req) request = Ok (request', sent) →
      cr_messages sent = JArray l →
      run_chat_once parse dump clock openssl http_post http_stream
        (make_adapter (sc_active_adapter cfg)) (sc_adapter_cfg cfg) sent = Ok (response, toks) →
      normalized_tool_calls parse dump uuid response = Ok calls →
      complete parse dump uuid latency now'' req request' response io1' = (Ok reply, io2) →
      turn = {| t_prompt := prompt; t_override := override; t_inputs := said_input <$> inputs;
                t_asked := Some (said <$> l);
                t_answer := turn_of (rs_content response) calls |} →
      served id io turn io2
  | served_failed now now' rand req prompt override inputs mode request (superseded : bool) :
      is_long now' → session_request req id prompt override inputs →
      prepare_request now now' rand req io = (Ok (mode, request), io2) →
      superseded = true ∨ (∃ what, infer parse dump clock openssl http_post http_stream schemas
        cfg (tree_id req) request = Throw what) →
      turn = {| t_prompt := prompt; t_override := override; t_inputs := said_input <$> inputs;
                t_asked := None; t_answer := [] |} →
      served id io turn io2.

Inductive session_run (id : string) : SessionIO St → list Turn → SessionIO St → Prop :=
  | run_done io io' : elsewhere id io io' → session_run id io [] io'
  | run_turn io io1 turn io2 turns io3 :
      elsewhere id io io1 → served id io1 turn io2 → session_run id io2 turns io3 →
      session_run id io (turn :: turns) io3.

(** What the session says once the inputs of a turn are in it, and after the turn. *)
Definition with_inputs (history : list (string * string)) (turn : Turn) : list (string * string) :=
  prompted (t_prompt turn) (t_override turn) history ++ t_inputs turn.
Definition after_turn (history : list (string * string)) (turn : Turn) : list (string * string) :=
  with_inputs history turn ++ t_answer turn.

Lemma served_turn id io turn io2 c :
  accepting → io_ok io → nameable id → convo_cache_ io !! id = Some c → served id io turn io2 →
  io_ok io2 ∧ (∃ c2, convo_cache_ io2 !! id = Some c2 ∧
    said <$> cv_messages c2 = after_turn (said <$> cv_messages c) turn) ∧
  ∀ asked, t_asked turn = Some asked →
    asked = told (cv_user_id c) (t_prompt turn) (with_inputs (said <$> cv_messages c) turn).
Proof.
  intros Hacc Hio Hid Hc [now now' now'' rand req prompt override inputs mode request io1 io1'
    request' sent l response toks calls reply Hn' Hn'' Hreq Hprep [Hok' Hsame'] Hpr Hl Hchat
    Hcalls Hcomp ->|now now' rand req prompt override inputs mode request superseded Hn' Hreq
    Hprep _ ->].
  - eapply (session_turn_spec now now' now'' rand req id prompt override inputs c io mode request
      io1) in Hcomp as (l' & calls' & c2 & Hl' & Hasked & Hcalls' & Hok2 & Hc2 & Hsaid & _);
      [|done..].
    rewrite Hl in Hl'. injection Hl' as <-. rewrite Hcalls in Hcalls'. injection Hcalls' as <-.
    split; [done|]. split; [by exists c2|]. by intros asked [= <-].
  - eapply prepare_open in Hprep as (_ & _ & _ & Hio1 & c1 & _ & Hc1 & Hsaid1 & _); [|done..].
    split; [done|]. split; [|done]. exists c1. split; [done|]. unfold after_turn.
    by rewrite app_nil_r.
Qed.

Lemma after_turns_plain turns : Forall (λ t, t_prompt t = "") turns → ∀ history,
  foldl after_turn history turns =
    history ++ concat ((λ t, t_inputs t ++ t_answer t) <$> turns).
Proof.
  induction 1 as [|turn turns Ht _ IH]; intros history; simpl; [by rewrite app_nil_r|].
  rewrite IH. unfold after_turn, with_inputs, prompted. rewrite decide_True by done.
  by rewrite <-!(assoc_L (++)).
Qed.

(** C3 A session is the sequence of its turns.  Take any number of the handler's requests in an open
    session, each with its inputs, a system prompt or none, and no messages of its own, whose
    messages are built and which are then answered or not (the provider fails, or a retry has
    superseded the request), with whatever other sessions do between and during them.  Each
    turn adds to what the session says its inputs and then its answer, in order and exactly
    once, the inputs alone where it is not answered; a system prompt takes the place of the
    system's messages when it is to replace them and is otherwise added to an empty history
    only.  In each answered turn the provider was told all of what the session said until
    then and the inputs of the turn, the system's messages first, after the layered prompt
    where there are none.  The session is in the cache, the storage takes what it can represent,
    and each stage of a turn returned. *)
Theorem session_is_its_turns id io turns io' c :
  accepting → nameable id → io_ok io → convo_cache_ io !! id = Some c →
  session_run id io turns io' →
  (∃ c', convo_cache_ io' !! id = Some c' ∧
     said <$> cv_messages c' = foldl after_turn (said <$> cv_messages c) turns) ∧
  (Forall (λ t, t_prompt t = "") turns →
     foldl after_turn (said <$> cv_messages c) turns =
       (said <$> cv_messages c) ++ concat ((λ t, t_inputs t ++ t_answer t) <$> turns)) ∧
  ∀ before turn after asked, turns = before ++ turn :: after → t_asked turn = Some asked →
    asked = told (cv_user_id c) (t_prompt turn)
      (with_inputs (foldl after_turn (said <$> cv_messages c) before) turn).
Proof.
  intros Hacc Hid Hio Hc Hrun. cut
    ((∃ c', convo_cache_ io' !! id = Some c' ∧
       said <$> cv_messages c' = foldl after_turn (said <$> cv_messages c) turns) ∧
     ∀ before turn after asked, turns = before ++ turn :: after → t_asked turn = Some asked →
       asked = told (cv_user_id c) (t_prompt turn)
         (with_inputs (foldl after_turn (said <$> cv_messages c) before) turn)).
  { intros [H1 H2]. split_and!; [done| |done]. intros Hplain. by apply after_turns_plain. }
  revert c Hio Hc.
  induction Hrun as [io io' [Hok Hsame]|io io1 turn io2 turns io3 [Hok Hsame] Hserved _ IH];
    intros c Hio Hc.
  { rewrite Hc in Hsame. split; [by exists c|]. by intros [|??]. }
  rewrite Hc in Hsame.
  destruct (served_turn id io1 turn io2 c Hacc Hok Hid Hsame Hserved)
    as (Hok2 & (c2 & Hc2 & Hsaid) & Hasked).
  destruct (IH c2 Hok2 Hc2) as [(c3 & Hc3 & Hsaid3) Hall].
  destruct (io_cache io Hio id c Hc) as [_ Hnamed].
  destruct (io_cache io2 Hok2 id c2 Hc2) as [_ Hnamed2]. rewrite Hsaid in Hsaid3.
  split; [by exists c3|].
  intros [|turn0 before] turn' after asked Heq Ha; injection Heq as <- Heq; [by apply Hasked|].
  rewrite (Hall before turn' after asked Heq Ha), (named_user id c2 c), Hsaid by done. done.
Qed.

Lemma infer_provider tree_id request request' sent answer :
  provider_request dump schemas cfg tree_id request = Ok (request', sent) →
  run_chat_once parse dump clock openssl http_post http_stream
    (make_adapter (sc_active_adapter cfg)) (sc_adapter_cfg cfg) sent = Ok answer →
  infer parse dump clock openssl http_post http_stream schemas cfg tree_id request =
    Ok (request', answer).
Proof. intros Hp Hr. unfold infer. rewrite Hp. simpl. by rewrite Hr. Qed.

Abbreviation infer_request :=
  (infer parse dump clock openssl http_post http_stream schemas cfg).
Abbreviation run :=
  (run_request parse dump clock openssl http_post http_stream uuid latency parse_file read_file
     regex_search skills_menu storage_path_ schemas needing cfg).

(** An attempt that does not get to its answer leaves what was prepared. *)
Lemma failed_run now now' now'' rand current req (io : SessionIO St) request io1 :
  prepare_request now now' rand req io = (Ok ("user_conversation", request), io1) →
  (∀ w, infer_request (tree_id req) request = Throw w →
     run now now' now'' rand current req io = (Throw w, io1)) ∧
  (∀ answer, infer_request (tree_id req) request = Ok answer →
     run now now' now'' rand false req io =
       (Throw "[json.exception.type_error.306] cannot use value() with null", io1)).
Proof.
  intros Hp. unfold run_request, process_llm_request_stateless, lift, mbind, ST_bind. rewrite Hp.
  split; [by intros w ->|]. intros (request' & response & toks) ->. done.
Qed.

(** A request that fails in the provider, or is superseded while the provider answers, has
    already said its inputs in the session: it is answered by an exception - the superseded one
    as well, whose null response is read as an object -, and when the client sends the same
    inputs again the provider is told them twice. *)
Lemma retry_repeats_input now1 now2 now3 rand req current id override inputs c (io : SessionIO St) mode
    request io1 now4 now5 rand' req' io1' mode' request' io2 request'' sent :
  io_ok io → nameable id → is_long now2 → is_long now5 →
  session_request req id "" override inputs → session_request req' id "" override inputs →
  convo_cache_ io !! id = Some c →
  prepare_request now1 now2 rand req io = (Ok (mode, request), io1) →
  (∃ w, infer_request (tree_id req) request = Throw w) ∨
    (∃ answer, infer_request (tree_id req) request = Ok answer) ∧ current = false →
  io_ok io1' → convo_cache_ io1' !! id = convo_cache_ io1 !! id →
  prepare_request now4 now5 rand' req' io1' = (Ok (mode', request'), io2) →
  provider_request dump schemas cfg (tree_id req') request' = Ok (request'', sent) →
  (∃ what, run now1 now2 now3 rand current req io = (Throw what, io1)) ∧
  ∃ l, cr_messages sent = JArray l ∧
    said <$> l = told (cv_user_id c) ""
      ((said <$> cv_messages c) ++ (said_input <$> inputs) ++ (said_input <$> inputs)).
Proof.
  intros Hio Hid Hnow2 Hnow5 Hreq Hreq' Hc Hprep Hfail Hio1' Hsame Hprep' Hpr.
  pose proof Hprep as Hprep0.
  eapply prepare_open in Hprep0 as (-> & _ & _ & Hio1 & c1 & _ & Hc1 & Hsaid1 & _); [|done..].
  split.
  { destruct (failed_run now1 now2 now3 rand current req io request io1 Hprep) as [Hthrow Hstale].
    destruct Hfail as [[w Hw]|[[a Ha] ->]]; eexists; [by apply Hthrow|by eapply Hstale]. }
  rewrite Hc1 in Hsame.
  eapply prepare_open in Hprep' as (-> & _ & _ & Hio2 & c2 & l & Hc2 & Hsaid2 & Hm & Hl & Hs);
    [|done..].
  eapply provider_request_said in Hpr as (_ & l' & Hsent & Hsaid'); [|done..].
  exists l'. split; [done|].
  destruct (io_cache io Hio id c Hc) as [_ Hn]. destruct (io_cache io2 Hio2 id c2 Hc2) as [_ Hn2].
  rewrite Hsaid', Hs, (named_user id c c2), Hsaid2, Hsaid1 by done.
  unfold told, prompted. rewrite !(decide_True (P := "" = "")) by done.
  by rewrite <-!(assoc_L (++)).
Qed.
End serving.
End turns.
