(* ===== verification/Paths.v ===== *)
(** * Paths as text

    The operations of [std::filesystem::path] on POSIX that the services use, on the text of
    the path. *)

From Stdlib Require Import Ascii.
From S2P Require Import Prelude StringUtils.

(** [fs::path(a) / b] *)
Definition path_join (a b : string) : string :=
  if starts_with b "/" then b
  else if decide (a = "") then b
  else if ends_with a "/" then a +:+ b
  else a +:+ "/" +:+ b.

(** The names between the separators. *)
Definition components (s : string) : list string := filter (λ c, c ≠ "") (split s "/").

(** One name of [lexically_normal]: the names that are left, the last one first, and whether
    the last one took a separator with it. *)
Definition norm_step (root : bool) (acc : list string * bool) (c : string) : list string * bool :=
  if decide (c = ".") then (acc.1, true)
  else if decide (c = "..") then
    match acc.1 with
    | [] => if root then ([], true) else ([".."], false)
    | x :: rest => if decide (x = "..") then (".." :: acc.1, false) else (rest, true)
    end
  else (c :: acc.1, false).

Definition normal_names (root : bool) (names : list string) : list string * bool :=
  foldl (norm_step root) ([], false) names.

Definition lexically_normal (s : string) : string :=
  if decide (s = "") then ""
  else
    let root := starts_with s "/" in
    let '(acc, trail) := normal_names root (components s) in
    let body := join (rev acc) "/" in
    let text := (if root then "/" else "") +:+ body +:+
      (if (trail || ends_with s "/") && bool_decide (acc ≠ []) && bool_decide (head acc ≠ Some "..")
       then "/" else "") in
    if decide (text = "") then "." else text.

Fixpoint drop_slashes (s : string) : string :=
  match s with
  | EmptyString => ""
  | String c s =>
      let s := drop_slashes s in
      if decide (c = "/"%char ∧ s = "") then "" else String c s
  end.

(** What is before the last separator. *)
Definition parent_path (s : string) : string :=
  match rfind_char "/" s with
  | Some (before, _) => let p := drop_slashes before in
                        if decide (p = "") then "/" else p
  | None => ""
  end.

(** What is behind it. *)
Definition filename (s : string) : string :=
  match rfind_char "/" s with Some (_, name) => name | None => s end.

Example normal_dot : lexically_normal "tools/x/." = "tools/x/". Proof. done. Qed.
Example normal_up : lexically_normal "/a/./b/../../c" = "/c". Proof. done. Qed.
Example normal_root : lexically_normal "/../a" = "/a". Proof. done. Qed.
Example normal_nothing : lexically_normal "a/.." = ".". Proof. done. Qed.
Example normal_parent : lexically_normal "../" = "..". Proof. done. Qed.

(** ** Normal names *)

Lemma Forall_one {A} (P : A → Prop) x : Forall P [x] → P x.
Proof. by inversion 1. Qed.

(** No dot, and dot-dots only where there is no root, at the start. *)
Definition normal_list (root : bool) (names : list string) : Prop :=
  ∃ ups rest, names = ups ++ rest ∧ Forall (λ c, c = "..") ups ∧
    Forall (λ c, c ≠ "" ∧ c ≠ "." ∧ c ≠ "..") rest ∧ (root = true → ups = []).

Lemma normal_names_spec root names :
  Forall (λ c, c ≠ "") names → normal_list root (rev (normal_names root names).1).
Proof.
  intros Hne. unfold normal_names. induction names as [|c names IH] using rev_ind.
  { exists [], []. by split_and!. }
  apply Forall_app in Hne as [Hne Hc]. apply Forall_one in Hc.
  destruct (IH Hne) as (ups & rest & E & Hups & Hrest & Hroot). clear IH.
  rewrite foldl_app. cbn [foldl]. destruct (foldl _ _ names) as [acc trail]. simpl in E.
  unfold norm_step. simpl. case_decide as Hdot; [by exists ups, rest|].
  case_decide as Hup.
  - destruct acc as [|x acc].
    + symmetry in E. apply app_eq_nil in E as [-> ->].
      destruct root; [by exists [], []|]. exists [".."], []. by split_and!; [|repeat constructor..|].
    + simpl in E. destruct rest as [|y rest _] using rev_ind.
      * rewrite app_nil_r in E. subst ups. apply Forall_app in Hups as [Hups Hx].
        apply Forall_one in Hx. simpl in Hx. subst x. rewrite decide_True by done.
        exists ((rev acc ++ [".."]) ++ [".."]), []. rewrite app_nil_r. simpl. split_and!; [done| |done|].
        -- apply Forall_app. split; [apply Forall_app; split; [done|]|]; by repeat constructor.
        -- intros Hr. specialize (Hroot Hr). by destruct (rev acc).
      * rewrite app_assoc in E. apply app_inj_tail in E as [E ->].
        apply Forall_app in Hrest as [Hrest Hy%Forall_one].
        rewrite decide_False by apply Hy. by exists ups, rest.
  - exists ups, (rest ++ [c]). simpl. rewrite E, <-app_assoc. split_and!; [done..| |done].
    apply Forall_app. split; [done|]. by repeat constructor.
Qed.

Lemma rev_eq_nil {A} (l : list A) : rev l = [] → l = [].
Proof. intros H. rewrite <-(rev_involutive l). by rewrite H. Qed.

(** Names that are normal stay as they are. *)
Lemma normal_names_id root names :
  normal_list root names → (normal_names root names).1 = rev names.
Proof.
  intros (ups & rest & -> & Hups & Hrest & Hroot). unfold normal_names. rewrite foldl_app.
  assert (foldl (norm_step root) ([], false) ups = (rev ups, false)) as ->.
  { destruct root; [by rewrite Hroot|]. clear Hroot.
    induction ups as [|c ups IH] using rev_ind; [done|].
    apply Forall_app in Hups as [Hups ->%Forall_one].
    rewrite foldl_app, IH, rev_app_distr by done. simpl. unfold norm_step. simpl.
    destruct ups as [|c ups _] using rev_ind; [done|].
    apply Forall_app in Hups as [_ ->%Forall_one]. by rewrite rev_app_distr. }
  rewrite rev_app_distr. generalize (rev ups) false. induction Hrest as [|c rest Hc _ IH];
    intros acc trail; [done|].
  cbn [foldl rev]. unfold norm_step at 2. rewrite !decide_False by apply Hc. simpl.
  by rewrite IH, <-app_assoc.
Qed.
