(* ===== verification/EditDistance.v ===== *)
(** * The edit distance

    The table of Levenshtein's algorithm, row by row, as the file tools (file_tools.cpp) and the
    skill registry (skill_registry.cpp) fill it; they differ in what replacing a character costs.
    It computes the cost of the cheapest alignment. *)

From Stdlib Require Import Ascii.
From S2P Require Import Prelude StringUtils Paths.

Section distance.
Context (cost : ascii → ascii → Z).

(** A row of the table from the one above it: [left] and [diag] are the entries to the left and
    above that. *)
Fixpoint row_from (x : ascii) (left diag : Z) (b : list ascii) (above : list Z) : list Z :=
  match b, above with
  | y :: b, up :: above =>
      let entry := Z.min (Z.min (up + 1) (left + 1)) (diag + cost x y) in
      entry :: row_from x entry up b above
  | _, _ => []
  end.

Definition next_row (x : ascii) (b : list ascii) (above : list Z) : list Z :=
  match above with
  | diag :: above => (diag + 1) :: row_from x (diag + 1) diag b above
  | [] => []
  end.

Definition first_row (b : list ascii) : list Z := Z.of_nat <$> seq 0 (length b + 1).

(** The rows for the characters that have been read, one after the other. *)
Definition last_row (a b : list ascii) : list Z := foldl (λ row x, next_row x b row) (first_row b) a.

(** ** What the table computes *)

(** An alignment of two names: characters that are dropped, added, or put in each other's
    place. *)
Inductive Edit := Drop (x : ascii) | Add (y : ascii) | Put (x y : ascii).

Definition edit_source (e : Edit) : list ascii :=
  match e with Drop x | Put x _ => [x] | Add _ => [] end.
Definition edit_target (e : Edit) : list ascii :=
  match e with Add y | Put _ y => [y] | Drop _ => [] end.
Definition edit_cost (e : Edit) : Z := match e with Put x y => cost x y | _ => 1 end.

Definition edits_cost (es : list Edit) : Z := foldr (λ e n, edit_cost e + n) 0 es.
Definition aligns (es : list Edit) (a b : list ascii) : Prop :=
  mjoin (edit_source <$> es) = a ∧ mjoin (edit_target <$> es) = b.

(** The distance by recursion on the last characters, which come first here. *)
Fixpoint dist (a : list ascii) : list ascii → Z :=
  match a with
  | [] => λ b, Z.of_nat (length b)
  | x :: a =>
      fix go (b : list ascii) : Z :=
        match b with
        | [] => Z.of_nat (length a) + 1
        | y :: b => Z.min (Z.min (dist a (y :: b) + 1) (go b + 1)) (dist a b + cost x y)
        end
  end.

Lemma dist_nil_r a : dist a [] = Z.of_nat (length a).
Proof. destruct a; simpl; lia. Qed.

Lemma dist_cons x a y b : dist (x :: a) (y :: b) =
  Z.min (Z.min (dist a (y :: b) + 1) (dist (x :: a) b + 1)) (dist a b + cost x y).
Proof. done. Qed.

(** A row of the table holds the distances from what has been read. *)
Definition row_of (a : list ascii) (b : list ascii) : list Z :=
  (λ j, dist a (rev (take j b))) <$> seq 0 (length b + 1).

Lemma row_from_dist x a b0 b left diag :
  left = dist (x :: a) (rev b0) → diag = dist a (rev b0) →
  row_from x left diag b ((λ j, dist a (rev (b0 ++ take j b))) <$> seq 1 (length b)) =
  (λ j, dist (x :: a) (rev (b0 ++ take j b))) <$> seq 1 (length b).
Proof.
  revert b0 left diag. induction b as [|y b IH]; intros b0 left diag Hl Hd; [done|].
  cbn [length seq fmap list_fmap row_from]. cbn [take].
  rewrite !firstn_O, !rev_app_distr. cbn [rev app]. rewrite dist_cons, <-Hl, <-Hd. f_equal.
  rewrite <-(fmap_S_seq 1), <-!list_fmap_compose. unfold compose. cbn [take].
  assert (∀ j, b0 ++ y :: take j b = (b0 ++ [y]) ++ take j b) as Hassoc.
  { intros j. by rewrite <-app_assoc. }
  setoid_rewrite Hassoc. rewrite IH; [done| |].
  - rewrite rev_app_distr. cbn [rev app]. by rewrite dist_cons, <-Hl, <-Hd.
  - by rewrite rev_app_distr.
Qed.

Lemma next_row_dist x a b : next_row x b (row_of a b) = row_of (x :: a) b.
Proof.
  unfold row_of. rewrite Nat.add_1_r. cbn [seq fmap list_fmap next_row].
  rewrite !firstn_O. cbn [rev]. rewrite dist_nil_r. f_equal.
  apply (row_from_dist x a [] b); simpl; [lia|by rewrite dist_nil_r].
Qed.

Lemma first_row_dist b : first_row b = row_of [] b.
Proof.
  unfold first_row, row_of. apply list_fmap_ext. intros i j Hj. apply lookup_seq in Hj as [-> Hi].
  simpl. rewrite length_rev, length_take. f_equal. lia.
Qed.

(** The table ends in the distance by recursion. *)
Lemma last_row_dist a b : last_row a b = row_of (rev a) b.
Proof.
  unfold last_row. rewrite first_row_dist. change (row_of [] b) with (row_of (rev []) b).
  change a with ([] ++ a) at 2. generalize (@nil ascii).
  induction a as [|x l IH]; intros l0; [by rewrite app_nil_r|].
  cbn [foldl]. rewrite next_row_dist. change (x :: rev l0) with (rev [x] ++ rev l0).
  rewrite <-rev_app_distr, IH, <-app_assoc. done.
Qed.

Lemma last_row_last a b : List.last (last_row a b) 0 = dist (rev a) (rev b).
Proof.
  rewrite last_row_dist. unfold row_of. rewrite Nat.add_1_r, seq_S, fmap_app. simpl.
  rewrite List.last_last. by rewrite firstn_all.
Qed.

Lemma edits_cost_app es es' : edits_cost (es ++ es') = edits_cost es + edits_cost es'.
Proof. unfold edits_cost. induction es as [|e es IH]; simpl; [done|]. rewrite IH. lia. Qed.

Lemma aligns_app es es' a a' b b' :
  aligns es a b → aligns es' a' b' → aligns (es ++ es') (a ++ a') (b ++ b').
Proof. unfold aligns. intros [<- <-] [<- <-]. by rewrite !fmap_app, !join_app. Qed.

Lemma aligns_drops a : ∃ es, aligns es a [] ∧ edits_cost es = Z.of_nat (length a).
Proof.
  induction a as [|x a (es & Hes & Hc)]; [by exists []|].
  exists (Drop x :: es). split; [by apply (aligns_app [Drop x] es [x] a [] [])|]. simpl. lia.
Qed.

Lemma aligns_adds b : ∃ es, aligns es [] b ∧ edits_cost es = Z.of_nat (length b).
Proof.
  induction b as [|y b (es & Hes & Hc)]; [by exists []|].
  exists (Add y :: es). split; [by apply (aligns_app [Add y] es [] [] [y] b)|]. simpl. lia.
Qed.

(** There is an alignment of that cost. *)
Lemma dist_reached a b : ∃ es, aligns es (rev a) (rev b) ∧ edits_cost es = dist a b.
Proof.
  revert b. induction a as [|x a IHa]; intros b.
  { simpl. destruct (aligns_adds (rev b)) as (es & ? & ?). exists es. by rewrite <-length_rev. }
  induction b as [|y b IHb].
  { rewrite dist_nil_r, <-length_rev. apply aligns_drops. }
  rewrite dist_cons. cbn [rev].
  destruct (Z.min_spec (Z.min (dist a (y :: b) + 1) (dist (x :: a) b + 1)) (dist a b + cost x y))
    as [[_ ->]|[_ ->]].
  - destruct (Z.min_spec (dist a (y :: b) + 1) (dist (x :: a) b + 1)) as [[_ ->]|[_ ->]].
    + destruct (IHa (y :: b)) as (es & Hes & <-). exists (es ++ [Drop x]). split.
      * rewrite <-(app_nil_r (rev b ++ [y])). by apply aligns_app.
      * rewrite edits_cost_app. done.
    + destruct IHb as (es & Hes & <-). exists (es ++ [Add y]). split.
      * rewrite <-(app_nil_r (rev a ++ [x])). by apply aligns_app.
      * rewrite edits_cost_app. done.
  - destruct (IHa b) as (es & Hes & <-). exists (es ++ [Put x y]). split; [by apply aligns_app|].
    rewrite edits_cost_app. simpl. lia.
Qed.

(** One more character on either side changes the distance by one at most. *)
Lemma dist_steps a b x :
  dist (x :: a) b ≤ dist a b + 1 ∧ dist a (x :: b) ≤ dist a b + 1.
Proof.
  split.
  - destruct b as [|y b]; [rewrite !dist_nil_r; simpl; lia|]. rewrite dist_cons. lia.
  - destruct a as [|y a]; [simpl; lia|]. rewrite dist_cons. lia.
Qed.

(** And no alignment costs less. *)
Lemma dist_least es : ∀ a b, aligns es (rev a) (rev b) → dist a b ≤ edits_cost es.
Proof.
  induction es as [|e es IH] using rev_ind; intros a b [Ha Hb].
  - simpl in *. symmetry in Ha, Hb. apply rev_eq_nil in Ha as ->. apply rev_eq_nil in Hb as ->. done.
  - rewrite fmap_app, join_app in Ha, Hb. rewrite edits_cost_app.
    assert (∀ (l l' : list ascii) x, l ++ [x] = rev l' → ∃ l'', l' = x :: l'' ∧ l = rev l'') as Hsnoc.
    { intros l l' x Hl. destruct l' as [|z l']; simpl in Hl; [by destruct l|].
      apply app_inj_tail in Hl as [-> ->]. eauto. }
    destruct e as [x|y|x y]; simpl in Ha, Hb; try rewrite app_nil_r in Ha; try rewrite app_nil_r in Hb.
    + apply Hsnoc in Ha as (a' & -> & Ha). pose proof (dist_steps a' b x).
      specialize (IH a' b (conj Ha Hb)). change (edits_cost [Drop x]) with 1. lia.
    + apply Hsnoc in Hb as (b' & -> & Hb). pose proof (dist_steps a b' y).
      specialize (IH a b' (conj Ha Hb)). change (edits_cost [Add y]) with 1. lia.
    + apply Hsnoc in Ha as (a' & -> & Ha). apply Hsnoc in Hb as (b' & -> & Hb).
      specialize (IH a' b' (conj Ha Hb)). rewrite dist_cons.
      change (edits_cost [Put x y]) with (cost x y + 0). lia.
Qed.

Context (Hcost : ∀ x y, 0 ≤ cost x y ≤ 1).

(** Names can be put over each other. *)
Lemma aligns_short a b :
  ∃ es, aligns es a b ∧ edits_cost es ≤ Z.of_nat (Nat.max (length a) (length b)).
Proof.
  revert b. induction a as [|x a IH]; intros b.
  { destruct (aligns_adds b) as (es & ? & ?). exists es. split; [done|]. simpl. lia. }
  destruct b as [|y b].
  { destruct (aligns_drops (x :: a)) as (es & ? & ?). exists es. split; [done|]. simpl in *. lia. }
  destruct (IH b) as (es & [<- <-] & Hc). exists (Put x y :: es). split; [done|].
  simpl in *. pose proof (Hcost x y). lia.
Qed.

Lemma edits_cost_nonneg es : 0 ≤ edits_cost es.
Proof.
  induction es as [|e es IH]; simpl; [done|].
  destruct e; simpl; [lia|lia|]. pose proof (Hcost x y). lia.
Qed.

Lemma last_row_spec a b :
  (∃ es, aligns es a b ∧ edits_cost es = List.last (last_row a b) 0) ∧
  (∀ es, aligns es a b → List.last (last_row a b) 0 ≤ edits_cost es) ∧
  0 ≤ List.last (last_row a b) 0 ≤ Z.of_nat (Nat.max (length a) (length b)).
Proof.
  rewrite last_row_last. destruct (dist_reached (rev a) (rev b)) as (es & Hes & Hc).
  rewrite !rev_involutive in Hes.
  assert (∀ es', aligns es' a b → dist (rev a) (rev b) ≤ edits_cost es') as Hleast.
  { intros. apply dist_least. by rewrite !rev_involutive. }
  split; [by exists es|]. split; [done|]. split.
  - rewrite <-Hc. apply edits_cost_nonneg.
  - destruct (aligns_short a b) as (es' & Hes' & Hle). etrans; [by apply Hleast|done].
Qed.
End distance.

Lemma length_list_ascii s : length (String.list_ascii_of_string s) = String.length s.
Proof. induction s as [|c s IH]; simpl; [done|]. by rewrite IH. Qed.
