(* ===== verification/FileText.v ===== *)
(** * The text of files (src/utils/file_tools.cpp)

    What the file tools do to a text: whether it is binary, its UTF-8 encoding checked and
    repaired, its lines, the distance between names, and what is around a patch. *)

From Stdlib Require Import Ascii.
From S2P Require Import Prelude StringUtils Paths EditDistance.

Local Abbreviation len := String.length.

Definition line_end : ascii := "010"%char.

(** ** Binary contents *)

Fixpoint count_nulls (s : string) : Z :=
  match s with
  | EmptyString => 0
  | String c s => (if decide (c = "000"%char) then 1 else 0) + count_nulls s
  end.

(** More than 2% null bytes among the first 8 KiB. *)
Definition is_likely_binary (data : string) : bool :=
  if decide (data = "") then false
  else
    let sample := str_take (Z.to_nat 8192) data in
    bool_decide (count_nulls sample * 100 > Z.of_nat (len sample) * 2).

(** ** UTF-8 *)

Definition masked (mask value : N) (c : ascii) : bool := (N.land (N_of_ascii c) mask =? value)%N.

(** Whether the next [n] bytes are there and are continuation bytes. *)
Fixpoint continued (n : nat) (s : string) : bool :=
  match n, s with
  | O, _ => true
  | S n, String c s => masked 0xC0 0x80 c && continued n s
  | S _, EmptyString => false
  end.

(** The length of the sequence at the start of a text, where there is one. *)
Definition sequence_length (s : string) : option nat :=
  match s with
  | EmptyString => None
  | String b rest =>
      if masked 0x80 0 b then Some 1%nat
      else if masked 0xE0 0xC0 b then if continued 1 rest then Some 2%nat else None
      else if masked 0xF0 0xE0 b then if continued 2 rest then Some 3%nat else None
      else if masked 0xF8 0xF0 b then if continued 3 rest then Some 4%nat else None
      else None
  end.

Arguments masked : simpl never.
Arguments sequence_length : simpl never.

(** The bytes that are in no sequence; [fuel] bounds the bytes that are left. *)
Fixpoint utf8_errors (fuel : nat) (s : string) : Z :=
  match fuel, s with
  | S fuel, String _ rest =>
      match sequence_length s with
      | Some n => utf8_errors fuel (str_drop n s)
      | None => 1 + utf8_errors fuel rest
      end
  | _, _ => 0
  end.

Definition validate_utf8 (data : string) : Z := utf8_errors (len data) data.

(** U+FFFD *)
Definition replacement : string := String "239" (String "191" (String "189" "")).

Fixpoint repaired (fuel : nat) (s : string) : string :=
  match fuel, s with
  | S fuel, String _ rest =>
      match sequence_length s with
      | Some n => str_take n s +:+ repaired fuel (str_drop n s)
      | None => replacement +:+ repaired fuel rest
      end
  | _, _ => ""
  end.

Definition decode_utf8_with_replacement (data : string) : string := repaired (len data) data.

(** ** Lines *)

(** [std::getline] until it fails. *)
Fixpoint get_lines (s : string) : list string :=
  match s with
  | EmptyString => []
  | String c s =>
      if decide (c = line_end) then "" :: get_lines s
      else match get_lines s with
           | [] => [String c ""]
           | l :: ls => String c l :: ls
           end
  end.

(** The lines as they are given out. *)
Definition unlines (ls : list string) : string := concat_strings ((λ l, l +:+ String line_end "") <$> ls).

(** A text that was cut is cut back to its last whole line, if there is one; and whether it
    was. *)
Definition cut_last_line (too_large : bool) (s : string) : string * bool :=
  match unsnoc s with
  | Some (_, c) =>
      if too_large && bool_decide (c ≠ line_end) then
        match rfind_char line_end s with
        | Some (before, _) => (before +:+ String line_end "", true)
        | None => (s, true)
        end
      else (s, false)
  | None => (s, false)
  end.

(** ** The distance of names *)

Definition cost (x y : ascii) : Z := if decide (tolower x = tolower y) then 0 else 1.

Definition edit_distance (a b : string) : Z :=
  let bs := String.list_ascii_of_string b in
  List.last (foldl (λ row x, next_row cost x bs row) (first_row bs) (String.list_ascii_of_string a)) 0.

Definition d_sub (x y : double) : double := SFsub d_prec d_emax x y.
Definition d_one : double := d_of_Z 1.

(** The literals 0.4 and 0.55. *)
Definition d_0_4 : double := S754_finite false 7205759403792794 (-54).
Definition d_0_55 : double := S754_finite false 4953959590107546 (-53).

Definition filename_score (candidate target : string) : double :=
  if decide (target = "") then d_zero
  else
    d_sub d_one (d_div (d_of_Z (edit_distance candidate target))
                   (d_of_Z (Z.of_nat (Nat.max (len candidate) (len target))))).

(** ** What is around a patch *)

Record PatchContext := { ctx_before : string; ctx_match : string; ctx_after : string }.

(** The last 150 bytes before the match, without the lines that it starts with. *)
Definition context_before (before : string) : string :=
  let before := str_drop (len before - 150) before in
  match rfind_char line_end before with
  | Some (front, rest) => if decide (front = "") then before else rest
  | None => before
  end.

Definition context_after (after : string) : string :=
  let after := str_take 150 after in
  match find_char line_end after with Some (front, _) => front | None => after end.

(** The content is the text before the match, the match, and the text after it. *)
Definition extract_patch_context (before found after : string) : PatchContext :=
  {| ctx_before := context_before before; ctx_match := found; ctx_after := context_after after |}.

Example utf8_good : validate_utf8 (String "195" (String "169" "a")) = 0. Proof. reflexivity. Qed.
Example utf8_bad : validate_utf8 (String "233" "a") = 1. Proof. reflexivity. Qed.
Example distance_kitten : edit_distance "kitten" "Sitting" = 3. Proof. reflexivity. Qed.
Example lines_two : get_lines ("a" +:+ String line_end (String line_end "b")) = ["a"; ""; "b"].
Proof. reflexivity. Qed.

(** ** UTF-8: the repaired text *)

Lemma str_drop_app_length s t : str_drop (len s) (s +:+ t) = t.
Proof. induction s as [|c s IH]; [by destruct t|]. by rewrite str_app_cons. Qed.

Lemma str_take_app_length s t : str_take (len s) (s +:+ t) = s.
Proof. induction s as [|c s IH]; [by destruct t|]. rewrite str_app_cons. simpl. by rewrite IH. Qed.

Lemma continued_length n s : continued n s = true → (n ≤ len s)%nat.
Proof.
  revert s. induction n as [|n IH]; intros [|c s] H; simpl in *; [lia..|done|].
  apply andb_true_iff in H as [_ H]. apply IH in H. lia.
Qed.

Lemma continued_take n m s t : (n ≤ m)%nat → (m ≤ len s)%nat →
  continued n (str_take m s +:+ t) = continued n s.
Proof.
  revert m s. induction n as [|n IH]; intros [|m] [|c s] Hn Hm; simpl in *; try done; try lia.
  by rewrite IH by lia.
Qed.

Lemma sequence_length_bound s n : sequence_length s = Some n → (1 ≤ n ≤ len s)%nat.
Proof.
  destruct s as [|b rest]; [done|]. unfold sequence_length.
  repeat case_match; intros [= <-]; simpl; try lia;
    match goal with H : continued _ _ = true |- _ => apply continued_length in H; lia end.
Qed.

(** A sequence stays one whatever follows it. *)
Lemma sequence_length_take s n t :
  sequence_length s = Some n → sequence_length (str_take n s +:+ t) = Some n.
Proof.
  destruct s as [|b rest]; [done|]. unfold sequence_length. intros H.
  assert (∀ k, continued k rest = true → continued k (str_take k rest +:+ t) = true) as Hk.
  { intros k Hc. rewrite continued_take; [done|lia|by apply continued_length]. }
  repeat match goal with H : (if ?c then _ else _) = _ |- _ => destruct c eqn:?; try done end.
  all: injection H as <-.
  all: cbn [str_take]; rewrite str_app_cons; cbv iota.
  all: repeat match goal with E : masked _ _ _ = _ |- _ => rewrite E; clear E end; try done.
  all: by rewrite Hk.
Qed.

Lemma sequence_length_replacement t : sequence_length (replacement +:+ t) = Some 3%nat.
Proof. done. Qed.

Lemma sequence_head n s t : (1 ≤ n ≤ len s)%nat → ∃ c r, str_take n s +:+ t = String c r.
Proof. destruct n, s; simpl; [lia..|]. intros _. eexists _, _. apply str_app_cons. Qed.

Lemma utf8_errors_fuel f1 f2 s : (len s ≤ f1)%nat → (len s ≤ f2)%nat → utf8_errors f1 s = utf8_errors f2 s.
Proof.
  revert f2 s. induction f1 as [|f1 IH]; intros [|f2] [|b rest] H1 H2; simpl in *; try done; try lia.
  destruct (sequence_length (String b rest)) as [n|] eqn:Hn; [|f_equal; apply IH; lia].
  apply sequence_length_bound in Hn. simpl in Hn.
  apply IH; rewrite str_drop_length; simpl; lia.
Qed.

(** A sequence in front is skipped. *)
Lemma validate_sequence s n t : sequence_length s = Some n →
  validate_utf8 (str_take n s +:+ t) = validate_utf8 t.
Proof.
  intros Hn. pose proof (sequence_length_bound _ _ Hn) as Hb.
  pose proof (sequence_length_take _ _ t Hn) as Ht. unfold validate_utf8.
  destruct (sequence_head n s t Hb) as (c & r & E).
  assert (len (str_take n s +:+ t) = (n + len t)%nat) as Hl.
  { rewrite str_app_length, str_take_length by lia. done. }
  rewrite Hl. destruct n as [|n]; [lia|].
  change (utf8_errors (S n + len t) (str_take (S n) s +:+ t)) with
    (utf8_errors (S (n + len t)) (str_take (S n) s +:+ t)).
  rewrite E in *. cbn [utf8_errors]. rewrite Ht, <-E.
  replace (str_drop (S n) (str_take (S n) s +:+ t)) with t.
  - apply utf8_errors_fuel; lia.
  - pose proof (str_drop_app_length (str_take (S n) s) t) as Hd.
    rewrite str_take_length in Hd by lia. done.
Qed.

Lemma repaired_spec fuel s : (len s ≤ fuel)%nat →
  validate_utf8 (repaired fuel s) = 0 ∧ 0 ≤ utf8_errors fuel s ∧
  Z.of_nat (len (repaired fuel s)) = Z.of_nat (len s) + 2 * utf8_errors fuel s ∧
  (utf8_errors fuel s = 0 → repaired fuel s = s).
Proof.
  revert s. induction fuel as [|fuel IH]; intros [|b rest] Hf; simpl in Hf; try (simpl in *; lia);
    try (by simpl; split_and!).
  cbn [utf8_errors repaired]. destruct (sequence_length (String b rest)) as [n|] eqn:Hn.
  - pose proof (sequence_length_bound _ _ Hn) as Hb. simpl in Hb.
    destruct (IH (str_drop n (String b rest))) as (H1 & H2 & H3 & H4).
    { rewrite str_drop_length. simpl. lia. }
    rewrite validate_sequence by done. split_and!; [done..| |].
    + rewrite str_app_length, str_take_length by (simpl; lia).
      rewrite str_drop_length in H3. simpl in *. lia.
    + intros Hz. rewrite H4 by done. apply str_take_drop.
  - destruct (IH rest) as (H1 & H2 & H3 & H4); [lia|]. split_and!.
    + rewrite <-H1. apply (validate_sequence replacement 3 (repaired fuel rest)). done.
    + lia.
    + rewrite str_app_length. simpl. lia.
    + lia.
Qed.

(** *** What is kept and what is replaced *)

Definition continuation (c : ascii) : Prop := in_range 128 191 c = true.

(** The sequences that the tools take for UTF-8: by the first byte, so many bytes in all. *)
Inductive utf8_sequence : string → Prop :=
  | one_byte b : in_range 0 127 b = true → utf8_sequence (String b "")
  | two_bytes b c : in_range 192 223 b = true → continuation c →
      utf8_sequence (String b (String c ""))
  | three_bytes b c d : in_range 224 239 b = true → continuation c → continuation d →
      utf8_sequence (String b (String c (String d "")))
  | four_bytes b c d e : in_range 240 247 b = true → continuation c → continuation d →
      continuation e → utf8_sequence (String b (String c (String d (String e "")))).

Inductive Piece := Kept (s : string) | Invalid (b : ascii).

(** A text cut from its start into sequences and into the bytes where none starts. *)
Inductive cut_into : string → list Piece → Prop :=
  | cut_end : cut_into "" []
  | cut_kept s t ps : utf8_sequence s → cut_into t ps → cut_into (s +:+ t) (Kept s :: ps)
  | cut_invalid b t ps :
      (∀ s u, String b t = s +:+ u → ¬ utf8_sequence s) → cut_into t ps →
      cut_into (String b t) (Invalid b :: ps).

(** What is given out for a piece: an invalid byte becomes EF BF BD. *)
Definition given_out (p : Piece) : string :=
  match p with
  | Kept s => s
  | Invalid _ => String "239" (String "191" (String "189" ""))
  end.

Definition is_invalid (p : Piece) : bool := match p with Invalid _ => true | Kept _ => false end.

(** The masks of the check are ranges of bytes. *)
Lemma masked_ranges c :
  masked 0x80 0 c = in_range 0 127 c ∧ masked 0xC0 0x80 c = in_range 128 191 c ∧
  masked 0xE0 0xC0 c = in_range 192 223 c ∧ masked 0xF0 0xE0 c = in_range 224 239 c ∧
  masked 0xF8 0xF0 c = in_range 240 247 c.
Proof. by destruct c as [[] [] [] [] [] [] [] []]. Qed.

Ltac by_ranges :=
  repeat match goal with
  | |- context [masked ?m ?v ?c] => rewrite ?(proj1 (masked_ranges c)),
      ?(proj1 (proj2 (masked_ranges c))), ?(proj1 (proj2 (proj2 (masked_ranges c)))),
      ?(proj1 (proj2 (proj2 (proj2 (masked_ranges c))))),
      ?(proj2 (proj2 (proj2 (proj2 (masked_ranges c)))))
  end.

Lemma in_range_disjoint a b c d x :
  in_range a b x = true → (b < c ∨ d < a)%N → in_range c d x = false.
Proof.
  unfold in_range. rewrite andb_true_iff, andb_false_iff, !N.leb_le, !N.leb_gt. lia.
Qed.

Lemma utf8_sequence_length s t : utf8_sequence s → sequence_length (s +:+ t) = Some (len s).
Proof.
  intros [b Hb|b c Hb Hc|b c d Hb Hc Hd|b c d e Hb Hc Hd He]; rewrite ?str_app_cons;
    unfold sequence_length, continuation in *; simpl; by_ranges;
    repeat match goal with
    | H : in_range ?l ?u ?x = true |- context [in_range ?l ?u ?x] => rewrite H
    | H : in_range ?l ?u ?x = true |- context [in_range ?l' ?u' ?x] =>
        rewrite (in_range_disjoint l u l' u' x H) by lia
    end; done.
Qed.

Lemma continued_inv n s : continued (S n) s = true →
  ∃ c t, s = String c t ∧ continuation c ∧ continued n t = true.
Proof.
  destruct s as [|c t]; [done|]. intros [Hc Ht]%andb_true_iff. exists c, t.
  split_and!; [done| |done]. unfold continuation. by rewrite <-(proj1 (proj2 (masked_ranges c))).
Qed.

Lemma sequence_length_sequence s n :
  sequence_length s = Some n → utf8_sequence (str_take n s).
Proof.
  destruct s as [|b s]; [done|]. unfold sequence_length. by_ranges.
  repeat match goal with
  | |- (if ?c then _ else _) = _ → _ => destruct c eqn:?; [|try done]
  end; intros [= <-];
    repeat match goal with
    | H : continued (S _) _ = true |- _ =>
        apply continued_inv in H as (? & ? & -> & ? & H)
    end; simpl; first [by apply one_byte|by apply two_bytes|by apply three_bytes|by apply four_bytes].
Qed.

(** A cut into pieces says what the check counts and what the repair gives out. *)
Lemma cut_into_repaired data ps fuel : cut_into data ps → (len data ≤ fuel)%nat →
  repaired fuel data = concat_strings (given_out <$> ps) ∧
  utf8_errors fuel data = Z.of_nat (length (filter (λ p, is_invalid p = true) ps)).
Proof.
  intros Hcut. revert fuel. induction Hcut as [|s t ps Hs Ht IH|b t ps Hb Ht IH]; intros fuel Hf.
  - by destruct fuel.
  - pose proof (utf8_sequence_length s t Hs) as Hl. rewrite str_app_length in Hf.
    assert (∃ c r, s = String c r) as (c & r & Hcr) by (destruct Hs; eauto).
    destruct fuel as [|fuel]; [subst; simpl in Hf; lia|].
    destruct (IH fuel) as [IH1 IH2]; [subst; simpl in Hf; lia|].
    assert (s +:+ t = String c (r +:+ t)) as E by (by rewrite Hcr, str_app_cons).
    cbn [repaired utf8_errors]. rewrite E, <-E, Hl, str_drop_app_length, str_take_app_length.
    by rewrite IH1, IH2.
  - destruct fuel as [|fuel]; [simpl in Hf; lia|].
    destruct (IH fuel) as [IH1 IH2]; [simpl in Hf; lia|].
    assert (sequence_length (String b t) = None) as Hn.
    { destruct (sequence_length (String b t)) as [n|] eqn:Hn; [|done].
      destruct (Hb (str_take n (String b t)) (str_drop n (String b t)));
        [by rewrite str_take_drop|by apply sequence_length_sequence]. }
    cbn [repaired utf8_errors]. rewrite Hn, IH1, IH2. split; [done|].
    rewrite (filter_cons_True _ (Invalid b)) by done. cbn [length]. lia.
Qed.

Lemma cut_into_total fuel data : (len data ≤ fuel)%nat → ∃ ps, cut_into data ps.
Proof.
  revert data. induction fuel as [|fuel IH]; intros [|b t] Hf; simpl in Hf;
    try (by exists []; constructor); [lia|].
  destruct (sequence_length (String b t)) as [n|] eqn:Hn.
  - pose proof (sequence_length_bound _ _ Hn) as Hb.
    destruct (IH (str_drop n (String b t))) as [ps Hps].
    { rewrite str_drop_length. simpl in *. lia. }
    exists (Kept (str_take n (String b t)) :: ps).
    rewrite <-(str_take_drop n (String b t)) at 1.
    constructor; [by apply sequence_length_sequence|done].
  - destruct (IH t) as [ps Hps]; [lia|]. exists (Invalid b :: ps). constructor; [|done].
    intros s u E Hs. rewrite E, (utf8_sequence_length _ _ Hs) in Hn. done.
Qed.

(** C26 The repair of a text with invalid bytes replaces exactly these.  Every text is cut from
    its start into sequences - a byte below 80, or one of C0-DF, E0-EF, F0-F7 with one, two or
    three bytes of 80-BF behind it - and bytes where no sequence starts, which the check counts;
    the repaired text is the sequences as they are, with the three bytes EF BF BD of U+FFFD in
    the place of each of the other bytes, in order.  So a text that passes the check is given
    out as it is, and what is given out passes it. *)
Theorem utf8_repair data :
  (∃ ps, cut_into data ps) ∧
  (∀ ps, cut_into data ps →
     decode_utf8_with_replacement data = concat_strings (given_out <$> ps) ∧
     validate_utf8 data = Z.of_nat (length (filter (λ p, is_invalid p = true) ps))) ∧
  (validate_utf8 data = 0 → decode_utf8_with_replacement data = data) ∧
  validate_utf8 (decode_utf8_with_replacement data) = 0.
Proof.
  destruct (repaired_spec (len data) data) as (H1 & _ & _ & H4); [lia|].
  split_and!; [by eapply cut_into_total| |done|done].
  intros ps Hps. by apply (cut_into_repaired data ps (len data)).
Qed.

(** The check lets through sequences that are not UTF-8: an encoding of NUL in two bytes, and one
    of a surrogate. *)
Lemma overlong_accepted :
  validate_utf8 (String "192" (String "128" "")) = 0 ∧
  validate_utf8 (String "237" (String "160" (String "128" ""))) = 0.
Proof. by split. Qed.

(** ** Lines *)

Lemma unlines_cons l ls : unlines (l :: ls) = l +:+ String line_end (unlines ls).
Proof. unfold unlines. simpl. by rewrite str_app_assoc, str_app_cons. Qed.

Lemma unlines_app ls1 ls2 : unlines (ls1 ++ ls2) = unlines ls1 +:+ unlines ls2.
Proof. unfold unlines. by rewrite fmap_app, concat_strings_app. Qed.

(** The lines of a text that ends with a line end, or that has it added, are the text. *)
Lemma unlines_get_lines s :
  unlines (get_lines s) =
    match unsnoc s with
    | Some (_, c) => if decide (c = line_end) then s else snoc s line_end
    | None => ""
    end.
Proof.
  induction s as [|c s IH]; [done|]. cbn [get_lines unsnoc].
  destruct s as [|c' s].
  { simpl. case_decide as Hc; rewrite unlines_cons; [by rewrite Hc|]. done. }
  assert (∃ front last, unsnoc (String c' s) = Some (front, last)) as (front & last & Hu).
  { cbn [unsnoc]. destruct (unsnoc s) as [[]|]; eauto. }
  rewrite Hu in *. destruct (decide (c = line_end)) as [Hc|Hc].
  - rewrite unlines_cons, IH, Hc. by case_decide.
  - destruct (get_lines (String c' s)) as [|l ls] eqn:Hl.
    + exfalso. case_decide; discriminate IH.
    + rewrite unlines_cons in IH |- *. rewrite str_app_cons, IH. by case_decide.
Qed.

Lemma get_lines_no_end s l : l ∈ get_lines s → has_char line_end l = false.
Proof.
  revert l. induction s as [|c s IH]; intros l; cbn [get_lines]; [by intros ?%elem_of_nil|].
  case_decide as Hc; [rewrite elem_of_cons; intros [->|?]; auto|].
  destruct (get_lines s) as [|l0 ls].
  - rewrite list_elem_of_singleton. intros ->. simpl. by rewrite bool_decide_eq_false_2.
  - rewrite elem_of_cons. intros [->|Hl]; [|apply IH; by right].
    simpl. rewrite bool_decide_eq_false_2 by done. apply IH. by left.
Qed.

(** ** The distance of names *)

Lemma cost_bounds x y : 0 ≤ cost x y ≤ 1.
Proof. unfold cost. case_decide; lia. Qed.

(** C25 The table of the edit distance computes the distance: it is the cost of some
    alignment of the two names, and no alignment costs less, where dropping, adding or
    replacing a character costs one and letters of either case are the same.  It is at most the
    length of the longer name, so the score of a file name is not negative. *)
Theorem edit_distance_least a b :
  let as_ := String.list_ascii_of_string a in let bs := String.list_ascii_of_string b in
  (∃ es, aligns es as_ bs ∧ edits_cost cost es = edit_distance a b) ∧
  (∀ es, aligns es as_ bs → edit_distance a b ≤ edits_cost cost es) ∧
  0 ≤ edit_distance a b ≤ Z.of_nat (Nat.max (len a) (len b)).
Proof.
  intros as_ bs. rewrite <-!length_list_ascii. apply (last_row_spec cost), cost_bounds.
Qed.
