(* ===== verification/FileTools.v ===== *)
(** * The file tools of the agents (src/utils/file_tools.cpp, src/utils/file_lock.hpp)

    Reading, writing, appending to and patching the files that an agent names.  A path leads to
    an inode and the inode to its content, so that a file that is renamed over another leaves
    those who have the old one open with the old one.  What the operating system answers to a
    call is in a record. *)

From Stdlib Require Import Ascii.
From S2P Require Import Prelude Json StringUtils Sessions Storage Paths FileText.

Local Abbreviation len := String.length.

(** ** Files *)

Record Files := {
  names : gmap string nat;
  contents : gmap nat string;
  next_inode : nat;
}.

Definition content_at (p : string) (fs : Files) : option string :=
  names fs !! p ≫= λ i, contents fs !! i.

Definition with_names (f : gmap string nat → gmap string nat) (fs : Files) : Files :=
  {| names := f (names fs); contents := contents fs; next_inode := next_inode fs |}.
Definition with_contents (f : gmap nat string → gmap nat string) (fs : Files) : Files :=
  {| names := names fs; contents := f (contents fs); next_inode := next_inode fs |}.

(** [open] with [O_CREAT]: the inode of the path, a new and empty one if there is none. *)
Definition open_create (p : string) (fs : Files) : nat * Files :=
  match names fs !! p with
  | Some i => (i, fs)
  | None =>
      (next_inode fs,
       {| names := <[p := next_inode fs]> (names fs);
          contents := <[next_inode fs := ""]> (contents fs);
          next_inode := Datatypes.S (next_inode fs) |})
  end.

(** [rename]: the file of the one path becomes that of the other. *)
Definition rename_over (tmp dest : string) (fs : Files) : Files :=
  match names fs !! tmp with
  | Some i => with_names (λ m, <[dest := i]> (delete tmp m)) fs
  | None => fs
  end.

(** What the system answers: the environment and the directories; the message of a call that
    fails, where there is one; whether a file can be opened and its size is known; how many
    bytes of the temporary file are written before that fails, where the stream knows it, and how
    many are in the file where the flush fails that closes the stream, which nobody looks at;
    whether the lock is got in time; and what an append writes of so many bytes. *)
Record Host := {
  h_getenv : string → option string;
  h_cwd : string;
  h_canonical : string → option string;
  h_list : string → list string;
  h_tree : string → list (string * bool);
  h_is_directory : string → bool;
  h_readable : string → bool;
  h_size_known : string → bool;
  h_mkdir : string → option string;
  h_open_tmp : bool;
  h_write_tmp : option nat;
  h_flush : option nat;
  h_rename : option string;
  h_open : option string;
  h_lock : bool;
  h_seek : option string;
  h_write : nat → string + nat;
}.

(** ** Paths *)

(** The blanks and quotes around a path. *)
Definition is_quote (c : ascii) : bool :=
  bool_decide (c = " "%char ∨ c = "'"%char ∨ c = "034"%char).

Definition is_name_char (c : ascii) : bool :=
  isdigit c || in_range 65 90 c || in_range 97 122 c || bool_decide (c = "_"%char).

Fixpoint take_name (s : string) : string * string :=
  match s with
  | String c rest =>
      if is_name_char c then let '(name, after) := take_name rest in (String c name, after)
      else ("", s)
  | EmptyString => ("", "")
  end.

Section host.
Context (h : Host).

(** A variable that is not set stays, with the byte behind its name when it is in braces. *)
Fixpoint expand_variables (fuel : nat) (s : string) : string :=
  match fuel, s with
  | S fuel, String c rest =>
      if decide (c = "$"%char) then
        let braced := starts_with rest "{" in
        let '(name, after) := take_name (if braced then str_drop 1 rest else rest) in
        let expanded :=
          match h_getenv h name with
          | Some v => v
          | None => "$" +:+ (if braced then "{" else "") +:+ name +:+
                    (if braced then str_take 1 after else "")
          end in
        expanded +:+
          expand_variables fuel (if braced && starts_with after "}" then str_drop 1 after else after)
      else String c (expand_variables fuel rest)
  | _, _ => ""
  end.

Definition expand_home (s : string) : string :=
  match s with
  | String "~" rest => match h_getenv h "HOME" with Some home => home +:+ rest | None => s end
  | _ => s
  end.

(** A path that cannot be resolved to its canonical form becomes the empty path. *)
Definition normalise_path (raw : string) (strict_symlinks : bool) : string :=
  if decide (raw = "") then ""
  else
    let s := drop_back is_quote (drop_front is_quote raw) in
    let s := map_string (λ c, if decide (c = "\"%char) then "/"%char else c) s in
    let s := expand_home s in
    let s := expand_variables (len s) s in
    let p := if decide (s = "") then "" else if starts_with s "/" then s else path_join (h_cwd h) s in
    let p := lexically_normal p in
    if strict_symlinks then default "" (h_canonical h p) else p.

(** ** Paths that are close to one *)

Record FuzzyMatch := { fm_path : string; fm_score : double }.

(** The paths whose file name scores more than [least]. *)
Definition scored (target_name : string) (least : double) (paths : list string) : list FuzzyMatch :=
  filter (λ m, d_gtb (fm_score m) least = true)
    ((λ p, {| fm_path := p; fm_score := filename_score (filename p) target_name |}) <$> paths).

(** [std::unique] on the paths. *)
Fixpoint unique_paths (l : list FuzzyMatch) : list FuzzyMatch :=
  match l with
  | m :: l => match unique_paths l with
              | m' :: l' => if decide (fm_path m = fm_path m') then m :: l' else m :: m' :: l'
              | [] => [m]
              end
  | [] => []
  end.

(** The matches of equal score are in the order that they were found in. *)
Definition find_closest_paths (target : string) (max_results : nat) : list FuzzyMatch :=
  let target_name := filename target in
  let search_dir := parent_path target in
  let results := if decide (search_dir = "") then []
                 else scored target_name d_0_4 (h_list h search_dir) in
  let results :=
    if decide (length results < 3 ∧ parent_path search_dir ≠ "")%nat then
      results ++ scored target_name d_0_55
        ((filter (λ e, e.2 = true) (h_tree h (parent_path search_dir))).*1)
    else results in
  take max_results
    (unique_paths (insertion_sort (λ a b, d_gtb (fm_score a) (fm_score b)) results)).

Definition error_text (text : string) : json :=
  JObject [("status", JString "error"); ("error", JString text)].

Definition not_found_error (msg target : string) : json :=
  match find_closest_paths target 5 with
  | [] => error_text msg
  | m :: ms =>
      JObject [("status", JString "error"); ("error", JString msg);
               ("suggestion", JString (fm_path m));
               ("candidates", JArray (JString ∘ fm_path <$> m :: ms))]
  end.

(** ** Writing *)

(** What of a content that was written is in the file once the stream is closed. *)
Definition flushed (content : string) : string :=
  match h_flush h with None => content | Some n => str_take n content end.

(** What went wrong, or nothing.  The stream is tested after the write and before it is closed:
    the file is renamed whatever the flush at its end did. *)
Definition atomic_write (dest content : string) : ST Files string :=
  let tmp := dest +:+ ".tmp" in
  match h_mkdir h (parent_path dest) with
  | Some why => mret ("Cannot create directories: " +:+ why)
  | None =>
      if negb (h_open_tmp h) then mret ("Cannot open temp file for writing: " +:+ tmp)
      else
        i ← (λ fs, let '(i, fs) := open_create tmp fs in (Ok i, fs));
        match h_write_tmp h with
        | Some n =>
            modify (with_contents <[i := str_take n content]>);;
            mret ("Write failed on temp file: " +:+ tmp)
        | None =>
            modify (with_contents <[i := flushed content]>);;
            match h_rename h with
            | Some why =>
                modify (with_names (delete tmp));;
                mret ("Atomic rename failed: " +:+ why)
            | None => modify (rename_over tmp dest);; mret ""
            end
        end
  end.

Definition size_json (s : string) : json := JInt (Z.of_nat (len s)).

Definition write_file (raw_path content : string) : ST Files json :=
  if decide (raw_path = "") then mret (error_text "path is empty")
  else
    let p := normalise_path raw_path false in
    err ← atomic_write p content;
    if decide (err ≠ "") then mret (error_text err)
    else mret (JObject [("status", JString "ok"); ("path", JString p);
                        ("bytes_written", size_json content)]).
(** ** Reading *)

Record ReadOptions := {
  offset_line : Z;
  max_lines : Z;
  max_bytes : Z;
  resolve_symlinks : bool;
}.

Definition ReadOptions_init : ReadOptions :=
  {| offset_line := 1; max_lines := 0; max_bytes := 524288; resolve_symlinks := false |}.

(** The content and whether it is only the start of the file. *)
Definition read_bounded (p : string) (limit : Z) (fs : Files) : option (string * bool) :=
  if negb (h_readable h p) then None
  else
    data ← content_at p fs;
    if h_size_known h p && bool_decide (limit > 0 ∧ Z.of_nat (len data) > limit)
    then Some (str_take (Z.to_nat limit) data, true)
    else Some (data, false).

Definition read_all (p : string) (fs : Files) : option string :=
  if h_readable h p then content_at p fs else None.

(** The window of lines that is given out: its first and its last line, and its text. *)
Definition window (opts : ReadOptions) (all_lines : list string) : exc (string + (Z * Z * string)) :=
  let total_lines := Z.of_nat (length all_lines) in
  let start := Z.max 1 (offset_line opts) in
  if decide (start > total_lines) then
    mret (inl ("offset_line (" +:+ pretty start +:+ ") exceeds total lines (" +:+
               pretty total_lines +:+ ")"))
  else
    end_line ← (if decide (max_lines opts > 0) then
                  if decide (start + max_lines opts > INT_MAX) then UB
                  else mret (Z.min (start + max_lines opts - 1) total_lines)
                else mret total_lines);
    mret (inr (start, end_line,
      unlines (take (Z.to_nat (end_line - start + 1)) (drop (Z.to_nat (start - 1)) all_lines)))).

(** From the bytes to the answer. *)
Definition read_reply (p : string) (total_bytes : Z) (opts : ReadOptions) (raw : string)
    (too_large : bool) : exc json :=
  if is_likely_binary raw then
    mret (JObject [("status", JString "error");
      ("error", JString "File appears to be binary (contains null bytes). Cannot read as text.");
      ("path", JString p); ("total_bytes", JInt total_bytes); ("is_binary", JBool true)])
  else
    let '(raw, truncated_mid_line) := cut_last_line too_large raw in
    let utf8 := validate_utf8 raw in
    let raw := if decide (utf8 > 0) then decode_utf8_with_replacement raw else raw in
    let all_lines := get_lines raw in
    let total_lines := Z.of_nat (length all_lines) in
    w ← window opts all_lines;
    match w with
    | inl why =>
        mret (JObject [("status", JString "error"); ("error", JString why);
                       ("total_lines", JInt total_lines); ("total_bytes", JInt total_bytes)])
    | inr (start, end_line, content) =>
        let truncated := too_large || bool_decide (end_line < total_lines) in
        mret (JObject ([("status", JString "ok"); ("path", JString p);
            ("content", JString content); ("total_lines", JInt total_lines);
            ("lines_read", JInt (end_line - start + 1)); ("start_line", JInt start);
            ("end_line", JInt end_line); ("truncated", JBool truncated);
            ("total_bytes", JInt total_bytes)] ++
          (if truncated_mid_line then [("truncated_mid_line", JBool true)] else []) ++
          (if decide (utf8 > 0) then [("invalid_utf8", JBool true); ("utf8_errors", JInt utf8)]
           else []) ++
          (if truncated && bool_decide (end_line < total_lines)
           then [("next_offset_line", JInt (end_line + 1));
                 ("remaining_lines", JInt (total_lines - end_line))] else [])))
    end.

Definition exists_file (p : string) (fs : Files) : bool :=
  bool_decide (is_Some (names fs !! p)) || h_is_directory h p.

Definition read_file (raw_path : string) (opts : ReadOptions) (fs : Files) : exc json :=
  if decide (raw_path = "") then mret (error_text "path is empty")
  else
    let p := normalise_path raw_path (resolve_symlinks opts) in
    if negb (exists_file p fs) then mret (not_found_error ("File not found: " +:+ p) p)
    else if decide (names fs !! p = None) then
      mret (error_text ("Path exists but is not a regular file: " +:+ p))
    else
      let total_bytes :=
        if h_size_known h p then Z.of_nat (len (default "" (content_at p fs))) else 0 in
      let read := if decide (max_bytes opts > 0) then read_bounded p (max_bytes opts) fs
                  else (λ data, (data, false)) <$> read_all p fs in
      match read with
      | None => mret (error_text ("Failed to read file (permissions?): " +:+ p))
      | Some (raw, too_large) => read_reply p total_bytes opts raw too_large
      end.

(** ** Appending *)

Definition DEFAULT_MAX_APPEND_SIZE : Z := 10 * 1024 * 1024.

Definition lock_error (doing : string) (lock_timeout_ms : Z) : json :=
  JObject [("status", JString "error");
    ("error", JString ("Could not acquire file lock within " +:+ pretty lock_timeout_ms +:+
                       "ms — another agent may be " +:+ doing +:+ " this file."));
    ("retryable", JBool true); ("retry_after_ms", JInt (Z.quot lock_timeout_ms 2))].

(** The write at the end of the open file, with the lock held. *)
Definition append_at (i : nat) (content : string) : ST Files (string + nat) :=
  match h_write h (len content) with
  | inl why => mret (inl why)
  | inr n => modify (with_contents (alter (λ old, old +:+ str_take n content) i));; mret (inr n)
  end.

Definition append_file (raw_path content : string) (lock_timeout_ms : Z) : ST Files json :=
  if decide (raw_path = "") then mret (error_text "path is empty")
  else
    let p := normalise_path raw_path false in
    let size := Z.of_nat (len content) in
    if decide (size > DEFAULT_MAX_APPEND_SIZE) then
      mret (JObject [("status", JString "error");
        ("error", JString ("Append size (" +:+ pretty size +:+ " bytes) exceeds limit (" +:+
           pretty DEFAULT_MAX_APPEND_SIZE +:+ " bytes). Maximum append size is 10 MiB."));
        ("requested_size", JInt size); ("max_allowed", JInt DEFAULT_MAX_APPEND_SIZE)])
    else
      match h_mkdir h (parent_path p), h_open h with
      | Some why, _ => mret (error_text ("Cannot create directories: " +:+ why))
      | None, Some why => mret (error_text ("Cannot open file for appending: " +:+ why))
      | None, None =>
          i ← (λ fs, let '(i, fs) := open_create p fs in (Ok i, fs));
          if negb (h_lock h) then mret (lock_error "writing" lock_timeout_ms)
          else
            match h_seek h with
            | Some why => mret (error_text ("lseek failed: " +:+ why))
            | None =>
                written ← append_at i content;
                match written with
                | inl why => mret (error_text ("Write failed during append: " +:+ why))
                | inr n =>
                    after ← gets (λ fs, default "" (contents fs !! i));
                    mret (JObject [("status", JString "ok"); ("path", JString p);
                      ("bytes_appended", JInt (Z.of_nat n)); ("file_size_after", size_json after)])
                end
            end
      end.

(** ** Patching *)

Inductive Patched :=
  | NotFound
  | Ambiguous
  | Unique (before after : string).

(** Where the text is; a second occurrence may overlap the first. *)
Definition locate (content old_text : string) : Patched :=
  match find_str old_text content with
  | None => NotFound
  | Some (before, after) =>
      match find_str old_text (str_drop 1 (old_text +:+ after)) with
      | Some _ => Ambiguous
      | None => Unique before after
      end
  end.

Definition patch_file (raw_path old_text new_text : string) (lock_timeout_ms : Z) : ST Files json :=
  if decide (raw_path = "") then mret (error_text "path is empty")
  else if decide (old_text = "") then mret (error_text "old_text is empty — nothing to replace")
  else
    let p := normalise_path raw_path false in
    there ← gets (exists_file p);
    regular ← gets (λ fs, names fs !! p);
    if negb there then mret (not_found_error ("File not found: " +:+ p) p)
    else if decide (regular = None) then mret (error_text ("Path is not a regular file: " +:+ p))
    else
      match h_open h with
      | Some why => mret (error_text ("Cannot open file for patching: " +:+ why))
      | None =>
          if negb (h_lock h) then mret (lock_error "patching" lock_timeout_ms)
          else
            read ← gets (read_all p);
            match read with
            | None => mret (error_text ("Failed to read file content for patching: " +:+ p))
            | Some content =>
                match locate content old_text with
                | NotFound =>
                    mret (JObject [("status", JString "error");
                      ("error", JString ("old_text not found in file. " +:+
                         "Ensure the text matches exactly (whitespace, line endings)."));
                      ("file_preview", JString (str_take 200 content)); ("path", JString p)])
                | Ambiguous =>
                    mret (error_text ("old_text appears more than once in the file. " +:+
                                      "Add more surrounding context to make the match unique."))
                | Unique before after =>
                    let patched := before +:+ new_text +:+ after in
                    err ← atomic_write p patched;
                    if decide (err ≠ "") then
                      mret (error_text ("Patch applied but write failed: " +:+ err))
                    else
                      let ctx := extract_patch_context before old_text after in
                      mret (JObject [("status", JString "ok"); ("path", JString p);
                        ("occurrences_replaced", JInt 1); ("bytes_before", size_json content);
                        ("bytes_after", size_json patched);
                        ("context", JObject [("before", JString (ctx_before ctx));
                           ("match", JString (ctx_match ctx)); ("after", JString (ctx_after ctx))])])
                end
            end
      end.
End host.

(** ** Agents at work on the same files

    What an agent does to a file in several calls, which others may come between: an append
    opens the file, waits for the lock, seeks to the end of what it has opened, writes at the
    position it got, and lets the lock go; a patch opens it, waits for the lock, reads by the
    path and renames; a write renames without a lock. *)

Inductive Work :=
  | Append (p content : string)
  | Patch (p old_text new_text : string)
  | Write (p content : string).

Definition work_path (w : Work) : string :=
  match w with Append p _ | Patch p _ _ | Write p _ => p end.

(** What an agent is at; [pos] is the offset of its open file, and a result the number of
    bytes that the answer "ok" names, or nothing for an error. *)
Inductive Agent :=
  | Waiting (w : Work)
  | Opened (w : Work) (i : nat)
  | Locked (w : Work) (i : nat)
  | Positioned (w : Work) (i pos : nat)
  | Ready (w : Work) (i : nat) (patched : string)
  | Leaving (w : Work) (i : nat) (result : option nat)
  | Finished (w : Work) (result : option nat).

Record Desk := { files : Files; locks : gmap nat nat; agents : gmap nat Agent }.

Definition turn (a : nat) (st : Agent) (fs : Files) (ls : gmap nat nat) (d : Desk) : Desk :=
  {| files := fs; locks := ls; agents := <[a := st]> (agents d) |}.

(** A new file with the content, put in the place of the path. *)
Definition replace_file (p content : string) (fs : Files) : Files :=
  {| names := <[p := next_inode fs]> (names fs);
     contents := <[next_inode fs := content]> (contents fs);
     next_inode := Datatypes.S (next_inode fs) |}.

(** [write] of [s] at the offset [pos]: what is there is overwritten, and what is between the
    end of the file and the offset reads as zeros. *)
Fixpoint zeros (n : nat) : string :=
  match n with O => "" | Datatypes.S n => String "000" (zeros n) end.
Definition put_at (pos : nat) (s old : string) : string :=
  str_take pos old +:+ zeros (pos - len old) +:+ s +:+ str_drop (pos + len s) old.

(** A write to a path: the agent, the path and the bytes. *)
Record Written := { by_agent : nat; to_path : string; text : string }.

(** A step, with what it appended. *)
Inductive desk_step : Desk → list Written → Desk → Prop :=
  | do_refuse d a w :
      agents d !! a = Some (Waiting w) →
      desk_step d [] (turn a (Finished w None) (files d) (locks d) d)
  | do_open_append d a p content i fs :
      agents d !! a = Some (Waiting (Append p content)) →
      open_create p (files d) = (i, fs) →
      desk_step d [] (turn a (Opened (Append p content) i) fs (locks d) d)
  | do_open_patch d a p old_text new_text i :
      agents d !! a = Some (Waiting (Patch p old_text new_text)) →
      names (files d) !! p = Some i →
      desk_step d [] (turn a (Opened (Patch p old_text new_text) i) (files d) (locks d) d)
  | do_lock d a w i :
      agents d !! a = Some (Opened w i) → locks d !! i = None →
      desk_step d [] (turn a (Locked w i) (files d) (<[i := a]> (locks d)) d)
  | do_time_out d a w i :
      agents d !! a = Some (Opened w i) →
      desk_step d [] (turn a (Finished w None) (files d) (locks d) d)
  | do_seek d a p content i old :
      agents d !! a = Some (Locked (Append p content) i) → contents (files d) !! i = Some old →
      desk_step d [] (turn a (Positioned (Append p content) i (len old)) (files d) (locks d) d)
  | do_append d a p content i pos n :
      agents d !! a = Some (Positioned (Append p content) i pos) → (n ≤ len content)%nat →
      desk_step d [{| by_agent := a; to_path := p; text := str_take n content |}]
        (turn a (Leaving (Append p content) i (Some n))
           (with_contents (alter (put_at pos (str_take n content)) i) (files d)) (locks d) d)
  | do_append_fails d a p content i pos :
      agents d !! a = Some (Positioned (Append p content) i pos) →
      desk_step d [] (turn a (Leaving (Append p content) i None) (files d) (locks d) d)
  | do_read d a p old_text new_text i content before after :
      agents d !! a = Some (Locked (Patch p old_text new_text) i) →
      content_at p (files d) = Some content → locate content old_text = Unique before after →
      desk_step d [] (turn a (Ready (Patch p old_text new_text) i (before +:+ new_text +:+ after))
        (files d) (locks d) d)
  | do_give_up d a w i :
      agents d !! a = Some (Locked w i) →
      desk_step d [] (turn a (Leaving w i None) (files d) (locks d) d)
  | do_rename d a w i patched n :
      agents d !! a = Some (Ready w i patched) →
      desk_step d [] (turn a (Leaving w i (Some (len patched)))
        (replace_file (work_path w) (str_take n patched) (files d)) (locks d) d)
  | do_rename_fails d a w i patched :
      agents d !! a = Some (Ready w i patched) →
      desk_step d [] (turn a (Leaving w i None) (files d) (locks d) d)
  | do_unlock d a w i r :
      agents d !! a = Some (Leaving w i r) →
      desk_step d [] (turn a (Finished w r) (files d) (delete i (locks d)) d)
  | do_write d a p content n :
      agents d !! a = Some (Waiting (Write p content)) →
      desk_step d [] (turn a (Finished (Write p content) (Some (len content)))
        (replace_file p (str_take n content) (files d)) (locks d) d).

Inductive desk_run (d0 : Desk) : list Written → Desk → Prop :=
  | desk_start : desk_run d0 [] d0
  | desk_more es d es' d' : desk_run d0 es d → desk_step d es' d' → desk_run d0 (es ++ es') d'.

(** What a run appended to a path, and what an agent did. *)
Definition appended (p : string) (es : list Written) : string :=
  concat_strings (text <$> filter (λ e, to_path e = p) es).
Definition written_by (a : nat) (es : list Written) : list Written :=
  filter (λ e, by_agent e = a) es.

(** ** Theorems: writing and patching *)

(** Every path has an inode of its own, with a content. *)
Record fs_wf (fs : Files) : Prop := {
  fs_own : ∀ p q i, names fs !! p = Some i → names fs !! q = Some i → p = q;
  fs_fresh : ∀ p i, names fs !! p = Some i → (i < next_inode fs)%nat;
  fs_content : ∀ p i, names fs !! p = Some i → is_Some (contents fs !! i);
}.

Lemma content_at_named p i fs : names fs !! p = Some i → content_at p fs = contents fs !! i.
Proof. intros H. unfold content_at. by rewrite H. Qed.

(** Opening the temporary file leaves the other paths alone. *)
Lemma open_create_spec p fs i fs' :
  fs_wf fs → open_create p fs = (i, fs') →
  fs_wf fs' ∧ names fs' !! p = Some i ∧ (∀ q, q ≠ p → names fs' !! q = names fs !! q) ∧
  (∀ q, q ≠ p → content_at q fs' = content_at q fs).
Proof.
  intros Hwf H. unfold open_create in H. destruct (names fs !! p) as [j|] eqn:Hp.
  - injection H as <- <-. auto.
  - injection H as <- <-. destruct Hwf as [Hown Hfresh Hc].
    assert (∀ q k, names fs !! q = Some k → k ≠ next_inode fs) as Hne.
    { intros q k Hq. apply Hfresh in Hq. lia. }
    split_and!; simpl.
    + split; simpl.
      * intros q r k. rewrite !lookup_insert_Some.
        intros [[<- <-]|[? Hq]] [[<- Hk]|[? Hr]]; try done; [by apply Hne in Hr|subst; by apply Hne in Hq|].
        by eapply Hown.
      * intros q k. rewrite lookup_insert_Some. intros [[<- <-]|[? Hq]]; [lia|]. apply Hfresh in Hq. lia.
      * intros q k. rewrite lookup_insert_Some. intros [[<- <-]|[? Hq]]; [by rewrite lookup_insert_eq|].
        rewrite lookup_insert_ne; [by eapply Hc|]. apply Hne in Hq. done.
    + apply lookup_insert_eq.
    + intros q Hq. by rewrite lookup_insert_ne.
    + intros q Hq. unfold content_at. simpl. rewrite lookup_insert_ne by done.
      destruct (names fs !! q) as [k|] eqn:Hk; [|done]. simpl. rewrite lookup_insert_ne; [done|].
      by apply Hne in Hk.
Qed.

Lemma tmp_other (p : string) : p ≠ p +:+ ".tmp".
Proof.
  intros H. apply (f_equal len) in H. rewrite str_app_length in H. simpl in H. lia.
Qed.

Lemma fs_wf_store i c fs : fs_wf fs → fs_wf (with_contents <[i := c]> fs).
Proof.
  intros [Hown Hfresh Hcont]. split; simpl; [done..|].
  intros q k Hq. destruct (decide (k = i)) as [->|]; [by rewrite lookup_insert_eq|].
  rewrite lookup_insert_ne by done. by eapply Hcont.
Qed.

Lemma content_at_store p i c fs :
  names fs !! p = Some i → content_at p (with_contents <[i := c]> fs) = Some c.
Proof. intros Hp. unfold content_at. simpl. rewrite Hp. simpl. apply lookup_insert_eq. Qed.

Lemma content_at_store_ne p q i c fs : fs_wf fs → names fs !! p = Some i → q ≠ p →
  content_at q (with_contents <[i := c]> fs) = content_at q fs.
Proof.
  intros Hwf Hp Hq. unfold content_at. simpl. destruct (names fs !! q) as [k|] eqn:Hk; [|done].
  simpl. rewrite lookup_insert_ne; [done|]. intros ->. apply Hq. by eapply (fs_own _ Hwf).
Qed.

Lemma fs_wf_delete p fs : fs_wf fs → fs_wf (with_names (delete p) fs).
Proof.
  intros [Hown Hfresh Hcont]. split; simpl.
  - intros q r k [_ ?]%lookup_delete_Some [_ ?]%lookup_delete_Some. by eapply Hown.
  - intros q k [_ ?]%lookup_delete_Some. by eapply Hfresh.
  - intros q k [_ ?]%lookup_delete_Some. by eapply Hcont.
Qed.

Lemma content_at_delete_ne p q fs :
  q ≠ p → content_at q (with_names (delete p) fs) = content_at q fs.
Proof. intros Hq. unfold content_at. simpl. by rewrite lookup_delete_ne. Qed.

Lemma rename_over_spec tmp dest i fs : fs_wf fs → names fs !! tmp = Some i → tmp ≠ dest →
  fs_wf (rename_over tmp dest fs) ∧
  content_at dest (rename_over tmp dest fs) = content_at tmp fs ∧
  content_at tmp (rename_over tmp dest fs) = None ∧
  ∀ q, q ≠ tmp → q ≠ dest → content_at q (rename_over tmp dest fs) = content_at q fs.
Proof.
  intros [Hown Hfresh Hcont] Hi Hne. unfold rename_over, content_at. rewrite Hi. simpl.
  split_and!.
  - split; simpl.
    + intros q r k. rewrite !lookup_insert_Some, !lookup_delete_Some.
      intros [[<- <-]|(? & ? & Hq)] [[<- Hk]|(? & ? & Hr)]; try done.
      * by destruct (Hown _ _ _ Hi Hr).
      * subst k. by destruct (Hown _ _ _ Hi Hq).
      * by eapply Hown.
    + intros q k. rewrite lookup_insert_Some, lookup_delete_Some.
      intros [[<- <-]|(_ & _ & Hq)]; by eapply Hfresh.
    + intros q k. rewrite lookup_insert_Some, lookup_delete_Some.
      intros [[<- <-]|(_ & _ & Hq)]; by eapply Hcont.
  - by rewrite lookup_insert_eq.
  - by rewrite lookup_insert_ne, lookup_delete_eq.
  - intros q Hqt Hqd. by rewrite lookup_insert_ne, lookup_delete_ne.
Qed.

(** What an atomic write comes to: the new content, as far as it was flushed, or the old one. *)
Lemma atomic_write_outcome h p content fs :
  fs_wf fs →
  ∃ why fs', atomic_write h p content fs = (Ok why, fs') ∧ fs_wf fs' ∧
    (why = "" → content_at p fs' = Some (flushed h content) ∧ content_at (p +:+ ".tmp") fs' = None) ∧
    (why ≠ "" → content_at p fs' = content_at p fs) ∧
    (∀ q, q ≠ p → q ≠ p +:+ ".tmp" → content_at q fs' = content_at q fs).
Proof.
  intros Hwf. pose proof (tmp_other p) as Htmp. unfold atomic_write.
  destruct (h_mkdir h (parent_path p)); [by eexists _, _; split_and!|].
  destruct (h_open_tmp h); simpl; [|by eexists _, _; split_and!].
  destruct (open_create (p +:+ ".tmp") fs) as [i fs1] eqn:Ho.
  destruct (open_create_spec _ _ _ _ Hwf Ho) as (Hwf1 & Hi & Hn & Hc).
  assert (∀ c q, q ≠ p +:+ ".tmp" → content_at q (with_contents <[i := c]> fs1) = content_at q fs)
    as Hc2 by (intros; by rewrite (content_at_store_ne (p +:+ ".tmp")), Hc).
  unfold mbind, ST_bind, modify, mret, ST_ret. rewrite Ho. destruct (h_write_tmp h) as [n|].
  { eexists _, _. split; [reflexivity|]. split; [by apply fs_wf_store|]. split; [done|].
    split; intros; apply Hc2; by intros ?. }
  destruct (h_rename h) as [why|]; (eexists _, _; split; [reflexivity|]).
  - split; [by apply fs_wf_delete, fs_wf_store|]. split; [done|].
    split; intros; rewrite content_at_delete_ne by done; by apply Hc2.
  - destruct (rename_over_spec (p +:+ ".tmp") p i (with_contents <[i:=flushed h content]> fs1))
      as (Hwf3 & Hd & Ht & Hq); [by apply fs_wf_store|done|by intros ?|].
    split; [done|]. split; [intros _; split; [by rewrite Hd, content_at_store|done]|].
    split; [done|]. intros q Hqp Hqt. by rewrite Hq, Hc2.
Qed.

(** ** Where a text is *)

(** The text occurs there and nowhere else. *)
Definition occurs_once (old content before after : string) : Prop :=
  content = before +:+ old +:+ after ∧
  ∀ b a, content = b +:+ old +:+ a → b = before ∧ a = after.

Lemma occurrence_of_length old content b a b' a' :
  content = b +:+ old +:+ a → content = b' +:+ old +:+ a' → len b = len b' → b = b' ∧ a = a'.
Proof.
  intros -> H. revert b' H. induction b as [|c b IH]; intros [|c' b'] H Hl; try done.
  - rewrite !str_app_nil_l in H. split; [done|]. clear Hl.
    induction old as [|o old IH]; [done|]. rewrite !str_app_cons in H. injection H as H. auto.
  - rewrite !str_app_cons in H. injection H as <- H. simpl in Hl.
    destruct (IH b' H) as [-> ->]; [lia|done].
Qed.

(** A later occurrence is in what follows the first byte of the first one. *)
Lemma later_occurrence old before after b a c rest : old = String c rest →
  before +:+ old +:+ after = b +:+ old +:+ a → (len before < len b)%nat →
  ∃ b', rest +:+ after = b' +:+ old +:+ a.
Proof.
  intros -> . revert b. induction before as [|x before IH]; intros b H Hl.
  - destruct b as [|y b]; [simpl in Hl; lia|]. rewrite str_app_nil_l, !str_app_cons in H.
    injection H as <- H. exists b. by rewrite H, str_app_cons.
  - destruct b as [|y b]; [simpl in Hl; lia|]. rewrite !(str_app_cons _ _ (_ +:+ _)) in H.
    injection H as <- H. apply (IH b); [done|]. simpl in Hl. lia.
Qed.

(** [locate] tells the three cases apart, overlapping occurrences included. *)
Lemma locate_spec old content : old ≠ "" →
  match locate content old with
  | NotFound => ∀ b a, content ≠ b +:+ old +:+ a
  | Unique before after => occurs_once old content before after
  | Ambiguous => ∃ b a b' a', content = b +:+ old +:+ a ∧ content = b' +:+ old +:+ a' ∧ b ≠ b'
  end.
Proof.
  intros Hold. unfold locate.
  destruct (find_str old content) as [[before after]|] eqn:Hf; [|by apply find_str_None].
  apply find_str_Some in Hf as [-> Hmin]. destruct old as [|c rest] eqn:Ho; [done|].
  rewrite <-Ho in *. replace (str_drop 1 (old +:+ after)) with (rest +:+ after) by (by rewrite Ho).
  destruct (find_str old (rest +:+ after)) as [[b a]|] eqn:Hf2.
  - apply find_str_Some in Hf2 as [Hf2 _].
    exists before, after, (before +:+ String c b), a. split; [done|]. split.
    + rewrite str_app_assoc, str_app_cons, <-Hf2. by rewrite Ho, str_app_cons.
    + intros H. apply (f_equal len) in H. rewrite str_app_length in H. simpl in H. lia.
  - split; [done|]. intros b a Hb. pose proof (Hmin b a Hb) as Hle.
    destruct (decide (len before = len b)) as [Hl|Hl].
    + destruct (occurrence_of_length old _ before after b a eq_refl Hb Hl). done.
    + destruct (later_occurrence old before after b a c rest Ho Hb) as [b' Hb']; [lia|].
      by destruct (find_str_None _ _ Hf2 b' a).
Qed.

(** ** Patching *)

Definition says_ok (r : json) : bool :=
  match find r "status" with Some (JString s) => bool_decide (s = "ok") | _ => false end.

Lemma not_found_not_ok h msg target : says_ok (not_found_error h msg target) = false.
Proof. unfold not_found_error. by destruct (find_closest_paths _ _ _). Qed.

Lemma patch_outcome h raw old_text new_text timeout fs r fs' :
  fs_wf fs → patch_file h raw old_text new_text timeout fs = (r, fs') →
  let p := normalise_path h raw false in
  (∃ reply, r = Ok reply ∧
    if says_ok reply then
      ∃ before after, occurs_once old_text (default "" (content_at p fs)) before after ∧
        is_Some (content_at p fs) ∧
        content_at p fs' = Some (flushed h (before +:+ new_text +:+ after)) ∧
        content_at (p +:+ ".tmp") fs' = None
    else content_at p fs' = content_at p fs) ∧
  (∀ q, q ≠ p → q ≠ p +:+ ".tmp" → content_at q fs' = content_at q fs) ∧ fs_wf fs'.
Proof.
  intros Hwf H p. unfold patch_file in H. fold p in H.
  assert (∀ reply, (Ok reply, fs) = (r, fs') → says_ok reply = false →
    (∃ reply, r = Ok reply ∧
      if says_ok reply then
        ∃ before after, occurs_once old_text (default "" (content_at p fs)) before after ∧
          is_Some (content_at p fs) ∧
          content_at p fs' = Some (flushed h (before +:+ new_text +:+ after)) ∧
          content_at (p +:+ ".tmp") fs' = None
      else content_at p fs' = content_at p fs) ∧
    (∀ q, q ≠ p → q ≠ p +:+ ".tmp" → content_at q fs' = content_at q fs) ∧ fs_wf fs') as Hno.
  { intros reply [= <- <-] Hr. split; [|done]. exists reply. split; [done|]. by rewrite Hr. }
  destruct (decide (raw = "")); [by apply Hno in H|].
  destruct (decide (old_text = "")) as [|Hold]; [by apply Hno in H|].
  unfold mbind, ST_bind, gets in H.
  destruct (exists_file h p fs); simpl in H; [|apply Hno in H; [done|apply not_found_not_ok]].
  destruct (decide (names fs !! p = None)); [by apply Hno in H|].
  destruct (h_open h); [by apply Hno in H|].
  destruct (h_lock h); simpl in H; [|by apply Hno in H].
  destruct (read_all h p fs) as [content|] eqn:Hread; [|by apply Hno in H].
  pose proof (locate_spec old_text content Hold) as Hloc.
  destruct (locate content old_text) as [| |before after]; [by apply Hno in H..|].
  destruct (atomic_write_outcome h p (before +:+ new_text +:+ after) fs Hwf)
    as (why & fs1 & Hw & Hwf1 & Hyes & Hfail & Hq).
  rewrite Hw in H. case_decide as Hwhy; injection H as <- <-.
  - split; [|done]. eexists. split; [done|]. simpl. auto.
  - split; [|done]. eexists. split; [done|]. simpl.
    destruct (Hyes Hwhy). exists before, after.
    unfold read_all in Hread. destruct (h_readable h p); [|done].
    rewrite Hread. by split_and!.
Qed.


(** ** Reading page by page *)

Section pages.
Context (h : Host) (raw_path : string) (symlinks : bool) (lines_per_page limit : Z).
Context (fs : Files) (raw : string).

Definition page_opts (offset : Z) : ReadOptions :=
  {| offset_line := offset; max_lines := lines_per_page; max_bytes := limit;
     resolve_symlinks := symlinks |}.

(** A reader that asks for the next page for as long as the answers name one. *)
Fixpoint read_pages (fuel : nat) (offset : Z) : list string :=
  match fuel with
  | O => []
  | S fuel =>
      match read_file h raw_path (page_opts offset) fs with
      | Ok r =>
          match find r "content", find r "next_offset_line" with
          | Some (JString page), Some (JInt next) => page :: read_pages fuel next
          | Some (JString page), _ => [page]
          | _, _ => []
          end
      | _ => []
      end
  end.

(** A text file that the tool reads whole: it is there, can be read, is not taken for a
    binary one, and is no longer than the limit on the bytes, if there is one. *)
Definition whole_text_file : Prop :=
  let p := normalise_path h raw_path symlinks in
  raw_path ≠ "" ∧ content_at p fs = Some raw ∧ h_readable h p = true ∧
  is_likely_binary raw = false ∧ (0 < limit → Z.of_nat (len raw) ≤ limit).

Lemma read_file_whole offset : whole_text_file → ∃ total_bytes,
  read_file h raw_path (page_opts offset) fs =
    read_reply (normalise_path h raw_path symlinks) total_bytes (page_opts offset) raw false.
Proof.
  intros (Hraw & Hc & Hr & _ & Hlim). unfold read_file. cbn [resolve_symlinks page_opts max_bytes].
  rewrite decide_False by done.
  assert (is_Some (names fs !! normalise_path h raw_path symlinks)) as [i Hi].
  { unfold content_at in Hc. by destruct (names fs !! _) as [i|]; [exists i|]. }
  unfold exists_file. rewrite (bool_decide_eq_true_2 (is_Some _)) by (by exists i). simpl.
  rewrite decide_False by congruence. eexists.
  unfold read_bounded, read_all. rewrite Hr, Hc. simpl.
  destruct (decide (limit > 0)) as [Hgt|]; [|done].
  rewrite (bool_decide_eq_false_2 (limit > 0 ∧ _)) by lia. by rewrite andb_false_r.
Qed.

(** The text that is read: the file's, with its invalid bytes replaced. *)
Definition readable_text : string :=
  if decide (validate_utf8 raw > 0) then decode_utf8_with_replacement raw else raw.

Definition page_at (offset : Z) : string :=
  unlines (take (Z.to_nat lines_per_page) (drop (Z.to_nat (offset - 1)) (get_lines readable_text))).

Lemma page_reply offset :
  let total := Z.of_nat (length (get_lines readable_text)) in
  whole_text_file → 0 < lines_per_page → total + lines_per_page ≤ INT_MAX →
  1 ≤ offset ≤ total →
  ∃ r, read_file h raw_path (page_opts offset) fs = Ok r ∧
    find r "content" = Some (JString (page_at offset)) ∧
    find r "next_offset_line" =
      if decide (offset + lines_per_page - 1 < total) then Some (JInt (offset + lines_per_page))
      else None.
Proof.
  intros total Hfile Hpos Hmax Hoff.
  destruct (read_file_whole offset Hfile) as [total_bytes ->].
  destruct Hfile as (_ & _ & _ & Hbin & _). unfold read_reply. rewrite Hbin.
  assert (cut_last_line false raw = (raw, false)) as ->.
  { unfold cut_last_line. by destruct (unsnoc raw) as [[]|]. }
  fold readable_text. unfold window. cbn [offset_line max_lines page_opts].
  rewrite Z.max_r by lia. fold total. rewrite (decide_False (P := offset > total)) by lia.
  rewrite (decide_True (P := lines_per_page > 0)) by lia.
  rewrite (decide_False (P := offset + lines_per_page > INT_MAX)) by lia.
  rewrite !exc_bind_ok. eexists. split; [reflexivity|].
  assert (take (Z.to_nat (Z.min (offset + lines_per_page - 1) total - offset + 1))
    (drop (Z.to_nat (offset - 1)) (get_lines readable_text)) =
    take (Z.to_nat lines_per_page) (drop (Z.to_nat (offset - 1)) (get_lines readable_text))) as Hn.
  { destruct (decide (offset + lines_per_page - 1 ≤ total)); [f_equal; lia|].
    rewrite !take_ge; [done|rewrite length_drop; unfold total in *; lia..]. }
  split.
  - cbn [find assoc app]. simpl. unfold page_at. by rewrite Hn.
  - destruct (decide (offset + lines_per_page - 1 < total)) as [Hlt|Hlt].
    + rewrite Z.min_l by lia.
      rewrite (bool_decide_eq_true_2 (offset + lines_per_page - 1 < total)) by done. simpl.
      replace (offset + lines_per_page - 1 + 1) with (offset + lines_per_page) by lia.
      by destruct (decide (validate_utf8 raw > 0)).
    + rewrite Z.min_r by lia.
      rewrite (bool_decide_eq_false_2 (total < total)) by lia. by destruct (decide (validate_utf8 raw > 0)).
Qed.

Lemma concat_strings_cons s l : concat_strings (s :: l) = s +:+ concat_strings l.
Proof. done. Qed.

Lemma read_pages_from fuel offset :
  let total := Z.of_nat (length (get_lines readable_text)) in
  whole_text_file → 0 < lines_per_page → total + lines_per_page ≤ INT_MAX →
  1 ≤ offset ≤ total → total - offset < Z.of_nat fuel →
  concat_strings (read_pages fuel offset) =
    unlines (drop (Z.to_nat (offset - 1)) (get_lines readable_text)).
Proof.
  intros total Hbin Hpos Hmax. revert offset. induction fuel as [|fuel IH]; intros offset Hoff Hf; [lia|].
  destruct (page_reply offset Hbin Hpos Hmax Hoff) as (r & Hr & Hc & Hn).
  cbn [read_pages]. rewrite Hr, Hc, Hn. fold total.
  destruct (decide (offset + lines_per_page - 1 < total)) as [Hlt|Hlt].
  - rewrite concat_strings_cons, IH by lia. unfold page_at. rewrite <-unlines_app.
    replace (Z.to_nat (offset + lines_per_page - 1)) with (Z.to_nat (offset - 1) + Z.to_nat lines_per_page)%nat
      by lia.
    by rewrite <-drop_drop, take_drop.
  - change (concat_strings [page_at offset] = unlines (drop (Z.to_nat (offset - 1)) (get_lines readable_text))).
    rewrite concat_strings_cons. cbn [concat_strings foldr]. rewrite str_app_nil_r. unfold page_at.
    rewrite take_ge; [done|]. rewrite length_drop. lia.
Qed.
End pages.

Lemma readable_nonempty raw : raw ≠ "" → ∃ front last, readable_text raw = snoc front last.
Proof.
  intros Hraw. assert (readable_text raw ≠ "") as Hne.
  { unfold readable_text. case_decide; [|done]. intros Hd.
    destruct (repaired_spec (len raw) raw) as (_ & Hpos & Hlen & _); [lia|].
    unfold decode_utf8_with_replacement in Hd. rewrite Hd in Hlen.
    change (Z.of_nat (len "")) with 0 in Hlen.
    assert (0 < len raw)%nat by (destruct raw; [done|simpl; lia]). lia. }
  destruct (unsnoc (readable_text raw)) as [[front last]|] eqn:Hu.
  - exists front, last. by apply unsnoc_Some.
  - destruct (readable_text raw) as [|c s]; [done|]. cbn [unsnoc] in Hu. by repeat case_match.
Qed.

Lemma ends_with_last front last c :
  ends_with (snoc front last) (String c "") = bool_decide (last = c).
Proof.
  induction front as [|x front IH].
  - unfold snoc. simpl. case_decide as Hd; case_bool_decide; naive_solver.
  - unfold snoc in *. rewrite str_app_cons. cbn [ends_with]. rewrite IH.
    rewrite decide_False; [done|]. intros [= _ H]. by destruct front.
Qed.

(** C17 Reading a text file page by page gives the file.  The file can be read, is not empty, is not
    taken for a binary one, and is no longer than the limit on the bytes when a limit is asked
    for (the default one is 512 KiB; above it only a part is read).  A reader that starts at the
    first line and goes on at the line that each answer names, with a positive number of lines
    to a page that with the number of the lines stays within an [int], comes to the end after
    at most as many pages as there are lines, and has been given every line of the file once
    and in order: the text itself, with a line end added after an unfinished last line and
    with invalid bytes replaced. *)
Theorem pages_cover h raw_path symlinks lines_per_page limit fs raw :
  whole_text_file h raw_path symlinks limit fs raw → raw ≠ "" → 0 < lines_per_page →
  let text := readable_text raw in
  let total := length (get_lines text) in
  Z.of_nat total + lines_per_page ≤ INT_MAX →
  concat_strings (read_pages h raw_path symlinks lines_per_page limit fs total 1) =
    if ends_with text (String line_end "") then text else snoc text line_end.
Proof.
  intros Hbin Hraw Hpos text total Hmax.
  destruct (readable_nonempty raw Hraw) as (front & last & Ht). fold text in Ht.
  assert (total ≠ 0%nat) as Htot.
  { intros H0. pose proof (unlines_get_lines text) as Hu.
    apply nil_length_inv in H0. rewrite H0 in Hu. unfold unlines in Hu. simpl in Hu.
    rewrite (proj2 (unsnoc_Some text front last) Ht) in Hu.
    case_decide; rewrite ?Ht in Hu; [by destruct front|by destruct (snoc front last)]. }
  rewrite (read_pages_from _ _ _ _ _ _ raw) by (done || (fold text total; lia)).
  change (Z.to_nat (1 - 1)) with 0%nat. rewrite drop_0. fold text. rewrite unlines_get_lines.
  rewrite (proj2 (unsnoc_Some text front last) Ht), Ht, ends_with_last.
  destruct (decide (last = line_end)); [by rewrite bool_decide_eq_true_2|by rewrite bool_decide_eq_false_2].
Qed.

(** An empty file cannot be read: its first line is past its end. *)
Lemma empty_file_unreadable p total_bytes :
  read_reply p total_bytes ReadOptions_init "" false =
    Ok (JObject [("status", JString "error");
                 ("error", JString "offset_line (1) exceeds total lines (0)");
                 ("total_lines", JInt 0); ("total_bytes", JInt total_bytes)]).
Proof. reflexivity. Qed.

(** ** Appends that are made together *)

Definition work_of (st : Agent) : Work :=
  match st with
  | Waiting w | Opened w _ | Locked w _ | Positioned w _ _ | Ready w _ _ | Leaving w _ _
  | Finished w _ => w
  end.

Definition inode_of (st : Agent) : option nat :=
  match st with
  | Opened _ i | Locked _ i | Positioned _ i _ | Ready _ i _ | Leaving _ i _ => Some i
  | Waiting _ | Finished _ _ => None
  end.

(** The inode whose lock the agent has. *)
Definition holds (st : Agent) : option nat :=
  match st with
  | Locked _ i | Positioned _ i _ | Ready _ i _ | Leaving _ i _ => Some i
  | Waiting _ | Opened _ _ | Finished _ _ => None
  end.

(** What an append has written. *)
Definition writes_of (a : nat) (st : Agent) : list Written :=
  match st with
  | Leaving (Append p content) _ (Some n) | Finished (Append p content) (Some n) =>
      [{| by_agent := a; to_path := p; text := str_take n content |}]
  | _ => []
  end.

(** An agent that appends, and reports no more than it was given. *)
Definition appends_only (st : Agent) : Prop :=
  match work_of st with
  | Append _ content =>
      match st with
      | Ready _ _ _ => False
      | Leaving _ _ (Some n) | Finished _ (Some n) => (n ≤ len content)%nat
      | _ => True
      end
  | _ => False
  end.

Record appending (fs0 : Files) (es : list Written) (d : Desk) : Prop := {
  ap_wf : fs_wf (files d);
  ap_only : ∀ a st, agents d !! a = Some st → appends_only st;
  ap_open : ∀ a st i, agents d !! a = Some st → inode_of st = Some i →
    names (files d) !! work_path (work_of st) = Some i;
  ap_lock : ∀ a st i, agents d !! a = Some st → holds st = Some i → locks d !! i = Some a;
  ap_pos : ∀ a w i pos, agents d !! a = Some (Positioned w i pos) →
    len <$> contents (files d) !! i = Some pos;
  ap_done : ∀ a st, agents d !! a = Some st → written_by a es = writes_of a st;
  ap_content : ∀ p, default "" (content_at p (files d)) =
    default "" (content_at p fs0) +:+ appended p es;
}.

Lemma appended_snoc p es e :
  appended p (es ++ [e]) = appended p es +:+ if decide (to_path e = p) then text e else "".
Proof.
  unfold appended. rewrite filter_app, fmap_app, concat_strings_app. f_equal.
  destruct (decide (to_path e = p)) as [Hq|Hq].
  - rewrite filter_cons_True by done. simpl. by rewrite str_app_nil_r.
  - by rewrite filter_cons_False.
Qed.

(** Opening a file for appending shows in no content. *)
Lemma open_create_text p fs i fs' q :
  fs_wf fs → open_create p fs = (i, fs') → default "" (content_at q fs') = default "" (content_at q fs).
Proof.
  intros Hwf Ho. destruct (open_create_spec _ _ _ _ Hwf Ho) as (_ & _ & _ & Hc).
  destruct (decide (q = p)) as [->|]; [|by rewrite Hc].
  unfold open_create in Ho. destruct (names fs !! p) as [j|] eqn:Hp; [by injection Ho as <- <-|].
  injection Ho as <- <-. unfold content_at. simpl. rewrite lookup_insert_eq, Hp. simpl.
  by rewrite lookup_insert_eq.
Qed.

(** It neither moves a name nor touches an inode that a name leads to. *)
Lemma open_create_keeps p fs i fs' q k :
  fs_wf fs → open_create p fs = (i, fs') → names fs !! q = Some k →
  names fs' !! q = Some k ∧ contents fs' !! k = contents fs !! k.
Proof.
  intros Hwf Ho Hq. unfold open_create in Ho. destruct (names fs !! p) as [j|] eqn:Hp.
  - by injection Ho as <- <-.
  - injection Ho as <- <-. simpl. pose proof (fs_fresh _ Hwf _ _ Hq).
    rewrite !lookup_insert_ne; [done|lia|congruence].
Qed.

Lemma put_at_end s old : put_at (len old) s old = old +:+ s.
Proof.
  unfold put_at. rewrite Nat.sub_diag. simpl. rewrite str_app_nil_l.
  assert (str_take (len old) old = old) as ->.
  { pose proof (str_take_app_length old "") as H. by rewrite str_app_nil_r in H. }
  assert (str_drop (len old + len s) old = "") as ->; [|by rewrite str_app_nil_r].
  pose proof (str_drop_length (len old + len s) old) as H. destruct (str_drop _ old); [done|].
  simpl in H. lia.
Qed.

(** A step of an agent that writes nothing and may take its lock or let it go. *)
Lemma appending_turn fs0 es d a st st' ls :
  appending fs0 es d → agents d !! a = Some st → appends_only st' →
  writes_of a st' = writes_of a st →
  (∀ i, inode_of st' = Some i → names (files d) !! work_path (work_of st') = Some i) →
  (∀ i, holds st' = Some i → ls !! i = Some a) →
  (∀ a' i, a' ≠ a → locks d !! i = Some a' → ls !! i = Some a') →
  (∀ w i pos, st' = Positioned w i pos → len <$> contents (files d) !! i = Some pos) →
  appending fs0 es (turn a st' (files d) ls d).
Proof.
  intros [Hwf Honly Hopen Hlock Hpos Hdone Hcont] Ha Ho Hw Hi Hh Hk Hp.
  split; simpl; try done; setoid_rewrite lookup_insert_Some.
  - intros a' st0 [[_ <-]|[_ ?]]; [done|by eapply Honly].
  - intros a' st0 i [[_ <-]|[_ ?]] Hin; [by apply Hi|by eapply Hopen].
  - intros a' st0 i [[<- <-]|[Hne ?]] Hin; [by apply Hh|]. apply Hk; [done|by eapply Hlock].
  - intros a' w i pos [[_ ?]|[_ ?]]; [by eapply Hp|by eapply Hpos].
  - intros a' st0 [[<- <-]|[_ ?]]; [|by apply Hdone]. rewrite Hw. by apply Hdone.
Qed.

(** Opening keeps all that is known of the others. *)
Lemma appending_open fs0 es d p i fs :
  appending fs0 es d → open_create p (files d) = (i, fs) →
  appending fs0 es {| files := fs; locks := locks d; agents := agents d |}.
Proof.
  intros [Hwf Honly Hopen Hlock Hpos Hdone Hcont] Ho.
  destruct (open_create_spec _ _ _ _ Hwf Ho) as (Hwf' & _).
  split; simpl; try done.
  - intros a st k Ha Hk. exact (proj1 (open_create_keeps _ _ _ _ _ _ Hwf Ho (Hopen _ _ _ Ha Hk))).
  - intros a w k pos Ha.
    destruct (open_create_keeps _ _ _ _ (work_path w) k Hwf Ho) as [_ ->]; [|by eapply Hpos].
    by apply (Hopen _ _ _ Ha).
  - intros q. by rewrite (open_create_text p _ _ _ q Hwf Ho).
Qed.

(** The write at the position of the end, where only the holder of the lock can be. *)
Lemma appending_write fs0 es d a p content i pos n :
  appending fs0 es d → agents d !! a = Some (Positioned (Append p content) i pos) →
  (n ≤ len content)%nat →
  appending fs0 (es ++ [{| by_agent := a; to_path := p; text := str_take n content |}])
    (turn a (Leaving (Append p content) i (Some n))
       (with_contents (alter (put_at pos (str_take n content)) i) (files d)) (locks d) d).
Proof.
  intros [Hwf Honly Hopen Hlock Hpos Hdone Hcont] Ha Hn.
  pose proof (Hopen _ _ i Ha eq_refl) as Hp. simpl in Hp.
  pose proof (Hpos _ _ _ _ Ha) as Hold. apply fmap_Some in Hold as (old & Hold & ->).
  assert (with_contents (alter (put_at (len old) (str_take n content)) i) (files d) =
    with_contents <[i := old +:+ str_take n content]> (files d)) as ->.
  { unfold with_contents. f_equal. apply map_eq. intros k. destruct (decide (k = i)) as [->|].
    - by rewrite lookup_alter_eq, lookup_insert_eq, Hold, <-put_at_end.
    - by rewrite lookup_alter_ne, lookup_insert_ne. }
  split; simpl.
  - by apply fs_wf_store.
  - intros a' st. rewrite lookup_insert_Some. intros [[_ <-]|[_ ?]]; [done|by eapply Honly].
  - intros a' st k. rewrite lookup_insert_Some.
    intros [[_ <-]|[_ ?]] Hk; [by injection Hk as <-|by eapply Hopen].
  - intros a' st k. rewrite lookup_insert_Some.
    intros [[<- <-]|[_ ?]] Hk; [|by eapply Hlock]. by apply (Hlock _ _ _ Ha).
  - intros a' w k pos. rewrite lookup_insert_Some. intros [[_ ?]|[Hne Ha']]; [done|].
    rewrite lookup_insert_ne; [by eapply Hpos|]. intros <-. apply Hne.
    pose proof (Hlock _ _ i Ha eq_refl). pose proof (Hlock _ _ i Ha' eq_refl). congruence.
  - intros a' st. rewrite lookup_insert_Some. unfold written_by. rewrite filter_app.
    intros [[<- <-]|[Hne Ha']].
    + rewrite filter_cons_True by done. pose proof (Hdone _ _ Ha) as Hd.
      unfold written_by in Hd. by rewrite Hd.
    + rewrite (filter_cons_False _ {| by_agent := a; to_path := p; text := str_take n content |})
        by done.
      rewrite filter_nil, app_nil_r. by apply Hdone.
  - intros q. rewrite appended_snoc, <-str_app_assoc, <-Hcont. simpl. case_decide as Hq.
    + subst q. rewrite (content_at_store p) by done.
      by rewrite (content_at_named _ _ _ Hp), Hold.
    + rewrite (content_at_store_ne p), str_app_nil_r; [done..|by intros ->].
Qed.

Lemma appending_step fs0 es d es' d' :
  appending fs0 es d → desk_step d es' d' → appending fs0 (es ++ es') d'.
Proof.
  intros Hap Hstep. pose proof (ap_only _ _ _ Hap) as Honly.
  pose proof (ap_open _ _ _ Hap) as Hopen. pose proof (ap_lock _ _ _ Hap) as Hlock.
  destruct Hstep as [d a w Ha|d a p content i fs Ha Ho|d a p o n i Ha|d a w i Ha Hl|d a w i Ha
    |d a p content i old Ha Hold|d a p content i pos n Ha Hn|d a p content i pos Ha
    |d a p o n i c b af Ha|d a w i Ha|d a w i patched n Ha|d a w i patched Ha|d a w i r Ha
    |d a p content n Ha]; pose proof (Honly _ _ Ha) as Hw; unfold appends_only in Hw;
    simpl in Hw; try (destruct w; try done); try done; rewrite ?app_nil_r;
    try (by apply appending_write);
    try (eapply appending_turn; [exact Hap|exact Ha|done|done| | |done|done];
         intros k Hk; first [done|exact (Hopen _ _ k Ha Hk)|exact (Hlock _ _ k Ha Hk)]).
  - apply (appending_turn fs0 es {| files := fs; locks := locks d; agents := agents d |} a
      (Waiting (Append p content))); try done; [by eapply appending_open|].
    intros k [= <-]. simpl.
    by destruct (open_create_spec _ _ _ _ (ap_wf _ _ _ Hap) Ho) as (_ & ? & _).
  - eapply appending_turn; [exact Hap|exact Ha|done|done| | | |done].
    + intros k Hk. apply (Hopen _ _ _ Ha Hk).
    + intros k [= <-]. apply lookup_insert_eq.
    + intros a' k _ Hk. rewrite lookup_insert_ne; [done|congruence].
  - eapply appending_turn; [exact Hap|exact Ha|done|done| | |done|].
    + intros k Hk. apply (Hopen _ _ _ Ha Hk).
    + intros k Hk. apply (Hlock _ _ _ Ha Hk).
    + intros w k pos [= <- <- <-]. by rewrite Hold.
  - eapply appending_turn; [exact Hap|exact Ha|done|by destruct r|done|done| |done].
    intros a' k Hne Hk. rewrite lookup_delete_ne; [done|]. intros <-.
    pose proof (Hlock _ _ i Ha eq_refl). congruence.
Qed.

(** C16 Appends do not get lost among themselves.  However many agents append to the same
    files, however their calls - opening, locking, seeking to the end, writing at the offset,
    unlocking - come between each other's, and whichever of them fail or write less than they
    were given, every file is at all times what it was at first with the bytes of the writes made
    to it behind, in the order in which they were made.  An append that was answered "ok" for n
    bytes has made exactly one write, of the first n bytes of its text, to its path; one that
    failed or has not come to its write has made none.  A short write is answered "ok", with
    the number of its bytes.  At the start each agent waits to append, and no two paths share
    a file; nobody patches or replaces a file meanwhile. *)
Theorem appends_serialise d0 es d :
  fs_wf (files d0) →
  (∀ a st, agents d0 !! a = Some st → ∃ p content, st = Waiting (Append p content)) →
  desk_run d0 es d →
  (∀ p, default "" (content_at p (files d)) = default "" (content_at p (files d0)) +:+ appended p es) ∧
  (∀ a p content n, agents d !! a = Some (Finished (Append p content) (Some n)) →
     (n ≤ len content)%nat ∧
     written_by a es = [{| by_agent := a; to_path := p; text := str_take n content |}]) ∧
  (∀ a w, agents d !! a = Some (Finished w None) → written_by a es = []).
Proof.
  intros Hwf Hwait Hrun. assert (appending (files d0) es d) as Hap.
  { induction Hrun as [|es d es' d' _ IH Hstep]; [|by eapply appending_step].
    split; try done.
    - intros a st Ha. by destruct (Hwait a st Ha) as (p & content & ->).
    - intros a st i Ha Hi. by destruct (Hwait _ _ Ha) as (? & ? & ->).
    - intros a st i Ha Hi. by destruct (Hwait _ _ Ha) as (? & ? & ->).
    - intros a w i pos Ha. by destruct (Hwait _ _ Ha) as (? & ? & ?).
    - intros a st Ha. by destruct (Hwait _ _ Ha) as (? & ? & ->).
    - intros p. unfold appended. simpl. by rewrite str_app_nil_r. }
  split_and!; [apply (ap_content _ _ _ Hap)| |].
  - intros a p content n Ha. split; [apply (ap_only _ _ _ Hap _ _ Ha)|].
    apply (ap_done _ _ _ Hap _ _ Ha).
  - intros a w Ha. rewrite (ap_done _ _ _ Hap _ _ Ha). by destruct w.
Qed.

(** ** An append and a patch

    The lock is on the inode that was opened, and a patch puts a new one in the place of the
    path: an append that has opened the file before writes to the old one. *)

Definition shared_file : Files :=
  {| names := {["f" := 0%nat]}; contents := {[0%nat := "ab"]}; next_inode := 1 |}.

Definition desk0 : Desk :=
  {| files := shared_file; locks := ∅;
     agents := {[0%nat := Waiting (Append "f" "c"); 1%nat := Waiting (Patch "f" "a" "x")]} |}.

(** The append is answered "ok", and the file is the patched one without it. *)
Lemma append_lost : ∃ es d, desk_run desk0 es d ∧
  agents d !! 0%nat = Some (Finished (Append "f" "c") (Some 1%nat)) ∧
  agents d !! 1%nat = Some (Finished (Patch "f" "a" "x") (Some 2%nat)) ∧
  content_at "f" (files d) = Some "xb".
Proof.
  eexists _, _. split.
  - assert (desk_run desk0 [] desk0) as H by constructor.
    eapply desk_more in H; [|eapply (do_open_append _ 0); reflexivity].
    eapply desk_more in H; [|eapply (do_open_patch _ 1); reflexivity].
    eapply desk_more in H; [|eapply (do_lock _ 1); reflexivity].
    eapply desk_more in H; [|eapply (do_read _ 1); reflexivity].
    eapply desk_more in H; [|eapply (do_rename _ 1 _ _ _ 2); reflexivity].
    eapply desk_more in H; [|eapply (do_unlock _ 1); reflexivity].
    eapply desk_more in H; [|eapply (do_lock _ 0); reflexivity].
    eapply desk_more in H; [|eapply (do_seek _ 0); reflexivity].
    eapply desk_more in H; [|eapply (do_append _ 0 _ _ _ _ 1); [reflexivity|simpl; lia]].
    eapply desk_more in H; [|eapply (do_unlock _ 0); reflexivity].
    exact H.
  - split_and!; reflexivity.
Qed.
