(* ===== verification/Skills.v ===== *)
(** * The skill registry (src/llm/skills/skill_registry.{hpp,cpp})

    Skills are directories with a file [SKILL.md], whose front matter has the metadata.  The
    registry reads all of them when it is built, gives a menu of them, hands out the content of
    one, from a cache or from the disk, and suggests names like one that is not there.  The file
    system is a record of answers; a call that throws gives the exception.  A [char] is signed,
    so that [std::isalnum] of a byte above 127 is undefined behaviour. *)

From stdpp Require Import sorting.
From Stdlib Require Import Ascii.
From S2P Require Import Prelude Json StringUtils Paths Config Sessions Storage Prompt EditDistance FileText.

Local Abbreviation len := String.length.

Record SkillMetadata := {
  sm_name : string;
  sm_description : string;
  sm_author : string;
  sm_version : string;
  sm_tags : list string;
  sm_visibility : string;
  sm_assets : json;
}.

Record SkillContent := { sc_metadata : SkillMetadata; sc_body : string }.

Record SkillInfo := { si_metadata : SkillMetadata; si_preview : string; si_last_mtime : Z }.

(** Times are in nanoseconds. *)
Record SkillRegistry := {
  cached_skills_ : gmap string SkillInfo;
  full_content_cache_ : gmap string SkillContent;
  last_cache_time_ : Z;
}.

Definition CACHE_TTL_SECONDS : Z := 60.
Definition MAX_SKILL_SIZE_BYTES : Z := 100000.

(** What the file system answers. *)
Record SkillDisk := {
  current_path : string;
  path_exists : string → exc bool;
  is_directory : string → exc bool;
  directory_names : string → exc (list string);
  read_skill : string → option string;
  last_write_time : string → exc Z;
}.

(** ** Names *)

Definition char_isalnum (c : ascii) : exc bool :=
  if decide (128 ≤ N_of_ascii c)%N then UB else Ok (isalnum c).

Fixpoint all_skill_chars (s : string) : exc bool :=
  match s with
  | EmptyString => Ok true
  | String c s =>
      alnum ← char_isalnum c;
      if alnum || bool_decide (c = "_"%char ∨ c = "-"%char ∨ c = "."%char) then all_skill_chars s
      else Ok false
  end.

Definition is_valid_skill_name (name : string) : exc bool :=
  if decide (name = "" ∨ 255 < Z.of_nat (len name)) then Ok false else all_skill_chars name.

(** ** Trimming *)

Definition blank (c : ascii) : bool :=
  bool_decide (c = " "%char ∨ c = "009"%char ∨ c = "013"%char ∨ c = "010"%char).
Definition space_or_tab (c : ascii) : bool := bool_decide (c = " "%char ∨ c = "009"%char).

(** [s.substr(0, s.find_last_of(chars))] *)
Fixpoint before_last (chars : ascii → bool) (s : string) : option string :=
  match s with
  | EmptyString => None
  | String c s =>
      match before_last chars s with
      | Some before => Some (String c before)
      | None => if chars c then Some "" else None
      end
  end.

Definition trim_blanks (s : string) : string := drop_back blank (drop_front blank s).

(** ** The front matter *)

Definition default_metadata (skill_name : string) : SkillMetadata :=
  {| sm_name := skill_name; sm_description := ""; sm_author := ""; sm_version := "";
     sm_tags := []; sm_visibility := "public"; sm_assets := JObject [] |}.

Definition with_tags (f : list string → list string) (m : SkillMetadata) : SkillMetadata :=
  {| sm_name := sm_name m; sm_description := sm_description m; sm_author := sm_author m;
     sm_version := sm_version m; sm_tags := f (sm_tags m); sm_visibility := sm_visibility m;
     sm_assets := sm_assets m |}.

(** The assignment of a field that is a text; other keys are ignored. *)
Definition set_metadata (key value : string) (m : SkillMetadata) : SkillMetadata :=
  {| sm_name := if decide (key = "name") then value else sm_name m;
     sm_description := if decide (key = "description") then value else sm_description m;
     sm_author := if decide (key = "author") then value else sm_author m;
     sm_version := if decide (key = "version") then value else sm_version m;
     sm_tags := sm_tags m;
     sm_visibility := if decide (key = "visibility") then value else sm_visibility m;
     sm_assets := sm_assets m |}.

Definition single_quote : ascii := "039"%char.

(** The text between quotes of one kind. *)
Definition strip_quotes (value : string) : string :=
  match value with
  | String q rest =>
      match unsnoc rest with
      | Some (inner, q') =>
          if decide (q = q' ∧ (q = double_quote ∨ q = single_quote)) then inner else value
      | None => value
      end
  | EmptyString => value
  end.

Definition add_tag (tag : string) (m : SkillMetadata) : SkillMetadata :=
  let tag := trim_blanks tag in
  if decide (tag = "") then m else with_tags (λ tags, tags ++ [tag]) m.

(** One line; the flag tells whether [pending_key] is ["tags"]. *)
Definition front_line (st : SkillMetadata * bool) (line : string) : SkillMetadata * bool :=
  let '(m, pending) := st in
  match trim_blanks line with
  | EmptyString => (m, false)
  | String c rest as line =>
      if decide (c = "#"%char) then (m, false)
      else if bool_decide (c = "-"%char) && starts_with rest " " then
        (if pending then add_tag (str_drop 2 line) m else m, pending)
      else match find_char ":" line with
           | None => (m, false)
           | Some (key, value) =>
               let key := drop_back space_or_tab key in
               let value := strip_quotes (trim_blanks value) in
               if decide (key = "tags") then
                 if decide (value = "") then (m, true)
                 else (foldl (λ m tag, add_tag tag m) m (split value ","), false)
               else (set_metadata key value m, false)
           end
  end.

Definition front_matter_end : string := String line_end "---".

Definition parse_skill_frontmatter_and_body (content skill_name : string) :
    exc (SkillMetadata * string) :=
  let metadata := default_metadata skill_name in
  if negb (starts_with content "---") then Ok (metadata, content)
  else match find_str front_matter_end (str_drop 4 content) with
       | None => Ok (metadata, content)
       | Some (yaml_block, after) =>
           match after with
           | EmptyString => Throw "basic_string::substr"
           | String _ body => Ok ((foldl front_line (metadata, false) (get_lines yaml_block)).1, body)
           end
       end.

(** ** Loading *)

Section disk.
Context (d : SkillDisk).

Fixpoint repo_root_from (i : nat) (cur : string) : exc string :=
  match i with
  | O => Ok (current_path d)
  | S i =>
      skills ← path_exists d (path_join cur "skills");
      found ← (if skills : bool then path_exists d (path_join cur "config") else Ok false);
      if found : bool then Ok cur
      else if decide (parent_path cur = "") then Ok (current_path d)
      else repo_root_from i (parent_path cur)
  end.

Definition repo_root_from_cwd : exc string := repo_root_from 8 (current_path d).

Definition list_directory_names (root : string) : exc (list string) :=
  there ← path_exists d root;
  directory ← (if there : bool then is_directory d root else Ok false);
  if directory : bool then directory_names d root else Ok [].

Definition skill_file (repo_root skill_name : string) : string :=
  path_join (path_join (path_join repo_root "skills") skill_name) "SKILL.md".

(** The first bytes of the body, up to the last blank. *)
Definition preview_of (body : string) : string :=
  if decide (Z.of_nat (len body) ≤ 240) then body
  else
    let preview := str_take 240 body in
    default preview (before_last (λ c, space_or_tab c || bool_decide (c = line_end)) preview).

(** The parsed file of a skill, where there is one that can be read. *)
Definition parsed_skill (repo_root skill_name : string) : exc (option (SkillMetadata * string)) :=
  let file := skill_file repo_root skill_name in
  there ← path_exists d file;
  if negb there then Ok None
  else match read_skill d file with
       | None => Ok None
       | Some content =>
           if decide (MAX_SKILL_SIZE_BYTES < Z.of_nat (len content)) then Ok None
           else Some <$> parse_skill_frontmatter_and_body content skill_name
       end.

Definition load_skill_file (repo_root skill_name : string) : exc (option SkillInfo) :=
  valid ← is_valid_skill_name skill_name;
  if negb valid then Ok None
  else
    parsed ← parsed_skill repo_root skill_name;
    match parsed with
    | None => Ok None
    | Some (metadata, body) =>
        mtime ← last_write_time d (skill_file repo_root skill_name);
        Ok (Some {| si_metadata := metadata; si_preview := preview_of body; si_last_mtime := mtime |})
    end.

Fixpoint load_skills (repo_root : string) (names : list string) (cached : gmap string SkillInfo) :
    exc (gmap string SkillInfo) :=
  match names with
  | [] => Ok cached
  | name :: names =>
      info ← load_skill_file repo_root name;
      load_skills repo_root names (match info with Some i => <[name := i]> cached | None => cached end)
  end.

(** [load_from_skills_directory] on a registry without contents: the constructor and [reload]. *)
Definition load_from_skills_directory (now : Z) : exc SkillRegistry :=
  repo_root ← repo_root_from_cwd;
  names ← list_directory_names (path_join repo_root "skills");
  cached ← load_skills repo_root names ∅;
  Ok {| cached_skills_ := cached; full_content_cache_ := ∅; last_cache_time_ := now |}.
End disk.

(** In the order of the keys of the map. *)
Definition list_skill_names (r : SkillRegistry) : list string :=
  order_by_text (map_to_list (cached_skills_ r)).*1.

(** ** The content of a skill *)

Definition npos : Z := 2 ^ 64 - 1.

(** [s.rfind(c)] *)
Definition rfind_pos (c : ascii) (s : string) : Z :=
  match rfind_char c s with Some (before, _) => Z.of_nat (len before) | None => npos end.

Definition truncation_mark : string := String line_end "...(truncated)".

(** Where a text is cut: positions are compared as they are, and [npos] is the largest. *)
Definition best_cut (truncated : string) : Z :=
  let last_period := rfind_pos "." truncated in
  let last_newline := rfind_pos line_end truncated in
  let last_space := rfind_pos " " truncated in
  if decide (last_newline ≠ npos ∧ last_period < last_newline) then last_newline
  else if decide (last_space ≠ npos ∧ last_period < last_space) then last_space
  else last_period.

Definition truncate_markdown (text : string) (max_chars : Z) : string :=
  if decide (Z.of_nat (len text) ≤ max_chars) then text
  else
    let truncated := str_take (Z.to_nat max_chars) text in
    let cut := best_cut truncated in
    (if decide (cut ≠ npos ∧ max_chars / 2 < cut) then str_take (Z.to_nat cut) truncated
     else truncated) +:+ truncation_mark.

(** The seconds that have passed are compared as a [size_t]. *)
Definition cache_expired (now last : Z) : bool :=
  bool_decide (CACHE_TTL_SECONDS < u64 (Z.quot (now - last) (10 ^ 9))).

Definition is_cache_valid (d : SkillDisk) (now : Z) (r : SkillRegistry) (skill_name : string) :
    exc bool :=
  if cache_expired now (last_cache_time_ r) then Ok false
  else match cached_skills_ r !! skill_name with
       | None => Ok true
       | Some info =>
           repo_root ← repo_root_from_cwd d;
           there ← path_exists d (skill_file repo_root skill_name);
           if negb there then Ok true
           else mtime ← last_write_time d (skill_file repo_root skill_name);
                Ok (bool_decide (mtime = si_last_mtime info))
       end.

Definition truncated_content (max_chars : Z) (c : SkillContent) : SkillContent :=
  {| sc_metadata := sc_metadata c; sc_body := truncate_markdown (sc_body c) max_chars |}.

(** The clock is read when the cache is looked at ([now]) and after a file was read ([now']). *)
Definition load_skill (d : SkillDisk) (now' : Z) (skill_name : string) (max_chars : Z)
    (r : SkillRegistry) : exc (option SkillContent * SkillRegistry) :=
  repo_root ← repo_root_from_cwd d;
  parsed ← parsed_skill d repo_root skill_name;
  match parsed with
  | None => Ok (None, r)
  | Some (metadata, body) =>
      let result := truncated_content max_chars {| sc_metadata := metadata; sc_body := body |} in
      Ok (Some result,
          {| cached_skills_ := cached_skills_ r;
             full_content_cache_ := <[skill_name := result]> (full_content_cache_ r);
             last_cache_time_ := now' |})
  end.

Definition get_skill (d : SkillDisk) (now now' : Z) (skill_name : string) (max_chars : Z)
    (r : SkillRegistry) : exc (option SkillContent * SkillRegistry) :=
  valid ← is_valid_skill_name skill_name;
  if negb valid then Ok (None, r)
  else match full_content_cache_ r !! skill_name with
       | Some content =>
           fresh ← is_cache_valid d now r skill_name;
           if fresh : bool then Ok (Some (truncated_content max_chars content), r)
           else load_skill d now' skill_name max_chars r
       | None => load_skill d now' skill_name max_chars r
       end.

(** ** Suggestions *)

(** Letters in lower case, digits and, for the delimiters, spaces. *)
Fixpoint normal_chars (s : string) : exc string :=
  match s with
  | EmptyString => Ok ""
  | String c s =>
      alnum ← char_isalnum c;
      rest ← normal_chars s;
      Ok (if alnum : bool then String (tolower c) rest
          else if decide (c = "_"%char ∨ c = "-"%char ∨ c = " "%char) then String " " rest
          else rest)
  end.

Fixpoint collapse (last_was_space : bool) (s : string) : string :=
  match s with
  | EmptyString => ""
  | String c s =>
      if decide (c = " "%char) then
        if last_was_space then collapse true s else String c (collapse true s)
      else String c (collapse false s)
  end.

Definition is_space_char (c : ascii) : bool := bool_decide (c = " "%char).

Definition normalize_name (name : string) : exc string :=
  normalized ← normal_chars name;
  Ok (drop_back is_space_char (drop_front is_space_char (collapse false normalized))).

Definition exact_cost (x y : ascii) : Z := if decide (x = y) then 0 else 1.

Definition levenshtein_distance (a b : string) : Z :=
  List.last (last_row exact_cost (String.list_ascii_of_string a) (String.list_ascii_of_string b)) 0.

Definition levenshtein_score (a b : string) : double :=
  let max_len := Z.of_nat (Nat.max (len a) (len b)) in
  if decide (max_len = 0) then d_one
  else d_sub d_one (d_div (d_of_Z (levenshtein_distance a b)) (d_of_Z max_len)).

(** The words that [>>] reads. *)
Fixpoint words_from (token s : string) : list string :=
  let emit := if decide (token = "") then [] else [token] in
  match s with
  | EmptyString => emit
  | String c s => if isspace c then emit ++ words_from "" s else words_from (snoc token c) s
  end.
Definition words (s : string) : list string := remove_dups (words_from "" s).

(** The literals 0.95, 0.90, 0.8 and 0.6. *)
Definition d_0_95 : double := S754_finite false 8556839292003942 (-53).
Definition d_0_90 : double := d_0_9.
Definition d_0_8 : double := S754_finite false 7205759403792794 (-53).
Definition d_0_6 : double := S754_finite false 5404319552844595 (-53).

Definition overlap_score (norm_query norm_target : string) : double :=
  if contains_str norm_target norm_query then d_0_95
  else if contains_str norm_query norm_target then d_0_90
  else
    let query_tokens := words norm_query in
    let target_tokens := words norm_target in
    if decide (query_tokens = [] ∨ target_tokens = []) then d_zero
    else
      let overlap := length (filter (λ t, t ∈ target_tokens) query_tokens) in
      d_mul (d_div (d_of_Z (Z.of_nat overlap)) (d_of_Z (Z.of_nat (length query_tokens)))) d_0_8.

Definition token_overlap_score (query target : string) : exc double :=
  norm_query ← normalize_name query;
  norm_target ← normalize_name target;
  Ok (overlap_score norm_query norm_target).

Record SkillSuggestion := { sg_name : string; sg_description : string; sg_score : double }.

Definition combine_scores (token_score edit_score : double) : double :=
  d_add (d_mul d_0_6 token_score) (d_mul d_0_4 edit_score).

Definition suggest (min_score : double) (query name : string) (info : SkillInfo) :
    exc (option SkillSuggestion) :=
  token_score ← token_overlap_score query name;
  norm_query ← normalize_name query;
  norm_name ← normalize_name name;
  let score := combine_scores token_score (levenshtein_score norm_query norm_name) in
  Ok (if SFleb min_score score then
        Some {| sg_name := name; sg_description := sm_description (si_metadata info); sg_score := score |}
      else None).

Definition better (a b : SkillSuggestion) : bool := d_gtb (sg_score a) (sg_score b).

Definition get_skill_suggestions (r : SkillRegistry) (query : string) (min_score : double)
    (max_candidates : nat) : exc (list SkillSuggestion) :=
  candidates ← exc_map (λ name,
    match cached_skills_ r !! name with
    | Some info => suggest min_score query name info
    | None => Ok None
    end) (list_skill_names r);
  sorted ← std_sort better (omap id candidates);
  Ok (take max_candidates sorted).

(** ** The menu *)

Definition menu_entry (name : string) (info : SkillInfo) : option json :=
  let m := si_metadata info in
  if decide (sm_visibility m = "public" ∨ sm_visibility m = "internal") then
    Some (JObject [("name", JString name); ("description", JString (sm_description m));
                   ("visibility", JString (sm_visibility m))])
  else None.

Definition skill_exists (r : SkillRegistry) (skill_name : string) : bool :=
  bool_decide (is_Some (cached_skills_ r !! skill_name)).

Definition get_skills_menu (r : SkillRegistry) : json :=
  JArray (omap (λ name, cached_skills_ r !! name ≫= menu_entry name) (list_skill_names r)).

(** What the assembly of the system prompt gets. *)
Definition menu_of_disk (d : SkillDisk) (now : Z) : exc json :=
  get_skills_menu <$> load_from_skills_directory d now.

Example normalize_delimiters : normalize_name "Web_-search." = Ok "web search". Proof. reflexivity. Qed.
Example truncate_words : truncate_markdown "ab cd. ef gh" 10 = "ab cd. ef" +:+ truncation_mark.
Proof. reflexivity. Qed.

(** ** The front matter, written and read *)

Lemma drop_back_last chars s c : chars c = false → drop_back chars (snoc s c) = snoc s c.
Proof.
  intros Hc. unfold snoc. induction s as [|d s IH]; rewrite ?str_app_cons; cbn [drop_back].
  - simpl. by rewrite Hc.
  - rewrite IH, (bool_decide_eq_false_2 (_ = "")), andb_false_r; [done|]. by destruct s.
Qed.

Lemma drop_back_cons chars c s :
  drop_back chars s = s → s ≠ "" → drop_back chars (String c s) = String c s.
Proof. intros Hs Hne. cbn [drop_back]. by rewrite Hs, bool_decide_eq_false_2, andb_false_r. Qed.

Lemma drop_back_app chars p s :
  drop_back chars s = s → s ≠ "" → drop_back chars (p +:+ s) = p +:+ s.
Proof.
  intros Hs Hne. induction p as [|c p IH]; [done|]. rewrite str_app_cons.
  apply drop_back_cons; [done|]. by destruct p.
Qed.

Definition quoted (s : string) : string := String double_quote (snoc s double_quote).

Lemma strip_quotes_quoted s : strip_quotes (quoted s) = s.
Proof.
  unfold strip_quotes, quoted. rewrite (proj2 (unsnoc_Some _ s double_quote) eq_refl).
  rewrite decide_True; [done|]. auto.
Qed.

Lemma quoted_back chars s : chars double_quote = false → drop_back chars (quoted s) = quoted s.
Proof.
  intros H. unfold quoted. apply drop_back_cons; [by apply drop_back_last|].
  unfold snoc. by destruct s.
Qed.

Lemma trim_quoted s : trim_blanks (quoted s) = quoted s.
Proof. apply (quoted_back blank s eq_refl). Qed.

(** The lines that a metadata is written in. *)
Definition front_lines (m : SkillMetadata) : list string :=
  ["name: " +:+ quoted (sm_name m); "description: " +:+ quoted (sm_description m);
   "author: " +:+ quoted (sm_author m); "version: " +:+ quoted (sm_version m);
   "visibility: " +:+ quoted (sm_visibility m); "tags:"] ++ (String.append "- " <$> sm_tags m).

Definition skill_text (m : SkillMetadata) (body : string) : string :=
  "---" +:+ String line_end (join (front_lines m) (String line_end "") +:+
    front_matter_end +:+ String line_end body).

(** A key before a quoted value. *)
Lemma front_line_key key m b v :
  (match key with
   | String c _ => negb (blank c) && bool_decide (c ≠ "#"%char ∧ c ≠ "-"%char)
   | EmptyString => false
   end) = true →
  has_char ":" key = false → drop_back space_or_tab key = key → key ≠ "tags" →
  front_line (m, b) (key +:+ ": " +:+ quoted v) = (set_metadata key v m, false).
Proof.
  intros Hc Hcolon Hkey Htags. destruct key as [|c rest] eqn:E; [done|].
  apply andb_true_iff in Hc as [Hb%negb_true_iff [Hs Hd]%bool_decide_eq_true].
  assert (trim_blanks (String c rest +:+ ": " +:+ quoted v) = String c rest +:+ ": " +:+ quoted v) as Ht.
  { unfold trim_blanks. rewrite str_app_cons. cbn [drop_front]. rewrite Hb, <-str_app_cons.
    rewrite <-str_app_assoc. apply drop_back_app; [by apply quoted_back|done]. }
  unfold front_line. rewrite Ht, str_app_cons. rewrite decide_False by done.
  rewrite (bool_decide_eq_false_2 (c = "-"%char)) by done. cbn [andb]. rewrite <-str_app_cons.
  change (": " +:+ quoted v) with (String ":" (String " " (quoted v))).
  rewrite find_char_app by done. rewrite Hkey.
  change (trim_blanks (String " " (quoted v))) with (trim_blanks (quoted v)).
  rewrite trim_quoted, strip_quotes_quoted, decide_False by done. done.
Qed.

(** A tag that is written on a line of its own. *)
Definition plain_tag (t : string) : Prop :=
  t ≠ "" ∧ has_char line_end t = false ∧ drop_front blank t = t ∧ drop_back blank t = t.

Lemma front_line_tag m t :
  plain_tag t → front_line (m, true) ("- " +:+ t) = (with_tags (λ tags, tags ++ [t]) m, true).
Proof.
  intros (Hne & _ & Hf & Hb).
  assert (trim_blanks ("- " +:+ t) = "- " +:+ t) as Ht.
  { unfold trim_blanks. change (drop_front blank ("- " +:+ t)) with ("- " +:+ t).
    by apply drop_back_app. }
  unfold front_line. rewrite Ht. change ("- " +:+ t) with (String "-" (String " " t)).
  cbv iota. rewrite decide_False, bool_decide_eq_true_2 by done.
  replace (starts_with (String " " t) " ") with true by (by destruct t).
  cbn [andb str_drop]. unfold add_tag, trim_blanks. by rewrite Hf, Hb, decide_False.
Qed.

Lemma front_tags m ts :
  Forall plain_tag ts →
  foldl front_line (m, true) (String.append "- " <$> ts) = (with_tags (λ tags, tags ++ ts) m, true).
Proof.
  intros Hts. revert m. induction Hts as [|t ts Ht _ IH]; intros m.
  { simpl. unfold with_tags. rewrite app_nil_r. by destruct m. }
  cbn [fmap list_fmap foldl]. rewrite front_line_tag by done. rewrite IH. unfold with_tags. simpl.
  by rewrite <-app_assoc.
Qed.

(** A line is not the end of the front matter. *)
Definition inner_line (l : string) : Prop :=
  has_char line_end l = false ∧
  ∃ c c' rest, l = String c (String c' rest) ∧ (c ≠ "-"%char ∨ c' ≠ "-"%char).

Lemma inner_not_end l s : inner_line l → strip_prefix "---" (l +:+ s) = None.
Proof.
  intros (_ & c & c' & rest & -> & Hc). rewrite !str_app_cons. cbn [strip_prefix].
  destruct (decide ("-"%char = c)) as [<-|]; [|done]. rewrite decide_False; [done|].
  intros <-. by destruct Hc.
Qed.

Lemma find_end_skip l s :
  has_char line_end l = false →
  find_str front_matter_end (l +:+ s) =
    match find_str front_matter_end s with
    | Some (before, after) => Some (l +:+ before, after)
    | None => None
    end.
Proof.
  induction l as [|c l IH]; intros Hl.
  { rewrite str_app_nil_l. by destruct (find_str _ s) as [[]|]. }
  simpl in Hl. apply orb_false_iff in Hl as [Hc%bool_decide_eq_false Hl].
  rewrite str_app_cons. cbn [find_str].
  replace (strip_prefix front_matter_end (String c (l +:+ s))) with (@None string).
  2: { unfold front_matter_end. cbn [strip_prefix]. rewrite decide_False; [done|]. congruence. }
  rewrite IH by done. by destruct (find_str _ s) as [[]|].
Qed.

Lemma find_front_matter_end l ls rest :
  inner_line l → Forall inner_line ls →
  find_str front_matter_end (join (l :: ls) (String line_end "") +:+ front_matter_end +:+ rest) =
    Some (join (l :: ls) (String line_end ""), rest).
Proof.
  intros Hl Hls. revert l Hl. induction Hls as [|l' ls Hl' _ IH]; intros l Hl.
  - cbn [join]. rewrite find_end_skip by apply Hl. rewrite find_str_prefix. by rewrite str_app_nil_r.
  - change (join (l :: l' :: ls) (String line_end "")) with
      (l +:+ String line_end "" +:+ join (l' :: ls) (String line_end "")).
    rewrite !str_app_assoc, find_end_skip by apply Hl.
    rewrite !str_app_cons, !str_app_nil_l.
    specialize (IH l' Hl'). cbn [find_str].
    assert (strip_prefix "---" (join (l' :: ls) (String line_end "") +:+ front_matter_end +:+ rest) = None)
      as Hno.
    { assert (∃ t, join (l' :: ls) (String line_end "") = l' +:+ t) as [t ->].
      { destruct ls; cbn [join]; [exists ""; by rewrite str_app_nil_r|by eexists]. }
      rewrite str_app_assoc. by apply inner_not_end. }
    replace (strip_prefix front_matter_end (String line_end (join (l' :: ls) (String line_end "") +:+
      front_matter_end +:+ rest))) with (@None string) by (symmetry; exact Hno).
    by rewrite IH.
Qed.

(** The lines of a text that was joined. *)
Lemma get_lines_line l : l ≠ "" → has_char line_end l = false → get_lines l = [l].
Proof.
  induction l as [|c l IH]; intros Hne Hl; [done|]. cbn [get_lines].
  simpl in Hl. apply orb_false_iff in Hl as [Hc%bool_decide_eq_false Hl].
  rewrite decide_False by done. destruct l as [|c' l]; [done|]. by rewrite IH.
Qed.

Lemma get_lines_cons l s :
  has_char line_end l = false → get_lines (l +:+ String line_end s) = l :: get_lines s.
Proof.
  induction l as [|c l IH]; intros Hl.
  { rewrite str_app_nil_l. cbn [get_lines]. by rewrite decide_True. }
  simpl in Hl. apply orb_false_iff in Hl as [Hc%bool_decide_eq_false Hl].
  rewrite str_app_cons. cbn [get_lines]. rewrite decide_False by done. by rewrite IH.
Qed.

Lemma get_lines_join ls :
  Forall (λ l, l ≠ "" ∧ has_char line_end l = false) ls →
  get_lines (join ls (String line_end "")) = ls.
Proof.
  induction 1 as [|l ls [Hne Hl] Hls IH]; [done|]. destruct ls as [|l' ls].
  { by apply get_lines_line. }
  change (join (l :: l' :: ls) (String line_end "")) with
    (l +:+ String line_end "" +:+ join (l' :: ls) (String line_end "")).
  rewrite str_app_cons, str_app_nil_l, get_lines_cons by done. by rewrite IH.
Qed.

(** A metadata that can be written: the registry keeps no assets, and no text has two lines. *)
Record writable (m : SkillMetadata) : Prop := {
  wr_assets : sm_assets m = JObject [];
  wr_lines : Forall (λ s, has_char line_end s = false)
    [sm_name m; sm_description m; sm_author m; sm_version m; sm_visibility m];
  wr_tags : Forall plain_tag (sm_tags m);
}.

Lemma quoted_line key v :
  has_char line_end key = false → has_char line_end v = false →
  has_char line_end (key +:+ quoted v) = false.
Proof.
  intros Hk Hv. unfold quoted, snoc. rewrite has_char_app, Hk. simpl. by rewrite has_char_app, Hv.
Qed.

Lemma front_lines_inner m : writable m → Forall inner_line (front_lines m).
Proof.
  intros [_ Hl Ht]. rewrite !Forall_cons in Hl. destruct Hl as (Hn & Hd & Ha & Hv & Hvis & _).
  apply Forall_app. split.
  - repeat (apply Forall_cons; split); [..|by apply Forall_nil].
    1-5: split; [by apply quoted_line|]; eexists _, _, _; split; [reflexivity|]; by left.
    split; [done|]. eexists _, _, _. split; [reflexivity|]. by left.
  - apply Forall_fmap. eapply Forall_impl; [exact Ht|]. intros t (_ & Hnl & _). split.
    + simpl. change (String "-" (String " " t)) with ("- " +:+ t). by rewrite has_char_app, Hnl.
    + exists "-"%char, " "%char, t. split; [done|]. by right.
Qed.

Lemma front_lines_read m skill_name :
  writable m → (foldl front_line (default_metadata skill_name, false) (front_lines m)).1 = m.
Proof.
  intros [Ha Hl Ht]. unfold front_lines. rewrite foldl_app. cbn [foldl].
  change "name: " with ("name" +:+ ": "). change "description: " with ("description" +:+ ": ").
  change "author: " with ("author" +:+ ": "). change "version: " with ("version" +:+ ": ").
  change "visibility: " with ("visibility" +:+ ": ").
  rewrite !str_app_assoc. do 5 rewrite front_line_key by done.
  match goal with |- context [front_line (?m0, false) "tags:"] =>
    change (front_line (m0, false) "tags:") with (m0, true) end.
  rewrite front_tags by done. destruct m; simpl in *. by rewrite Ha.
Qed.

(** The metadata of a skill is read as it was written.  For every metadata whose texts have no
    line ends and whose tags have no blanks at their ends, the file that has the texts between
    quotes and a line for each tag gives that metadata and the body behind it; the text of a field
    may have quotes, colons, dashes and blanks anywhere, and the body may be anything. *)
Lemma parse_written_skill m body skill_name :
  writable m → parse_skill_frontmatter_and_body (skill_text m body) skill_name = Ok (m, body).
Proof.
  intros Hm. pose proof (front_lines_inner m Hm) as Hi.
  assert (str_drop 4 (skill_text m body) = join (front_lines m) (String line_end "") +:+
    front_matter_end +:+ String line_end body) as Hdrop by done.
  unfold parse_skill_frontmatter_and_body. rewrite Hdrop.
  change (starts_with (skill_text m body) "---") with true. cbn [negb].
  destruct (front_lines m) as [|l ls] eqn:E; [done|]. apply Forall_cons in Hi as [Hl Hls].
  rewrite find_front_matter_end by done. rewrite get_lines_join, <-E, front_lines_read; [done..|].
  apply Forall_cons. split; [|eapply Forall_impl; [exact Hls|]].
  - destruct Hl as (? & c & c' & r & -> & _). done.
  - intros l' (? & c & c' & r & -> & _). done.
Qed.

(** A file that ends with the line that closes the front matter, without a line end behind it,
    makes the parser throw. *)
Lemma front_matter_without_body l ls skill_name :
  inner_line l → Forall inner_line ls →
  parse_skill_frontmatter_and_body
    ("---" +:+ String line_end (join (l :: ls) (String line_end "") +:+ front_matter_end)) skill_name =
  Throw "basic_string::substr".
Proof.
  intros Hl Hls. unfold parse_skill_frontmatter_and_body.
  change (str_drop 4 ("---" +:+ String line_end ?s)) with s.
  pose proof (find_front_matter_end l ls "" Hl Hls) as Hf. rewrite str_app_nil_r in Hf.
  by rewrite Hf.
Qed.

Lemma load_skills_throws d root names cached name w :
  name ∈ names → load_skill_file d root name = Throw w →
  (∀ n, n ∈ names → load_skill_file d root n ≠ UB) →
  ∃ w', load_skills d root names cached = Throw w'.
Proof.
  intros Hin Hw Hub. revert cached. induction names as [|n names IH]; intros cached.
  { by apply not_elem_of_nil in Hin. }
  cbn [load_skills]. destruct (load_skill_file d root n) as [info|w'|] eqn:E.
  - rewrite exc_bind_ok. apply elem_of_cons in Hin as [->|Hin]; [congruence|].
    apply IH; [done|]. intros n' Hn'. apply Hub. by right.
  - by exists w'.
  - exfalso. apply (Hub n); [left|done].
Qed.

(** One skill that cannot be parsed takes the menu of all the skills out of the system prompt. *)
Lemma one_bad_skill_hides_all d now root names name w regex_search read_file mode msg user :
  repo_root_from_cwd d = Ok root →
  list_directory_names d (path_join root "skills") = Ok names →
  name ∈ names → load_skill_file d root name = Throw w →
  (∀ n, n ∈ names → load_skill_file d root n ≠ UB) →
  build_layered_system_prompt regex_search read_file (menu_of_disk d now) mode msg user =
  build_layered_system_prompt regex_search read_file (Ok (JArray [])) mode msg user.
Proof.
  intros Hroot Hnames Hin Hw Hub.
  destruct (load_skills_throws d root names ∅ name w Hin Hw Hub) as [w' Hload].
  unfold menu_of_disk, load_from_skills_directory.
  rewrite Hroot, exc_bind_ok, Hnames, exc_bind_ok, Hload. done.
Qed.

(** ** What is handed out *)

Lemma str_take_app_le n s : ∃ rest, s = str_take n s +:+ rest.
Proof. exists (str_drop n s). by rewrite str_take_drop. Qed.

Lemma rfind_char_split c s b a : rfind_char c s = Some (b, a) → s = b +:+ String c a.
Proof.
  revert b a. induction s as [|c' s IH]; intros b a E; [done|]. cbn [rfind_char] in E.
  destruct (rfind_char c s) as [[b' a']|].
  - injection E as <- <-. by rewrite str_app_cons, <-(IH b' a').
  - case_decide; by simplify_eq.
Qed.

Lemma rfind_char_has c s b a : rfind_char c s = Some (b, a) → has_char c s = true.
Proof.
  intros ->%rfind_char_split. rewrite has_char_app. simpl.
  by rewrite bool_decide_eq_true_2, orb_true_r.
Qed.

Lemma rfind_pos_before c s : rfind_pos c s ≠ npos → rfind_pos c s < Z.of_nat (len s).
Proof.
  unfold rfind_pos. destruct (rfind_char c s) as [[b a]|] eqn:E; [|done]. intros _.
  rewrite (rfind_char_split _ _ _ _ E), str_app_length. simpl. lia.
Qed.

Lemma best_cut_before s : best_cut s ≠ npos → best_cut s < Z.of_nat (len s).
Proof. unfold best_cut. repeat case_decide; intros; by apply rfind_pos_before. Qed.

(** A text without a full stop is cut in the middle of a word. *)
Lemma truncate_without_period text max_chars :
  max_chars < Z.of_nat (len text) →
  has_char "." (str_take (Z.to_nat max_chars) text) = false → Z.of_nat (len text) < npos →
  truncate_markdown text max_chars = str_take (Z.to_nat max_chars) text +:+ truncation_mark.
Proof.
  intros Hlen Hno Hbig. unfold truncate_markdown. rewrite decide_False by lia. cbv zeta.
  set (truncated := str_take (Z.to_nat max_chars) text) in *.
  assert (rfind_pos "." truncated = npos) as Hp.
  { unfold rfind_pos. destruct (rfind_char "." truncated) as [[b a]|] eqn:E; [|done].
    by rewrite (rfind_char_has _ _ _ _ E) in Hno. }
  assert (∀ c, rfind_pos c truncated ≤ npos) as Hle.
  { intros c. destruct (decide (rfind_pos c truncated = npos)) as [->|Hc]; [done|].
    apply rfind_pos_before in Hc. destruct (str_take_app_le (Z.to_nat max_chars) text) as [rest H].
    fold truncated in H. apply (f_equal len) in H. rewrite str_app_length in H. lia. }
  assert (best_cut truncated = npos) as ->.
  { unfold best_cut. rewrite Hp. pose proof (Hle line_end). pose proof (Hle " "%char).
    repeat (case_decide; [lia|]). done. }
  by rewrite decide_False by tauto.
Qed.

(** A text that fits is left as it is; of a longer one a beginning is left, at least the half of
    what fits, and the mark. *)
Lemma truncate_spec text max_chars :
  0 ≤ max_chars →
  (Z.of_nat (len text) ≤ max_chars ∧ truncate_markdown text max_chars = text) ∨
  ∃ front rest, max_chars < Z.of_nat (len text) ∧ text = front +:+ rest ∧
    truncate_markdown text max_chars = front +:+ truncation_mark ∧
    max_chars / 2 ≤ Z.of_nat (len front) ≤ max_chars.
Proof.
  intros Hmax. unfold truncate_markdown. case_decide as Hfit; [by left|]. right.
  set (truncated := str_take (Z.to_nat max_chars) text).
  assert (Z.of_nat (len truncated) = max_chars) as Hlen.
  { unfold truncated. rewrite str_take_length; lia. }
  destruct (str_take_app_le (Z.to_nat max_chars) text) as [rest Hrest]. fold truncated in Hrest.
  case_decide as Hcut.
  - assert (best_cut truncated < Z.of_nat (len truncated)) as Hlt.
    { apply best_cut_before, Hcut. }
    destruct (str_take_app_le (Z.to_nat (best_cut truncated)) truncated) as [rest' Hrest'].
    exists (str_take (Z.to_nat (best_cut truncated)) truncated), (rest' +:+ rest).
    rewrite <-str_app_assoc, <-Hrest'. split_and!; [lia|done|done| |].
    all: rewrite str_take_length by lia; lia.
  - exists truncated, rest. split_and!; [lia|done|done| |]; rewrite Hlen; [|lia].
    apply Z.div_le_upper_bound; lia.
Qed.

(** ** The cache *)

(** While the cache is in force, it answers with the body that was cut for the request that filled
    it, whatever a later request has room for. *)
Lemma cache_keeps_truncation d now1 now1' now2 now2' name max1 max2 r r1 c root metadata body :
  is_valid_skill_name name = Ok true →
  repo_root_from_cwd d = Ok root → parsed_skill d root name = Ok (Some (metadata, body)) →
  full_content_cache_ r !! name = None →
  get_skill d now1 now1' name max1 r = Ok (c, r1) →
  is_cache_valid d now2 r1 name = Ok true →
  c = Some {| sc_metadata := metadata; sc_body := truncate_markdown body max1 |} ∧
  get_skill d now2 now2' name max2 r1 =
    Ok (Some {| sc_metadata := metadata;
                sc_body := truncate_markdown (truncate_markdown body max1) max2 |}, r1).
Proof.
  intros Hname Hroot Hparsed Hnone Hget Hvalid.
  unfold get_skill in Hget. rewrite Hname, exc_bind_ok, Hnone in Hget. cbn [negb] in Hget.
  unfold load_skill in Hget. rewrite Hroot, exc_bind_ok, Hparsed, exc_bind_ok in Hget.
  injection Hget as <- <-. split; [done|]. unfold get_skill.
  rewrite Hname, exc_bind_ok. cbn [negb full_content_cache_]. rewrite lookup_insert_eq, Hvalid, exc_bind_ok.
  done.
Qed.

(** ** Suggestions: names *)

(** No name leads to another directory but [..]. *)
Lemma valid_name_no_separator name :
  is_valid_skill_name name = Ok true → has_char "/" name = false.
Proof.
  unfold is_valid_skill_name. case_decide; [done|].
  assert (∀ s, all_skill_chars s = Ok true → has_char "/" s = false) as H'; [|by apply H'].
  induction s as [|c s IH]; intros Hs; [done|]. cbn [all_skill_chars has_char] in *.
  destruct (decide (c = "/"%char)) as [->|Hc]; [discriminate Hs|].
  rewrite bool_decide_eq_false_2 by done. simpl. apply IH.
  destruct (char_isalnum c) as [b| |]; [|done..]. simpl in Hs. by destruct (b || _).
Qed.

Example dot_dot_is_valid : is_valid_skill_name ".." = Ok true. Proof. reflexivity. Qed.
Example dot_dot_file : skill_file "/v" ".." = "/v/skills/../SKILL.md". Proof. reflexivity. Qed.

Lemma all_skill_chars_normal s : all_skill_chars s = Ok true → ∃ t, normal_chars s = Ok t.
Proof.
  induction s as [|c s IH]; intros H; [by exists ""|]. cbn [all_skill_chars normal_chars] in *.
  destruct (char_isalnum c) as [b| |]; [|done..]. simpl in H |- *.
  destruct (b || _); [|done]. destruct (IH H) as [t ->]. by eexists.
Qed.

Lemma valid_name_normal name : is_valid_skill_name name = Ok true → ∃ t, normalize_name name = Ok t.
Proof.
  unfold is_valid_skill_name, normalize_name. case_decide; [done|].
  intros [t ->]%all_skill_chars_normal. rewrite exc_bind_ok. by eexists.
Qed.

Lemma load_skills_valid d root names : ∀ cached cached',
  load_skills d root names cached = Ok cached' →
  (∀ name, is_Some (cached !! name) → is_valid_skill_name name = Ok true) →
  ∀ name, is_Some (cached' !! name) → is_valid_skill_name name = Ok true.
Proof.
  induction names as [|n names IH]; intros cached cached' H Hc; [by injection H as <-|].
  cbn [load_skills] in H. apply exc_bind_Ok_inv in H as (info & Hinfo & H).
  eapply IH; [exact H|]. intros name. destruct info as [info|]; [|apply Hc].
  destruct (decide (n = name)) as [<-|]; [|rewrite lookup_insert_ne by done; apply Hc]. intros _.
  unfold load_skill_file in Hinfo. destruct (is_valid_skill_name n) as [[]| |]; done.
Qed.

Lemma loaded_valid d now r name :
  load_from_skills_directory d now = Ok r →
  is_Some (cached_skills_ r !! name) → is_valid_skill_name name = Ok true.
Proof.
  unfold load_from_skills_directory. intros H. exc_run H. eapply load_skills_valid; [done|].
  intros ? [? ?%lookup_empty_Some]. done.
Qed.

Lemma normal_chars_length s t : normal_chars s = Ok t → (len t ≤ len s)%nat.
Proof.
  revert t. induction s as [|c s IH]; intros t H; cbn [normal_chars] in H; [by injection H as <-|].
  apply exc_bind_Ok_inv in H as (b & _ & H). apply exc_bind_Ok_inv in H as (rest & Hr & H).
  injection H as <-. specialize (IH _ Hr). repeat case_match; simpl; lia.
Qed.

Lemma collapse_length b s : (len (collapse b s) ≤ len s)%nat.
Proof.
  revert b. induction s as [|c s IH]; intros b; [done|]. simpl.
  pose proof (IH true). pose proof (IH false). repeat case_match; simpl; lia.
Qed.

Lemma drop_front_length p s : (len (drop_front p s) ≤ len s)%nat.
Proof. induction s as [|c s IH]; [done|]. simpl. case_match; simpl; lia. Qed.

Lemma drop_back_length p s : (len (drop_back p s) ≤ len s)%nat.
Proof. induction s as [|c s IH]; [done|]. simpl. case_match; simpl; lia. Qed.

Lemma normalize_length s t : normalize_name s = Ok t → (len t ≤ len s)%nat.
Proof.
  unfold normalize_name. intros H. apply exc_bind_Ok_inv in H as (u & Hu & H). injection H as <-.
  apply normal_chars_length in Hu.
  pose proof (drop_back_length is_space_char (drop_front is_space_char (collapse false u))).
  pose proof (drop_front_length is_space_char (collapse false u)).
  pose proof (collapse_length false u). lia.
Qed.

Lemma words_from_length token s :
  (length (words_from token s) ≤ len s + (if decide (token = "") then 0 else 1))%nat.
Proof.
  revert token. induction s as [|c s IH]; intros token; cbn [words_from].
  { case_decide; simpl; lia. }
  case_match; simpl.
  - rewrite length_app. specialize (IH ""). rewrite decide_True in IH by done.
    case_decide; simpl in *; lia.
  - specialize (IH (snoc token c)). case_decide; case_decide; simpl in *; lia.
Qed.

Lemma words_length s : (length (words s) ≤ len s)%nat.
Proof.
  unfold words. pose proof (words_from_length "" s) as H. rewrite decide_True in H by done.
  assert (∀ l : list string, length (remove_dups l) ≤ length l)%nat as Hd.
  { induction l as [|x l IH]; simpl; [done|]. case_decide; simpl; lia. }
  specialize (Hd (words_from "" s)). lia.
Qed.

(** *** The scores

    Names of up to 64 characters are enough for the skills there are; the scores that they can
    have are computed once and for all. *)

Definition d_finite (x : double) : bool :=
  match x with S754_zero _ | S754_finite _ _ _ => true | _ => false end.

Definition below (n : nat) (p : Z → Z → bool) : bool :=
  forallb (λ i, forallb (λ j, p (Z.of_nat j) (Z.of_nat i)) (seq 0 (S i))) (seq 0 n).

Lemma below_spec n p k m :
  below n p = true → 0 ≤ k ≤ m → m < Z.of_nat n → p k m = true.
Proof.
  intros H Hk Hm. unfold below in H. rewrite forallb_forall in H.
  specialize (H (Z.to_nat m)). rewrite forallb_forall in H.
  rewrite <-(Z2Nat.id k), <-(Z2Nat.id m) by lia. apply H; apply in_seq; lia.
Qed.

Definition edit_score (k n : Z) : double :=
  if decide (n = 0) then d_one else d_sub d_one (d_div (d_of_Z k) (d_of_Z n)).

Definition word_score (k n : Z) : double := d_mul (d_div (d_of_Z k) (d_of_Z n)) d_0_8.

Lemma edit_scores : below 65 (λ k n,
  let e := edit_score k n in
  d_finite (d_mul d_0_4 e) && SFleb d_0_55 (combine_scores d_0_95 e)) = true.
Proof. vm_compute. reflexivity. Qed.

Lemma word_scores : below 65 (λ k n, (n =? 0) || d_finite (d_mul d_0_6 (word_score k n))) = true.
Proof. vm_compute. reflexivity. Qed.

Lemma levenshtein_score_edit a b :
  ∃ k, 0 ≤ k ≤ Z.of_nat (Nat.max (len a) (len b)) ∧
    levenshtein_score a b = edit_score k (Z.of_nat (Nat.max (len a) (len b))).
Proof.
  exists (levenshtein_distance a b). split; [|done]. unfold levenshtein_distance.
  rewrite <-!length_list_ascii. apply (last_row_spec exact_cost).
  intros x y. unfold exact_cost. case_decide; lia.
Qed.

Lemma overlap_score_finite q t :
  (len q ≤ 64)%nat → d_finite (d_mul d_0_6 (overlap_score q t)) = true.
Proof.
  intros Hq. unfold overlap_score. destruct (contains_str t q); [done|].
  destruct (contains_str q t); [done|]. cbv zeta. case_decide as Hw; [done|].
  pose proof (words_length q). pose proof (length_filter (λ w, w ∈ words t) (words q)).
  assert (length (words q) ≠ 0%nat) by (intros ?%nil_length_inv; tauto).
  pose proof (below_spec _ _ (Z.of_nat (length (filter (λ w, w ∈ words t) (words q))))
    (Z.of_nat (length (words q))) word_scores) as Hf.
  cbv beta in Hf. rewrite (proj2 (Z.eqb_neq _ 0)) in Hf by lia. apply Hf; lia.
Qed.

(** A sum of finite doubles is a number. *)
Lemma shr_1_nonneg r : 0 ≤ shr_m r → 0 ≤ shr_m (shr_1 r).
Proof. destruct r as [[|[p|p|]|p] b b']; simpl; lia. Qed.

Lemma iter_shr_nonneg p r : 0 ≤ shr_m r → 0 ≤ shr_m (iter_pos shr_1 p r).
Proof. revert r. induction p as [p IH|p IH|]; intros r Hr; simpl; auto using shr_1_nonneg. Qed.

Lemma shr_fexp_nonneg m e l : 0 ≤ m → 0 ≤ shr_m (shr_fexp d_prec d_emax m e l).1.
Proof.
  intros Hm. unfold shr_fexp, shr.
  assert (0 ≤ shr_m (shr_record_of_loc m l)) as Hr by by destruct l as [|[]].
  case_match; simpl; [done| |done]. by apply iter_shr_nonneg.
Qed.

Lemma binary_round_aux_number s m e l :
  0 ≤ m → d_is_nan (binary_round_aux d_prec d_emax s m e l) = false.
Proof.
  intros Hm. unfold binary_round_aux.
  pose proof (shr_fexp_nonneg m e l Hm) as H1. destruct (shr_fexp _ _ m e l) as [r e']. simpl in H1.
  assert (0 ≤ round_nearest_even (shr_m r) (loc_of_shr_record r)) as H2.
  { unfold round_nearest_even. repeat case_match; lia. }
  pose proof (shr_fexp_nonneg _ e' loc_Exact H2) as H3. destruct (shr_fexp _ _ _ e' _) as [r' e''].
  simpl in H3. destruct (shr_m r') as [|p|p]; [done| |lia]. by case_match.
Qed.

Lemma binary_round_number s m e : d_is_nan (binary_round d_prec d_emax s m e) = false.
Proof. unfold binary_round. destruct (shl_align m e _). by apply binary_round_aux_number. Qed.

Lemma d_add_number x y : d_finite x = true → d_finite y = true → d_is_nan (d_add x y) = false.
Proof.
  destruct x as [sx| | |sx mx ex], y as [sy| | |sy my ey]; try done; intros _ _.
  { by destruct sx, sy. }
  unfold d_add, SFadd, binary_normalize. cbv zeta. case_match; [done|..].
  all: apply binary_round_number.
Qed.

Lemma combined_number q t :
  (len q ≤ 64)%nat → (len t ≤ 64)%nat →
  d_is_nan (combine_scores (overlap_score q t) (levenshtein_score q t)) = false.
Proof.
  intros Hq Ht. apply d_add_number; [by apply overlap_score_finite|].
  destruct (levenshtein_score_edit q t) as (k & Hk & ->).
  pose proof (below_spec _ _ k _ edit_scores Hk) as Hf. cbv beta zeta in Hf.
  by apply andb_true_iff in Hf as [Hf _]; [|lia].
Qed.

Lemma contained_score q t :
  contains_str t q = true → (len t ≤ 64)%nat →
  SFleb d_0_55 (combine_scores (overlap_score q t) (levenshtein_score q t)) = true.
Proof.
  intros Hc Ht. unfold overlap_score. rewrite Hc.
  destruct (levenshtein_score_edit q t) as (k & Hk & ->).
  assert (len q ≤ len t)%nat as Hle.
  { unfold contains_str in Hc. apply bool_decide_eq_true in Hc as [[b a] H].
    apply find_str_Some in H as [-> _]. rewrite !str_app_length. lia. }
  pose proof (below_spec _ _ k _ edit_scores Hk) as Hf. cbv beta zeta in Hf.
  apply andb_true_iff in Hf as [_ Hf]; [done|lia].
Qed.

Definition similarity (norm_query norm_name : string) : double :=
  combine_scores (overlap_score norm_query norm_name) (levenshtein_score norm_query norm_name).

Lemma suggest_ok min_score query name info nq nt :
  normalize_name query = Ok nq → normalize_name name = Ok nt →
  suggest min_score query name info =
    Ok (if SFleb min_score (similarity nq nt) then
          Some {| sg_name := name; sg_description := sm_description (si_metadata info);
                  sg_score := similarity nq nt |}
        else None).
Proof.
  intros Hq Ht. unfold suggest, token_overlap_score. rewrite Hq, !exc_bind_ok, Ht, !exc_bind_ok. done.
Qed.

Lemma exc_map_all_ok {A B} (f : A → exc B) (g : A → B) l :
  (∀ x, x ∈ l → f x = Ok (g x)) → exc_map f l = Ok (g <$> l).
Proof.
  induction l as [|x l IH]; intros H; [done|]. cbn [exc_map].
  rewrite H by left. rewrite exc_bind_ok, IH, exc_bind_ok; [done|]. intros y Hy. apply H. by right.
Qed.

(** Scores that are numbers are ordered. *)
Lemma better_order l :
  (∀ s, s ∈ l → d_is_nan (sg_score s) = false) → strict_weak_order better l = true.
Proof.
  intros Hl. apply strict_weak_order_spec. intros x Hx. unfold better, d_gtb.
  pose proof (Hl x Hx) as Nx. split.
  - rewrite <-not_true_iff_false, d_ltb_key by done. unfold key_lt. lia.
  - intros y Hy z Hz. pose proof (Hl y Hy) as Ny. pose proof (Hl z Hz) as Nz. split.
    + rewrite !d_ltb_key by done. unfold key_lt. lia.
    + intros. split; by eapply d_ltb_trans_false; [..|done|done].
Qed.

Section suggestions.
Context (r : SkillRegistry) (query nq : string).
Context (Hnames : ∀ name, is_Some (cached_skills_ r !! name) →
  is_valid_skill_name name = Ok true ∧ (len name ≤ 64)%nat).
Context (Hquery : normalize_name query = Ok nq) (Hlen : (len query ≤ 64)%nat).

Definition candidate (name : string) : option SkillSuggestion :=
  match cached_skills_ r !! name, normalize_name name with
  | Some info, Ok nt =>
      if SFleb d_0_55 (similarity nq nt) then
        Some {| sg_name := name; sg_description := sm_description (si_metadata info);
                sg_score := similarity nq nt |}
      else None
  | _, _ => None
  end.

Lemma elem_of_skill_names name : name ∈ list_skill_names r ↔ is_Some (cached_skills_ r !! name).
Proof.
  unfold list_skill_names, order_by_text. rewrite insertion_sort_perm, list_elem_of_fmap. split.
  - intros ([k i] & -> & H%elem_of_map_to_list). by exists i.
  - intros [i Hi]. exists (name, i). split; [done|]. by apply elem_of_map_to_list.
Qed.

Lemma candidate_inv name s :
  candidate name = Some s ↔ sg_name s = name ∧ ∃ info nt,
    cached_skills_ r !! name = Some info ∧ normalize_name name = Ok nt ∧
    sg_description s = sm_description (si_metadata info) ∧ sg_score s = similarity nq nt ∧
    SFleb d_0_55 (sg_score s) = true.
Proof.
  unfold candidate. split.
  - destruct (cached_skills_ r !! name) as [info|]; [|done].
    destruct (normalize_name name) as [nt| |]; [|done..].
    destruct (SFleb _ _) eqn:E; [|done]. intros [= <-]. split; [done|]. by exists info, nt.
  - intros (<- & info & nt & -> & -> & Hd & Hs & Hle). rewrite <-Hs, Hle, <-Hd. by destruct s.
Qed.

Lemma candidate_number name s : candidate name = Some s → d_is_nan (sg_score s) = false.
Proof.
  intros (<- & info & nt & Hi & Hn & _ & -> & _)%candidate_inv.
  destruct (Hnames (sg_name s)) as [_ Hl]; [by exists info|].
  apply normalize_length in Hn. pose proof (normalize_length _ _ Hquery).
  apply combined_number; lia.
Qed.

Lemma suggestions_run k :
  get_skill_suggestions r query d_0_55 k =
    Ok (take k (insertion_sort better (omap candidate (list_skill_names r)))).
Proof.
  unfold get_skill_suggestions. rewrite (exc_map_all_ok _ candidate).
  - rewrite exc_bind_ok. assert (∀ l : list string, omap id (candidate <$> l) = omap candidate l) as ->.
    { induction l as [|x l IH]; [done|]. cbn. rewrite IH. by destruct (candidate x). }
    unfold std_sort. rewrite better_order; [done|].
    intros s (name & _ & Hc)%list_elem_of_omap. by eapply candidate_number.
  - intros name Hin%elem_of_skill_names. unfold candidate. destruct Hin as [info Hi]. rewrite Hi.
    destruct (Hnames name) as [Hv _]; [by exists info|]. destruct (valid_name_normal _ Hv) as [nt Hnt].
    rewrite (suggest_ok _ _ _ _ nq nt) by done. by rewrite Hnt.
Qed.

Lemma candidates_NoDup : NoDup (sg_name <$> omap candidate (list_skill_names r)).
Proof.
  assert (NoDup (list_skill_names r)) as Hnd.
  { unfold list_skill_names, order_by_text. rewrite insertion_sort_perm. apply NoDup_fst_map_to_list. }
  induction Hnd as [|name l Hn _ IH]; [by apply NoDup_nil_2|]. cbn.
  destruct (candidate name) as [s|] eqn:E; [|done]. cbn. apply NoDup_cons. split; [|done].
  apply candidate_inv in E as [-> _]. intros (s' & Hs & Hin)%list_elem_of_fmap.
  apply list_elem_of_omap in Hin as (name' & Hin & [? _]%candidate_inv). congruence.
Qed.
End suggestions.

(** C21 The suggestions for a name.  Once the skills are loaded - their names and the query of 64
    characters at most, the query in ASCII - the suggestions are the first of a list of all the
    skills that are similar enough, each once and with its score, the most similar first.  A skill
    whose name contains what was asked for, letters of either case and delimiters being the same,
    is always in that list. *)
Theorem suggestions_spec d now r query nq k :
  load_from_skills_directory d now = Ok r →
  (∀ name, is_Some (cached_skills_ r !! name) → (len name ≤ 64)%nat) →
  normalize_name query = Ok nq → (len query ≤ 64)%nat →
  ∃ l, get_skill_suggestions r query d_0_55 k = Ok (take k l) ∧
    StronglySorted (λ a b, d_gtb (sg_score b) (sg_score a) = false) l ∧ NoDup (sg_name <$> l) ∧
    (∀ s, s ∈ l ↔ ∃ info nt, cached_skills_ r !! sg_name s = Some info ∧
      normalize_name (sg_name s) = Ok nt ∧ sg_description s = sm_description (si_metadata info) ∧
      sg_score s = similarity nq nt ∧ SFleb d_0_55 (sg_score s) = true) ∧
    (∀ name info nt, cached_skills_ r !! name = Some info → normalize_name name = Ok nt →
      contains_str nt nq = true → name ∈ sg_name <$> l).
Proof.
  intros Hload Hshort Hq Hlen.
  assert (∀ name, is_Some (cached_skills_ r !! name) →
    is_valid_skill_name name = Ok true ∧ (len name ≤ 64)%nat) as Hnames.
  { intros name Hname. split; [by eapply loaded_valid|by apply Hshort]. }
  set (cs := omap (candidate r nq) (list_skill_names r)).
  assert (∀ s, s ∈ cs ↔ candidate r nq (sg_name s) = Some s) as Hcs.
  { intros s. unfold cs. rewrite list_elem_of_omap. split.
    - intros (name & _ & H). pose proof H as [-> _]%candidate_inv. done.
    - intros H. exists (sg_name s). split; [|done]. apply elem_of_skill_names.
      apply candidate_inv in H as (_ & info & _ & ? & _). by exists info. }
  exists (insertion_sort better cs). split_and!.
  - by apply suggestions_run.
  - apply insertion_sort_sorted, better_order. intros s Hs%Hcs.
    by eapply (candidate_number r query nq).
  - rewrite insertion_sort_perm. apply candidates_NoDup.
  - intros s. rewrite insertion_sort_perm, Hcs, candidate_inv. naive_solver.
  - intros name info nt Hi Hn Hc. rewrite insertion_sort_perm. apply list_elem_of_fmap.
    exists {| sg_name := name; sg_description := sm_description (si_metadata info);
              sg_score := similarity nq nt |}.
    split; [done|]. apply Hcs. apply candidate_inv. split; [done|]. exists info, nt. split_and!; try done.
    apply contained_score; [done|]. apply normalize_length in Hn.
    specialize (Hshort name (ex_intro _ _ Hi)). lia.
Qed.
