(* ===== verification/AgentTools.v ===== *)
(** * The tools of the agents (src/tools/{skill_view,file_read,file_write,file_patch}/main.cpp)

    A tool is a process that the agent launches with parameters: [run] computes one answer, which
    the SDK reports to the parent (see [Sdk.report_result]).  Each [run] is the function from the
    parameters to that answer; an exception ends the process without one. *)

From Stdlib Require Import Ascii.
From S2P Require Import Prelude Json StringUtils Paths FileText FileTools Skills.

Local Abbreviation len := String.length.

Definition done_error (msg : string) : json :=
  JObject [("status", JString "error"); ("error", JString msg)].

(** ** skill_view *)

Definition suggestion_json (s : SkillSuggestion) : json :=
  JObject [("name", JString (sg_name s)); ("description", JString (sg_description s));
           ("score", JFloat (sg_score s))].

Definition skill_not_found (skill_name : string) (suggestions : list SkillSuggestion) : json :=
  JObject ([("status", JString "error"); ("message", JString ("Skill not found: " +:+ skill_name))] ++
    if decide (suggestions = []) then []
    else [("suggestions", JArray (suggestion_json <$> suggestions))]).

(** The fields of [skill_json], with the body where it is given. *)
Definition skill_json (m : SkillMetadata) (body : option string) : json :=
  JObject ([("name", JString (sm_name m)); ("description", JString (sm_description m));
            ("author", JString (sm_author m)); ("version", JString (sm_version m));
            ("visibility", JString (sm_visibility m)); ("tags", JArray (JString <$> sm_tags m))] ++
    match body with Some b => [("body", JString b)] | None => [] end).

Definition skill_reply (mode : string) (skill : SkillContent) : json :=
  JObject (("status", JString "ok") ::
    if decide (mode = "manifest") then [("skill", skill_json (sc_metadata skill) None)]
    else if decide (mode = "body") then [("body", JString (sc_body skill))]
    else [("skill", skill_json (sc_metadata skill) (Some (sc_body skill)))]).

(** [now] is when the registry is built, and [now'] when the skill was read. *)
Definition skill_view_run (d : SkillDisk) (now now' : Z) (params : json) : exc json :=
  match find params "skill_name" with
  | Some (JString skill_name) =>
      mode ← value_string params "mode" "summary";
      max_chars ← value_uint64 params "max_chars" 8000;
      let max_chars := if decide (max_chars < 100 ∨ 100000 < max_chars) then 8000 else max_chars in
      let mode := if decide (mode ≠ "summary" ∧ mode ≠ "manifest" ∧ mode ≠ "body") then "summary"
                  else mode in
      registry ← load_from_skills_directory d now;
      '(skill, registry) ← get_skill d now' now' skill_name max_chars registry;
      match skill with
      | Some skill => Ok (skill_reply mode skill)
      | None => skill_not_found skill_name <$> get_skill_suggestions registry skill_name d_0_55 3
      end
  | _ => Ok (JObject [("status", JString "error");
                      ("message", JString "Missing required parameter: skill_name")])
  end.

(** ** file_read *)

(** [std::stoull]: white space, a sign, digits and then anything; a minus is the negation of a
    [uint64_t]. *)
Definition stoull (s : string) : option Z :=
  let s := ltrim s in
  let '(sign, s) := match s with
                    | String "-" s => (-1, s)
                    | String "+" s => (1, s)
                    | _ => (1, s)
                    end in
  match s with
  | String c _ =>
      let n := read_digits 0 s in
      if isdigit c && bool_decide (n < 2 ^ 64) then Some (u64 (sign * n)) else None
  | EmptyString => None
  end.

Definition max_file_read_bytes_from_env (getenv : string → option string) : Z :=
  match getenv "VELIX_MAX_FILE_READ_BYTES" with
  | Some value =>
      match stoull value with
      | Some parsed => if decide (0 < parsed) then parsed else 32768
      | None => 32768
      end
  | None => 32768
  end.

Definition read_options (getenv : string → option string) (params : json) : exc ReadOptions :=
  offset ← value_int params "offset_line" 1;
  lines ← value_int params "max_lines" 150;
  let cap := max_file_read_bytes_from_env getenv in
  bytes ← value_uint64 params "max_bytes" cap;
  resolve ← value_bool params "resolve_symlinks" false;
  Ok {| offset_line := if decide (offset < 1) then 1 else offset;
        max_lines := if decide (lines < 0) then 0 else lines;
        max_bytes := if decide (bytes ≤ 0 ∨ cap < bytes) then cap else bytes;
        resolve_symlinks := resolve |}.

Definition file_read_run (h : Host) (params : json) (fs : Files) : exc json :=
  path ← value_string params "path" "";
  if decide (path = "") then Ok (done_error "Parameter 'path' is required.")
  else
    opts ← read_options (h_getenv h) params;
    read_file h path opts fs.

(** ** file_write *)

Definition file_write_run (h : Host) (params : json) : ST Files json :=
  path ← lift (value_string params "path" "");
  if decide (path = "") then mret (done_error "Parameter 'path' is required.")
  else if negb (contains params "content") then mret (done_error "Parameter 'content' is required.")
  else
    content ← lift (value_string params "content" "");
    append ← lift (value_bool params "append" false);
    lock_timeout ← lift (value_int params "lock_timeout_ms" 5000);
    if append : bool then append_file h path content lock_timeout else write_file h path content.

(** ** file_patch *)

Definition file_patch_run (h : Host) (params : json) : ST Files json :=
  path ← lift (value_string params "path" "");
  if decide (path = "") then mret (done_error "Parameter 'path' is required.")
  else
    match find params "old_text", find params "new_text" with
    | Some (JString old_text), Some (JString new_text) =>
        lock_timeout_ms ← lift (value_int params "lock_timeout_ms" 5000);
        patch_file h path old_text new_text (if decide (lock_timeout_ms < 0) then 0 else lock_timeout_ms)
    | Some (JString _), _ => mret (done_error "Parameter 'new_text' is required.")
    | _, _ => mret (done_error "Parameter 'old_text' is required.")
    end.

(** ** What the answers are *)

Lemma skill_text_parsed d root name m body :
  path_exists d (skill_file root name) = Ok true →
  read_skill d (skill_file root name) = Some (skill_text m body) →
  Z.of_nat (len (skill_text m body)) ≤ MAX_SKILL_SIZE_BYTES → writable m →
  parsed_skill d root name = Ok (Some (m, body)).
Proof.
  intros Hex Hread Hlen Hm. unfold parsed_skill.
  rewrite Hex, exc_bind_ok. cbn [negb]. rewrite Hread, decide_False by lia.
  by rewrite parse_written_skill.
Qed.

(** The body as it is shown where there is room for [max_chars]: whole, or a beginning of it, at
    least the half of what there is room for, and the mark of the cut, which is not counted. *)
Definition shown_as (body : string) (max_chars : Z) (shown : string) : Prop :=
  (Z.of_nat (len body) ≤ max_chars ∧ shown = body) ∨
  ∃ front rest, max_chars < Z.of_nat (len body) ∧ body = front +:+ rest ∧
    shown = front +:+ truncation_mark ∧ max_chars / 2 ≤ Z.of_nat (len front) ≤ max_chars.

(** C20 An agent is shown the skill that was written.  The tool is asked for a valid name, which is
    not a name of the directory above, whose file has the metadata as [skill_text] writes it,
    with a visibility of [public] or [internal], and a body; if the directory of skills can be
    loaded at all, the answer is the metadata, the body, or both, as the mode says.  A body that
    fits in the number of characters that was asked for is shown whole; of a longer one a
    beginning of at most that number, and at least its half, followed by a mark of 15 more. *)
Theorem skill_view_shows d now now' r root name m body mode max_chars :
  load_from_skills_directory d now = Ok r → repo_root_from_cwd d = Ok root →
  is_valid_skill_name name = Ok true → name ≠ "." → name ≠ ".." →
  path_exists d (skill_file root name) = Ok true →
  read_skill d (skill_file root name) = Some (skill_text m body) →
  Z.of_nat (len (skill_text m body)) ≤ MAX_SKILL_SIZE_BYTES → writable m →
  sm_visibility m = "public" ∨ sm_visibility m = "internal" →
  mode = "summary" ∨ mode = "manifest" ∨ mode = "body" → 100 ≤ max_chars ≤ 100000 →
  ∃ shown, shown_as body max_chars shown ∧
  skill_view_run d now now' (JObject [("skill_name", JString name); ("mode", JString mode);
                                      ("max_chars", JInt max_chars)]) =
  Ok (JObject (("status", JString "ok") ::
    if decide (mode = "manifest") then [("skill", skill_json m None)]
    else if decide (mode = "body") then [("body", JString shown)]
    else [("skill", skill_json m (Some shown))])).
Proof.
  intros Hload Hroot Hname _ _ Hex Hread Hlen Hm _ Hmode Hmax.
  exists (truncate_markdown body max_chars). split; [apply truncate_spec; lia|].
  pose proof (skill_text_parsed d root name m body Hex Hread Hlen Hm) as Hparsed.
  assert (full_content_cache_ r = ∅) as Hcache.
  { unfold load_from_skills_directory in Hload. exc_run Hload. done. }
  unfold skill_view_run. cbn [find assoc]. rewrite decide_True by done.
  change (value_string _ "mode" "summary") with (Ok mode). rewrite exc_bind_ok.
  change (value_uint64 _ "max_chars" 8000) with (Ok (u64 max_chars)). rewrite exc_bind_ok, u64_id by lia.
  cbv zeta. rewrite (decide_False (P := max_chars < 100 ∨ 100000 < max_chars)) by lia.
  rewrite (decide_False (P := mode ≠ "summary" ∧ _)) by tauto.
  rewrite Hload, exc_bind_ok. unfold get_skill. rewrite Hname, exc_bind_ok, Hcache, lookup_empty.
  cbn [negb]. unfold load_skill. rewrite Hroot, exc_bind_ok, Hparsed, exc_bind_ok. done.
Qed.

(** A skill that is not there is answered with the names that are like it. *)
Lemma skill_view_missing d now now' r root name l :
  load_from_skills_directory d now = Ok r → repo_root_from_cwd d = Ok root →
  is_valid_skill_name name = Ok true → path_exists d (skill_file root name) = Ok false →
  get_skill_suggestions r name d_0_55 3 = Ok l →
  skill_view_run d now now' (JObject [("skill_name", JString name)]) = Ok (skill_not_found name l).
Proof.
  intros Hload Hroot Hname Hex Hl.
  assert (full_content_cache_ r = ∅) as Hcache.
  { unfold load_from_skills_directory in Hload. exc_run Hload. done. }
  unfold skill_view_run. cbn [find assoc]. rewrite decide_True by done.
  change (value_string _ "mode" "summary") with (Ok "summary" : exc string). rewrite exc_bind_ok.
  change (value_uint64 _ "max_chars" 8000) with (Ok 8000 : exc Z). rewrite exc_bind_ok. cbv zeta.
  rewrite Hload, exc_bind_ok. unfold get_skill. rewrite Hname, exc_bind_ok, Hcache, lookup_empty.
  cbn [negb]. unfold load_skill, parsed_skill. rewrite Hroot, exc_bind_ok, Hex. cbn.
  by rewrite Hl.
Qed.

Lemma max_file_read_bytes_positive getenv : 0 < max_file_read_bytes_from_env getenv.
Proof. unfold max_file_read_bytes_from_env. repeat case_match; lia. Qed.

(** The options are in range whatever the parameters are; the number of bytes never exceeds the
    cap of the environment. *)
Lemma read_options_sane getenv params opts :
  read_options getenv params = Ok opts →
  1 ≤ offset_line opts ≤ INT_MAX ∧ 0 ≤ max_lines opts ≤ INT_MAX ∧
  0 < max_bytes opts ≤ max_file_read_bytes_from_env getenv.
Proof.
  unfold read_options. intros H. apply exc_bind_Ok_inv in H as (offset & Ho & H).
  apply exc_bind_Ok_inv in H as (lines & Hl & H). cbv zeta in H.
  apply exc_bind_Ok_inv in H as (bytes & Hb & H). apply exc_bind_Ok_inv in H as (resolve & _ & H).
  injection H as <-. cbn [offset_line max_lines max_bytes].
  pose proof (max_file_read_bytes_positive getenv).
  apply value_int_range in Ho; [|by unfold INT_MAX]. apply value_int_range in Hl; [|by unfold INT_MAX].
  split_and!; repeat case_decide; unfold INT_MAX in *; lia.
Qed.

(** But the lines are not bounded from above: the sum of the two overflows an [int]. *)
Lemma window_overflow opts all_lines :
  1 ≤ offset_line opts ≤ Z.of_nat (length all_lines) → 0 < max_lines opts →
  INT_MAX < offset_line opts + max_lines opts → window opts all_lines = UB.
Proof.
  intros Ho Hm Hsum. unfold window. cbv zeta. rewrite Z.max_r by lia.
  rewrite decide_False by lia. rewrite decide_True by lia. by rewrite decide_True by lia.
Qed.
