(* ===== verification/ThreadPool.v ===== *)
(** * The thread pool (src/utils/thread_pool.hpp)

    A fixed number of workers that take tasks from one queue.  What runs under [mutex_] is one
    step; so is a call of [notify_one] or [notify_all], which comes after the lock was released.
    A worker that waits on the condition is asleep until it is notified or wakes up by itself, and
    looks at the condition again when it is awake. *)

From Stdlib Require Import Wellfounded Wf_nat.
From S2P Require Import Prelude.

(** How a task ends: an exception that is not a [std::exception] leaves the thread. *)
Inductive Outcome := Returns | ThrowsStd | ThrowsOther.

Inductive Worker (Task : Type) :=
  | Checking
  | Asleep
  | Running (task : Task)
  | Returned.
Arguments Checking {Task}.
Arguments Asleep {Task}.
Arguments Running {Task} task.
Arguments Returned {Task}.

(** [notify] counts the calls of [notify_one] that are still to come, [notify_all] is the call of
    the destructor. *)
Record ThreadPool (Task : Type) := mk_pool {
  workers_ : list (Worker Task);
  tasks_ : list Task;
  stop_ : bool;
  pending_count_ : Z;
  capacity_ : Z;
  notify : nat;
  notify_all : bool;
  terminated : bool;
}.
Arguments mk_pool {Task}.
Arguments workers_ {Task}.
Arguments tasks_ {Task}.
Arguments stop_ {Task}.
Arguments pending_count_ {Task}.
Arguments capacity_ {Task}.
Arguments notify {Task}.
Arguments notify_all {Task}.
Arguments terminated {Task}.

Section pool.
Context {Task : Type} (outcome : Task → Outcome).
Implicit Types p : ThreadPool Task.

(** [reserve] refuses a count that was negative. *)
Definition new_pool (thread_count max_queued : Z) : exc (ThreadPool Task) :=
  if decide (thread_count < 0) then Throw "vector::reserve"
  else Ok {| workers_ := replicate (Z.to_nat thread_count) Checking; tasks_ := []; stop_ := false;
             pending_count_ := 0; capacity_ := if decide (0 < max_queued) then max_queued else 512;
             notify := 0; notify_all := false; terminated := false |}.

Definition with_workers (f : list (Worker Task) → list (Worker Task)) p : ThreadPool Task :=
  {| workers_ := f (workers_ p); tasks_ := tasks_ p; stop_ := stop_ p;
     pending_count_ := pending_count_ p; capacity_ := capacity_ p; notify := notify p;
     notify_all := notify_all p; terminated := terminated p |}.

Definition try_submit (task : Task) p : bool * ThreadPool Task :=
  if stop_ p || bool_decide (capacity_ p ≤ pending_count_ p) then (false, p)
  else (true, {| workers_ := workers_ p; tasks_ := tasks_ p ++ [task]; stop_ := stop_ p;
                 pending_count_ := u64 (pending_count_ p + 1); capacity_ := capacity_ p;
                 notify := S (notify p); notify_all := notify_all p; terminated := terminated p |}).

(** The destructor sets the flag, and notifies all when it has released the lock. *)
Definition request_stop p : ThreadPool Task :=
  {| workers_ := workers_ p; tasks_ := tasks_ p; stop_ := true; pending_count_ := pending_count_ p;
     capacity_ := capacity_ p; notify := notify p; notify_all := true; terminated := terminated p |}.

Definition wake (w : Worker Task) : Worker Task := match w with Asleep => Checking | w => w end.

(** What a worker that holds the lock does: it takes a task, returns, or goes to sleep. *)
Definition check (i : nat) p : ThreadPool Task :=
  match tasks_ p with
  | task :: rest =>
      {| workers_ := <[i := Running task]> (workers_ p); tasks_ := rest; stop_ := stop_ p;
         pending_count_ := u64 (pending_count_ p - 1); capacity_ := capacity_ p;
         notify := notify p; notify_all := notify_all p; terminated := terminated p |}
  | [] => with_workers <[i := if stop_ p then Returned else Asleep]> p
  end.

(** The end of a task; other exceptions terminate the program. *)
Definition end_task (i : nat) (task : Task) p : ThreadPool Task :=
  match outcome task with
  | Returns | ThrowsStd => with_workers <[i := Checking]> p
  | ThrowsOther =>
      {| workers_ := workers_ p; tasks_ := tasks_ p; stop_ := stop_ p;
         pending_count_ := pending_count_ p; capacity_ := capacity_ p; notify := notify p;
         notify_all := notify_all p; terminated := true |}
  end.

Definition notify_one_done p (workers : list (Worker Task)) (n : nat) : ThreadPool Task :=
  {| workers_ := workers; tasks_ := tasks_ p; stop_ := stop_ p;
     pending_count_ := pending_count_ p; capacity_ := capacity_ p; notify := n;
     notify_all := notify_all p; terminated := terminated p |}.

Definition notify_all_done p : ThreadPool Task :=
  {| workers_ := wake <$> workers_ p; tasks_ := tasks_ p; stop_ := stop_ p;
     pending_count_ := pending_count_ p; capacity_ := capacity_ p; notify := notify p;
     notify_all := false; terminated := terminated p |}.

Inductive Event :=
  | Submit (task : Task) (accepted : bool)
  | Take (task : Task)
  | Finish (task : Task)
  | Stop
  | Spurious
  | Silent.

Inductive step : Event → ThreadPool Task → ThreadPool Task → Prop :=
  | step_submit task b p p' :
      try_submit task p = (b, p') → step (Submit task b) p p'
  | step_stop p :
      stop_ p = false → step Stop p (request_stop p)
  | step_take i task rest p :
      workers_ p !! i = Some Checking → tasks_ p = task :: rest → step (Take task) p (check i p)
  | step_idle i p :
      workers_ p !! i = Some Checking → tasks_ p = [] → step Silent p (check i p)
  | step_end i task p :
      workers_ p !! i = Some (Running task) → step (Finish task) p (end_task i task p)
  | step_spurious i p :
      workers_ p !! i = Some Asleep → step Spurious p (with_workers <[i := Checking]> p)
  | step_notify i n p :
      notify p = S n → workers_ p !! i = Some Asleep →
      step Silent p (notify_one_done p (<[i := Checking]> (workers_ p)) n)
  | step_notify_none n p :
      notify p = S n → Forall (λ w, w ≠ Asleep) (workers_ p) →
      step Silent p (notify_one_done p (workers_ p) n)
  | step_notify_all p :
      notify_all p = true → step Silent p (notify_all_done p).

(** A terminated program takes no step. *)
Inductive steps : list Event → ThreadPool Task → ThreadPool Task → Prop :=
  | steps_nil p : steps [] p p
  | steps_snoc evs e p q r :
      steps evs p q → terminated q = false → step e q r → steps (evs ++ [e]) p r.

Definition accepted (evs : list Event) : list Task :=
  omap (λ e, match e with Submit t true => Some t | _ => None end) evs.
Definition started (evs : list Event) : list Task :=
  omap (λ e, match e with Take t => Some t | _ => None end) evs.

(** What the pool does by itself. *)
Definition internal (e : Event) : bool :=
  match e with Take _ | Finish _ | Silent => true | Submit _ _ | Stop | Spurious => false end.

Definition internal_step p q : Prop := terminated p = false ∧ ∃ e, internal e = true ∧ step e p q.

(** ** The invariant *)

Lemma sum_list_insert {A} (f : A → nat) (l : list A) i x y :
  l !! i = Some x → (sum_list_with f (<[i := y]> l) + f x = sum_list_with f l + f y)%nat.
Proof.
  revert i. induction l as [|z l IH]; intros [|i] H; simplify_eq/=; [lia|].
  specialize (IH i H). lia.
Qed.

Definition busy (w : Worker Task) : nat := match w with Checking | Running _ => 1 | _ => 0 end.

Record pool_ok (n : nat) (cap : Z) p : Prop := {
  ok_workers : length (workers_ p) = n;
  ok_capacity : capacity_ p = cap ∧ 0 < cap ≤ INT_MAX;
  ok_pending : pending_count_ p = Z.of_nat (length (tasks_ p));
  ok_room : Z.of_nat (length (tasks_ p)) ≤ cap;
  ok_no_lost_wakeup : Asleep ∈ workers_ p →
    (length (tasks_ p) ≤ sum_list_with busy (workers_ p) + notify p)%nat;
  ok_notify_all : notify_all p = true → stop_ p = true;
  ok_stopped : stop_ p = true → notify_all p = false → Asleep ∉ workers_ p;
  ok_returned : Returned ∈ workers_ p → stop_ p = true ∧ tasks_ p = [];
}.

(** A worker that changes is one of the others or the new one. *)
Lemma elem_of_insert_worker (l : list (Worker Task)) i w w' :
  w ∈ <[i := w']> l → w = w' ∨ w ∈ l.
Proof.
  intros [j Hj]%list_elem_of_lookup. apply list_lookup_insert_Some in Hj as [(_ & <- & _)|[_ Hj]].
  - by left.
  - right. by eapply list_elem_of_lookup_2.
Qed.

Lemma pool_ok_new thread_count max_queued p :
  max_queued ≤ INT_MAX → new_pool thread_count max_queued = Ok p →
  pool_ok (Z.to_nat thread_count) (if decide (0 < max_queued) then max_queued else 512) p.
Proof.
  unfold new_pool. intros Hm H. case_decide as Hn; [done|]. injection H as <-. split; simpl.
  - apply length_replicate.
  - split; [done|]. case_decide; [lia|]. unfold INT_MAX. lia.
  - done.
  - case_decide; lia.
  - lia.
  - done.
  - done.
  - intros H. by apply elem_of_replicate in H as [? _].
Qed.

Lemma pool_ok_submit n cap task b p p' :
  pool_ok n cap p → try_submit task p = (b, p') → pool_ok n cap p'.
Proof.
  intros [Hw [Hc Hr] Hp Hroom Hl Hna Hs Hret] H. unfold try_submit in H.
  destruct (stop_ p) eqn:Hstop; simpl in H; [by injection H as <- <-; split; rewrite ?Hstop; auto|].
  case_bool_decide as Hfull; injection H as <- <-; [by split; rewrite ?Hstop; auto|].
  unfold INT_MAX in *. split; simpl; rewrite ?length_app; simpl; auto.
  - rewrite Hp, u64_id by lia. lia.
  - lia.
  - intros Has. specialize (Hl Has). lia.
  - intros Hin. by apply Hret in Hin as [? _].
Qed.

Lemma pool_ok_check n cap i p :
  pool_ok n cap p → workers_ p !! i = Some Checking → pool_ok n cap (check i p).
Proof.
  intros [Hw [Hc Hr] Hp Hroom Hl Hna Hs Hret] Hi. unfold check. destruct (tasks_ p) as [|task rest] eqn:Ht.
  - pose proof (sum_list_insert busy _ i _ (if stop_ p then Returned else Asleep) Hi) as Hsum.
    split; simpl; rewrite ?length_insert, ?Ht; simpl; auto; [lia| |].
    + intros Hstop Hn [Heq|Hin]%elem_of_insert_worker; [|by apply (Hs Hstop Hn)].
      rewrite Hstop in Heq. discriminate.
    + intros [Heq|Hin]%elem_of_insert_worker; [|by apply Hret]. by destruct (stop_ p).
  - pose proof (sum_list_insert busy _ i _ (Running task) Hi) as Hsum. unfold INT_MAX in *.
    split; simpl in *; rewrite ?length_insert; auto.
    + rewrite Hp, u64_id by lia. lia.
    + lia.
    + intros [?|Hin]%elem_of_insert_worker; [done|]. specialize (Hl Hin). lia.
    + intros Hstop Hn [?|Hin]%elem_of_insert_worker; [done|]. by apply (Hs Hstop Hn).
    + intros [?|Hin]%elem_of_insert_worker; [done|]. by apply Hret in Hin as [_ ?].
Qed.

Lemma pool_ok_checking n cap i w p :
  pool_ok n cap p → workers_ p !! i = Some w → w ≠ Returned →
  pool_ok n cap (with_workers <[i := Checking]> p).
Proof.
  intros [Hw [Hc Hr] Hp Hroom Hl Hna Hs Hret] Hi Hne.
  pose proof (sum_list_insert busy _ i _ Checking Hi) as Hsum.
  assert (busy w ≤ 1)%nat as Hb by (destruct w; simpl; lia).
  split; simpl in *; rewrite ?length_insert; auto.
  - intros [?|Hin]%elem_of_insert_worker; [done|]. specialize (Hl Hin). lia.
  - intros Hstop Hn [?|Hin]%elem_of_insert_worker; [done|]. by apply (Hs Hstop Hn).
  - intros [?|Hin]%elem_of_insert_worker; [done|]. by apply Hret.
Qed.

(** A notification is used up by a worker that is asleep, or there is none. *)
Lemma pool_ok_notify n cap m ws p :
  pool_ok n cap p → notify p = S m →
  ((∃ i, workers_ p !! i = Some Asleep ∧ ws = (<[i := Checking]> (workers_ p))) ∨
   (ws = workers_ p ∧ Asleep ∉ workers_ p)) →
  pool_ok n cap (notify_one_done p ws m).
Proof.
  intros [Hw [Hc Hr] Hp Hroom Hl Hna Hs Hret] Hn [(i & Hi & ->)|[-> Hno]].
  - pose proof (sum_list_insert busy _ i _ Checking Hi) as Hsum.
    assert (Asleep ∈ workers_ p) as Has by by eapply list_elem_of_lookup_2.
    specialize (Hl Has). split; simpl in *; rewrite ?length_insert; auto.
    + intros _. lia.
    + intros Hstop Hna'. by destruct (Hs Hstop Hna').
    + intros [?|Hin]%elem_of_insert_worker; [done|]. by apply Hret.
  - split; simpl; auto. done.
Qed.

Lemma elem_of_wake (l : list (Worker Task)) (w : Worker Task) : w ∈ wake <$> l → w ≠ Asleep ∧ (w = Checking ∨ w ∈ l).
Proof. intros ([] & -> & Hin)%list_elem_of_fmap; simpl; auto. Qed.

Lemma pool_ok_notify_all n cap p :
  pool_ok n cap p → notify_all p = true → pool_ok n cap (notify_all_done p).
Proof.
  intros [Hw [Hc Hr] Hp Hroom Hl Hna Hs Hret] Hn.
  split; simpl; rewrite ?length_fmap; auto.
  - by intros [? _]%elem_of_wake.
  - by intros _ _ [? _]%elem_of_wake.
  - intros [_ [?|Hin]]%elem_of_wake; [done|]. by apply Hret.
Qed.

Lemma pool_ok_step n cap e p p' : pool_ok n cap p → step e p p' → pool_ok n cap p'.
Proof.
  intros Hok Hstep.
  destruct Hstep as [task b p p' H|p Hs|i task rest p Hi Ht|i p Hi Ht|i task p Hi|i p Hi
                    |i m p Hm Hi|m p Hm Hno|p Hn].
  - by eapply pool_ok_submit.
  - destruct Hok as [Hw Hc Hp Hroom Hl Hna Hst Hret]. split; simpl; auto; [done|].
    intros [? _]%Hret. congruence.
  - by apply pool_ok_check.
  - by apply pool_ok_check.
  - unfold end_task. destruct (outcome task); [by eapply pool_ok_checking..|].
    destruct Hok. by split.
  - by eapply pool_ok_checking.
  - eapply pool_ok_notify; [done..|]. left. by exists i.
  - eapply pool_ok_notify; [done..|]. right. split; [done|]. intros Hin.
    rewrite Forall_forall in Hno. by apply (Hno Asleep).
  - by apply pool_ok_notify_all.
Qed.

Lemma pool_ok_steps n cap evs p p' : pool_ok n cap p → steps evs p p' → pool_ok n cap p'.
Proof. intros Hok Hs. induction Hs; [done|]. by eapply pool_ok_step; [apply IHHs|]. Qed.

(** ** Order *)

Lemma accepted_app evs evs' : accepted (evs ++ evs') = accepted evs ++ accepted evs'.
Proof. apply omap_app. Qed.
Lemma started_app evs evs' : started (evs ++ evs') = started evs ++ started evs'.
Proof. apply omap_app. Qed.

Lemma step_queue e p p' :
  step e p p' → started [e] ++ tasks_ p' = tasks_ p ++ accepted [e].
Proof.
  destruct 1 as [task b p p' H|p Hs|i task rest p Hi Ht|i p Hi Ht|i task p Hi|i p Hi
                    |i m p Hm Hi|m p Hm Hno|p Hn]; simpl; rewrite ?app_nil_r; try done.
  - unfold try_submit in H. destruct (stop_ p || _); injection H as <- <-; simpl; [|done].
    by rewrite app_nil_r.
  - unfold check. rewrite Ht. simpl. done.
  - unfold check. by rewrite Ht.
  - unfold end_task. by destruct (outcome task).
Qed.

Lemma steps_queue thread_count max_queued p0 evs p :
  new_pool thread_count max_queued = Ok p0 → steps evs p0 p → accepted evs = started evs ++ tasks_ p.
Proof.
  intros Hnew Hs. assert (tasks_ p0 = []) as H0.
  { unfold new_pool in Hnew. destruct (decide (thread_count < 0)); by simplify_eq. }
  clear Hnew. induction Hs as [p|evs e p q r Hs IH _ Hstep]; [by rewrite H0|].
  apply step_queue in Hstep. rewrite accepted_app, started_app, <-app_assoc, Hstep, IH by done.
  by rewrite app_assoc.
Qed.

(** C19 The pool is a bounded queue.  However submissions, workers and notifications take turns,
    the tasks that were started are the first of those that were accepted, in the order in which
    they were accepted, and the others are in the queue; the count that guards the capacity is the
    length of the queue, which never exceeds the capacity.  A task is refused only when the pool is
    stopping or the queue is full. *)
Theorem pool_is_bounded_fifo thread_count max_queued p0 evs p :
  max_queued ≤ INT_MAX → new_pool thread_count max_queued = Ok p0 → steps evs p0 p →
  accepted evs = started evs ++ tasks_ p ∧
  pending_count_ p = Z.of_nat (length (tasks_ p)) ∧ Z.of_nat (length (tasks_ p)) ≤ capacity_ p ∧
  capacity_ p = (if decide (0 < max_queued) then max_queued else 512) ∧
  ∀ task, (try_submit task p).1 = false ↔
    stop_ p = true ∨ Z.of_nat (length (tasks_ p)) = capacity_ p.
Proof.
  intros Hm Hnew Hs. pose proof (pool_ok_new _ _ _ Hm Hnew) as Hok0.
  destruct (pool_ok_steps _ _ _ _ _ Hok0 Hs) as [_ [Hc Hr] Hp Hroom _ _ _ _]. split.
  - by eapply steps_queue.
  - split_and!; [done|lia|done|]. intros task. unfold try_submit. rewrite Hp, Hc.
    destruct (stop_ p); simpl; [by split; [left|]|]. case_bool_decide; simpl.
    + split; [|done]. intros _. right. lia.
    + split; [done|]. intros [?|?]; [done|lia].
Qed.

(** ** Rest *)

Definition weight (w : Worker Task) : nat :=
  match w with Running _ => 3 | Checking => 2 | Asleep => 1 | Returned => 0 end.

(** What is left to do: it gets less with every internal step. *)
Definition work p : nat :=
  sum_list_with weight (workers_ p) + 2 * length (tasks_ p) + 2 * notify p +
  (if notify_all p then length (workers_ p) + 1 else 0) + (if terminated p then 0 else 1).

Lemma sum_weight_wake (l : list (Worker Task)) :
  (sum_list_with weight (wake <$> l) ≤ sum_list_with weight l + length l)%nat.
Proof. induction l as [|w l IH]; simpl; [done|]. unfold fmap in *; destruct w; simpl; lia. Qed.

Lemma sum_weight_insert_lt (l : list (Worker Task)) i w w' n :
  l !! i = Some w → (weight w' + n = weight w)%nat →
  (sum_list_with weight (<[i := w']> l) + n = sum_list_with weight l)%nat.
Proof. intros Hi Hw. pose proof (sum_list_insert weight l i w w' Hi). lia. Qed.

Lemma internal_step_work p q : internal_step p q → (work q < work p)%nat.
Proof.
  intros (Hterm & e & He & Hstep). unfold work.
  destruct Hstep as [task b p p' H|p Hs|i task rest p Hi Ht|i p Hi Ht|i task p Hi|i p Hi
                    |i m p Hm Hi|m p Hm Hno|p Hn]; try done; rewrite Hterm.
  - pose proof (sum_list_insert weight _ _ _ (Running task) Hi) as Hsum.
    unfold check. rewrite Ht. simpl in *. rewrite length_insert, Hterm. lia.
  - pose proof (sum_list_insert weight _ _ _ (if stop_ p then Returned else Asleep) Hi) as Hsum.
    unfold check. rewrite Ht. simpl in *. rewrite length_insert, Ht, Hterm.
    destruct (stop_ p); simpl in *; lia.
  - pose proof (sum_list_insert weight _ _ _ Checking Hi) as Hsum.
    unfold end_task. destruct (outcome task); simpl in *; rewrite ?length_insert, ?Hterm; lia.
  - pose proof (sum_list_insert weight _ _ _ Checking Hi) as Hsum.
    simpl in *. rewrite length_insert, Hterm, Hm. lia.
  - simpl. rewrite Hterm, Hm. lia.
  - unfold notify_all_done. cbn [workers_ tasks_ notify notify_all terminated].
    rewrite Hterm, Hn. pose proof (sum_weight_wake (workers_ p)). lia.
Qed.

(** A pool that does nothing by itself. *)
Definition at_rest p : Prop := ∀ q, ¬ internal_step p q.

Definition is_asleep (w : Worker Task) : bool := if w is Asleep then true else false.

Lemma rest_workers p :
  at_rest p → terminated p = false →
  notify p = 0%nat ∧ notify_all p = false ∧ Forall (λ w, w = Asleep ∨ w = Returned) (workers_ p).
Proof.
  intros Hrest Hterm.
  assert (∀ e q, internal e = true → ¬ step e p q) as Hno.
  { intros e q He Hs. apply (Hrest q). split; [done|]. by exists e. }
  split_and!.
  - destruct (notify p) as [|m] eqn:Hm; [done|]. exfalso.
    destruct (decide (Exists (λ w, is_asleep w = true) (workers_ p))) as [Hex|Hex].
    + apply Exists_exists in Hex as (w & [i Hi]%list_elem_of_lookup & Hw). destruct w; try done.
      by eapply (Hno Silent); [|eapply step_notify].
    + eapply (Hno Silent); [done|]. eapply step_notify_none; [done|].
      apply Forall_forall. intros w Hin ->. apply Hex, Exists_exists. by exists Asleep.
  - destruct (notify_all p) eqn:Hn; [|done]. exfalso.
    by eapply (Hno Silent); [|eapply step_notify_all].
  - apply Forall_forall. intros w [i Hi]%list_elem_of_lookup. destruct w as [| |task|]; auto; exfalso.
    + destruct (tasks_ p) as [|task rest] eqn:Ht.
      * by eapply (Hno Silent); [|eapply step_idle].
      * by eapply (Hno (Take task)); [|eapply step_take].
    + by eapply (Hno (Finish task)); [|eapply step_end].
Qed.

Lemma steps_app evs evs' p q r : steps evs p q → steps evs' q r → steps (evs ++ evs') p r.
Proof.
  intros H H'. induction H'; [by rewrite app_nil_r|]. rewrite app_assoc. by econstructor; [apply IHH'|..].
Qed.

Lemma rest_done n cap q :
  pool_ok n cap q → at_rest q → terminated q = false → n ≠ 0%nat →
  tasks_ q = [] ∧ (stop_ q = true → Forall (λ w, w = Returned) (workers_ q)).
Proof.
  intros Hok Hrest Hterm Hn. destruct (rest_workers q Hrest Hterm) as (Hno & Hna & Hw). split.
  - destruct (workers_ q) as [|w ws] eqn:E; [by rewrite <-(ok_workers _ _ _ Hok), E in Hn|].
    assert (sum_list_with busy (workers_ q) = 0%nat) as Hbusy.
    { rewrite E. clear -Hw. induction Hw as [|w' l [->| ->] _ IH]; simpl; lia. }
    assert (w ∈ workers_ q) as Hin by (rewrite E; left).
    apply Forall_cons in Hw as [[->| ->] _].
    + pose proof (ok_no_lost_wakeup _ _ _ Hok Hin). destruct (tasks_ q); [done|]. simpl in *. lia.
    + by apply (ok_returned _ _ _ Hok).
  - intros Hstop. pose proof (ok_stopped _ _ _ Hok Hstop Hna) as Hasleep.
    rewrite Forall_forall in Hw |- *. intros w Hin. by destruct (Hw w Hin) as [->| ->].
Qed.

(** C18 The pool comes to rest, and then nothing is left to do.  From every state that it can come
    to, if nothing more is submitted, it takes only so many steps, without spurious wake-ups; and
    where it takes none, unless a task ended in an exception of its own that ended the program,
    every task that was accepted has been started, and once the destructor has begun every worker
    has returned, so that its joins come back.  No notification is lost on the way: a worker that
    sleeps is not needed. *)
Theorem pool_comes_to_rest thread_count max_queued p0 evs p :
  0 < thread_count → max_queued ≤ INT_MAX → new_pool thread_count max_queued = Ok p0 →
  steps evs p0 p →
  Acc (λ b a, internal_step a b) p ∧
  ∀ evs' q, steps evs' p q → at_rest q → terminated q = false →
    accepted (evs ++ evs') = started (evs ++ evs') ∧
    (stop_ q = true → Forall (λ w, w = Returned) (workers_ q)).
Proof.
  intros Hn Hm Hnew Hs. split.
  { apply (wf_incl _ _ (ltof _ work)); [|apply well_founded_ltof].
    intros q r. apply internal_step_work. }
  intros evs' q Hs' Hrest Hterm.
  assert (steps (evs ++ evs') p0 q) as Hall by by eapply steps_app.
  assert (tasks_ q = [] ∧ (stop_ q = true → Forall (λ w, w = Returned) (workers_ q))) as [Ht Hret].
  { eapply rest_done; [|done..|]; [by eapply pool_ok_steps; [eapply pool_ok_new|]|]. lia. }
  split; [|done]. rewrite (steps_queue _ _ _ _ _ Hnew Hall), Ht. apply app_nil_r.
Qed.
End pool.
