(* ===== verification/Sha256.v ===== *)
(** * SHA-256 (src/execution/executioner.cpp)

    The hash that names a prepared package: the transformation of a block, the context that is
    fed piece by piece, and its end.  A [uint32_t] is an integer below 2^32, a byte one below
    256.  The reference it is compared with pads the whole message and folds the blocks. *)

From Stdlib Require Import Ascii.
From S2P Require Import Prelude.

(** ** The transformation of a block *)

Definition K : list Z :=
  [0x428a2f98; 0x71374491; 0xb5c0fbcf; 0xe9b5dba5] ++
  [0x3956c25b; 0x59f111f1; 0x923f82a4; 0xab1c5ed5] ++
  [0xd807aa98; 0x12835b01; 0x243185be; 0x550c7dc3] ++
  [0x72be5d74; 0x80deb1fe; 0x9bdc06a7; 0xc19bf174] ++
  [0xe49b69c1; 0xefbe4786; 0x0fc19dc6; 0x240ca1cc] ++
  [0x2de92c6f; 0x4a7484aa; 0x5cb0a9dc; 0x76f988da] ++
  [0x983e5152; 0xa831c66d; 0xb00327c8; 0xbf597fc7] ++
  [0xc6e00bf3; 0xd5a79147; 0x06ca6351; 0x14292967] ++
  [0x27b70a85; 0x2e1b2138; 0x4d2c6dfc; 0x53380d13] ++
  [0x650a7354; 0x766a0abb; 0x81c2c92e; 0x92722c85] ++
  [0xa2bfe8a1; 0xa81a664b; 0xc24b8b70; 0xc76c51a3] ++
  [0xd192e819; 0xd6990624; 0xf40e3585; 0x106aa070] ++
  [0x19a4c116; 0x1e376c08; 0x2748774c; 0x34b0bcb5] ++
  [0x391c0cb3; 0x4ed8aa4a; 0x5b9cca4f; 0x682e6ff3] ++
  [0x748f82ee; 0x78a5636f; 0x84c87814; 0x8cc70208] ++
  [0x90befffa; 0xa4506ceb; 0xbef9a3f7; 0xc67178f2].

Definition rotr (x n : Z) : Z := Z.lor (Z.shiftr x n) (u32 (Z.shiftl x (32 - n))).
Definition ch (x y z : Z) : Z := Z.lxor (Z.land x y) (Z.land (Z.lxor x 0xffffffff) z).
Definition maj (x y z : Z) : Z := Z.lxor (Z.lxor (Z.land x y) (Z.land x z)) (Z.land y z).
Definition ep0 (x : Z) : Z := Z.lxor (Z.lxor (rotr x 2) (rotr x 13)) (rotr x 22).
Definition ep1 (x : Z) : Z := Z.lxor (Z.lxor (rotr x 6) (rotr x 11)) (rotr x 25).
Definition sig0 (x : Z) : Z := Z.lxor (Z.lxor (rotr x 7) (rotr x 18)) (Z.shiftr x 3).
Definition sig1 (x : Z) : Z := Z.lxor (Z.lxor (rotr x 17) (rotr x 19)) (Z.shiftr x 10).

(** The eight words of the state. *)
Record Words := { wa : Z; wb : Z; wc : Z; wd : Z; we : Z; wf : Z; wg : Z; wh : Z }.

Definition initial_state : Words := {|
  wa := 0x6a09e667; wb := 0xbb67ae85; wc := 0x3c6ef372; wd := 0xa54ff53a;
  we := 0x510e527f; wf := 0x9b05688c; wg := 0x1f83d9ab; wh := 0x5be0cd19 |}.

(** The first sixteen words, big-endian. *)
Fixpoint words_of (data : list Z) : list Z :=
  match data with
  | b0 :: b1 :: b2 :: b3 :: data =>
      Z.lor (Z.lor (Z.lor (Z.shiftl b0 24) (Z.shiftl b1 16)) (Z.shiftl b2 8)) b3 :: words_of data
  | _ => []
  end.

(** [m[i]] for [i] from the length of [m] on. *)
Fixpoint schedule (n : nat) (m : list Z) : list Z :=
  match n with
  | O => m
  | S n =>
      let i := length m in
      let word k := m !!! (i - k)%nat in
      schedule n (m ++ [u32 (sig1 (word 2%nat) + word 7%nat + sig0 (word 15%nat) + word 16%nat)])
  end.

Definition round (s : Words) (km : Z * Z) : Words :=
  let t1 := u32 (wh s + ep1 (we s) + ch (we s) (wf s) (wg s) + km.1 + km.2) in
  let t2 := u32 (ep0 (wa s) + maj (wa s) (wb s) (wc s)) in
  {| wa := u32 (t1 + t2); wb := wa s; wc := wb s; wd := wc s;
     we := u32 (wd s + t1); wf := we s; wg := wf s; wh := wg s |}.

Definition compress (s : Words) (data : list Z) : Words :=
  let r := foldl round s (zip K (schedule 48 (words_of data))) in
  {| wa := u32 (wa s + wa r); wb := u32 (wb s + wb r); wc := u32 (wc s + wc r);
     wd := u32 (wd s + wd r); we := u32 (we s + we r); wf := u32 (wf s + wf r);
     wg := u32 (wg s + wg r); wh := u32 (wh s + wh r) |}.

(** ** The context *)

Record Ctx := { data : list Z; datalen : nat; bitlen : Z; state : Words }.

Definition Ctx_init : Ctx :=
  {| data := replicate 64 0; datalen := 0; bitlen := 0; state := initial_state |}.

Definition transform (ctx : Ctx) : Ctx :=
  {| data := data ctx; datalen := datalen ctx; bitlen := bitlen ctx;
     state := compress (state ctx) (data ctx) |}.

(** An iteration of [update]. *)
Definition update_byte (ctx : Ctx) (b : Z) : Ctx :=
  let ctx := {| data := <[datalen ctx := b]> (data ctx); datalen := S (datalen ctx);
                bitlen := bitlen ctx; state := state ctx |} in
  if decide (datalen ctx = 64)%nat then
    {| data := data ctx; datalen := 0; bitlen := u64 (bitlen ctx + 512);
       state := state (transform ctx) |}
  else ctx.

Definition update (ctx : Ctx) (bytes : list Z) : Ctx := foldl update_byte ctx bytes.

(** [while (i < n) ctx.data[i++] = 0x00;], and the bytes from [i] on, big-endian. *)
Definition zero_range (i n : nat) (data : list Z) : list Z :=
  list_inserts i (replicate (n - i) 0) data.

Definition big_endian_64 (x : Z) : list Z :=
  (λ k, Z.land (Z.shiftr x (8 * k)) 255) <$> [7; 6; 5; 4; 3; 2; 1; 0].

Definition with_data (f : list Z → list Z) (ctx : Ctx) : Ctx :=
  {| data := f (data ctx); datalen := datalen ctx; bitlen := bitlen ctx; state := state ctx |}.

Definition hex_digit (n : Z) : ascii :=
  if decide (n < 10) then ascii_of_N (Z.to_N (48 + n)) else ascii_of_N (Z.to_N (87 + n)).

Definition hex_byte (b : Z) (s : string) : string :=
  String (hex_digit (Z.shiftr b 4)) (String (hex_digit (Z.land b 15)) s).

Definition word_bytes (w : Z) : list Z :=
  (λ k, Z.land (Z.shiftr w (8 * k)) 255) <$> [3; 2; 1; 0].

Definition digest (s : Words) : string :=
  foldr hex_byte ""
    (mjoin (word_bytes <$> [wa s; wb s; wc s; wd s; we s; wf s; wg s; wh s])).

Definition finalise (ctx : Ctx) : string :=
  let n := datalen ctx in
  let ctx := with_data <[n := 0x80]> ctx in
  let ctx :=
    if decide (n < 56)%nat then with_data (zero_range (S n) 56) ctx
    else with_data (zero_range 0 56) (transform (with_data (zero_range (S n) 64) ctx)) in
  let bits := u64 (bitlen ctx + u64 (Z.of_nat n * 8)) in
  digest (state (transform (with_data (list_inserts 56 (big_endian_64 bits)) ctx))).

Definition bytes_of (s : string) : list Z := (λ c, Z.of_N (N_of_ascii c)) <$> String.list_ascii_of_string s.

Definition sha256 (text : string) : string := finalise (update Ctx_init (bytes_of text)).

Example sha256_abc :
  sha256 "abc" = "ba7816bf8f01cfea414140de5dae2223b00361a396177a9cb410ff61f20015ad".
Proof. by vm_compute. Qed.

Example sha256_two_blocks :
  sha256 "abcdbcdecdefdefgefghfghighijhijkijkljklmklmnlmnomnopnopq" =
    "248d6a61d20638b8e5c026930c3e6039a33ce45964ff2167f6ecedd419db06c1".
Proof. by vm_compute. Qed.

(** ** The reference

    FIPS 180-4: the message is padded with a one bit, zeros and its length in bits, modulo
    2^64, to a whole number of blocks. *)

Definition padding (n : nat) : list Z :=
  0x80 :: replicate (Z.to_nat ((55 - Z.of_nat n) mod 64)) 0 ++
  big_endian_64 (u64 (8 * Z.of_nat n)).

Fixpoint blocks_from (fuel : nat) (bytes : list Z) : list (list Z) :=
  match fuel, bytes with
  | S fuel, _ :: _ => take 64 bytes :: blocks_from fuel (drop 64 bytes)
  | _, _ => []
  end.

Definition blocks (bytes : list Z) : list (list Z) := blocks_from (length bytes) bytes.

Definition sha256_spec (message : list Z) : string :=
  digest (foldl compress initial_state (blocks (message ++ padding (length message)))).

(** ** The context holds what was fed *)

(** Whole blocks that were folded, and a rest that is in the buffer. *)
Record absorbed (bs : list (list Z)) (rest : list Z) (ctx : Ctx) : Prop := {
  ab_blocks : Forall (λ b, length b = 64%nat) bs;
  ab_rest : (length rest < 64)%nat;
  ab_data : length (data ctx) = 64%nat;
  ab_buffer : take (length rest) (data ctx) = rest;
  ab_datalen : datalen ctx = length rest;
  ab_bitlen : bitlen ctx = u64 (512 * Z.of_nat (length bs));
  ab_state : state ctx = foldl compress initial_state bs;
}.

Lemma absorbed_init : absorbed [] [] Ctx_init.
Proof. split; simpl; try done; try constructor; lia. Qed.

Lemma take_insert_snoc {A} (l : list A) n x :
  (n < length l)%nat → take (S n) (<[n := x]> l) = take n l ++ [x].
Proof.
  intros Hn. rewrite (take_S_r _ _ x) by by apply list_lookup_insert_eq.
  by rewrite take_insert_ge by lia.
Qed.

Lemma u64_add_mod a b : u64 (u64 a + b) = u64 (a + b).
Proof. unfold u64. by rewrite Zplus_mod_idemp_l. Qed.

Lemma absorbed_byte bs rest ctx b :
  absorbed bs rest ctx →
  ∃ bs' rest', absorbed bs' rest' (update_byte ctx b) ∧
    mjoin bs' ++ rest' = (mjoin bs ++ rest) ++ [b].
Proof.
  intros [Hbs Hr Hd Hb Hl Hbit Hst]. unfold update_byte. simpl. rewrite Hl.
  assert (take (S (length rest)) (<[length rest := b]> (data ctx)) = rest ++ [b]) as Htake.
  { rewrite take_insert_snoc by lia. by rewrite Hb. }
  case_decide as Hfull.
  - exists (bs ++ [rest ++ [b]]), []. split.
    + split; simpl.
      * apply Forall_app. split; [done|]. repeat constructor. rewrite length_app. simpl. lia.
      * lia.
      * by rewrite length_insert.
      * by rewrite take_0.
      * done.
      * rewrite Hbit, u64_add_mod, length_app. simpl. f_equal. lia.
      * rewrite foldl_app, <-Hst. simpl. rewrite <-Htake, take_ge; [done|].
        rewrite length_insert. lia.
    + rewrite join_app. simpl. by rewrite !app_nil_r, app_assoc.
  - exists bs, (rest ++ [b]). rewrite app_assoc. split; [|done].
    split; simpl; try done; rewrite ?length_insert, ?length_app; simpl; try lia.
    by rewrite Nat.add_1_r.
Qed.

Lemma absorbed_update bytes bs rest ctx :
  absorbed bs rest ctx →
  ∃ bs' rest', absorbed bs' rest' (update ctx bytes) ∧
    mjoin bs' ++ rest' = (mjoin bs ++ rest) ++ bytes.
Proof.
  unfold update. revert bs rest ctx. induction bytes as [|b bytes IH]; intros bs rest ctx H.
  { exists bs, rest. by rewrite app_nil_r. }
  simpl. destruct (absorbed_byte _ _ _ b H) as (bs1 & rest1 & H1 & E1).
  destruct (IH _ _ _ H1) as (bs2 & rest2 & H2 & E2). exists bs2, rest2. split; [done|].
  by rewrite E2, E1, <-app_assoc.
Qed.

Lemma update_app ctx b1 b2 : update (update ctx b1) b2 = update ctx (b1 ++ b2).
Proof. unfold update. by rewrite foldl_app. Qed.

(** *** Blocks *)

Lemma blocks_from_fuel fuel bytes :
  (length bytes ≤ fuel)%nat → blocks_from fuel bytes = blocks bytes.
Proof.
  unfold blocks. remember (length bytes) as n eqn:En. revert fuel bytes En.
  induction (lt_wf n) as [n _ IH]; intros fuel bytes -> Hf.
  destruct bytes as [|b bytes]; [by destruct fuel|].
  destruct fuel as [|fuel]; [simpl in Hf; lia|]. cbn [length blocks_from]. f_equal.
  assert (length (drop 64 (b :: bytes)) ≤ length bytes)%nat as Hl
    by (rewrite length_drop; cbn [length]; lia).
  simpl in Hf. transitivity (blocks_from (length (drop 64 (b :: bytes))) (drop 64 (b :: bytes))).
  - apply (IH (length (drop 64 (b :: bytes)))); [cbn [length]; lia|done|lia].
  - symmetry. apply (IH (length (drop 64 (b :: bytes)))); [cbn [length]; lia|done|lia].
Qed.

Lemma blocks_cons b bytes : length b = 64%nat → blocks (b ++ bytes) = b :: blocks bytes.
Proof.
  intros Hb. destruct b as [|x b]; [done|]. rewrite <-app_comm_cons. unfold blocks at 1.
  cbn [length blocks_from]. rewrite app_comm_cons, take_app_length', drop_app_length' by done.
  f_equal. apply blocks_from_fuel. rewrite length_app. lia.
Qed.

Lemma blocks_app bs bytes :
  Forall (λ b, length b = 64%nat) bs → blocks (mjoin bs ++ bytes) = bs ++ blocks bytes.
Proof.
  induction 1 as [|b bs Hb _ IH]; [done|]. simpl. rewrite <-app_assoc.
  by rewrite blocks_cons, IH.
Qed.

(** *** The end *)

Lemma list_inserts_spec {A} (i : nat) (k l : list A) :
  (i + length k ≤ length l)%nat →
  list_inserts i k l = take i l ++ k ++ drop (i + length k) l.
Proof.
  intros Hl. rewrite <-(take_drop i l) at 1.
  assert (length (take i l) = i) as Hi by (rewrite length_take; lia).
  replace i with (length (take i l) + 0)%nat at 1 by lia.
  rewrite list_inserts_app_r. f_equal.
  rewrite <-(take_drop (length k) (drop i l)).
  rewrite list_inserts_0_r by (rewrite length_take, length_drop; lia).
  f_equal. by rewrite drop_drop.
Qed.

Lemma insert_inserts {A} (i : nat) (x : A) l : <[i := x]> l = list_inserts i [x] l.
Proof. done. Qed.

Lemma big_endian_64_length x : length (big_endian_64 x) = 8%nat.
Proof. done. Qed.

(** Writing one range after the other. *)
Lemma inserts_next {A} (p k rest : list A) :
  (length k ≤ length rest)%nat →
  list_inserts (length p) k (p ++ rest) = p ++ k ++ drop (length k) rest.
Proof.
  intros Hl. replace (length p) with (length p + 0)%nat by lia. rewrite list_inserts_app_r.
  by rewrite list_inserts_spec by lia.
Qed.

Lemma buffer_marked rest d :
  length d = 64%nat → (length rest < 64)%nat → take (length rest) d = rest →
  <[length rest := 0x80]> d = (rest ++ [0x80]) ++ drop (S (length rest)) d.
Proof.
  intros Hd Hr Hb. rewrite insert_inserts, list_inserts_spec by (simpl; lia).
  rewrite Hb, <-app_assoc. simpl. by rewrite Nat.add_1_r.
Qed.

Lemma zero_range_next (p rest : list Z) (n : nat) :
  (length p ≤ n)%nat → (n - length p ≤ length rest)%nat →
  zero_range (length p) n (p ++ rest) = (p ++ replicate (n - length p) 0) ++ drop (n - length p) rest.
Proof.
  intros Hp Hn. unfold zero_range. rewrite inserts_next by by rewrite length_replicate.
  by rewrite length_replicate, app_assoc.
Qed.

(** The blocks of what is left when the message ends. *)
Lemma padded_rest rest :
  (length rest < 64)%nat → ∀ tail, length tail = 8%nat →
  blocks (rest ++ 0x80 :: replicate (Z.to_nat ((55 - Z.of_nat (length rest)) mod 64)) 0 ++ tail) =
    if decide (length rest < 56)%nat
    then [(rest ++ [0x80]) ++ replicate (55 - length rest) 0 ++ tail]
    else [(rest ++ [0x80]) ++ replicate (63 - length rest) 0; replicate 56 0 ++ tail].
Proof.
  intros Hr tail Ht. assert (blocks [] = []) as Hnil by done.
  assert (∀ l, rest ++ 0x80 :: l = (rest ++ [0x80]) ++ l) as Hmark by (intros; by rewrite <-app_assoc).
  rewrite Hmark. case_decide as Hn.
  - rewrite Z.mod_small by lia. replace (Z.to_nat _) with (55 - length rest)%nat by lia.
    set (b := (rest ++ [0x80]) ++ _). rewrite <-(app_nil_r b), blocks_cons, Hnil, app_nil_r; [done|].
    unfold b. rewrite !length_app, length_replicate. simpl. lia.
  - replace ((55 - Z.of_nat (length rest)) mod 64) with (119 - Z.of_nat (length rest)).
    2: { rewrite <-(Z_mod_plus_full (55 - Z.of_nat (length rest)) 1 64). rewrite Z.mod_small; lia. }
    replace (Z.to_nat _) with ((63 - length rest) + 56)%nat by lia.
    rewrite replicate_add, <-(app_assoc (replicate (63 - length rest) 0)), (app_assoc (rest ++ _)).
    rewrite blocks_cons.
    2: { rewrite !length_app, length_replicate. simpl. lia. }
    f_equal. pose proof (blocks_cons (replicate 56 0 ++ tail) []) as Hlast.
    rewrite app_nil_r, Hnil in Hlast. apply Hlast. rewrite length_app, length_replicate, Ht. done.
Qed.

Lemma join_length (bs : list (list Z)) :
  Forall (λ b, length b = 64%nat) bs → length (mjoin bs) = (64 * length bs)%nat.
Proof. induction 1 as [|b bs Hb _ IH]; [done|]. simpl. rewrite length_app, Hb, IH. lia. Qed.

Lemma finalise_absorbed bs rest ctx :
  absorbed bs rest ctx → finalise ctx = sha256_spec (mjoin bs ++ rest).
Proof.
  intros [Hbs Hr Hd Hb Hl Hbit Hst]. unfold sha256_spec, padding.
  assert (Z.of_nat (length (mjoin bs ++ rest)) = 64 * Z.of_nat (length bs) + Z.of_nat (length rest))
    as Hlen by (rewrite length_app, join_length by done; lia).
  rewrite Hlen. set (bits := u64 (8 * _)).
  replace ((55 - (64 * Z.of_nat (length bs) + Z.of_nat (length rest))) mod 64)
    with ((55 - Z.of_nat (length rest)) mod 64).
  2: { rewrite <-(Z_mod_plus_full (55 - Z.of_nat (length rest)) (- Z.of_nat (length bs)) 64).
       f_equal. lia. }
  rewrite <-app_assoc, blocks_app, foldl_app, <-Hst, padded_rest by done.
  assert (u64 (bitlen ctx + u64 (Z.of_nat (datalen ctx) * 8)) = bits) as Hbits.
  { unfold bits. rewrite Hbit, Hl, u64_add_mod, Z.add_comm, u64_add_mod. f_equal. lia. }
  unfold finalise, with_data, transform. cbn [data datalen bitlen state]. rewrite Hl in *.
  rewrite (buffer_marked rest) by done.
  assert (length (rest ++ [0x80]) = S (length rest)) as Hmark by (rewrite length_app; simpl; lia).
  case_decide as Hn; cbn [data datalen bitlen state foldl]; rewrite Hbits; f_equal;
    rewrite <-Hmark.
  - rewrite zero_range_next by (rewrite ?length_drop; lia).
    set (p := (rest ++ [0x80]) ++ _). assert (length p = 56%nat) as Hp.
    { unfold p. rewrite length_app, length_replicate. lia. }
    rewrite <-Hp, inserts_next by (rewrite big_endian_64_length, !length_drop; lia).
    f_equal. rewrite (drop_ge (drop _ _)) by (rewrite big_endian_64_length, !length_drop; lia).
    rewrite app_nil_r. unfold p. rewrite <-app_assoc, Hmark.
    f_equal.
  - rewrite zero_range_next by (rewrite ?length_drop; lia).
    rewrite (drop_ge (drop _ _)) by (rewrite length_drop; lia). rewrite app_nil_r.
    set (first := (rest ++ [0x80]) ++ _).
    assert (first = (rest ++ [0x80]) ++ replicate (63 - length rest) 0) as ->
      by (unfold first; f_equal; f_equal; lia).
    set (d := _ ++ replicate (63 - length rest) 0). assert (length d = 64%nat) as Hdl.
    { unfold d. rewrite length_app, length_replicate. lia. }
    f_equal. unfold zero_range.
    rewrite (list_inserts_spec 0) by (rewrite length_replicate; lia).
    rewrite length_replicate, take_0, (app_nil_l (replicate 56 0 ++ _)).
    rewrite <-(length_replicate 56 0) at 1.
    rewrite inserts_next by (rewrite big_endian_64_length, length_drop; lia).
    f_equal. rewrite drop_ge, app_nil_r; [done|].
    rewrite big_endian_64_length, length_drop. lia.
Qed.

(** Pieces are hashed as the whole. *)
Lemma update_pieces pieces ctx : foldl update ctx pieces = update ctx (mjoin pieces).
Proof. revert ctx. induction pieces as [|p pieces IH]; intros ctx; simpl; [done|]. by rewrite IH, update_app. Qed.

(** C24 The hash of what is fed, in whatever pieces, is SHA-256 of the whole: the context's
    buffer, its counters and the two forms of the last block agree with padding the message
    and folding its blocks, for messages of any length. *)
Theorem sha256_any_pieces pieces :
  finalise (foldl update Ctx_init pieces) = sha256_spec (mjoin pieces).
Proof.
  rewrite update_pieces.
  destruct (absorbed_update (mjoin pieces) [] [] _ absorbed_init) as (bs & rest & Hab & E).
  rewrite (finalise_absorbed _ _ _ Hab), E. done.
Qed.
