(* ===== verification/Runtime.v ===== *)
(** * Runtimes, preparation and launch (src/execution)

    How a package is run: the adapter that its manifest selects (runtime_adapters.cpp), the
    steps that prepare it (prepare_runner.cpp) and the start of its process
    (run_launcher.cpp).  What the operating system answers is in a record: a command that
    runs to its end, the files, a process that is started. *)

From Stdlib Require Import Ascii.
From S2P Require Import Prelude Json StringUtils Paths.

(** [ProcessResult] *)
Record ProcessResult := {
  exit_code : Z;
  stdout_content : string;
  stderr_content : string;
  success : bool;
  timed_out : bool;
}.

Record PrepareStep := { ps_command : string; ps_args : list string; ps_timeout_ms : Z }.

Record RuntimeResolution := {
  rt_runtime : string;
  rt_version : string;
  rt_run_command : string;
  rt_run_args : list string;
  rt_injected_prepare_steps : list PrepareStep;
  rt_env_overrides : gmap string string;
}.

Abbreviation Env := (gmap string string).

(** The answers of the system: a command that is run, with and without a time limit, a
    process that is started, with its pid or what went wrong, and what there is at a path;
    [inl] is an exception of [ProcessSpawner]. *)
Record OS := {
  os_run_sync : string → list string → string + ProcessResult;
  os_run_with_timeout : string → list string → Env → Z → string → string + ProcessResult;
  os_spawn : string → list string → Env → string → string + (Z * string);
  os_exists : string → bool;
  os_is_file : string → bool;
  os_is_directory : string → bool;
}.

(** ** Adapters *)

Definition has_prepare_command (manifest : json) (command : string) : exc bool :=
  prepare ← value_json manifest "prepare" (JArray []);
  match prepare with
  | JArray steps =>
      (fix go (steps : list json) : exc bool :=
         match steps with
         | [] => mret false
         | step :: steps =>
             if is_object step then
               c ← value_string step "command" "";
               if decide (c = command) then mret true else go steps
             else go steps
         end) steps
  | _ => mret false
  end.

Definition path_looks_local_binary (command : string) : bool :=
  starts_with command "./" || starts_with command "../".

Definition ends_with_exe_case_insensitive (value : string) : bool :=
  bool_decide (4 ≤ String.length value)%nat &&
  bool_decide (to_lower (str_drop (String.length value - 4) value) = ".exe").

(** On POSIX. *)
Definition normalize_local_binary_for_platform (command : string) : string :=
  if path_looks_local_binary command && ends_with_exe_case_insensitive command
  then str_take (String.length command - 4) command else command.

(** The blanks that the adapters' [trim] drops. *)
Definition is_blank (c : ascii) : bool :=
  bool_decide (c = " "%char ∨ c = "009"%char ∨ c = "010"%char ∨ c = "013"%char).

Fixpoint drop_blanks (s : string) : string :=
  match s with
  | String c rest => if is_blank c then drop_blanks rest else s
  | EmptyString => s
  end.

Fixpoint drop_trailing_blanks (s : string) : string :=
  match s with
  | EmptyString => ""
  | String c s =>
      let s := drop_trailing_blanks s in
      if is_blank c && bool_decide (s = "") then "" else String c s
  end.

Definition trim_blanks (s : string) : string := drop_blanks (drop_trailing_blanks s).

Section adapters.
Context (os : OS).

Definition binary_exists (bin : string) : bool :=
  if decide (bin = "") then false
  else match os_run_sync os "which" [bin] with inr r => success r | inl _ => false end.

Definition detect_runtime_version (command : string) (args : list string) : exc string :=
  res ← match os_run_sync os command args with inr r => mret r | inl what => Throw what end;
  let out := trim_blanks (stdout_content res) in
  let out := if decide (out = "") then trim_blanks (stderr_content res) else out in
  mret (if decide (out = "") then "unknown" else out).

Definition file_exists_in (workdir entry : string) : bool :=
  os_exists os (path_join workdir entry) && os_is_file os (path_join workdir entry).

(** The strings of an array. *)
Fixpoint string_elements (l : list json) : list string :=
  match l with
  | [] => []
  | JString s :: l => s :: string_elements l
  | _ :: l => string_elements l
  end.

(** An adapter gives the command and its arguments, or why there are none. *)
Definition Choice : Type := string + (string * list string).

(** The first branch of the adapters of python, node and go: without a command one is made
    for the entry, or for its default. *)
Definition inferred (language default_entry entry workdir command : string) (args : list string)
    (make : string → string * list string) : Choice :=
  if decide (command = "") then
    let inferred_entry := if decide (entry = "") then default_entry else entry in
    if file_exists_in workdir inferred_entry then inr (make inferred_entry)
    else inl (language +:+ " entry file not found: " +:+ inferred_entry)
  else inr (command, args).

(** The entry is an argument that is a file. *)
Definition entry_arg (language missing workdir : string) (args : list string) : option string :=
  match args with
  | [] => Some missing
  | e :: _ => if file_exists_in workdir e then None
              else Some (language +:+ " entry file not found: " +:+ e)
  end.

(** [run <entry>] *)
Definition run_entry_args (language missing workdir : string) (args : list string) :
    option string :=
  match args with
  | "run" :: e :: _ => if file_exists_in workdir e then None
                       else Some (language +:+ " entry file not found: " +:+ e)
  | _ => Some missing
  end.

Definition python_command (workdir entry command : string) (args : list string) : Choice :=
  if negb (binary_exists "python") && negb (binary_exists "uv")
  then inl "python runtime requires python or uv binary"
  else
    match inferred "python" "main.py" entry workdir command args
            (λ e, if binary_exists "uv" then ("uv", ["run"; e]) else ("python", [e])) with
    | inl why => inl why
    | inr (command, args) =>
        if decide (command ≠ "python" ∧ command ≠ "python3" ∧ command ≠ "uv")
        then inl "python runtime must use python or uv"
        else
          match (if decide (command = "uv")
                 then run_entry_args "python" "python uv runtime requires args like: run <entry.py>"
                        workdir args
                 else entry_arg "python" "python runtime requires entry script arg" workdir args)
          with
          | Some why => inl why
          | None => inr (command, args)
          end
    end.

Definition node_command (workdir entry command : string) (args : list string) : Choice :=
  if negb (binary_exists "node") then inl "node runtime requires node binary"
  else
    match inferred "node" "index.js" entry workdir command args (λ e, ("node", [e])) with
    | inl why => inl why
    | inr (command, args) =>
        if decide (command ≠ "node") then inl "node runtime requires run.command to be node"
        else match entry_arg "node" "node runtime requires entry script arg" workdir args with
             | Some why => inl why
             | None => inr (command, args)
             end
    end.

Definition rust_command (command : string) (args : list string) : Choice :=
  if negb (binary_exists "cargo") then inl "rust runtime requires cargo binary"
  else if negb (path_looks_local_binary command)
  then inl "rust runtime expects run.command to be built local binary path"
  else inr (command, args).

Definition go_command (workdir entry command : string) (args : list string) : Choice :=
  if negb (binary_exists "go") then inl "go runtime requires go binary"
  else
    match inferred "go" "main.go" entry workdir command args (λ e, ("go", ["run"; e])) with
    | inl why => inl why
    | inr (command, args) =>
        if decide (command = "go") then
          match run_entry_args "go" "go runtime with go command requires args like: run <entry.go>"
                  workdir args with
          | Some why => inl why
          | None => inr (command, args)
          end
        else if path_looks_local_binary command then inr (command, args)
        else inl "go runtime must use go run <entry.go> or local built binary"
    end.

Definition cpp_command (command : string) (args : list string) : Choice :=
  if path_looks_local_binary command then inr (command, args)
  else inl "cpp runtime expects run.command to be local binary path".

Definition step_of (command : string) (args : list string) : PrepareStep :=
  {| ps_command := command; ps_args := args; ps_timeout_ms := 0 |}.

Definition resolution (runtime version command : string) (args : list string)
    (steps : list PrepareStep) (env : list (string * string)) : string + RuntimeResolution :=
  inr {| rt_runtime := runtime; rt_version := version; rt_run_command := command;
         rt_run_args := args; rt_injected_prepare_steps := steps;
         rt_env_overrides := list_to_map env |}.

(** [inl] carries the error; the version is never empty. *)
Definition select_runtime_adapter (manifest : json) (workdir : string) :
    exc (string + RuntimeResolution) :=
  runtime ← value_string manifest "runtime" "";
  let runtime := to_lower runtime in
  run ← value_json manifest "run" (JObject []);
  entry ← value_string manifest "entry" "";
  command ← value_string run "command" "";
  let command := normalize_local_binary_for_platform command in
  let args := match find run "args" with Some (JArray l) => string_elements l | _ => [] end in
  let with_choice (c : Choice)
        (f : string → list string → exc (string + RuntimeResolution)) :=
    match c with inl why => mret (inl why) | inr (command, args) => f command args end in
  if decide (runtime = "python") then
    with_choice (python_command workdir entry command args) (λ command args,
      version ← detect_runtime_version "python" ["--version"];
      mret (resolution runtime version command args []
              [("PYTHONUNBUFFERED", "1"); ("VELIX_RUNTIME", "python")]))
  else if decide (runtime = "node") then
    with_choice (node_command workdir entry command args) (λ command args,
      steps ← (if os_exists os (path_join workdir "package.json") && binary_exists "pnpm" then
                 has ← has_prepare_command manifest "pnpm";
                 mret (if has : bool then []
                       else [step_of "pnpm" ["install"; "--frozen-lockfile"]])
               else mret []);
      version ← detect_runtime_version "node" ["--version"];
      mret (resolution runtime version command args steps
              [("NODE_ENV", "production"); ("VELIX_RUNTIME", "node")]))
  else if decide (runtime = "rust") then
    with_choice (rust_command command args) (λ command args,
      version ← detect_runtime_version "cargo" ["--version"];
      mret (resolution runtime version command args []
              [("CARGO_TARGET_DIR", path_join workdir ".velix/cache/cargo-target");
               ("VELIX_RUNTIME", "rust")]))
  else if decide (runtime = "go") then
    with_choice (go_command workdir entry command args) (λ command args,
      version ← detect_runtime_version "go" ["version"];
      mret (resolution runtime version command args [] [("VELIX_RUNTIME", "go")]))
  else if decide (runtime = "cpp" ∨ runtime = "c++") then
    with_choice (cpp_command command args) (λ command args,
      steps ← (if os_exists os (path_join workdir "CMakeLists.txt") then
                 has ← has_prepare_command manifest "cmake";
                 mret (if has : bool then []
                       else [step_of "cmake" ["-S"; "."; "-B"; "build"];
                             step_of "cmake" ["--build"; "build"; "-j"]])
               else mret []);
      mret (resolution runtime "cpp-toolchain" command args steps [("VELIX_RUNTIME", "cpp")]))
  else mret (inl ("unsupported runtime: " +:+ runtime)).
End adapters.

(** ** The steps of the manifest *)

Fixpoint parse_args (i : nat) (args : list json) : string + list string :=
  match args with
  | [] => inr []
  | JString s :: args =>
      match parse_args i args with inl why => inl why | inr l => inr (s :: l) end
  | _ :: _ => inl ("prepare step arg must be string at index " +:+ pretty i)
  end.

Definition parse_step (default_timeout_ms : Z) (i : nat) (entry : json) :
    exc (string + PrepareStep) :=
  if negb (is_object entry) then
    mret (inl ("prepare step must be object at index " +:+ pretty i))
  else
    match find entry "command" with
    | Some (JString command) =>
        timeout ← value_int entry "timeout_ms" default_timeout_ms;
        match find entry "args" with
        | None => mret (inr {| ps_command := command; ps_args := []; ps_timeout_ms := timeout |})
        | Some (JArray args) =>
            mret match parse_args i args with
                 | inl why => inl why
                 | inr l => inr {| ps_command := command; ps_args := l; ps_timeout_ms := timeout |}
                 end
        | Some _ => mret (inl ("prepare step args must be array at index " +:+ pretty i))
        end
    | _ => mret (inl ("prepare step missing command at index " +:+ pretty i))
    end.

Fixpoint parse_steps (default_timeout_ms : Z) (i : nat) (entries : list json) :
    exc (string + list PrepareStep) :=
  match entries with
  | [] => mret (inr [])
  | entry :: entries =>
      r ← parse_step default_timeout_ms i entry;
      match r with
      | inl why => mret (inl why)
      | inr step =>
          rest ← parse_steps default_timeout_ms (S i) entries;
          mret match rest with inl why => inl why | inr steps => inr (step :: steps) end
      end
  end.

Definition parse_prepare_steps (manifest : json) (default_timeout_ms : Z) :
    exc (string + list PrepareStep) :=
  prepare ← value_json manifest "prepare" (JArray []);
  match prepare with
  | JArray entries => parse_steps default_timeout_ms 0 entries
  | _ => mret (inl "prepare must be an array")
  end.

(** ** Running them *)

Section run.
Context (os : OS).

(** The first step that fails ends it; the log file is not modelled. *)
Fixpoint execute_steps (i : nat) (steps : list PrepareStep) (env : Env) (workdir trace_id : string) :
    json :=
  match steps with
  | [] => JObject [("status", JString "ok")]
  | step :: steps =>
      let failed more :=
        JObject ([("status", JString "error"); ("trace_id", JString trace_id);
                  ("phase", JString "prepare"); ("step_index", JInt (i32 (Z.of_nat i)));
                  ("command", JString (ps_command step))] ++ more) in
      match os_run_with_timeout os (ps_command step) (ps_args step) env (ps_timeout_ms step)
              workdir with
      | inr res =>
          if success res then execute_steps (S i) steps env workdir trace_id
          else failed [("exit_code", JInt (exit_code res)); ("timed_out", JBool (timed_out res));
                       ("stdout", JString (stdout_content res));
                       ("stderr", JString (stderr_content res));
                       ("error", JString "prepare_step_failed")]
      | inl what => failed [("error", JString ("prepare_step_exception: " +:+ what))]
      end
  end.

Definition execute_prepare := execute_steps 0.

(** ** Launch *)

Definition launch (runtime : RuntimeResolution) (env : Env) (workdir trace_id : string) : json :=
  let failed why :=
    JObject [("status", JString "error"); ("trace_id", JString trace_id);
             ("phase", JString "run"); ("error", JString why)] in
  match os_spawn os (rt_run_command runtime) (rt_run_args runtime) env workdir with
  | inr (pid, why) =>
      if decide (pid ≤ 0) then failed ("spawn_failure: " +:+ why)
      else JObject [("status", JString "ok"); ("trace_id", JString trace_id);
                    ("os_pid", JInt pid)]
  | inl what => failed ("spawn_exception: " +:+ what)
  end.
End run.
