(* ===== verification/Executioner.v ===== *)
(** * The executioner (src/execution/executioner.cpp)

    The service that starts processes: it resolves a package and validates the request,
    prepares the package once for all the requests that need it, and launches it.  A request
    is served by a thread of its own: it runs up to the preparation, which one thread does
    while the others wait, and is answered.  The operating system and the file system are in
    a record, as the request finds them; the JSON texts are parameters. *)

From Stdlib Require Import Ascii.
From S2P Require Import Prelude Json StringUtils Config Sessions Storage Paths Sha256 Runtime.

(** ** Configuration *)

Record ContextToolLimits := { max_tool_output_chars : Z; max_file_read_bytes : Z }.

Record ExecutionerConfig := {
  socket_timeout_ms : Z;
  max_client_threads : Z;
  max_queue_size : Z;
  prepare_timeout_ms : Z;
  cache_lock_wait_ms : Z;
  run_timeout_ms : Z;
  cache_root : string;
}.

Definition ExecutionerConfig_init : ExecutionerConfig := {|
  socket_timeout_ms := 5000; max_client_threads := 128; max_queue_size := 1024;
  prepare_timeout_ms := 300000; cache_lock_wait_ms := 310000; run_timeout_ms := 0;
  cache_root := ".velix/build_cache" |}.

Section config.
Context (open_file : string → option string) (read_json : string → exc json).

Fixpoint first_open (paths : list string) : option string :=
  match paths with
  | [] => None
  | p :: paths => match open_file p with Some text => Some text | None => first_open paths end
  end.

(** Each assignment that is reached stays when a later one throws. *)
Definition read_limits (cfg : json) (limits : ContextToolLimits) : exc ContextToolLimits :=
  match value_int cfg "max_tool_output_chars" (max_tool_output_chars limits) with
  | Ok chars =>
      match value_int cfg "max_file_read_bytes" (max_file_read_bytes limits) with
      | Ok bytes => Ok {| max_tool_output_chars := chars; max_file_read_bytes := bytes |}
      | Throw _ => Ok {| max_tool_output_chars := chars;
                         max_file_read_bytes := max_file_read_bytes limits |}
      | UB => UB
      end
  | Throw _ => Ok limits
  | UB => UB
  end.

Definition load_context_tool_limits : exc ContextToolLimits :=
  let limits := {| max_tool_output_chars := 4000; max_file_read_bytes := 32768 |} in
  limits ← match first_open ["config/context.json"; "../config/context.json";
                             "build/config/context.json"] with
           | None => Ok limits
           | Some text =>
               match read_json text with
               | Ok cfg => read_limits cfg limits
               | Throw _ => Ok limits
               | UB => UB
               end
           end;
  mret {| max_tool_output_chars :=
            if decide (max_tool_output_chars limits ≤ 0) then 4000
            else max_tool_output_chars limits;
          max_file_read_bytes :=
            if decide (max_file_read_bytes limits ≤ 0) then 32768
            else max_file_read_bytes limits |}.

(** The assignments of [load_config], one after the other. *)
Definition config_assignments : list (json → ExecutionerConfig → exc ExecutionerConfig) := [
  (λ c cfg, v ← value_int c "socket_timeout_ms" (socket_timeout_ms cfg);
     mret {| socket_timeout_ms := v; max_client_threads := max_client_threads cfg;
             max_queue_size := max_queue_size cfg; prepare_timeout_ms := prepare_timeout_ms cfg;
             cache_lock_wait_ms := cache_lock_wait_ms cfg; run_timeout_ms := run_timeout_ms cfg;
             cache_root := cache_root cfg |});
  (λ c cfg, v ← value_int c "max_client_threads" (max_client_threads cfg);
     mret {| socket_timeout_ms := socket_timeout_ms cfg; max_client_threads := v;
             max_queue_size := max_queue_size cfg; prepare_timeout_ms := prepare_timeout_ms cfg;
             cache_lock_wait_ms := cache_lock_wait_ms cfg; run_timeout_ms := run_timeout_ms cfg;
             cache_root := cache_root cfg |});
  (λ c cfg, v ← value_int c "max_queue_size" (max_queue_size cfg);
     mret {| socket_timeout_ms := socket_timeout_ms cfg;
             max_client_threads := max_client_threads cfg; max_queue_size := v;
             prepare_timeout_ms := prepare_timeout_ms cfg;
             cache_lock_wait_ms := cache_lock_wait_ms cfg; run_timeout_ms := run_timeout_ms cfg;
             cache_root := cache_root cfg |});
  (λ c cfg, v ← value_int c "prepare_timeout_ms" (prepare_timeout_ms cfg);
     mret {| socket_timeout_ms := socket_timeout_ms cfg;
             max_client_threads := max_client_threads cfg; max_queue_size := max_queue_size cfg;
             prepare_timeout_ms := v; cache_lock_wait_ms := cache_lock_wait_ms cfg;
             run_timeout_ms := run_timeout_ms cfg; cache_root := cache_root cfg |});
  (λ c cfg, v ← value_int c "cache_lock_wait_ms" (cache_lock_wait_ms cfg);
     mret {| socket_timeout_ms := socket_timeout_ms cfg;
             max_client_threads := max_client_threads cfg; max_queue_size := max_queue_size cfg;
             prepare_timeout_ms := prepare_timeout_ms cfg; cache_lock_wait_ms := v;
             run_timeout_ms := run_timeout_ms cfg; cache_root := cache_root cfg |});
  (λ c cfg, v ← value_int c "run_timeout_ms" (run_timeout_ms cfg);
     mret {| socket_timeout_ms := socket_timeout_ms cfg;
             max_client_threads := max_client_threads cfg; max_queue_size := max_queue_size cfg;
             prepare_timeout_ms := prepare_timeout_ms cfg;
             cache_lock_wait_ms := cache_lock_wait_ms cfg; run_timeout_ms := v;
             cache_root := cache_root cfg |});
  (λ c cfg, v ← value_string c "cache_root" (cache_root cfg);
     mret {| socket_timeout_ms := socket_timeout_ms cfg;
             max_client_threads := max_client_threads cfg; max_queue_size := max_queue_size cfg;
             prepare_timeout_ms := prepare_timeout_ms cfg;
             cache_lock_wait_ms := cache_lock_wait_ms cfg; run_timeout_ms := run_timeout_ms cfg;
             cache_root := v |});
  (* the lock is waited for longer than a preparation takes *)
  (λ c cfg,
     if decide (cache_lock_wait_ms cfg ≤ prepare_timeout_ms cfg) then
       if decide (prepare_timeout_ms cfg + 10000 > INT_MAX) then UB
       else mret {| socket_timeout_ms := socket_timeout_ms cfg;
                    max_client_threads := max_client_threads cfg;
                    max_queue_size := max_queue_size cfg;
                    prepare_timeout_ms := prepare_timeout_ms cfg;
                    cache_lock_wait_ms := prepare_timeout_ms cfg + 10000;
                    run_timeout_ms := run_timeout_ms cfg; cache_root := cache_root cfg |}
     else mret cfg)].

(** The first that throws ends them. *)
Fixpoint assign_all (fs : list (json → ExecutionerConfig → exc ExecutionerConfig)) (c : json)
    (cfg : ExecutionerConfig) : exc ExecutionerConfig :=
  match fs with
  | [] => Ok cfg
  | f :: fs => match f c cfg with
               | Ok cfg => assign_all fs c cfg
               | Throw _ => Ok cfg
               | UB => UB
               end
  end.

Definition load_config : exc ExecutionerConfig :=
  match first_open ["config/executioner.json"; "../config/executioner.json";
                    "build/config/executioner.json"] with
  | None => Ok ExecutionerConfig_init
  | Some text =>
      match read_json text with
      | Ok c => assign_all config_assignments c ExecutionerConfig_init
      | Throw _ => Ok ExecutionerConfig_init
      | UB => UB
      end
  end.
End config.

(** ** Validation *)

(** The first rule that a manifest breaks. *)
Definition validate_manifest (name : string) (manifest : json) : option string :=
  match find manifest "name" with
  | Some (JString n) =>
      if decide (n ≠ name) then Some "manifest_name_mismatch"
      else
        match find manifest "runtime" with
        | Some (JString _) =>
            if match find manifest "prepare" with Some p => negb (is_array p) | None => false end
            then Some "manifest_prepare_must_be_array"
            else if match find manifest "workdir" with Some w => negb (is_string w) | None => false end
            then Some "manifest_workdir_must_be_string"
            else if match find manifest "entry" with Some e => negb (is_string e) | None => false end
            then Some "manifest_entry_must_be_string"
            else
              match find manifest "run" with
              | Some run =>
                  if negb (is_object run) then Some "manifest_run_must_be_object"
                  else if match find run "command" with Some c => negb (is_string c) | None => false end
                  then Some "manifest_run_command_must_be_string"
                  else if match find run "args" with Some a => negb (is_array a) | None => false end
                  then Some "manifest_run_args_must_be_array"
                  else None
              | None => if contains manifest "entry" then None
                        else Some "manifest_requires_run_or_entry"
              end
        | _ => Some "manifest_missing_runtime"
        end
  | _ => Some "manifest_missing_name"
  end.

(** What a range loop over a value goes through. *)
Definition elements_of (j : json) : list json :=
  match j with
  | JNull => []
  | JArray l => l
  | JObject kvs => kvs.*2
  | _ => [j]
  end.

(** The members of an object in the order of their keys. *)
Definition object_items (j : json) : list (string * json) :=
  match j with
  | JObject kvs =>
      omap (λ k, (λ v, (k, v)) <$> assoc k kvs) (order_by_text (remove_dups kvs.*1))
  | _ => []
  end.

Definition is_number (j : json) : bool := match j with JInt _ | JFloat _ => true | _ => false end.
Definition is_boolean (j : json) : bool := if j is JBool _ then true else false.

Definition has_type (t : string) (v : json) : bool :=
  if decide (t = "string") then is_string v
  else if decide (t = "number") then is_number v
  else if decide (t = "boolean") then is_boolean v
  else if decide (t = "array") then is_array v
  else if decide (t = "object") then is_object v
  else true.

Fixpoint missing_required (params : json) (required : list json) : option string :=
  match required with
  | [] => None
  | JString k :: required =>
      if contains params k then missing_required params required
      else Some ("missing_required_param: " +:+ k)
  | _ :: required => missing_required params required
  end.

Fixpoint check_types (params : json) (props : list (string * json)) : exc (option string) :=
  match props with
  | [] => mret None
  | (k, schema) :: props =>
      match find params k with
      | Some v =>
          if is_object schema then
            t ← value_string schema "type" "string";
            if has_type t v then check_types params props
            else mret (Some ("param_type_mismatch: " +:+ k +:+ " expected " +:+ t))
          else check_types params props
      | None => check_types params props
      end
  end.

(** Asking a member that is not of an object for its key throws. *)
Definition validate_params (params schema : json) : exc (option string) :=
  if negb (is_object schema) then mret None
  else
    props ← value_json schema "properties" schema;
    required ← value_json schema "required" (JArray []);
    match missing_required params (elements_of required) with
    | Some why => mret (Some why)
    | None =>
        if is_object props then check_types params (object_items props)
        else if decide (elements_of props = []) then mret None
        else Throw "[json.exception.invalid_iterator.207] cannot use key() for non-object iterators"
    end.

(** ** The state of the service *)

Record CachedPackage := { pk_path : string; pk_manifest : json; pk_cache_key : string }.

(** [PrepareSlot::State], with the error of a failure. *)
Inductive Slot := Preparing | Ready | Failed (error : string).

(** The cached packages, the slots by number with those under way by cache key, and the status
    files of the build cache by cache key. *)
Record Service := {
  pkg_cache : gmap string CachedPackage;
  slot_map : gmap string nat;
  slots : gmap nat Slot;
  next_slot : nat;
  status_files : gmap string string;
}.

Definition with_packages (f : gmap string CachedPackage → gmap string CachedPackage) (s : Service) :=
  {| pkg_cache := f (pkg_cache s); slot_map := slot_map s; slots := slots s;
     next_slot := next_slot s; status_files := status_files s |}.
Definition with_status (f : gmap string string → gmap string string) (s : Service) :=
  {| pkg_cache := pkg_cache s; slot_map := slot_map s; slots := slots s;
     next_slot := next_slot s; status_files := f (status_files s) |}.

(** [PrepareCoalescer::enter], [finish] and [fail]. *)
Definition enter (key : string) (s : Service) : (nat * bool) * Service :=
  match slot_map s !! key with
  | Some slot => ((slot, false), s)
  | None =>
      ((next_slot s, true),
       {| pkg_cache := pkg_cache s; slot_map := <[key := next_slot s]> (slot_map s);
          slots := <[next_slot s := Preparing]> (slots s); next_slot := Datatypes.S (next_slot s);
          status_files := status_files s |})
  end.

Definition settle (key : string) (slot : nat) (outcome : Slot) (s : Service) : Service :=
  {| pkg_cache := pkg_cache s; slot_map := delete key (slot_map s);
     slots := <[slot := outcome]> (slots s); next_slot := next_slot s;
     status_files := status_files s |}.

Definition finish (key : string) (slot : nat) : Service → Service := settle key slot Ready.
Definition fail (key : string) (slot : nat) (error : string) : Service → Service :=
  settle key slot (Failed error).

(** What a request finds: the system, the files of the packages, the clock of the cache, the
    ports and settings as [get_port] and [get_config] answer them, and the environment. *)
Record World := {
  w_os : OS;
  w_manifest : string → option string;
  w_package_files : string → list (list string * string);
  w_cache_ages : list (string * option Z);
  w_port : string → Z → Z;
  w_config : string → Z → Z;
  w_limits : ContextToolLimits;
  w_cwd : string;
  w_absolute : string → string;
  w_pythonpath : option string;
}.

(** [std::map]'s order on paths: name by name. *)
Fixpoint path_lt (a b : list string) : bool :=
  match a, b with
  | _, [] => false
  | [], _ :: _ => true
  | x :: a, y :: b => if decide (x = y) then path_lt a b else text_lt x y
  end.

Section service.
Context (config_ : ExecutionerConfig).
Context (parse : string → exc json) (dump : json → exc string).

Abbreviation M := (ST Service).

(** The pieces that are fed to the hash. *)
Definition cache_key_pieces (manifest_text : string) (rt : RuntimeResolution) (pkg_path : string)
    (files : list (list string * string)) : list string :=
  let kept := filter (λ f, ".velix" ∉ components pkg_path ++ f.1) files in
  [manifest_text; String newline_char ""; rt_runtime rt; String newline_char ""; rt_version rt;
   String newline_char ""] ++
  mjoin ((λ f, [join f.1 "/"; String newline_char ""; f.2; String newline_char ""]) <$>
    insertion_sort (λ f g, path_lt f.1 g.1) kept).

Definition compute_cache_key (w : World) (manifest : json) (rt : RuntimeResolution)
    (pkg_path : string) : exc string :=
  text ← dump manifest;
  mret (finalise (foldl update Ctx_init
    (bytes_of <$> cache_key_pieces text rt pkg_path (w_package_files w pkg_path)))).

(** [None] where the package is not found or is not valid. *)
Definition resolve_package (w : World) (name : string) (force_refresh : bool) :
    M (option CachedPackage) :=
  cached ← gets (λ s, pkg_cache s !! name);
  if decide (name = "") then mret None
  else
    match (if force_refresh then None else cached) with
    | Some pkg => mret (Some pkg)
    | None =>
        match first_open (λ p, w_manifest w p ≫= λ text, Some p)
                ["tools/" +:+ name; "agents/" +:+ name] with
        | None => mret None
        | Some pkg_path =>
            match parse (default "" (w_manifest w pkg_path)) with
            | UB => lift UB
            | Throw _ => mret None
            | Ok manifest =>
                match validate_manifest name manifest with
                | Some _ => mret None
                | None =>
                    r ← lift (select_runtime_adapter (w_os w) manifest pkg_path);
                    match r with
                    | inl _ => mret None
                    | inr runtime =>
                        key ← lift (compute_cache_key w manifest runtime pkg_path);
                        let pkg := {| pk_path := pkg_path; pk_manifest := manifest;
                                      pk_cache_key := key |} in
                        modify (with_packages <[name := pkg]>);;
                        mret (Some pkg)
                    end
                end
            end
        end
    end.

(** ** The environment of the process *)

Definition prefix_keys (prefix : string) (kvs : list (string * Z)) : list (string * string) :=
  (λ kv, (prefix +:+ kv.1, pretty kv.2)) <$> kvs.

Definition sdk_settings : list (string * Z) := [
  ("SDK_RETRY_LIMIT", 3); ("SDK_RETRY_DELAY_MS", 500); ("SDK_EXEC_TIMEOUT_MS", 120000);
  ("SDK_EXEC_RETRY_LIMIT", 3); ("SDK_EXEC_RETRY_DELAY_MS", 300); ("SDK_LLM_TIMEOUT_MS", 305000);
  ("SDK_STREAM_POLL_TIMEOUT_MS", 30000); ("SDK_STREAM_MAX_CHUNKS", 100000);
  ("SDK_MAX_ITERATIONS", 100); ("SDK_BUS_WAIT_MIN", 60); ("SDK_HEARTBEAT_SEC", 5)].

Definition service_ports (w : World) : list (string * Z) := [
  ("SUPERVISOR", w_port w "SUPERVISOR" 5173); ("BUS", w_port w "BUS" 5174);
  ("SCHEDULER", w_port w "SCHEDULER" 5171);
  ("LLM_SCHEDULER", w_port w "LLM_SCHEDULER" (w_port w "SCHEDULER" 5171));
  ("EXECUTIONER", w_port w "EXECUTIONER" 5172)].

Definition python_path (w : World) (pkg_path : string) : string :=
  let cand := parent_path (parent_path pkg_path) in
  let root := if decide (cand = "") then w_cwd w else w_absolute w cand in
  match w_pythonpath w with
  | Some p => if decide (p = "") then root else root +:+ ":" +:+ p
  | None => root
  end.

(** The runtime's variables replace the others; an earlier one stays otherwise. *)
Definition process_environment (w : World) (req : json) (intent trace_id pkg_name : string)
    (params : json) (src_pid : Z) (pkg_path : string) (runtime : RuntimeResolution) : exc Env :=
  tree_id ← value_string req "tree_id" "";
  params_text ← dump params;
  user_id ← value_string req "user_id" "";
  let env : Env := list_to_map [
    ("VELIX_PARENT_PID", pretty src_pid); ("VELIX_BUS_PORT", pretty (w_port w "BUS" 5174));
    ("VELIX_INTENT", intent); ("VELIX_TRACE_ID", trace_id); ("VELIX_PROCESS_NAME", pkg_name);
    ("VELIX_TREE_ID", if decide (intent = "JOIN_PARENT_TREE") then tree_id else "");
    ("VELIX_PARAMS", params_text); ("VELIX_USER_ID", user_id);
    ("PYTHONPATH", python_path w pkg_path)] in
  let added : Env := list_to_map (
    prefix_keys "VELIX_PORT_" (service_ports w) ++
    prefix_keys "VELIX_" ((λ kv, (kv.1, w_config w kv.1 kv.2)) <$> sdk_settings) ++
    [("VELIX_MAX_TOOL_OUTPUT_CHARS", pretty (max_tool_output_chars (w_limits w)));
     ("VELIX_MAX_FILE_READ_BYTES", pretty (max_file_read_bytes (w_limits w)))]) in
  mret (rt_env_overrides runtime ∪ (env ∪ added)).

(** ** The build cache *)

Definition reply (fields : list (string * json)) : json := JObject fields.

Definition error_reply (trace_id why : string) : json :=
  reply [("status", JString "error"); ("trace_id", JString trace_id); ("error", JString why)].

Definition phase_error (trace_id phase why : string) : json :=
  reply [("status", JString "error"); ("trace_id", JString trace_id);
         ("phase", JString phase); ("error", JString why)].

(** [remove_all] is taken to succeed. *)
Definition handle_cache_clean (trace_id : string) : M json :=
  modify (with_status (λ _, ∅));;
  mret (reply [("status", JString "ok"); ("trace_id", JString trace_id);
               ("phase", JString "cache"); ("action", JString "clean")]).

(** An age in nanoseconds; a directory whose age is not known is left. *)
Definition older_than (older_sec : Z) (entry : string * option Z) : bool :=
  match entry.2 with Some age => bool_decide (age > older_sec * 1000000000) | None => false end.

Definition handle_cache_prune (w : World) (req : json) (trace_id : string) : M json :=
  older_sec ← lift (value_int req "older_than_sec" (7 * 24 * 3600));
  let removed := (filter (λ e, older_than older_sec e = true) (w_cache_ages w)).*1 in
  modify (with_status (λ m, foldr delete m removed));;
  mret (reply [("status", JString "ok"); ("trace_id", JString trace_id);
               ("phase", JString "cache"); ("action", JString "prune");
               ("removed", JInt (i32 (Z.of_nat (length removed))))]).

(** ** A request up to the preparation *)

(** A validated request, with what it is launched with. *)
Record Job := {
  jb_name : string;
  jb_key : string;
  jb_force : bool;
  jb_steps : list PrepareStep;
  jb_env : Env;
  jb_workdir : string;
  jb_trace : string;
  jb_runtime : RuntimeResolution;
}.

(** The checks of the intent, in order. *)
Definition intent_error (intent : string) (is_handler : bool) (src_pid : Z) : option string :=
  if decide (intent ≠ "JOIN_PARENT_TREE" ∧ intent ≠ "NEW_TREE") then Some "invalid_intent"
  else if decide (intent = "JOIN_PARENT_TREE" ∧ src_pid ≤ 0)
  then Some "invalid_source_pid_for_join_parent_tree"
  else if bool_decide (intent = "NEW_TREE") && negb is_handler
  then Some "intent_override_new_tree_allowed_only_for_handler"
  else if decide (src_pid ≤ 0) then Some "invalid_source_pid"
  else None.

(** From the package to the environment and the cache key. *)
Definition prepare_job (w : World) (req params : json) (intent trace_id pkg_name : string)
    (src_pid : Z) (force : bool) (pkg : CachedPackage) : M (json + Job) :=
  schema ← lift (value_json (pk_manifest pkg) "parameters" (JObject []));
  perr ← lift (validate_params params schema);
  match perr with
  | Some why => mret (inl (error_reply trace_id ("params_validation_failed: " +:+ why)))
  | None =>
      rel_wd ← lift (value_string (pk_manifest pkg) "workdir" ".");
      let workdir := lexically_normal (path_join (pk_path pkg) rel_wd) in
      if negb (os_is_directory (w_os w) workdir) then
        mret (inl (phase_error trace_id "prepare" ("workdir_not_found: " +:+ workdir)))
      else
        r ← lift (select_runtime_adapter (w_os w) (pk_manifest pkg) workdir);
        match r with
        | inl why => mret (inl (phase_error trace_id "adapter" why))
        | inr runtime =>
            steps ← lift (parse_prepare_steps (pk_manifest pkg) (prepare_timeout_ms config_));
            match steps with
            | inl why => mret (inl (phase_error trace_id "prepare" why))
            | inr steps =>
                env ← lift (process_environment w req intent trace_id pkg_name params src_pid
                              (pk_path pkg) runtime);
                mret (inr {| jb_name := pkg_name; jb_key := pk_cache_key pkg; jb_force := force;
                             jb_steps := rt_injected_prepare_steps runtime ++ steps;
                             jb_env := env; jb_workdir := workdir; jb_trace := trace_id;
                             jb_runtime := runtime |})
            end
        end
  end.

Definition begin_request (w : World) (req : json) : M (json + Job) :=
  msg_type ← lift (value_string req "message_type" "");
  trace_id ← lift (value_string req "trace_id" "");
  if decide (msg_type = "EXEC_CACHE_CLEAN") then r ← handle_cache_clean trace_id; mret (inl r)
  else if decide (msg_type = "EXEC_CACHE_PRUNE") then
    r ← handle_cache_prune w req trace_id; mret (inl r)
  else if decide (msg_type ≠ "EXEC_VELIX_PROCESS") then
    mret (inl (error_reply trace_id "unsupported_message_type"))
  else
    intent ← lift (value_string req "intent" "JOIN_PARENT_TREE");
    is_handler ← lift (value_bool req "is_handler" false);
    force_ref ← lift (value_bool req "force_refresh" false);
    src_pid ← lift (value_int req "source_pid" (-1));
    match intent_error intent is_handler src_pid with
    | Some why => mret (inl (error_reply trace_id why))
    | None =>
        pkg_name ← lift (value_string req "name" "");
        if decide (pkg_name = "") then mret (inl (error_reply trace_id "empty_package_name"))
        else
          params ← lift (value_json req "params" (JObject []));
          pkg ← resolve_package w pkg_name force_ref;
          match pkg with
          | None => mret (inl (error_reply trace_id
                                 ("package_not_found_or_invalid: " +:+ pkg_name)))
          | Some pkg => prepare_job w req params intent trace_id pkg_name src_pid force_ref pkg
          end
    end.

(** ** The preparation

    [locks] is what taking the file lock for the n-th time answers, and [openable] whether the
    status file can be opened then. *)

(** What a leader's part ends in: an answer, the launch, or the preparation to run. *)
Inductive Led := Answered (response : json) | Proceed | MustPrepare.

Section leader.
Context (locks : nat → string + ()) (openable : nat → bool).

Definition take_lock (n : nat) : M () :=
  lift match locks n with inl what => Throw what | inr tt => Ok tt end.

(** The file is emptied when it is opened, and stays as it was when it cannot be. *)
Definition write_status (n : nat) (key : string) (content : json) : M () :=
  take_lock n;;
  if openable n then
    modify (with_status <[key := ""]>);;
    text ← lift (dump content);
    modify (with_status <[key := text]>)
  else lift (_ ← dump content; mret tt).

(** Whether the status file says that the package is ready; one that does not is removed. *)
Definition read_status (key : string) : M bool :=
  take_lock 0;;
  found ← gets (λ s, status_files s !! key);
  match found with
  | None => mret false
  | Some text =>
      st_catch
        (status ← lift (st ← parse text; value_string st "status" "");
         if decide (status = "ready") then mret true
         else modify (with_status (delete key));; mret false)
        (λ _, modify (with_status (delete key));; mret false)
  end.

(** [fail] and the answer. *)
Definition fail_with (job : Job) (slot : nat) (reason answer : string) : M Led :=
  modify (fail (jb_key job) slot reason);;
  mret (Answered (phase_error (jb_trace job) "prepare" answer)).

Definition prepare_cache_failed (job : Job) (slot : nat) (what : string) : M Led :=
  fail_with job slot what ("prepare_cache_failed: " +:+ what).

Definition mark_preparing (job : Job) (slot : nat) : M Led :=
  st_catch (write_status 1 (jb_key job) (JObject [("status", JString "preparing")]);;
            mret MustPrepare)
    (λ what, fail_with job slot ("status_write_failed: " +:+ what)
               ("status_write_failed: " +:+ what)).

(** The leader up to the preparation: the status is read, and "preparing" written unless the
    package is ready. *)
Definition check_cache (job : Job) (slot : nat) : M Led :=
  st_catch
    (ready ← (if jb_force job then modify (with_status (delete (jb_key job)));; mret (inr false)
              else st_catch (ready ← read_status (jb_key job); mret (inr ready))
                     (λ what, r ← fail_with job slot ("status_lock_failed: " +:+ what)
                                    ("status_lock_failed: " +:+ what);
                              mret (inl r)));
     match ready with
     | inl r => mret r
     | inr true => modify (finish (jb_key job) slot);; mret Proceed
     | inr false => mark_preparing job slot
     end)
    (prepare_cache_failed job slot).

Definition fail_reason (prep : json) : exc string :=
  reason ← value_string prep "error" "prepare_failed";
  command ← (if contains prep "command" then
               c ← value_string prep "command" ""; mret (" command=" +:+ c)
             else mret "");
  code ← (if contains prep "exit_code" then
            c ← value_int prep "exit_code" (-1); mret (" exit_code=" +:+ pretty c)
          else mret "");
  timed ← value_bool prep "timed_out" false;
  mret (reason +:+ command +:+ code +:+ if timed : bool then " timed_out=true" else "").

Definition prepare_log (job : Job) : string :=
  path_join (path_join (path_join (cache_root config_) (jb_key job)) "logs") "prepare.log".

(** The leader from the preparation on, whose outcome [prep] is. *)
Definition prepare_package (job : Job) (slot : nat) (prep : json) : M Led :=
  st_catch
    (status ← lift (value_string prep "status" "error");
     if decide (status ≠ "ok") then
       reason ← lift (fail_reason prep);
       st_catch (write_status 2 (jb_key job)
                   (JObject [("status", JString "failed"); ("error", JString reason);
                             ("log_file", JString (prepare_log job))]))
         (λ _, mret tt);;
       modify (fail (jb_key job) slot reason);;
       mret (Answered prep)
     else
       st_catch (write_status 2 (jb_key job) (JObject [("status", JString "ready")]))
         (λ _, mret tt);;
       modify (finish (jb_key job) slot);;
       mret Proceed)
    (prepare_cache_failed job slot).

(** The two, when nothing comes between. *)
Definition lead (os : OS) (job : Job) (slot : nat) : M Led :=
  r ← check_cache job slot;
  match r with
  | MustPrepare =>
      prepare_package job slot
        (execute_prepare os (jb_steps job) (jb_env job) (jb_workdir job) (jb_trace job))
  | r => mret r
  end.
End leader.

(** [PrepareCoalescer::wait] once the slot is settled, or at its deadline. *)
Definition wait (slot : option Slot) : string + () :=
  match slot with
  | Some Ready => inr ()
  | Some (Failed why) => inl why
  | _ => inl "prepare_peer_timeout"
  end.

Definition follow (job : Job) (slot : option Slot) : Led :=
  match wait slot with
  | inr _ => Proceed
  | inl why => Answered (phase_error (jb_trace job) "prepare" ("prepare_failed_by_peer: " +:+ why))
  end.

Definition launch_job (os : OS) (job : Job) : json :=
  launch os (jb_runtime job) (jb_env job) (jb_workdir job) (jb_trace job).

(** [handle_exec_request] when no other request is served. *)
Definition handle_exec_request (locks : nat → string + ()) (openable : nat → bool) (w : World)
    (req : json) : M json :=
  r ← begin_request w req;
  match r with
  | inl response => mret response
  | inr job =>
      entered ← (λ s, let '(e, s) := enter (jb_key job) s in (Ok e, s));
      led ← (if entered.2 : bool then lead locks openable (w_os w) job entered.1
             else gets (λ s, follow job (slots s !! entered.1)));
      mret match led with
           | Answered response => response
           | _ => launch_job (w_os w) job
           end
  end.

(** What is sent: nothing for [null], and nothing when the answer cannot be dumped. *)
Definition client_exception (what : string) : json :=
  JObject [("status", JString "error");
           ("error", JString ("executioner_client_exception: " +:+ what))].

Definition send_reply (response : json) : exc (option string) :=
  match dump response with
  | Ok text => Ok (Some text)
  | Throw _ => Ok None
  | UB => UB
  end.

Definition handle_client (locks : nat → string + ()) (openable : nat → bool) (w : World)
    (text : exc string) : M (option string) :=
  response ← st_catch
    (req ← lift (t ← text; parse t);
     if is_null req then mret None
     else r ← handle_exec_request locks openable w req; mret (Some r))
    (λ what, mret (Some (client_exception what)));
  match response with
  | None => mret None
  | Some response => lift (send_reply response)
  end.

(** ** Requests served together

    A thread has validated its request, leads the preparation of its package (before and
    during it), waits for another, may launch, or has its answer.  A step happens in a world
    of its own, so the system may change between any two. *)

Inductive Thread :=
  | Validated (job : Job)
  | Checking (job : Job) (slot : nat)
  | Building (job : Job) (slot : nat)
  | Waiting (job : Job) (slot : nat)
  | Launching (job : Job)
  | Done (response : json).

Record Fleet := { service_ : Service; threads : gmap nat Thread }.

Definition set_thread (t : nat) (th : Thread) (s : Service) (f : Fleet) : Fleet :=
  {| service_ := s; threads := <[t := th]> (threads f) |}.

(** What is seen of a step: a package was found ready or was prepared, or a job was launched. *)
Inductive Event :=
  | FoundReady (job : Job)
  | Prepared (job : Job) (os : OS)
  | Launched (job : Job).

(** The thread after its part as leader. *)
Definition after_lead (job : Job) (slot : nat) (r : Led) : Thread :=
  match r with
  | Answered response => Done response
  | Proceed => Launching job
  | MustPrepare => Building job slot
  end.

Definition seen (e : Event) (r : Led) : list Event :=
  match r with Proceed => [e] | _ => [] end.

Inductive step : Fleet → list Event → Fleet → Prop :=
  | step_answer f t w req s r :
      threads f !! t = None →
      begin_request w req (service_ f) = (Ok (inl r), s) →
      step f [] (set_thread t (Done r) s f)
  | step_validate f t w req s job :
      threads f !! t = None →
      begin_request w req (service_ f) = (Ok (inr job), s) →
      step f [] (set_thread t (Validated job) s f)
  | step_exception f t w req s what :
      threads f !! t = None →
      begin_request w req (service_ f) = (Throw what, s) →
      step f [] (set_thread t (Done (client_exception what)) s f)
  | step_enter f t job slot (leads : bool) s :
      threads f !! t = Some (Validated job) →
      enter (jb_key job) (service_ f) = ((slot, leads), s) →
      step f [] (set_thread t (if leads then Checking job slot else Waiting job slot) s f)
  | step_check f t job slot locks openable r s :
      threads f !! t = Some (Checking job slot) →
      check_cache locks openable job slot (service_ f) = (Ok r, s) →
      step f (seen (FoundReady job) r) (set_thread t (after_lead job slot r) s f)
  | step_build f t job slot locks openable os r s :
      threads f !! t = Some (Building job slot) →
      prepare_package locks openable job slot
        (execute_prepare os (jb_steps job) (jb_env job) (jb_workdir job) (jb_trace job))
        (service_ f) = (Ok r, s) →
      step f (seen (Prepared job os) r) (set_thread t (after_lead job slot r) s f)
  | step_wake f t job slot st :
      threads f !! t = Some (Waiting job slot) →
      slots (service_ f) !! slot = Some st → st ≠ Preparing →
      step f [] (set_thread t (after_lead job slot (follow job (Some st))) (service_ f) f)
  | step_timeout f t job slot :
      threads f !! t = Some (Waiting job slot) →
      slots (service_ f) !! slot = Some Preparing →
      step f [] (set_thread t (after_lead job slot (follow job (Some Preparing))) (service_ f) f)
  | step_launch f t job os :
      threads f !! t = Some (Launching job) →
      step f [Launched job] (set_thread t (Done (launch_job os job)) (service_ f) f).

Definition Service_init (status : gmap string string) : Service :=
  {| pkg_cache := ∅; slot_map := ∅; slots := ∅; next_slot := 0; status_files := status |}.

Definition Fleet_init (status : gmap string string) : Fleet :=
  {| service_ := Service_init status; threads := ∅ |}.

Inductive steps (f0 : Fleet) : list Event → Fleet → Prop :=
  | steps_start : steps f0 [] f0
  | steps_more es f es' f' : steps f0 es f → step f es' f' → steps f0 (es ++ es') f'.
End service.
