(* ===== verification/Preparation.v ===== *)
(** * The preparation of packages (theorems about src/execution/executioner.cpp)

    One thread prepares a package for all the requests that need it: what a leader's part ends
    in, the invariant of the requests served together, that a process is launched only after
    its package was prepared, and that every waiting request can go on. *)

From Stdlib Require Import Ascii.
From S2P Require Import Prelude Json StringUtils Config Sessions Storage Paths Sha256 Runtime.
From S2P Require Import Executioner.

(** ** The steps of a preparation *)

Definition step_succeeds (os : OS) (env : Env) (workdir : string) (step : PrepareStep) : Prop :=
  ∃ res, os_run_with_timeout os (ps_command step) (ps_args step) env (ps_timeout_ms step) workdir
         = inr res ∧ success res = true.

(** A preparation is good when every step of it succeeded; a failure gives a reason. *)
Lemma execute_prepare_outcome os steps env workdir trace_id :
  let prep := execute_prepare os steps env workdir trace_id in
  (prep = JObject [("status", JString "ok")] ∧ Forall (step_succeeds os env workdir) steps) ∨
  (value_string prep "status" "error" = Ok "error" ∧ ∃ why, fail_reason prep = Ok why).
Proof.
  unfold execute_prepare. generalize 0%nat. induction steps as [|st steps IH]; intros i; simpl.
  - left. split; [done|constructor].
  - destruct (os_run_with_timeout _ _ _ _ _ _) as [what|res] eqn:Hrun.
    + right. split; [done|]. eexists. reflexivity.
    + destruct (success res) eqn:Hok.
      * destruct (IH (Datatypes.S i)) as [[Hp Hall]|Hp]; [left|by right].
        split; [done|]. constructor; [|done]. by exists res.
      * right. split; [done|]. eexists. cbn. reflexivity.
Qed.

Definition set_status (key : string) (o : option string) : Service → Service :=
  with_status (partial_alter (λ _, o) key).

Lemma set_status_same key s : set_status key (status_files s !! key) s = s.
Proof.
  destruct s as [a b c d m]. unfold set_status, with_status; simpl. f_equal.
  by apply partial_alter_self.
Qed.

Lemma set_status_twice key o o' s : set_status key o' (set_status key o s) = set_status key o' s.
Proof.
  unfold set_status, with_status; simpl. f_equal. by rewrite partial_alter_partial_alter_eq.
Qed.

Section preparation.
Context (config_ : ExecutionerConfig).
Context (parse : string → exc json) (dump : json → exc string).

(** The JSON library throws or answers, and a text that was dumped is read back with its
    status. *)
Hypothesis parse_defined : ∀ text, parse text ≠ UB.
Hypothesis dump_defined : ∀ j, dump j ≠ UB.
Hypothesis parse_empty : ∃ what, parse "" = Throw what.
Hypothesis parse_status : ∀ j text, dump j = Ok text →
  ∃ j', parse text = Ok j' ∧ value_string j' "status" "" = value_string j "status" "".

(** A status file that says "ready". *)
Definition ready (o : option string) : Prop :=
  ∃ text st, o = Some text ∧ parse text = Ok st ∧ value_string st "status" "" = Ok "ready".

Lemma empty_not_ready : ¬ ready (Some "").
Proof. destruct parse_empty. intros (? & ? & [= <-] & ? & ?). congruence. Qed.

Lemma dumped_not_ready j text :
  dump j = Ok text → value_string j "status" "" ≠ Ok "ready" → ¬ ready (Some text).
Proof.
  intros Hd Hj (? & st & [= <-] & Hp & Hst). destruct (parse_status _ _ Hd) as (j' & ? & ?).
  simplify_eq. congruence.
Qed.

Lemma read_status_outcome locks key s r s' :
  read_status parse locks key s = (r, s') →
  (r = Ok true ∧ s' = s ∧ ready (status_files s !! key)) ∨
  (r = Ok false ∧ s' = set_status key None s) ∨ (∃ what, r = Throw what ∧ s' = s).
Proof.
  unfold read_status, take_lock, mbind, ST_bind, lift, gets, st_catch, modify, mret, ST_ret.
  destruct (locks 0%nat) as [what|[]]; simpl; [intros [= <- <-]; naive_solver|].
  destruct (status_files s !! key) as [text|] eqn:Hs.
  - pose proof (parse_defined text) as Hp.
    destruct (parse text) as [st|w|] eqn:Hst; simpl; [|intros [= <- <-]; auto|done].
    pose proof (value_string_defined st "status" "") as Hv.
    destruct (value_string st "status" "") as [v|w|] eqn:Hval; simpl;
      [|intros [= <- <-]; auto|done].
    destruct (decide _) as [->|]; intros [= <- <-]; [|auto].
    left. repeat split. exists text, st. auto.
  - intros [= <- <-]. right; left. split; [done|]. by rewrite <-Hs, set_status_same.
Qed.

(** What is left in the file is what was there, nothing, or the text. *)
Lemma write_status_outcome locks openable n key c s r s' :
  write_status dump locks openable n key c s = (r, s') →
  (r = Ok () ∨ ∃ what, r = Throw what) ∧ ∃ o, s' = set_status key o s ∧
  (o = status_files s !! key ∨ o = Some "" ∨ ∃ text, dump c = Ok text ∧ o = Some text).
Proof.
  unfold write_status, take_lock, mbind, ST_bind, lift, modify, mret, ST_ret, exc_ret.
  assert (∀ e, (e = Ok () ∨ ∃ w, e = Throw w) → (e, s) = (r, s') →
    (r = Ok () ∨ ∃ what, r = Throw what) ∧ ∃ o, s' = set_status key o s ∧
    (o = status_files s !! key ∨ o = Some "" ∨ ∃ text, dump c = Ok text ∧ o = Some text)) as Hsame.
  { intros e He [= <- <-]. split; [done|]. eexists. rewrite set_status_same. auto. }
  destruct (locks n) as [what|[]]; simpl; [apply Hsame; eauto|].
  pose proof (dump_defined c) as Hd. destruct (openable n).
  - destruct (dump c) as [text|w|] eqn:Htext; simpl; intros [= <- <-]; [| |done].
    + split; [by left|]. exists (Some text).
      split; [exact (set_status_twice key (Some "") (Some text) s)|eauto].
    + split; [eauto|]. exists (Some ""). auto.
  - destruct (dump c) as [text|w|] eqn:Htext; simpl; [| |done]; apply Hsame; eauto.
Qed.

(** ** What a leader's part ends in *)

Lemma mark_preparing_outcome locks openable job slot o s :
  ¬ ready o →
  ∃ r s', mark_preparing dump locks openable job slot (set_status (jb_key job) o s) = (Ok r, s') ∧
  match r with
  | MustPrepare => ∃ o, s' = set_status (jb_key job) o s ∧ ¬ ready o
  | Answered _ => ∃ o why, s' = fail (jb_key job) slot why (set_status (jb_key job) o s) ∧ ¬ ready o
  | Proceed => False
  end.
Proof.
  intros Ho. unfold mark_preparing, st_catch, mbind, ST_bind.
  destruct (write_status _ _ _ _ _ _ _) as [r s'] eqn:Hw.
  apply write_status_outcome in Hw as [Hr (o' & -> & Ho')].
  rewrite set_status_twice.
  assert (¬ ready o') as Hn.
  { destruct Ho' as [->|[->|(text & Ht & ->)]].
    - unfold set_status, with_status; simpl. by rewrite lookup_partial_alter_eq.
    - by apply empty_not_ready.
    - by eapply dumped_not_ready. }
  destruct Hr as [->|[what ->]]; eexists _, _; (split; [reflexivity|]); simpl; eauto.
Qed.

(** The part always ends, and it has settled the slot unless the preparation is to be run. *)
Lemma check_cache_outcome locks openable job slot s :
  ∃ r s', check_cache parse dump locks openable job slot s = (Ok r, s') ∧
  let key := jb_key job in
  match r with
  | Proceed => s' = finish key slot s ∧ ready (status_files s !! key)
  | MustPrepare => ∃ o, s' = set_status key o s ∧ ¬ ready o
  | Answered _ => ∃ o why, s' = fail key slot why (set_status key o s) ∧
      (o = status_files s !! key ∨ ¬ ready o)
  end.
Proof.
  destruct (mark_preparing_outcome locks openable job slot None s)
    as (r & s' & Heq & Hr); [by intros (? & ? & ? & _)|].
  unfold check_cache, st_catch at 1, mbind at 1, ST_bind at 1. destruct (jb_force job).
  - cbv [mbind ST_bind modify mret ST_ret]; simpl.
    change (with_status (delete (jb_key job)) s) with (set_status (jb_key job) None s).
    rewrite Heq. eexists _, _. split; [done|]. destruct r; naive_solver.
  - unfold st_catch at 1, mbind at 1, ST_bind at 1.
    destruct (read_status _ _ _ _) as [r0 s0] eqn:Hread.
    apply read_status_outcome in Hread as [(-> & -> & Hready)|[(-> & ->)|(what & -> & ->)]]; simpl.
    + eexists _, _. split; [reflexivity|]. simpl. auto.
    + rewrite Heq. eexists _, _. split; [done|]. destruct r; naive_solver.
    + eexists _, _. split; [reflexivity|]. simpl.
      eexists (status_files s !! jb_key job), _. rewrite set_status_same. auto.
Qed.

Definition prepared_by (os : OS) (job : Job) : json :=
  execute_prepare os (jb_steps job) (jb_env job) (jb_workdir job) (jb_trace job).

Lemma prepare_package_outcome locks openable os job slot s :
  ∃ r s', prepare_package config_ dump locks openable job slot (prepared_by os job) s
          = (Ok r, s') ∧
  let key := jb_key job in
  match r with
  | Proceed => ∃ o, s' = finish key slot (set_status key o s) ∧
      Forall (step_succeeds os (jb_env job) (jb_workdir job)) (jb_steps job)
  | MustPrepare => False
  | Answered _ => ∃ o why, s' = fail key slot why (set_status key o s) ∧
      (o = status_files s !! key ∨ ¬ ready o)
  end.
Proof.
  unfold prepare_package. unfold st_catch at 1, mbind at 1, ST_bind at 1.
  destruct (execute_prepare_outcome os (jb_steps job) (jb_env job) (jb_workdir job) (jb_trace job))
    as [[Hp Hall]|[Hp [why Hwhy]]]; unfold prepared_by.
  - rewrite Hp. simpl. unfold mbind, ST_bind, st_catch.
    destruct (write_status _ _ _ _ _ _ _) as [r s'] eqn:Hw.
    apply write_status_outcome in Hw as [Hr (o' & -> & _)].
    destruct Hr as [->|[what ->]]; simpl; eexists _, _; (split; [reflexivity|]); simpl; eauto.
  - rewrite Hp. simpl. unfold mbind, ST_bind, lift. rewrite Hwhy. unfold st_catch.
    destruct (write_status _ _ _ _ _ _ _) as [r s'] eqn:Hw.
    apply write_status_outcome in Hw as [Hr (o' & -> & Ho')].
    assert (o' = status_files s !! jb_key job ∨ ¬ ready o') as Hn.
    { destruct Ho' as [->|[->|(text & Ht & ->)]]; [by left|right..].
      - by apply empty_not_ready.
      - by eapply dumped_not_ready. }
    destruct Hr as [->|[what ->]]; simpl; eexists _, _; (split; [reflexivity|]); simpl; eauto.
Qed.
(** ** A request's own part leaves the preparations alone *)

Record frame (s s' : Service) : Prop := {
  frame_map : slot_map s' = slot_map s;
  frame_slots : slots s' = slots s;
  frame_next : next_slot s' = next_slot s;
  frame_status : ∀ key, status_files s' !! key = status_files s !! key ∨ status_files s' !! key = None;
}.

Lemma frame_refl s : frame s s.
Proof. split; auto. Qed.

Lemma frame_with_packages f s0 s : frame s0 s → frame s0 (with_packages f s).
Proof. intros [??? Hst]. by split. Qed.

Lemma frame_with_status f s0 s :
  (∀ m key, f m !! key = m !! key ∨ f m !! key = None) → frame s0 s → frame s0 (with_status f s).
Proof.
  intros Hf [??? Hst]. split; [done..|]. intros key. simpl.
  destruct (Hf (status_files s) key) as [->| ->]; [apply Hst|by right].
Qed.

Lemma foldr_delete_lookup {A} (l : list string) (m : gmap string A) key :
  foldr delete m l !! key = m !! key ∨ foldr delete m l !! key = None.
Proof.
  induction l as [|k l IH]; simpl; [by left|]. destruct (decide (k = key)) as [->|].
  - right. apply lookup_delete_eq.
  - by rewrite lookup_delete_ne.
Qed.

Local Ltac keeps_step :=
  match goal with
  | |- keeps _ (mret _) _ => by apply keeps_ret
  | |- keeps _ (lift _) _ => by apply keeps_lift
  | |- keeps _ (gets _) _ => by apply keeps_gets
  | |- keeps _ (_ ≫= _) _ => apply (keeps_bind _ _ _ (λ _, True)); [|intros ? _]
  | |- keeps _ (match _ with _ => _ end) _ => case_match
  end.

Lemma begin_request_frame w req s : frame s (begin_request config_ parse dump w req s).2.
Proof.
  assert (keeps (frame s) (begin_request config_ parse dump w req) (λ _, True)) as H.
  { assert (∀ f, (∀ m key, f m !! key = m !! key ∨ f m !! key = None) →
              keeps (frame s) (modify (with_status f)) (λ _, True)) as Hst.
    { intros f Hf. apply keeps_modify; [|done]. intros. by apply frame_with_status. }
    unfold begin_request, resolve_package, prepare_job, handle_cache_clean, handle_cache_prune.
    repeat keeps_step.
    1: apply Hst; intros m key; right; apply lookup_empty.
    1: apply Hst; intros m key; apply foldr_delete_lookup.
    all: apply keeps_modify; [|done]; intros; by apply frame_with_packages. }
  apply H, frame_refl.
Qed.

(** ** The requests served together *)

Definition leading (th : Thread) : option (Job * nat) :=
  match th with Checking job slot | Building job slot => Some (job, slot) | _ => None end.

(** The thread leads the preparation of that key, in that slot. *)
Definition leads (f : Fleet) (t : nat) (key : string) (slot : nat) : Prop :=
  ∃ th job, threads f !! t = Some th ∧ leading th = Some (job, slot) ∧ jb_key job = key.

Definition settled (st : Slot) : Prop := st ≠ Preparing.

Lemma leads_set_thread t th s f t' key slot :
  leads (set_thread t th s f) t' key slot ↔
  (t' = t ∧ ∃ job, leading th = Some (job, slot) ∧ jb_key job = key) ∨
  (t' ≠ t ∧ leads f t' key slot).
Proof.
  unfold leads, set_thread; simpl. destruct (decide (t' = t)) as [->|Hne].
  - rewrite lookup_insert_eq. naive_solver.
  - rewrite lookup_insert_ne by done. naive_solver.
Qed.

(** A thread that leads nothing comes to one that leads nothing. *)
Lemma leads_idle t th s f t' key slot :
  (∀ key slot, ¬ leads f t key slot) → leading th = None →
  leads (set_thread t th s f) t' key slot ↔ leads f t' key slot.
Proof.
  intros Hold Hth. rewrite leads_set_thread. split.
  - intros [(_ & job & Hl & _)|[_ H]]; [congruence|done].
  - intros H. right. split; [|done]. intros ->. by eapply Hold.
Qed.

Section invariant.
Context (initial : gmap string string).

(** The package was ready in the build cache from the start, or a preparation of it whose every
    step succeeded has been seen. *)
Definition was_prepared (es : list Event) (key : string) : Prop :=
  ready (initial !! key) ∨
  ∃ job os, Prepared job os ∈ es ∧ jb_key job = key ∧
    Forall (step_succeeds os (jb_env job) (jb_workdir job)) (jb_steps job).

Lemma was_prepared_app es es' key : was_prepared es key → was_prepared (es ++ es') key.
Proof.
  intros [H|(job & os & Hin & H)]; [by left|]. right. exists job, os. rewrite elem_of_app. auto.
Qed.

Record fleet_ok (es : list Event) (f : Fleet) : Prop := {
  ok_number : ∀ slot st, slots (service_ f) !! slot = Some st → (slot < next_slot (service_ f))%nat;
  ok_map : ∀ key slot, slot_map (service_ f) !! key = Some slot ↔ ∃ t, leads f t key slot;
  ok_preparing : ∀ t key slot, leads f t key slot → slots (service_ f) !! slot = Some Preparing;
  ok_unique : ∀ t1 t2 key1 key2 slot1 slot2, leads f t1 key1 slot1 → leads f t2 key2 slot2 →
    key1 = key2 ∨ slot1 = slot2 → t1 = t2;
  ok_waiting : ∀ t job slot, threads f !! t = Some (Waiting job slot) →
    (∃ t', leads f t' (jb_key job) slot) ∨
    ∃ st, slots (service_ f) !! slot = Some st ∧ settled st ∧
      (st = Ready → was_prepared es (jb_key job));
  ok_launching : ∀ t job, threads f !! t = Some (Launching job) → was_prepared es (jb_key job);
  ok_status : ∀ key, ready (status_files (service_ f) !! key) → was_prepared es key;
}.

Lemma fleet_ok_app es es' f : fleet_ok es f → fleet_ok (es ++ es') f.
Proof.
  intros [H1 H2 H3 H4 H5 H6 H7]. split; try done.
  - intros t job slot Ht. destruct (H5 t job slot Ht) as [?|(st & ? & ? & Hr)]; [by left|].
    right. exists st. eauto using was_prepared_app.
  - intros t job Ht. eapply was_prepared_app, H6, Ht.
  - intros key Hk. by apply was_prepared_app, H7.
Qed.

(** A step of a thread that leads nothing, which does not enter. *)
Lemma ok_idle es f t th s :
  fleet_ok es f → frame (service_ f) s → (∀ key slot, ¬ leads f t key slot) →
  leading th = None → (∀ job slot, th ≠ Waiting job slot) →
  (∀ job, th = Launching job → was_prepared es (jb_key job)) →
  fleet_ok es (set_thread t th s f).
Proof.
  intros [H1 H2 H3 H4 H5 H6 H7] [Fm Fs Fn Fst] Hold Hth Hw Hl.
  pose proof (λ t' key slot, leads_idle t th s f t' key slot Hold Hth) as Hleads.
  split; simpl; rewrite ?Fm, ?Fs, ?Fn.
  - done.
  - intros key slot. rewrite H2. by setoid_rewrite Hleads.
  - intros t' key slot. rewrite Hleads. apply H3.
  - intros t1 t2 key1 key2 slot1 slot2. rewrite !Hleads. apply H4.
  - intros t' job slot. rewrite lookup_insert_Some. setoid_rewrite Hleads.
    intros [[_ ->]|[_ Ht']]; [by destruct (Hw job slot)|by eapply H5].
  - intros t' job. rewrite lookup_insert_Some. intros [[_ ->]|[_ Ht']]; [by apply Hl|by eapply H6].
  - intros key Hk. destruct (Fst key) as [Hs|Hs]; rewrite Hs in Hk; [by apply H7|].
    by destruct Hk as (? & ? & ? & _).
Qed.

Lemma ok_enter es f t job slot lead s :
  fleet_ok es f → threads f !! t = Some (Validated job) →
  enter (jb_key job) (service_ f) = ((slot, lead), s) →
  fleet_ok es (set_thread t (if lead then Checking job slot else Waiting job slot) s f).
Proof.
  intros [H1 H2 H3 H4 H5 H6 H7] Ht He.
  assert (∀ key slot, ¬ leads f t key slot) as Hold.
  { intros ?? (th & ? & Hth & Hl & _). by simplify_eq. }
  unfold enter in He. destruct (slot_map (service_ f) !! jb_key job) as [slot'|] eqn:Hmap.
  - injection He as <- <- <-.
    pose proof (λ t' key slot, leads_idle t (Waiting job slot') (service_ f) f t' key slot Hold eq_refl)
      as Hleads.
    split; simpl; try done.
    + intros key slot. rewrite H2. by setoid_rewrite Hleads.
    + intros t' key slot. rewrite Hleads. apply H3.
    + intros t1 t2 key1 key2 slot1 slot2. rewrite !Hleads. apply H4.
    + intros t' job' slot. rewrite lookup_insert_Some. setoid_rewrite Hleads.
      intros [[_ [= <- <-]]|[_ Ht']]; [left; by apply H2|by eapply H5].
    + intros t' job'. rewrite lookup_insert_Some. intros [[_ ?]|[_ Ht']]; [done|by eapply H6].
  - injection He as <- <- <-.
    assert (∀ t' key slot', leads f t' key slot' → key ≠ jb_key job ∧ (slot' < next_slot (service_ f))%nat)
      as Hne.
    { intros t' key slot' Hl. split; [|by eapply H1, H3].
      intros ->. assert (slot_map (service_ f) !! jb_key job = Some slot') by (apply H2; by exists t').
      congruence. }
    split; simpl.
    + intros slot st. rewrite lookup_insert_Some. intros [[<- _]|[_ Hs]]; [lia|]. apply H1 in Hs. lia.
    + intros key slot. rewrite lookup_insert_Some, H2. setoid_rewrite leads_set_thread. simpl. split.
      * intros [[<- <-]|[Hk [t' Hl]]]; [exists t; left; eauto|].
        exists t'. right. split; [|done]. intros ->. by eapply Hold.
      * intros [t' [(-> & ? & [= <- <-] & <-)|[_ Hl]]]; [by left|]. right.
        split; [|by exists t']. intros <-. by apply Hne in Hl as [].
    + intros t' key slot. rewrite leads_set_thread. simpl.
      intros [(-> & ? & [= <- <-] & <-)|[_ Hl]]; [apply lookup_insert_eq|].
      rewrite lookup_insert_ne; [by eapply H3|]. apply Hne in Hl as []. lia.
    + intros t1 t2 key1 key2 slot1 slot2. rewrite !leads_set_thread. simpl.
      intros [(-> & ? & [= <- <-] & <-)|[? Hl1]] [(-> & ? & [= <- <-] & <-)|[? Hl2]] Hor;
        [done| | |by eapply H4].
      * apply Hne in Hl2 as []. destruct Hor; [congruence|lia].
      * apply Hne in Hl1 as []. destruct Hor; [congruence|lia].
    + intros t' job' slot. rewrite lookup_insert_Some. intros [[_ ?]|[Htt Ht']]; [done|].
      destruct (H5 _ _ _ Ht') as [[t1 Hl]|(st & Hs & Hset & Hr)].
      * left. exists t1. rewrite leads_set_thread. right. split; [|done]. intros ->. by eapply Hold.
      * right. exists st. rewrite lookup_insert_ne; [done|]. apply H1 in Hs. lia.
    + intros t' job'. rewrite lookup_insert_Some. intros [[_ ?]|[_ Ht']]; [done|by eapply H6].
    + done.
Qed.
Lemma set_status_ready key o es s k :
  (∀ k, ready (status_files s !! k) → was_prepared es k) →
  o = status_files s !! key ∨ ¬ ready o ∨ was_prepared es key →
  ready (status_files (set_status key o s) !! k) → was_prepared es k.
Proof.
  intros Hs Ho. unfold set_status, with_status; simpl. destruct (decide (k = key)) as [->|].
  - rewrite lookup_partial_alter_eq. destruct Ho as [->|[Ho|Ho]]; [apply Hs|done|done].
  - rewrite lookup_partial_alter_ne by done. apply Hs.
Qed.

(** The leader goes on to run the preparation. *)
Lemma ok_build es f t job slot th o :
  fleet_ok es f → threads f !! t = Some th → leading th = Some (job, slot) → ¬ ready o →
  fleet_ok es (set_thread t (Building job slot) (set_status (jb_key job) o (service_ f)) f).
Proof.
  intros [H1 H2 H3 H4 H5 H6 H7] Ht Hth Ho.
  assert (∀ t' key slot',
    leads (set_thread t (Building job slot) (set_status (jb_key job) o (service_ f)) f) t' key slot' ↔
    leads f t' key slot') as Hleads.
  { intros t' key slot'. rewrite leads_set_thread. simpl. split.
    - intros [(-> & ? & [= <- <-] & <-)|[_ ?]]; [|done]. by exists th, job.
    - intros Hl. destruct (decide (t' = t)) as [->|]; [left|by right].
      destruct Hl as (th' & job' & ? & ? & ?). simplify_eq. eauto. }
  split; simpl; try done.
  - intros key slot'. rewrite H2. by setoid_rewrite Hleads.
  - intros t' key slot'. rewrite Hleads. apply H3.
  - intros t1 t2 key1 key2 slot1 slot2. rewrite !Hleads. apply H4.
  - intros t' job' slot'. rewrite lookup_insert_Some. setoid_rewrite Hleads.
    intros [[_ ?]|[_ Ht']]; [done|by eapply H5].
  - intros t' job'. rewrite lookup_insert_Some. intros [[_ ?]|[_ Ht']]; [done|by eapply H6].
  - intros k. apply set_status_ready; auto.
Qed.

(** The leader settles its slot: the key is free again, and every thread that waits for the
    slot finds it settled. *)
Lemma ok_settle es f t job slot th th' o st :
  fleet_ok es f → threads f !! t = Some th → leading th = Some (job, slot) →
  settled st → (st = Ready → was_prepared es (jb_key job)) →
  o = status_files (service_ f) !! jb_key job ∨ ¬ ready o ∨ was_prepared es (jb_key job) →
  leading th' = None → (∀ job slot, th' ≠ Waiting job slot) →
  (∀ job, th' = Launching job → was_prepared es (jb_key job)) →
  fleet_ok es (set_thread t th' (settle (jb_key job) slot st (set_status (jb_key job) o (service_ f))) f).
Proof.
  intros [H1 H2 H3 H4 H5 H6 H7] Ht Hth Hst Hready Ho Hth' Hw Hl.
  set (s := settle _ _ _ _). assert (leads f t (jb_key job) slot) as Hlead by (exists th, job; auto).
  assert (∀ t' key slot', leads (set_thread t th' s f) t' key slot' ↔ t' ≠ t ∧ leads f t' key slot')
    as Hleads.
  { intros t' key slot'. rewrite leads_set_thread, Hth'. naive_solver. }
  assert (∀ t' key slot', t' ≠ t → leads f t' key slot' → key ≠ jb_key job ∧ slot' ≠ slot) as Hne.
  { intros t' key slot' Htt Hl'. split; intros ->; apply Htt; eapply H4; eauto. }
  split; simpl.
  - intros slot' st'. rewrite lookup_insert_Some. intros [[<- _]|[_ Hs]]; [|by eapply H1].
    by eapply H1, H3.
  - intros key slot'. rewrite lookup_delete_Some, H2. setoid_rewrite Hleads. split.
    + intros [Hk [t' Hl']]. exists t'. split; [|done]. intros ->. apply Hk.
      destruct Hl' as (? & ? & ? & ? & <-). by simplify_eq.
    + intros [t' [Htt Hl']]. split; [|by exists t']. apply Hne in Hl' as []; [congruence|done].
  - intros t' key slot'. rewrite Hleads. intros [Htt Hl']. rewrite lookup_insert_ne; [by eapply H3|].
    apply Hne in Hl' as []; [congruence|done].
  - intros t1 t2 key1 key2 slot1 slot2. rewrite !Hleads. intros [_ ?] [_ ?]. by eapply H4.
  - intros t' job' slot'. rewrite lookup_insert_Some. intros [[_ ->]|[Htt Ht']]; [by destruct (Hw job' slot')|].
    setoid_rewrite Hleads. destruct (H5 _ _ _ Ht') as [[t1 Hl']|(st' & Hs & Hset & Hr)].
    + destruct (decide (t1 = t)) as [->|]; [|left; by exists t1]. right. exists st.
      destruct Hl' as (? & ? & ? & ? & Hk). simplify_eq. rewrite lookup_insert_eq, <-Hk. done.
    + right. exists st'. rewrite lookup_insert_ne; [done|]. intros <-.
      apply H3 in Hlead. by simplify_eq.
  - intros t' job'. rewrite lookup_insert_Some. intros [[_ ->]|[_ Ht']]; [by apply Hl|by eapply H6].
  - intros k. apply (set_status_ready (jb_key job)); auto.
Qed.

Lemma not_leading f t th key slot :
  threads f !! t = Some th → leading th = None → ¬ leads f t key slot.
Proof. intros Ht Hth (? & ? & ? & ? & _). simplify_eq. Qed.

(** What waking, and giving up, come to. *)
Lemma follow_thread es job slot st :
  (st = Ready → was_prepared es (jb_key job)) →
  let th := after_lead job slot (follow job (Some st)) in
  leading th = None ∧ (∀ job slot, th ≠ Waiting job slot) ∧
  (∀ job, th = Launching job → was_prepared es (jb_key job)).
Proof.
  destruct st; simpl; intros H; split_and!; try done; intros ? [= <-]; auto.
Qed.

Lemma check_ok es f t job slot locks openable r s :
  fleet_ok es f → threads f !! t = Some (Checking job slot) →
  check_cache parse dump locks openable job slot (service_ f) = (Ok r, s) →
  fleet_ok (es ++ seen (FoundReady job) r) (set_thread t (after_lead job slot r) s f).
Proof.
  intros Hok Ht Hc. apply (fleet_ok_app _ (seen (FoundReady job) r)) in Hok.
  destruct (check_cache_outcome locks openable job slot (service_ f)) as (r' & s' & Hc' & Hr).
  rewrite Hc in Hc'. injection Hc' as <- <-. destruct r as [resp| |]; simpl in *.
  - destruct Hr as (o & why & -> & Ho). eapply ok_settle; try done. by destruct Ho; auto.
  - destruct Hr as [-> Hready]. rewrite <-(set_status_same (jb_key job) (service_ f)).
    assert (was_prepared (es ++ [FoundReady job]) (jb_key job)) by by apply (ok_status _ _ Hok).
    eapply ok_settle; try done; naive_solver.
  - destruct Hr as (o & -> & Ho). by eapply ok_build.
Qed.

Lemma build_ok es f t job slot locks openable os r s :
  fleet_ok es f → threads f !! t = Some (Building job slot) →
  prepare_package config_ dump locks openable job slot (prepared_by os job) (service_ f) = (Ok r, s) →
  fleet_ok (es ++ seen (Prepared job os) r) (set_thread t (after_lead job slot r) s f).
Proof.
  intros Hok Ht Hc. apply (fleet_ok_app _ (seen (Prepared job os) r)) in Hok.
  destruct (prepare_package_outcome locks openable os job slot (service_ f)) as (r' & s' & Hc' & Hr).
  rewrite Hc in Hc'. injection Hc' as <- <-. destruct r as [resp| |]; simpl in *; [..|done].
  - destruct Hr as (o & why & -> & Ho). eapply ok_settle; try done. by destruct Ho; auto.
  - destruct Hr as (o & -> & Hall).
    assert (was_prepared (es ++ [Prepared job os]) (jb_key job)).
    { right. exists job, os. rewrite elem_of_app, list_elem_of_singleton. auto. }
    eapply ok_settle; try done; naive_solver.
Qed.

Lemma step_ok es f es' f' :
  step config_ parse dump f es' f' → fleet_ok es f → fleet_ok (es ++ es') f'.
Proof.
  intros Hstep Hok. inversion Hstep; subst; clear Hstep;
    [| | | | |by eapply build_ok|..]; try (rewrite app_nil_r).
  1-3: pose proof (begin_request_frame w req (service_ f)) as Hf;
    match goal with H : begin_request _ _ _ _ _ _ = _ |- _ => rewrite H in Hf end;
    apply ok_idle; try done; intros ?? (? & ? & ? & _); by simplify_eq.
  - by apply ok_enter.
  - by eapply check_ok.
  - destruct (follow_thread es job slot st) as (? & ? & ?).
    { intros ->. destruct (ok_waiting _ _ Hok _ _ _ H) as [[t' Hl]|(? & ? & ? & ?)].
      - apply (ok_preparing _ _ Hok) in Hl. by simplify_eq.
      - simplify_eq. auto. }
    apply ok_idle; try done; [apply frame_refl|]. intros; by eapply not_leading.
  - destruct (follow_thread es job slot Preparing) as (? & ? & ?); [done|].
    apply ok_idle; try done; [apply frame_refl|]. intros; by eapply not_leading.
  - apply ok_idle; try done; [by apply fleet_ok_app|apply frame_refl|].
    intros. by eapply not_leading.
Qed.

Lemma run_ok es f : steps config_ parse dump (Fleet_init initial) es f → fleet_ok es f.
Proof.
  induction 1 as [|es f es' f' Hrun IH Hstep]; [|by eapply step_ok].
  split; simpl; try (intros; by simplify_map_eq).
  - intros key slot. split; [by intros ?; simplify_map_eq|].
    intros [t (? & ? & ? & _)]. by simplify_map_eq.
  - intros t key slot (? & ? & ? & _). by simplify_map_eq.
  - intros t1 t2 key1 key2 slot1 slot2 (? & ? & ? & _). by simplify_map_eq.
  - intros key Hk. by left.
Qed.
(** C29 The requests share the preparations: however requests arrive and their threads take
    turns, at most one thread leads the preparation of a package, and a thread that waits for
    a preparation waits either for one that is led or for one that is over. *)
Theorem one_leader_per_key es f :
  steps config_ parse dump (Fleet_init initial) es f →
  (∀ t1 t2 key slot1 slot2, leads f t1 key slot1 → leads f t2 key slot2 → t1 = t2 ∧ slot1 = slot2) ∧
  (∀ t job slot, threads f !! t = Some (Waiting job slot) →
    (∃ t', leads f t' (jb_key job) slot) ∨
    ∃ st, slots (service_ f) !! slot = Some st ∧ settled st).
Proof.
  intros Hok%run_ok. split.
  - intros t1 t2 key slot1 slot2 H1 H2.
    assert (t1 = t2) as <- by (eapply (ok_unique _ _ Hok); eauto). split; [done|].
    destruct H1 as (? & ? & ? & ? & _), H2 as (? & ? & ? & ? & _). by simplify_eq.
  - intros t job slot Ht. destruct (ok_waiting _ _ Hok _ _ _ Ht) as [?|(st & ? & ? & _)]; eauto.
Qed.

Lemma launched_step f es f' k job es2 :
  step config_ parse dump f es f' → es = k ++ Launched job :: es2 →
  k = [] ∧ ∃ t, threads f !! t = Some (Launching job).
Proof.
  intros Hstep Heq.
  inversion Hstep; subst; try (match goal with r : Led |- _ => destruct r end);
    destruct k as [|? [|? ?]]; simplify_eq/=; eauto.
Qed.

(** C8 A process is launched only after its package was prepared: every launch comes after a
    preparation of the same cache key whose steps all succeeded, unless the build cache said
    "ready" when the service started.  This holds whatever the locks, the status files and the
    preparations of other requests do. *)
Theorem launched_after_preparation es f es1 job es2 :
  steps config_ parse dump (Fleet_init initial) es f → es = es1 ++ Launched job :: es2 →
  was_prepared es1 (jb_key job).
Proof.
  intros Hrun. revert es1 es2.
  induction Hrun as [|es f es' f' Hrun IH Hstep]; intros es1 es2 Heq; [by destruct es1|].
  apply run_ok in Hrun as Hok.
  apply app_eq_inv in Heq as [(k & -> & Hk)|(k & -> & Hk)].
  - destruct k as [|e k]; simpl in Hk; [|injection Hk as <- ->; by eapply IH].
    rewrite app_nil_r in Hok.
    destruct (launched_step f es' f' [] job es2 Hstep) as [_ [t Ht]]; [done|].
    by eapply (ok_launching _ _ Hok).
  - destruct (launched_step f es' f' k job es2 Hstep Hk) as [-> [t Ht]].
    rewrite app_nil_r. by eapply (ok_launching _ _ Hok).
Qed.

Lemma settle_slot key slot st s : slots (settle key slot st s) !! slot = Some st.
Proof. apply lookup_insert_eq. Qed.

(** The thread waits for a slot that is settled, and can take the outcome from it. *)
Definition can_go_on (f : Fleet) (t : nat) (job : Job) (slot : nat) : Prop :=
  ∃ st, settled st ∧ step config_ parse dump f []
    (set_thread t (after_lead job slot (follow job (Some st))) (service_ f) f).

Lemma settled_can_go_on f t job slot st :
  threads f !! t = Some (Waiting job slot) → slots (service_ f) !! slot = Some st → settled st →
  can_go_on f t job slot.
Proof. intros Ht Hs Hst. exists st. split; [done|]. by apply step_wake. Qed.

(** C30 No request waits for ever.  Take any state that the service can come to and a thread that
    waits for a preparation.  Either its slot is settled, and it can go on with the outcome at
    once; or another thread leads the preparation of the same package, and whatever that
    thread's part meets - locks that are not got, status files that cannot be opened, written
    or read, steps that fail, throw or succeed - the part ends without an exception, and when
    it has ended the slot is settled and the waiting thread can go on, and is not left to time
    out; but for a check of the cache that finds nothing, after which the same thread runs the
    preparation, to which the same applies.  Each of the two parts is taken to end. *)
Theorem waiting_released es f t job slot :
  steps config_ parse dump (Fleet_init initial) es f →
  threads f !! t = Some (Waiting job slot) →
  can_go_on f t job slot ∨
  ∃ t' job', t' ≠ t ∧ jb_key job' = jb_key job ∧
    ((threads f !! t' = Some (Checking job' slot) ∧
      ∀ locks openable, ∃ r s,
        check_cache parse dump locks openable job' slot (service_ f) = (Ok r, s) ∧
        let f' := set_thread t' (after_lead job' slot r) s f in
        match r with
        | MustPrepare => threads f' !! t' = Some (Building job' slot)
        | _ => can_go_on f' t job slot
        end) ∨
     (threads f !! t' = Some (Building job' slot) ∧
      ∀ locks openable os, ∃ r s,
        prepare_package config_ dump locks openable job' slot (prepared_by os job') (service_ f)
          = (Ok r, s) ∧
        can_go_on (set_thread t' (after_lead job' slot r) s f) t job slot)).
Proof.
  intros Hok%run_ok Ht.
  destruct (ok_waiting _ _ Hok _ _ _ Ht) as [[t' (th & job' & Hth & Hl & Hk)]|(st & ? & ? & _)];
    [right|left; by eapply settled_can_go_on].
  assert (t' ≠ t) as Hne by (intros ->; by simplify_eq).
  assert (∀ th s, threads (set_thread t' th s f) !! t = Some (Waiting job slot)) as Ht'
    by (intros; simpl; by rewrite lookup_insert_ne).
  exists t', job'. split_and!; [done..|].
  destruct th as [|job1 slot1|job1 slot1| | |]; try done; injection Hl as -> ->; [left|right];
    (split; [done|]); intros locks openable.
  - destruct (check_cache_outcome locks openable job' slot (service_ f)) as (r & s & Hc & Hr).
    exists r, s. split; [done|]. destruct r as [resp| |]; simpl in Hr.
    + destruct Hr as (? & ? & -> & _). eapply settled_can_go_on; [done|apply settle_slot|done].
    + destruct Hr as (-> & _). eapply settled_can_go_on; [done|apply settle_slot|done].
    + apply lookup_insert_eq.
  - intros os. destruct (prepare_package_outcome locks openable os job' slot (service_ f))
      as (r & s & Hp & Hr).
    exists r, s. split; [done|]. destruct r as [resp| |]; simpl in Hr; [..|done].
    + destruct Hr as (? & ? & -> & _). eapply settled_can_go_on; [done|apply settle_slot|done].
    + destruct Hr as (? & -> & _). eapply settled_can_go_on; [done|apply settle_slot|done].
Qed.
End invariant.
End preparation.

(** ** Cache keys *)

Section keys.
Context (dump : json → exc string).

(** The bytes that a package is known by. *)
Definition key_bytes (w : World) (text : string) (rt : RuntimeResolution) (pkg_path : string) :
    list Z :=
  mjoin (bytes_of <$> cache_key_pieces text rt pkg_path (w_package_files w pkg_path)).

(** The names and the contents of the files are fed one after the other, with only line ends
    between them: packages whose bytes run into each other alike have one key. *)
Lemma cache_key_of_bytes w1 w2 manifest1 manifest2 text1 text2 rt1 rt2 path1 path2 :
  dump manifest1 = Ok text1 → dump manifest2 = Ok text2 →
  key_bytes w1 text1 rt1 path1 = key_bytes w2 text2 rt2 path2 →
  compute_cache_key dump w1 manifest1 rt1 path1 = compute_cache_key dump w2 manifest2 rt2 path2.
Proof.
  intros H1 H2 Hb. unfold compute_cache_key. rewrite H1, H2, !exc_bind_ok.
  rewrite !update_pieces. unfold key_bytes in Hb. by rewrite Hb.
Qed.
End keys.

(** A package of the one file [a], whose content is three lines, and one of two files [a] and
    [b]: the second has the key of the first, and is launched without a preparation of its own. *)
Lemma cache_key_collision text rt :
  let lines := "x" +:+ String newline_char ("b" +:+ String newline_char "y") in
  cache_key_pieces text rt "tools/t" [(["a"], lines)] ≠
  cache_key_pieces text rt "tools/t" [(["a"], "x"); (["b"], "y")] ∧
  mjoin (bytes_of <$> cache_key_pieces text rt "tools/t" [(["a"], lines)]) =
  mjoin (bytes_of <$> cache_key_pieces text rt "tools/t" [(["a"], "x"); (["b"], "y")]).
Proof.
  assert (∀ files, cache_key_pieces text rt "tools/t" files =
    [text; String newline_char ""; rt_runtime rt; String newline_char ""; rt_version rt;
     String newline_char ""] ++ drop 6 (cache_key_pieces text rt "tools/t" files)) as Hdrop by done.
  intros lines. rewrite (Hdrop [_]), (Hdrop [_; _]). split.
  - intros H%app_inv_head. vm_compute in H. discriminate H.
  - rewrite !fmap_app, !join_app. f_equal.
Qed.

(** ** Configuration *)

(** The lock is waited for longer than a preparation takes, when every assignment is made. *)
Lemma lock_wait_exceeds_prepare c cfg :
  assign_all config_assignments c ExecutionerConfig_init = Ok cfg →
  (∀ f, f ∈ config_assignments → ∀ cfg, ∃ cfg', f c cfg = Ok cfg') →
  prepare_timeout_ms cfg < cache_lock_wait_ms cfg.
Proof.
  intros H Hall. assert (∀ fs cfg0, (∀ f, f ∈ fs → ∀ cfg, ∃ cfg', f c cfg = Ok cfg') →
    fs ≠ [] → assign_all fs c cfg0 = Ok cfg →
    ∃ cfg1 f, list.last fs = Some f ∧ f c cfg1 = Ok cfg) as Hlast.
  { induction fs as [|f fs IH]; [done|]. intros cfg0 Hf _ Ha. simpl in Ha.
    assert (f ∈ f :: fs) as Hin by by left. destruct (Hf f Hin cfg0) as [cfg' Hc]. rewrite Hc in Ha.
    destruct fs as [|g fs]; [exists cfg0, f; by injection Ha as <-|].
    destruct (IH cfg') as (cfg1 & f1 & ? & ?); [by intros; apply Hf; right|done|done|].
    by exists cfg1, f1. }
  destruct (Hlast config_assignments ExecutionerConfig_init) as (cfg1 & f & Hf & Hc); [done..|].
  injection Hf as <-. case_decide; [|injection Hc as <-; lia].
  case_decide; [done|]. injection Hc as <-. simpl. lia.
Qed.

(** A value that throws keeps the last of them from being made. *)
Lemma lock_wait_not_enforced :
  assign_all config_assignments
    (JObject [("prepare_timeout_ms", JInt 400000); ("cache_root", JInt 5)]) ExecutionerConfig_init =
  Ok {| socket_timeout_ms := 5000; max_client_threads := 128; max_queue_size := 1024;
        prepare_timeout_ms := 400000; cache_lock_wait_ms := 310000; run_timeout_ms := 0;
        cache_root := ".velix/build_cache" |}.
Proof. reflexivity. Qed.

(** ** Packages *)

(** A package is resolved with the adapter applied in the package's directory, although it is
    launched in its workdir: when the adapter refuses it there, it is not found, wherever the
    entry is. *)
Lemma workdir_package_rejected parse dump w name pkg_path manifest why s :
  name ≠ "" →
  first_open (λ p, w_manifest w p ≫= λ text, Some p) ["tools/" +:+ name; "agents/" +:+ name]
    = Some pkg_path →
  parse (default "" (w_manifest w pkg_path)) = Ok manifest →
  select_runtime_adapter (w_os w) manifest pkg_path = Ok (inl why) →
  resolve_package parse dump w name true s = (Ok None, s).
Proof.
  intros Hn Hf Hp Hsel. unfold resolve_package.
  unfold mbind at 1, ST_bind at 1, gets. rewrite decide_False by done. rewrite Hf, Hp.
  destruct (validate_manifest name manifest); [done|].
  unfold mbind, ST_bind, lift. by rewrite Hsel.
Qed.
