(* ===== verification/Sdk.v ===== *)
(** * The process SDK (src/runtime/sdk/cpp/velix_process.cpp)

    What a process does through [VelixProcess]: it registers with the supervisor, sends
    heartbeats, calls tools and waits for their results on the bus, and runs the loop of
    requests to the model and tool calls.  The environment, the sockets and the clock are
    arguments: a socket is what its reads deliver, one after the other. *)

From Stdlib Require Import Ascii.
From S2P Require Import Prelude Json StringUtils.

(** ** The environment *)

(** [atoi]: 0 where there is no number; a number that is not an [int] is undefined. *)
Definition atoi (s : string) : exc Z :=
  let s := ltrim s in
  let '(sign, s) := match s with
                    | String "-" s => (-1, s)
                    | String "+" s => (1, s)
                    | _ => (1, s)
                    end in
  let n := sign * read_digits 0 s in
  if decide (- 2 ^ 31 ≤ n ≤ INT_MAX) then mret n else UB.

Definition is_supported_intent_value (intent : string) : bool :=
  bool_decide (intent = "JOIN_PARENT_TREE" ∨ intent = "NEW_TREE").

Definition validate_launch_intent (role : string) (parent_pid : Z) (launch_intent : string) :
    string :=
  if decide (launch_intent ≠ "JOIN_PARENT_TREE" ∧ launch_intent ≠ "NEW_TREE") then
    if decide (role = "handler") then "JOIN_PARENT_TREE"
    else if decide (parent_pid > 0) then "JOIN_PARENT_TREE" else "NEW_TREE"
  else launch_intent.

Definition is_transient_socket_error (err : string) : bool :=
  contains_str err "timed out" || contains_str err "timeout" || contains_str err "errno 11" ||
  contains_str err "errno 35" || contains_str err "errno 110" ||
  contains_str err "Resource temporarily unavailable".

Record Launch := {
  ln_parent_pid : Z;
  ln_entry_trace_id : string;
  ln_intent : string;
  ln_params : json;
  ln_user_id : string;
}.

Section environment.
Context (parse : string → exc json) (env : string → option string).

(** From the defaults of [start]. *)
Definition parse_environment_variables : exc Launch :=
  parent_pid ← match env "VELIX_PARENT_PID" with Some v => atoi v | None => mret (-1) end;
  params ← match env "VELIX_PARAMS" with
           | Some v =>
               try_catch (parse v) (λ what,
                 if starts_with what "[json.exception.parse_error" then mret (JObject [])
                 else Throw what)
           | None => mret (JObject [])
           end;
  mret {| ln_parent_pid := parent_pid;
          ln_entry_trace_id := default "" (env "VELIX_TRACE_ID");
          ln_intent := default "" (env "VELIX_INTENT"); ln_params := params;
          ln_user_id := default "" (env "VELIX_USER_ID") |}.

(** The first of the variables that is a number. *)
Fixpoint first_int (names : list string) (fallback : Z) : Z :=
  match names with
  | [] => fallback
  | name :: names =>
      match env name ≫= stoi with Some n => n | None => first_int names fallback end
  end.

Definition resolve_port (service_name : string) (fallback : Z) : Z :=
  if decide (service_name = "SCHEDULER")
  then first_int ["VELIX_PORT_LLM_SCHEDULER"; "VELIX_PORT_SCHEDULER"] fallback
  else first_int ["VELIX_PORT_" +:+ service_name] fallback.

Definition resolve_sdk_config (key : string) (fallback : Z) : Z :=
  first_int ["VELIX_SDK_" +:+ key; "SDK_" +:+ key] fallback.
End environment.

(** [attempt i] is the outcome of the i-th attempt; the result says whether the socket is
    connected. *)
Section connect.
Context (attempt : nat → exc ()).

Fixpoint connect_from (remaining i : nat) : exc bool :=
  match remaining with
  | O => mret false
  | S remaining =>
      match attempt i with
      | Ok _ => mret true
      | Throw what => if decide (remaining = O) then Throw what else connect_from remaining (S i)
      | UB => UB
      end
  end.

Definition connect_with_retries (retry_limit : Z) : exc bool :=
  connect_from (Z.to_nat retry_limit) 0.
End connect.

(** ** The process *)

Inductive Status := Starting | Running | WaitingLlm | Finished | Error.

Record VelixProcess := {
  vp_name : string;
  vp_role : string;
  vp_tree_id : string;
  vp_user_id : string;
  vp_params : json;
  vp_os_pid : Z;
  vp_velix_pid : Z;
  vp_parent_pid : Z;
  vp_entry_trace_id : string;
  vp_is_root : bool;
  vp_is_handler : bool;
  vp_max_memory_mb : Z;
  vp_max_runtime_sec : Z;
}.

(** [is_root] as the intent has it, before the supervisor's reply. *)
Definition launched (name role : string) (os_pid : Z) (l : Launch) : VelixProcess := {|
  vp_name := name; vp_role := role; vp_tree_id := ""; vp_user_id := ln_user_id l;
  vp_params := ln_params l; vp_os_pid := os_pid; vp_velix_pid := -1;
  vp_parent_pid := ln_parent_pid l; vp_entry_trace_id := ln_entry_trace_id l;
  vp_is_root := bool_decide (validate_launch_intent role (ln_parent_pid l) (ln_intent l) =
                             "NEW_TREE");
  vp_is_handler := false; vp_max_memory_mb := 0; vp_max_runtime_sec := 0 |}.

(** The message by which [start] registers. *)
Definition registration (p : VelixProcess) (launch_intent : string) (memory_mb : Z) : json :=
  let payload := JObject [
    ("register_intent", JString launch_intent); ("role", JString (vp_role p));
    ("os_pid", JInt (vp_os_pid p)); ("process_name", JString (vp_name p));
    ("trace_id", JString (vp_entry_trace_id p)); ("status", JString "STARTING");
    ("memory_mb", JFloat (d_of_Z memory_mb))] in
  JObject ([("message_type", JString "REGISTER_PID"); ("payload", payload)] ++
    (if decide (launch_intent = "JOIN_PARENT_TREE" ∧ vp_parent_pid p > 0)
     then [("source_pid", JInt (vp_parent_pid p))] else [])).

Definition bool_or (j : json) (key : string) (d : bool) : bool :=
  match find j key with Some (JBool b) => b | _ => d end.

(** What the supervisor's reply says of the process. *)
Definition registered (p : VelixProcess) (reply : json) : exc VelixProcess :=
  status ← value_string reply "status" "";
  if decide (status ≠ "ok") then
    error ← value_string reply "error" "unknown";
    Throw ("VelixProcess supervisor registration failed: " +:+ error)
  else
    process_obj ← value_json reply "process" (JObject []);
    pid ← value_int process_obj "pid" (-1);
    tree ← value_string process_obj "tree_id" "UNKNOWN";
    memory ← value_int reply "max_memory_mb" 2048;
    runtime ← value_int reply "max_runtime_sec" 300;
    mret {| vp_name := vp_name p; vp_role := vp_role p; vp_tree_id := tree;
            vp_user_id := vp_user_id p; vp_params := vp_params p; vp_os_pid := vp_os_pid p;
            vp_velix_pid := pid; vp_parent_pid := vp_parent_pid p;
            vp_entry_trace_id := vp_entry_trace_id p;
            vp_is_root := bool_or reply "is_root" (vp_is_root p);
            vp_is_handler := bool_or reply "is_handler" (vp_is_handler p);
            vp_max_memory_mb := memory; vp_max_runtime_sec := runtime |}.

Definition bus_registration (p : VelixProcess) : json :=
  JObject [("message_type", JString "BUS_REGISTER"); ("pid", JInt (vp_velix_pid p));
           ("tree_id", JString (vp_tree_id p)); ("is_root", JBool (vp_is_root p))].

(** The heartbeat of [run_kernel_io_loop], and its last one. *)
Definition heartbeat (p : VelixProcess) (status : Status) (memory_mb : Z) : json :=
  JObject [("message_type", JString "HEARTBEAT"); ("pid", JInt (vp_velix_pid p));
           ("payload", JObject [
              ("status", JString match status with
                                 | Running => "RUNNING"
                                 | WaitingLlm => "WAITING_LLM"
                                 | _ => "STARTING"
                                 end);
              ("memory_mb", JFloat (d_of_Z memory_mb))])].

Definition final_heartbeat (p : VelixProcess) (forced_by_signal : bool) (memory_mb : Z) :
    option json :=
  if decide (vp_velix_pid p > 0) then
    Some (JObject [("message_type", JString "HEARTBEAT"); ("pid", JInt (vp_velix_pid p));
                   ("payload", JObject [
                      ("memory_mb", JFloat (d_of_Z memory_mb));
                      ("status", JString (if forced_by_signal then "KILLED" else "FINISHED"))])])
  else None.

(** ** Replies that come over the bus *)

(** The two tables of requests that wait, what is passed to [on_bus_event] where that hook is
    set, and whether the process runs. *)
Record Rpc := {
  response_map : gmap string json;
  pending_response_traces : gset string;
  bus_events : list json;
  is_running : bool;
}.

Definition Rpc_init : Rpc :=
  {| response_map := ∅; pending_response_traces := ∅; bus_events := []; is_running := true |}.

Definition with_pending (f : gset string → gset string) (s : Rpc) : Rpc :=
  {| response_map := response_map s; pending_response_traces := f (pending_response_traces s);
     bus_events := bus_events s; is_running := is_running s |}.

Definition with_responses (f : gmap string json → gmap string json) (s : Rpc) : Rpc :=
  {| response_map := f (response_map s); pending_response_traces := pending_response_traces s;
     bus_events := bus_events s; is_running := is_running s |}.

Definition with_event (msg : json) (s : Rpc) : Rpc :=
  {| response_map := response_map s; pending_response_traces := pending_response_traces s;
     bus_events := bus_events s ++ [msg]; is_running := is_running s |}.

Definition stopped (s : Rpc) : Rpc :=
  {| response_map := response_map s; pending_response_traces := pending_response_traces s;
     bus_events := bus_events s; is_running := false |}.

(** A message in [bus_listener_loop]. *)
Definition route_message (trace_id : string) (payload msg : json) (s : Rpc) : Rpc :=
  if decide (trace_id ≠ "" ∧ trace_id ∈ pending_response_traces s)
  then with_responses <[trace_id := payload]> s
  else with_event msg s.

(** The trace and the payload of a message that carries one; an error of the bus ends the
    listener. *)
Definition bus_payload (msg : json) : exc (option (string * json)) :=
  msg_type ← value_string msg "message_type" "";
  if decide (msg_type = "IPM_PUSH" ∨ msg_type = "CHILD_TERMINATED" ∨ msg_type = "IPM_RELAY") then
    trace_id ← value_string msg "trace_id" "";
    payload ← value_json msg "payload" (JObject []);
    mret (Some (trace_id, payload))
  else
    status ← value_string msg "status" "";
    if decide (status = "error") then
      error ← value_string msg "error" "unknown";
      Throw ("Supervisor unreachable via Bus: " +:+ error)
    else mret None.

Definition bus_message (msg : json) : ST Rpc () :=
  r ← lift (bus_payload msg);
  match r with
  | Some (trace_id, payload) => modify (route_message trace_id payload msg)
  | None => mret tt
  end.

(** What a read of the bus delivers. *)
Inductive BusRead :=
  | BusMessage (msg : json)
  | BusTimeout
  | BusFailed (what : string).

(** One round of [bus_listener_loop]: whether it goes on. *)
Definition listener_round (read : BusRead) : ST Rpc bool :=
  if_error ← st_catch
    (match read with
     | BusMessage msg => bus_message msg;; mret None
     | BusTimeout => mret None
     | BusFailed what => lift (Throw what)
     end) (λ what, mret (Some what));
  match if_error with
  | None => mret true
  | Some what =>
      if is_transient_socket_error what then mret true else modify stopped;; mret false
  end.

Definition register_trace (trace : string) : Rpc → Rpc := with_pending (λ t, {[trace]} ∪ t).
Definition clear_pending_trace (trace : string) : Rpc → Rpc := with_pending (λ t, t ∖ {[trace]}).

(** A wait that has ended: with the response, which is taken out, or by its time limit. *)
Definition take_response (trace : string) (s : Rpc) : option json * Rpc :=
  match response_map s !! trace with
  | Some result => (Some result, clear_pending_trace trace (with_responses (delete trace) s))
  | None => (None, clear_pending_trace trace s)
  end.

(** ** Messages to other processes *)

(** The relay, and what [report_result] changes; nothing where the bus is closed. *)
Definition relay_result (target_pid : Z) (data : json) (trace_id : string) : json :=
  JObject [("message_type", JString "IPM_RELAY"); ("target_pid", JInt target_pid);
           ("trace_id", JString trace_id); ("payload", data)].

(** [result_reported] and the tables afterwards. *)
Definition report_result (append : bool) (trace_id : string) (result_reported : bool) (s : Rpc) :
    bool * Rpc :=
  if append then (true, s)
  else (result_reported,
        if decide (trace_id = "") then s
        else with_responses (delete trace_id) (clear_pending_trace trace_id s)).

Definition send_message (p : VelixProcess) (target_pid : Z) (purpose : string) (payload : json) :
    json :=
  JObject [("message_type", JString "IPM_RELAY"); ("target_pid", JInt target_pid);
           ("purpose", JString purpose); ("user_id", JString (vp_user_id p));
           ("payload", payload)].

(** What [ResultGuard] sends for a process that has not reported. *)
Definition guard_result (p : VelixProcess) (result_reported : bool) : option json :=
  if negb result_reported && bool_decide (vp_parent_pid p > 0) then
    Some (relay_result (vp_parent_pid p)
      (JObject [("status", JString "completed"); ("exit_reason", JString "normal");
                ("pid", JInt (vp_velix_pid p))]) (vp_entry_trace_id p))
  else None.

(** ** ask_user *)

Definition nonempty_array (j : json) : bool := if j is JArray (_ :: _) then true else false.
Definition nonempty_object (j : json) : bool := if j is JObject (_ :: _) then true else false.

Definition ask_payload (trace question : string) (options : json) (allow_free_text : bool)
    (timeout_sec : Z) (metadata : json) : json :=
  JObject ([("trace", JString trace); ("question", JString question);
            ("allow_free_text", JBool allow_free_text); ("timeout_sec", JInt timeout_sec)] ++
           (if nonempty_array options then [("options", options)] else []) ++
           (if nonempty_object metadata then [("metadata", metadata)] else [])).

(** The question that is sent, and the answer once the wait has ended. *)
Definition ask_request (p : VelixProcess) (payload : json) : json :=
  send_message p (-1) "ASK_USER_REQUEST" payload.

Definition ask_answer (trace : string) (s : Rpc) : json * Rpc :=
  let '(result, s) := take_response trace s in
  (default (JObject [("status", JString "timeout")]) result, s).

Definition ask_without_bus : json :=
  JObject [("status", JString "cancelled"); ("error", JString "no_bus_connection")].

(** ** execute_tool *)

(** The user's id is added to what the hooks are given. *)
Definition hook_argument (effective_user_id : string) (arg : json) : json :=
  if decide (effective_user_id ≠ "" ∧ find arg "user_id" = None) then
    match arg with
    | JObject kvs => JObject (assoc_set "user_id" (JString effective_user_id) kvs)
    | _ => JObject [("user_id", JString effective_user_id)]
    end
  else arg.

(** Whose id goes with a tool call: only the handler may name another user. *)
Definition tool_user (p : VelixProcess) (user_id_override : option string) : string :=
  match user_id_override with
  | Some u => if vp_is_handler p && bool_decide (u ≠ "") then u else vp_user_id p
  | None => vp_user_id p
  end.

Definition tool_intent (p : VelixProcess) (intent_override : option string) : string :=
  match intent_override with
  | Some i => if vp_is_handler p && is_supported_intent_value i then i else "JOIN_PARENT_TREE"
  | None => "JOIN_PARENT_TREE"
  end.

Definition launch_request (p : VelixProcess) (trace instruction : string) (args : json)
    (effective_user_id effective_intent : string) : json :=
  JObject ([("message_type", JString "EXEC_VELIX_PROCESS"); ("trace_id", JString trace);
            ("tree_id", JString (vp_tree_id p)); ("source_pid", JInt (vp_velix_pid p));
            ("is_handler", JBool (vp_is_handler p)); ("name", JString instruction);
            ("params", args); ("intent", JString effective_intent)] ++
           (if decide (effective_user_id = "") then []
            else [("user_id", JString effective_user_id)])).

(** What a read from the executioner delivers, and whether the process runs just before. *)
Definition AckRead : Type := bool * (json + option string).   (* [inr None]: a timeout *)

(** [reads] are the reads before the deadline. *)
Fixpoint receive_executioner_ack (reads : list AckRead) : exc json :=
  match reads with
  | [] => Throw "executioner ack deadline exceeded"
  | (running, read) :: reads =>
      if negb running then Throw "process shutdown during executioner ack wait"
      else
        match read with
        | inl ack => mret ack
        | inr None => receive_executioner_ack reads
        | inr (Some err) =>
            if is_transient_socket_error err then receive_executioner_ack reads else Throw err
        end
  end.

(** An attempt to launch: connecting and sending, and the reads. *)
Record Attempt := { at_send : exc (); at_reads : list AckRead }.

(** It returns when the launch is acknowledged. *)
Definition launch_attempt (a : Attempt) : exc () :=
  _ ← at_send a;
  ack ← receive_executioner_ack (at_reads a);
  status ← value_string ack "status" "";
  if decide (status = "ok") then mret tt
  else
    error ← value_string ack "error" "unknown rejection";
    launcher_error ← value_string ack "message" error;
    Throw ("Velix Launcher Failure: " +:+ launcher_error).

Definition retryable (error : string) : bool :=
  is_transient_socket_error error ||
  contains_str error "executioner ack deadline exceeded" || contains_str error "busy".

(** The loop over the attempts; [last] is the last error, [None] once a launch is
    acknowledged. *)
Fixpoint launch_loop (attempts : nat → Attempt) (remaining attempt : nat) (last : string) :
    exc (option string * nat) :=
  match remaining with
  | O => mret (Some last, attempt)
  | S remaining =>
      match launch_attempt (attempts attempt) with
      | Ok _ => mret (None, S attempt)
      | UB => UB
      | Throw what =>
          if retryable what && bool_decide (remaining ≠ O)
          then launch_loop attempts remaining (S attempt) what
          else mret (Some what, S attempt)
      end
  end.

(** With the number of attempts that were made. *)
Definition launch_tool (exec_retry_limit : Z) (attempts : nat → Attempt) : exc nat :=
  '(last, made) ← launch_loop attempts (Z.to_nat (Z.max 1 exec_retry_limit)) 0 "unknown";
  match last with
  | None => mret made
  | Some last =>
      if contains_str last "Velix Launcher Failure" then Throw last
      else Throw ("Velix Executioner Link Failed: " +:+ last)
  end.

(** A result that says that the tool was terminated is an exception. *)
Definition check_result (instruction : string) (result : json) : exc json :=
  status ← value_string result "status" "";
  if decide (status = "error") then
    error ← value_string result "error" "";
    if decide (error = "child_terminated") then
      reason ← value_string result "reason" "unknown_termination";
      Throw ("Velix Tool Crash: " +:+ instruction +:+ " terminated by Supervisor (Reason: " +:+
             reason +:+ ")")
    else mret result
  else mret result.

(** The wait of [execute_tool_internal] has ended. *)
Definition tool_result (instruction trace : string) (bus_wait : Z) : ST Rpc json := λ s,
  match take_response trace s with
  | (Some result, s) => (check_result instruction result, s)
  | (None, s) =>
      (Throw ("Velix Package Timeout: " +:+ instruction +:+ " exceeded reactive limit of " +:+
              pretty bus_wait +:+ " mins"), s)
  end.

(** What [on_tool_finish] is given when the call ends with an exception. *)
Definition tool_error (what : string) : json :=
  JObject [("status", JString "error"); ("message", JString what)].

(** What other threads do to the tables: a request begins, the listener reads, a wait ends, a
    call is abandoned, a result is reported out of band, the process is shut down. *)
Inductive RpcOp :=
  | Begin (trace : string)
  | Deliver (read : BusRead)
  | Take (trace : string)
  | Abandon (trace : string)
  | Detach (trace : string)
  | Shutdown.

Definition rpc_step (s : Rpc) (op : RpcOp) : Rpc :=
  match op with
  | Begin trace => register_trace trace s
  | Deliver read => if is_running s then (listener_round read s).2 else s
  | Take trace => (take_response trace s).2
  | Abandon trace => clear_pending_trace trace s
  | Detach trace => (report_result false trace false s).2
  | Shutdown => stopped s
  end.

Definition rpc_run : list RpcOp → Rpc → Rpc := λ ops s, foldl rpc_step s ops.

(** The whole call, under a fresh trace; [meanwhile] is what the other threads do until it
    ends. *)
Definition execute_tool_internal (p : VelixProcess) (instruction : string) (args : json)
    (user_id_override intent_override : option string) (trace : string)
    (exec_retry_limit : Z) (attempts : json → nat → Attempt) (meanwhile : list RpcOp)
    (bus_wait : Z) : ST Rpc json :=
  let launch_req := launch_request p trace instruction args (tool_user p user_id_override)
                      (tool_intent p intent_override) in
  modify (register_trace trace);;
  st_catch
    (modify (rpc_run meanwhile);;
     lift (launch_tool exec_retry_limit (attempts launch_req));;
     tool_result instruction trace bus_wait)
    (λ what, modify (clear_pending_trace trace);; lift (Throw what)).

(** What the hook is given once it has ended. *)
Definition finish_hook (p : VelixProcess) (user_id_override : option string)
    (result : exc json) : option json :=
  match result with
  | Ok r => Some (hook_argument (tool_user p user_id_override) r)
  | Throw what => Some (hook_argument (tool_user p user_id_override) (tool_error what))
  | UB => None
  end.

(** ** The launch of a tool *)

Definition attempt_retried (attempts : nat → Attempt) (j : nat) : Prop :=
  ∃ e, launch_attempt (attempts j) = Throw e ∧ retryable e = true.

(** How the loop ends: at its [k]-th attempt, all those before having been retried. *)
Lemma launch_loop_spec attempts remaining i last res made :
  launch_loop attempts remaining i last = Ok (res, made) → remaining ≠ O →
  ∃ k, (i ≤ k < i + remaining)%nat ∧ made = S k ∧
    (∀ j, (i ≤ j < k)%nat → attempt_retried attempts j) ∧
    match res with
    | None => launch_attempt (attempts k) = Ok tt
    | Some e => launch_attempt (attempts k) = Throw e ∧
                (retryable e = true → S k = i + remaining)%nat
    end.
Proof.
  revert i last. induction remaining as [|remaining IH]; [done|]. intros i last H _. simpl in H.
  destruct (launch_attempt (attempts i)) as [[]|e|] eqn:Ha; [..|done].
  { injection H as <- <-. exists i. split_and!; try done; lia. }
  destruct (retryable e && bool_decide (remaining ≠ 0%nat)) eqn:Hr.
  - apply andb_true_iff in Hr as [Hr Hne%bool_decide_eq_true].
    destruct (IH (S i) e H Hne) as (k & Hk & -> & Hbefore & Hres).
    exists k. split_and!; [lia|lia|done| |].
    + intros j Hj. destruct (decide (j = i)) as [->|]; [by exists e|apply Hbefore; lia].
    + destruct res; [|done]. destruct Hres as [? Hl]. split; [done|]. intros ?%Hl. lia.
  - injection H as <- <-. exists i. split_and!; try done; try lia.
    intros Hre. rewrite Hre in Hr. apply bool_decide_eq_false in Hr. lia.
Qed.

Lemma launch_loop_total attempts remaining i last :
  (∀ j, launch_attempt (attempts j) ≠ UB) →
  ∃ res made, launch_loop attempts remaining i last = Ok (res, made).
Proof.
  intros Hub. revert i last. induction remaining as [|remaining IH]; intros; simpl; [by eauto|].
  destruct (launch_attempt (attempts i)) as [| |] eqn:Ha; [by eauto| |by destruct (Hub i)].
  case_match; [apply IH|by eauto].
Qed.

(** C36 How many times a launch is tried: [EXEC_RETRY_LIMIT] times, and at least once.  It succeeds
    at the first attempt that the executioner acknowledges, when every attempt before it failed
    with an error that is retried; otherwise it fails with the error of the last attempt it
    made, which is one that is not retried or the last one that is allowed. *)
Theorem launch_tool_spec limit attempts :
  (∀ j, launch_attempt (attempts j) ≠ UB) →
  let max_attempts := Z.to_nat (Z.max 1 limit) in
  ∃ k, (k < max_attempts)%nat ∧ (∀ j, (j < k)%nat → attempt_retried attempts j) ∧
    ((launch_attempt (attempts k) = Ok tt ∧ launch_tool limit attempts = Ok (S k)) ∨
     ∃ e, launch_attempt (attempts k) = Throw e ∧
       (retryable e = true → S k = max_attempts) ∧
       launch_tool limit attempts =
         Throw (if contains_str e "Velix Launcher Failure" then e
                else "Velix Executioner Link Failed: " +:+ e)).
Proof.
  intros Hub max_attempts.
  destruct (launch_loop_total attempts max_attempts 0 "unknown" Hub) as (res & made & Hl).
  destruct (launch_loop_spec _ _ _ _ _ _ Hl) as (k & Hk & -> & Hbefore & Hres); [lia|].
  exists k. split_and!; [lia|intros j Hj; apply Hbefore; lia|].
  unfold launch_tool. fold max_attempts. rewrite Hl. simpl. destruct res as [e|].
  - right. destruct Hres as [He Hlast]. exists e. split_and!; [done| |by case_match].
    intros Hr. rewrite Hlast by done. lia.
  - by left.
Qed.

(** ** Replies reach the call that waits for them *)

(** The payload that a read brings for a trace. *)
Definition reply_for (trace : string) (read : BusRead) : option json :=
  match read with
  | BusMessage msg =>
      match bus_payload msg with
      | Ok (Some (t, payload)) => if decide (t = trace) then Some payload else None
      | _ => None
      end
  | _ => None
  end.

(** A read after which the listener stops. *)
Definition fatal (read : BusRead) : bool :=
  match (listener_round read Rpc_init).1 with Ok true => false | _ => true end.

(** The replies for a trace among what the listener reads before it stops. *)
Fixpoint replies (trace : string) (ops : list RpcOp) : list json :=
  match ops with
  | [] => []
  | Shutdown :: _ => []
  | Deliver read :: ops =>
      if fatal read then [] else option_list (reply_for trace read) ++ replies trace ops
  | _ :: ops => replies trace ops
  end.

(** Operations on other traces. *)
Definition op_elsewhere (trace : string) (op : RpcOp) : Prop :=
  match op with
  | Begin t | Take t | Abandon t | Detach t => t ≠ trace
  | Deliver _ | Shutdown => True
  end.

Lemma bus_payload_defined msg : bus_payload msg ≠ UB.
Proof.
  unfold bus_payload. pose proof (value_string_defined msg).
  destruct (value_string msg "message_type" "") eqn:?; simpl; [|done|naive_solver].
  case_decide; simpl.
  - destruct (value_string msg "trace_id" "") eqn:?; simpl; [|done|naive_solver].
    unfold value_json, value, type_error. by repeat case_match.
  - destruct (value_string msg "status" "") eqn:?; simpl; [|done|naive_solver].
    case_decide; [|done].
    destruct (value_string msg "error" "unknown") eqn:?; simpl; [done|done|naive_solver].
Qed.

(** What a round of the listener does: a read that is fatal only stops it; another one files the
    payload of a reply that is waited for, and leaves the table of waits alone. *)
Lemma listener_round_spec read s :
  let s' := (listener_round read s).2 in
  pending_response_traces s' = pending_response_traces s ∧
  if fatal read then is_running s' = false ∧ response_map s' = response_map s
  else is_running s' = is_running s ∧
    ∀ trace, trace ≠ "" →
      response_map s' !! trace =
        match reply_for trace read with
        | Some payload => if decide (trace ∈ pending_response_traces s) then Some payload
                          else response_map s !! trace
        | None => response_map s !! trace
        end.
Proof.
  unfold fatal, listener_round, st_catch, bus_message, mbind, ST_bind, mret, ST_ret, lift, modify.
  destruct read as [msg| |what]; simpl; [|done|by case_match].
  pose proof (bus_payload_defined msg).
  destruct (bus_payload msg) as [[[t payload]|]|what|]; simpl; [|done|by case_match|done].
  unfold route_message. split; [by case_decide|]. split; [by case_decide|]. intros trace Hne.
  destruct (decide (t = trace)) as [->|Ht].
  - case_decide as Hp; simpl.
    + rewrite lookup_insert_eq, decide_True; [done|by destruct Hp].
    + rewrite decide_False; [done|]. naive_solver.
  - case_decide; simpl; [by rewrite lookup_insert_ne by done|done].
Qed.

(** The reply that a wait finds when the other threads have run [ops]. *)
Definition answer (trace : string) (ops : list RpcOp) (before : option json) : option json :=
  match last (replies trace ops) with Some payload => Some payload | None => before end.

Lemma answer_cons trace op ops before :
  answer trace (op :: ops) before =
    match op with
    | Shutdown => before
    | Deliver read =>
        if fatal read then before
        else answer trace ops (match reply_for trace read with
                               | Some payload => Some payload
                               | None => before
                               end)
    | _ => answer trace ops before
    end.
Proof.
  unfold answer. destruct op; try done. simpl. destruct (fatal read); [done|].
  destruct (reply_for trace read) as [payload|]; [|done]. simpl.
  rewrite last_cons. by destruct (last _).
Qed.

Lemma rpc_run_stopped trace ops s :
  Forall (op_elsewhere trace) ops → is_running s = false →
  trace ∈ pending_response_traces s →
  trace ∈ pending_response_traces (rpc_run ops s) ∧
  response_map (rpc_run ops s) !! trace = response_map s !! trace.
Proof.
  revert s. induction ops as [|op ops IH]; intros s Hops Hrun Hp; [done|].
  apply Forall_cons in Hops as [Hop Hops].
  assert (is_running (rpc_step s op) = false ∧
          trace ∈ pending_response_traces (rpc_step s op) ∧
          response_map (rpc_step s op) !! trace = response_map s !! trace) as (Hr' & Hp' & Hm').
  { destruct op as [t|read|t|t|t|]; simpl in *.
    - split_and!; [done|set_solver|done].
    - by rewrite Hrun.
    - unfold take_response. destruct (response_map s !! t); simpl; split_and!; try done;
        [set_solver|by rewrite lookup_delete_ne|set_solver].
    - split_and!; [done|set_solver|done].
    - case_decide; simpl; [done|]. split_and!; [done|set_solver|by rewrite lookup_delete_ne].
    - done. }
  rewrite <- Hm'. by apply IH.
Qed.

(** While a trace is waited for, the table holds the last reply for it. *)
Lemma rpc_run_answer trace ops s :
  trace ≠ "" → Forall (op_elsewhere trace) ops → is_running s = true →
  trace ∈ pending_response_traces s →
  trace ∈ pending_response_traces (rpc_run ops s) ∧
  response_map (rpc_run ops s) !! trace = answer trace ops (response_map s !! trace).
Proof.
  intros Hne. revert s. induction ops as [|op ops IH]; intros s Hops Hrun Hp; [done|].
  pose proof Hops as [Hop Hops']%Forall_cons. rewrite answer_cons.
  destruct op as [t|read|t|t|t|]; simpl in Hop |- *.
  - apply (IH (register_trace t s)); [done..|]. set_solver.
  - rewrite Hrun. destruct (listener_round_spec read s) as [Hp' Hm].
    destruct (fatal read).
    + destruct Hm as [Hr' Hm]. rewrite <- Hm. apply rpc_run_stopped; [done..|by rewrite Hp'].
    + destruct Hm as [Hr' Hm].
      specialize (IH (listener_round read s).2 Hops'). rewrite Hm in IH by done.
      destruct (reply_for trace read); [rewrite decide_True in IH by done|];
        apply IH; congruence.
  - destruct (take_response t s) as [o s'] eqn:Ht. unfold take_response in Ht.
    specialize (IH s' Hops').
    destruct (response_map s !! t) eqn:Hl; simplify_eq/=; [|apply IH; [done|set_solver]].
    rewrite lookup_delete_ne in IH by done. apply IH; [done|set_solver].
  - apply (IH (clear_pending_trace t s)); [done..|]. set_solver.
  - case_decide; [by apply IH|].
    specialize (IH (with_responses (delete t) (clear_pending_trace t s)) Hops'). simpl in IH.
    rewrite lookup_delete_ne in IH by done. apply IH; [done|set_solver].
  - apply (rpc_run_stopped trace ops (stopped s)); done.
Qed.

(** What a wait under a fresh trace finds. *)
Definition waited (instruction trace : string) (bus_wait : Z) (meanwhile : list RpcOp) : exc json :=
  match last (replies trace meanwhile) with
  | Some payload => check_result instruction payload
  | None => Throw ("Velix Package Timeout: " +:+ instruction +:+
                   " exceeded reactive limit of " +:+ pretty bus_wait +:+ " mins")
  end.

Section wait.
Context (trace : string) (meanwhile : list RpcOp) (s : Rpc).
Context (Hne : trace ≠ "") (Hrun : is_running s = true).
Context (Hfresh : trace ∉ pending_response_traces s) (Hnone : response_map s !! trace = None).
Context (Hops : Forall (op_elsewhere trace) meanwhile).

Lemma tool_wait instruction bus_wait :
  ∃ s', tool_result instruction trace bus_wait (rpc_run meanwhile (register_trace trace s)) =
          (waited instruction trace bus_wait meanwhile, s') ∧
    (trace ∉ pending_response_traces s') ∧ response_map s' !! trace = None.
Proof.
  destruct (rpc_run_answer trace meanwhile (register_trace trace s) Hne Hops Hrun)
    as [Hp1 Hm1]; [set_solver|]. simpl in Hm1. rewrite Hnone in Hm1.
  unfold tool_result, take_response, waited, answer in *.
  destruct (last (replies trace meanwhile)) as [payload|]; rewrite Hm1;
    (eexists; split; [done|]); simpl; [rewrite lookup_delete_eq|]; split; set_solver.
Qed.

Lemma execute_tool_launched p instruction args user intent limit attempts bus_wait made :
  launch_tool limit (attempts (launch_request p trace instruction args (tool_user p user)
    (tool_intent p intent))) = Ok made →
  (execute_tool_internal p instruction args user intent trace limit attempts meanwhile bus_wait
     s).1 = waited instruction trace bus_wait meanwhile.
Proof.
  intros Hl. destruct (tool_wait instruction bus_wait) as (s' & Hw & _).
  unfold execute_tool_internal, st_catch, mbind, ST_bind, lift, modify. rewrite Hl, Hw.
  by destruct (waited _ _ _ _).
Qed.
End wait.

(** A tool call gets its own reply, whatever the other threads of the process do to the tables
    meanwhile - other calls that begin, end and time out, messages on other traces, reports
    out of band, a shutdown: when the launch is acknowledged the call returns the last payload
    that the listener read under the call's trace before it stopped - or throws, when that
    payload says that the tool was terminated -, and when there is none it throws that the
    time limit was reached; a launch that fails ends the call with the launch's error.  In
    every case nobody waits under the trace afterwards. *)
Lemma execute_tool_spec p instruction args user intent trace limit attempts meanwhile bus_wait
    s s' result :
  trace ≠ "" → is_running s = true →
  trace ∉ pending_response_traces s → response_map s !! trace = None →
  Forall (op_elsewhere trace) meanwhile →
  execute_tool_internal p instruction args user intent trace limit attempts meanwhile bus_wait s =
    (result, s') → result ≠ UB →
  let request := launch_request p trace instruction args (tool_user p user)
                   (tool_intent p intent) in
  (trace ∉ pending_response_traces s') ∧
  match launch_tool limit (attempts request) with
  | Ok _ =>
      response_map s' !! trace = None ∧ result = waited instruction trace bus_wait meanwhile
  | Throw what => result = Throw what
  | UB => False
  end.
Proof.
  intros Hne Hrun Hp Hm Hops H Hub request.
  destruct (tool_wait trace meanwhile s Hne Hrun Hp Hm Hops instruction bus_wait)
    as (s1 & Hw & Hp1 & Hm1).
  unfold execute_tool_internal in H. fold request in H.
  unfold st_catch, mbind, ST_bind, lift, modify in H. rewrite Hw in H.
  destruct (launch_tool limit (attempts request)) as [made|what|];
    [|by simplify_eq/=; set_solver|by simplify_eq].
  destruct (waited instruction trace bus_wait meanwhile); simplify_eq/=.
  all: by split_and!; [set_solver|..].
Qed.
