(* ===== verification/SdkLlm.v ===== *)
(** * The loop of requests and tool calls (src/runtime/sdk/cpp/velix_process.cpp)

    [call_llm_internal] sends a request to the scheduler, runs the tool calls of the reply and
    sends their results in the next request, until a reply has no calls.  What the scheduler
    does with a request is an argument: the outcome of connecting and sending, and what each
    read of the socket then delivers.  What a tool call returns is an argument as well, since
    the calls of a reply run concurrently; [Sdk] has the tool call itself. *)

From S2P Require Import Prelude Json StringUtils Sdk.

(** ** The request and the reply *)

Definition resolve_effective_mode (mode convo_id effective_user_id : string) (is_handler : bool) :
    string :=
  if decide (mode ≠ "") then mode
  else if decide (convo_id = "" ∧ effective_user_id = "") then "simple"
  else if bool_decide (effective_user_id ≠ "") && is_handler then "user_conversation"
  else "conversation".

(** What happens at a read of the scheduler's socket: whether the process runs and the deadline
    has passed just before, and the frame, a timeout, or an error. *)
Inductive Read :=
  | ReadRaw (raw : string)
  | ReadTimeout (what : string)
  | ReadError (what : string).

Record StreamRead := { sr_running : bool; sr_late : bool; sr_read : Read }.

(** The scheduler's side of one request. *)
Record Exchange := {
  ex_connect : exc ();
  ex_send : exc ();
  ex_reads : nat → StreamRead;
}.

(** What a call of the loop does: the process's status, what was sent, and what [on_token] was
    given. *)
Record LlmRun := {
  lr_status : Status;
  lr_sent : list json;
  lr_tokens : list string;
}.

Definition LlmRun_init : LlmRun :=
  {| lr_status := WaitingLlm; lr_sent := []; lr_tokens := [] |}.

Definition set_status (st : Status) (r : LlmRun) : LlmRun :=
  {| lr_status := st; lr_sent := lr_sent r; lr_tokens := lr_tokens r |}.

Definition add_sent (envelope : json) (r : LlmRun) : LlmRun :=
  {| lr_status := lr_status r; lr_sent := lr_sent r ++ [envelope]; lr_tokens := lr_tokens r |}.

Definition add_token (delta : string) (r : LlmRun) : LlmRun :=
  {| lr_status := lr_status r; lr_sent := lr_sent r; lr_tokens := lr_tokens r ++ [delta] |}.

(** The arguments of [call_llm_internal]. *)
Record LlmCall := {
  lc_convo_id : string;
  lc_user_message : string;
  lc_system_message : string;
  lc_user_id : string;
  lc_mode : string;
  lc_stream : bool;
  lc_intent : option string;
  lc_tool_result : option json;
}.

Section llm.
Context (parse : string → exc json) (dump : json → exc string).
(** [on_token], where it is set: an exception it throws is caught. *)
Context (on_token : option (string → exc ())).
(** [generate_uuid], the i-th time. *)
Context (uuid : nat → string).

(** A frame of a stream: whether it was a chunk.  Any exception, the callback's as well, makes
    it the final reply. *)
Definition stream_chunk (raw : string) : ST LlmRun bool :=
  st_catch
    (message ← lift (parse raw);
     message_type ← lift (value_string message "message_type" "");
     if decide (message_type = "LLM_STREAM_CHUNK") then
       delta ← lift (value_string message "delta" "");
       match on_token with
       | Some f =>
           if decide (delta = "") then mret true
           else modify (add_token delta);; lift (f delta);; mret true
       | None => mret true
       end
     else mret false)
    (λ _, mret false).

(** At most [remaining] further reads, from the i-th. *)
Fixpoint receive_stream (reads : nat → StreamRead) (remaining i : nat) : ST LlmRun string :=
  match remaining with
  | O => lift (Throw "scheduler stream chunk limit exceeded")
  | S remaining =>
      if negb (sr_running (reads i)) then lift (Throw "process shutdown during streaming")
      else if sr_late (reads i) then lift (Throw "scheduler stream deadline exceeded")
      else
        match sr_read (reads i) with
        | ReadTimeout _ => receive_stream reads remaining (S i)
        | ReadError what =>
            if is_transient_socket_error what then receive_stream reads remaining (S i)
            else lift (Throw what)
        | ReadRaw raw =>
            is_chunk ← stream_chunk raw;
            if is_chunk : bool then receive_stream reads remaining (S i) else mret raw
        end
  end.

(** [recv_json_parsed]. *)
Definition recv_reply (read : Read) : exc json :=
  match read with
  | ReadRaw raw => try_catch (parse raw) (λ what, Throw ("Invalid JSON: " +:+ what))
  | ReadTimeout what | ReadError what => Throw what
  end.

(** The envelope around a payload, whose fields it is added to. *)
Definition llm_envelope (p : VelixProcess) (request_uuid trace_id : string) (payload : json) :
    exc json :=
  e ← set_field "message_type" (JString "LLM_REQUEST") payload;
  e ← set_field "request_id" (JString ("req_" +:+ pretty (vp_velix_pid p) +:+ "_" +:+
                                       str_take 8 request_uuid)) e;
  e ← set_field "trace_id" (JString trace_id) e;
  e ← set_field "tree_id" (JString (vp_tree_id p)) e;
  e ← set_field "source_pid" (JInt (vp_velix_pid p)) e;
  priority ← value_int e "priority" 1;
  set_field "priority" (JInt priority) e.

(** The [n]-th request of the call. *)
Definition dispatch_llm_request (p : VelixProcess) (max_chunks : Z) (n : nat) (payload : json)
    (request_streaming : bool) (ex : Exchange) : ST LlmRun json :=
  match ex_connect ex with
  | UB => lift UB
  | Throw _ => lift (Throw ("VelixProcess SDK: Failed to connect to " +:+
                            "scheduler after retry attempts."))
  | Ok _ =>
      envelope ← lift (llm_envelope p (uuid (2 * n + 1)) (uuid (2 * n)) payload);
      modify (add_sent envelope);;
      lift (ex_send ex);;
      if negb request_streaming then lift (recv_reply (sr_read (ex_reads ex 0)))
      else
        raw ← receive_stream (ex_reads ex) (Z.to_nat max_chunks) 0;
        lift (try_catch (parse raw) (λ _, mret (JObject [])))
  end.

(** ** The tool calls of a reply *)

(** The result of a tool call for the model; [execute] is the call. *)
Definition tool_message (execute : string → json → exc json) (tool_call : json) : exc json :=
  if negb (is_object tool_call) then Throw "Malformed tool_call: expected object"
  else
    fn ← value_json tool_call "function" (JObject []);
    tool_name ← value_string fn "name" "";
    if decide (tool_name = "") then Throw "Malformed tool_call: missing function.name"
    else
      tool_args ← value_json fn "arguments" (JObject []);
      tool_call_id ← value_string tool_call "id" "";
      if decide (tool_call_id = "") then Throw "Malformed tool_call: missing id"
      else
        tool_res ← try_catch (execute tool_name tool_args) (λ what,
          mret (JObject [("status", JString "error"); ("error", JString "tool_execution_failed");
                         ("message", JString what); ("tool", JString tool_name)]));
        content ← dump tool_res;
        mret (JObject [("role", JString "tool"); ("tool_call_id", JString tool_call_id);
                       ("content", JString content)]).

(** An exception of the library for JSON is not a [runtime_error]. *)
Definition is_runtime_error (what : string) : bool := negb (starts_with what "[json.exception.").

(** The results in the order of the calls: a call whose value has the wrong type is left out, a
    malformed one ends the loop. *)
Fixpoint collect_tool_messages (futures : list (exc json)) : exc (list json) :=
  match futures with
  | [] => mret []
  | future :: futures =>
      match future with
      | Ok message => messages ← collect_tool_messages futures; mret (message :: messages)
      | Throw what =>
          if is_runtime_error what then Throw what else collect_tool_messages futures
      | UB => UB
      end
  end.

(** ** The loop *)

Definition base_payload (p : VelixProcess) (effective_mode effective_user_id : string)
    (stream : bool) : list (string * json) :=
  [("mode", JString effective_mode); ("owner_pid", JInt (vp_velix_pid p));
   ("stream", JBool stream)] ++
  (if decide (effective_mode = "simple") then [] else [("user_id", JString effective_user_id)]).

(** What the next request carries besides the base. *)
Record Pending := {
  pn_convo_id : string;
  pn_system_message : string;
  pn_user_message : string;
  pn_tool_messages : list json;
}.

Definition request_payload (base : list (string * json)) (stream : bool) (pn : Pending) : json :=
  let payload := assoc_set "convo_id" (JString (pn_convo_id pn)) base in
  let payload := if decide (pn_system_message pn = "") then payload
                 else assoc_set "system_message" (JString (pn_system_message pn)) payload in
  let payload := if decide (pn_user_message pn = "") then payload
                 else assoc_set "user_message" (JString (pn_user_message pn)) payload in
  let payload := assoc_set "stream" (JBool stream) payload in
  JObject match pn_tool_messages pn with
          | [] => payload
          | [message] => assoc_set "tool_message" message payload
          | messages => assoc_set "tool_messages" (JArray messages) payload
          end.

(** The tool calls of a reply. *)
Definition reply_calls (reply : json) : list json :=
  match find reply "tool_calls" with Some (JArray calls) => calls | _ => [] end.

Definition returned_convo_id (reply : json) (active : string) : string :=
  match find reply "convo_id" with
  | Some (JString c) => if decide (c = "") then active else c
  | _ => active
  end.

(** One round of the loop: the final text, or what the next round sends.  [execute k] is the
    [k]-th tool call of the reply. *)
Definition llm_round (p : VelixProcess) (max_chunks : Z) (base : list (string * json))
    (stream : bool) (n : nat) (serve : json → Exchange)
    (execute : nat → string → json → exc json) (pn : Pending) :
    ST LlmRun (string + Pending) :=
  let payload := request_payload base stream pn in
  request_streaming ← lift (value_bool payload "stream" false);
  reply ← dispatch_llm_request p max_chunks n payload request_streaming (serve payload);
  status ← lift (value_string reply "status" "error");
  if decide (status ≠ "ok") then
    modify (set_status Error);;
    error ← lift (value_string reply "error" "");
    lift (Throw ("Scheduler rejected: " +:+ error))
  else
    response_text ← lift (value_string reply "response" "");
    match reply_calls reply with
    | [] => modify (set_status Running);; mret (inl response_text)
    | calls =>
        match find reply "assistant_message" with
        | Some (JObject _) =>
            modify (set_status Running);;
            tool_messages ← st_catch
              (lift (collect_tool_messages (imap (λ k, tool_message (execute k)) calls)))
              (λ what, modify (set_status Error);; lift (Throw what));
            match tool_messages with
            | [] => modify (set_status Running);; mret (inl response_text)
            | _ =>
                modify (set_status WaitingLlm);;
                mret (inr {| pn_convo_id := returned_convo_id reply (pn_convo_id pn);
                             pn_system_message := ""; pn_user_message := "";
                             pn_tool_messages := tool_messages |})
            end
        | _ =>
            modify (set_status Error);;
            lift (Throw "Scheduler protocol violation: missing assistant_message object")
        end
    end.

(** [running n]: [is_running] before the [n]-th round; [serve n]: what the scheduler does with
    its request; [execute n]: its tool calls. *)
Fixpoint llm_loop (p : VelixProcess) (max_chunks max_iterations : Z)
    (base : list (string * json)) (stream : bool) (running : nat → bool)
    (serve : nat → json → Exchange) (execute : nat → nat → string → json → exc json)
    (remaining n : nat) (pn : Pending) : ST LlmRun string :=
  let exceeded : ST LlmRun string :=
    modify (set_status Error);;
    mret ("Failure: Agent state machine exceeded max " +:+ pretty max_iterations +:+
          " iterations.") in
  match remaining with
  | O => exceeded
  | S remaining =>
      if running n then
        next ← llm_round p max_chunks base stream n (serve n) (execute n) pn;
        match next with
        | inl response_text => mret response_text
        | inr pn =>
            llm_loop p max_chunks max_iterations base stream running serve execute
              remaining (S n) pn
        end
      else exceeded
  end.

Definition pending_tool_messages (tool_result : option json) : list json :=
  match tool_result with None => [] | Some (JArray l) => l | Some j => [j] end.

(** Whom the call is for, the intent of its tools, and the mode. *)
Definition effective_user_id (p : VelixProcess) (c : LlmCall) : string :=
  if decide (lc_user_id c = "") then vp_user_id p else lc_user_id c.

Definition effective_intent (p : VelixProcess) (c : LlmCall) : option string :=
  match lc_intent c with
  | Some i => if vp_is_handler p && is_supported_intent_value i then Some i else None
  | None => None
  end.

Definition effective_mode (p : VelixProcess) (c : LlmCall) : string :=
  resolve_effective_mode (lc_mode c) (lc_convo_id c) (effective_user_id p c) (vp_is_handler p).

Definition call_base (p : VelixProcess) (c : LlmCall) : list (string * json) :=
  base_payload p (effective_mode p c) (effective_user_id p c) (lc_stream c).

Definition first_pending (c : LlmCall) : Pending := {|
  pn_convo_id := lc_convo_id c; pn_system_message := lc_system_message c;
  pn_user_message := lc_user_message c;
  pn_tool_messages := pending_tool_messages (lc_tool_result c) |}.

(** [execute n k user intent] is [execute_tool_internal] for the [k]-th call of the [n]-th
    reply. *)
Definition call_llm_internal (p : VelixProcess) (max_chunks max_iterations : Z)
    (running : nat → bool) (serve : nat → json → Exchange)
    (execute : nat → nat → string → json → option string → option string → exc json)
    (c : LlmCall) : ST LlmRun string :=
  modify (set_status WaitingLlm);;
  let user := if decide (effective_user_id p c = "") then None
              else Some (effective_user_id p c) in
  llm_loop p max_chunks max_iterations (call_base p c) (lc_stream c) running serve
    (λ n k name args, execute n k name args user (effective_intent p c))
    (Z.to_nat max_iterations) 0 (first_pending c).
End llm.

(** The three calls a process makes. *)
Definition call_llm (convo_id user_message system_message user_id mode : string) : LlmCall := {|
  lc_convo_id := convo_id; lc_user_message := user_message;
  lc_system_message := system_message; lc_user_id := user_id; lc_mode := mode;
  lc_stream := false; lc_intent := None; lc_tool_result := None |}.

Definition call_llm_stream (convo_id user_message system_message user_id mode : string) :
    LlmCall := {|
  lc_convo_id := convo_id; lc_user_message := user_message;
  lc_system_message := system_message; lc_user_id := user_id; lc_mode := mode;
  lc_stream := true; lc_intent := None; lc_tool_result := None |}.

Definition call_llm_resume (convo_id : string) (tool_result : json) (user_id : string) :
    LlmCall := {|
  lc_convo_id := convo_id; lc_user_message := ""; lc_system_message := "";
  lc_user_id := user_id; lc_mode := ""; lc_stream := true; lc_intent := None;
  lc_tool_result := Some tool_result |}.

(** ** What a request carries *)

(** The results of tool calls in a request. *)
Definition tool_results (payload : json) : list json :=
  match find payload "tool_message", find payload "tool_messages" with
  | Some m, _ => [m]
  | None, Some (JArray l) => l
  | None, _ => []
  end.

Lemma find_set key v kvs : find (JObject (assoc_set key v kvs)) key = Some v.
Proof. apply assoc_set_eq. Qed.

Lemma find_set_ne key key' v kvs :
  key' ≠ key → find (JObject (assoc_set key v kvs)) key' = find (JObject kvs) key'.
Proof. apply assoc_set_ne. Qed.

Create Rewrite HintDb velix_find.
#[export] Hint Rewrite find_set : velix_find.
#[export] Hint Rewrite find_set_ne using done : velix_find.

(** The members of a request to the model. *)
Lemma request_payload_spec p mode user stream pn :
  let r := request_payload (base_payload p mode user stream) stream pn in
  find r "mode" = Some (JString mode) ∧
  find r "stream" = Some (JBool stream) ∧
  find r "convo_id" = Some (JString (pn_convo_id pn)) ∧
  find r "user_id" = (if decide (mode = "simple") then None else Some (JString user)) ∧
  find r "system_message" = (if decide (pn_system_message pn = "") then None
                             else Some (JString (pn_system_message pn))) ∧
  find r "user_message" = (if decide (pn_user_message pn = "") then None
                           else Some (JString (pn_user_message pn))) ∧
  tool_results r = pn_tool_messages pn ∧
  (contains r "tool_message" || contains r "tool_messages" =
   bool_decide (pn_tool_messages pn ≠ [])) ∧
  (∀ key, key ∈ ["message_type"; "payload"; "messages"; "request_id"; "trace_id"; "tree_id";
                 "source_pid"; "priority"; "tool_result"] → find r key = None).
Proof.
  intros r. subst r. unfold request_payload, tool_results, contains, base_payload.
  assert (∀ (P : string → Prop) l, Forall P l → ∀ k, k ∈ l → P k) as HF
    by (intros P l Hl k Hk; by eapply Forall_forall in Hl).
  destruct (decide (mode = "simple")), (decide (pn_system_message pn = "")),
    (decide (pn_user_message pn = "")), (pn_tool_messages pn) as [|m [|m' l]];
    (split_and!; [autorewrite with velix_find; done..|]; apply HF; repeat constructor;
     autorewrite with velix_find; done).
Qed.

Lemma llm_envelope_spec p request_uuid trace payload :
  is_object payload → find payload "priority" = None →
  ∃ e, llm_envelope p request_uuid trace payload = Ok e ∧ is_object e ∧
    find e "message_type" = Some (JString "LLM_REQUEST") ∧
    find e "request_id" = Some (JString ("req_" +:+ pretty (vp_velix_pid p) +:+ "_" +:+
                                         str_take 8 request_uuid)) ∧
    find e "trace_id" = Some (JString trace) ∧
    find e "tree_id" = Some (JString (vp_tree_id p)) ∧
    find e "source_pid" = Some (JInt (vp_velix_pid p)) ∧
    find e "priority" = Some (JInt 1) ∧
    (∀ key, key ∉ ["message_type"; "request_id"; "trace_id"; "tree_id"; "source_pid"; "priority"] →
       find e key = find payload key).
Proof.
  intros Ho Hp. destruct payload as [| | | | | |kvs]; try done.
  unfold llm_envelope. cbn [set_field mbind exc_bind].
  match goal with |- context [value_int ?e "priority" 1] =>
    assert (value_int e "priority" 1 = Ok 1) as -> end.
  { apply value_absent; [done|]. by rewrite !find_set_ne by done. }
  cbn [set_field mbind exc_bind]. eexists. split; [done|]. split; [done|].
  split_and!; [autorewrite with velix_find; done..|]. intros key Hkey.
  rewrite !find_set_ne; [done|..]; intros ->; apply Hkey; set_solver.
Qed.

(** ** The tool calls *)

(** The message that answers a call. *)
Definition tool_answer (dump : json → exc string) (execute : string → json → exc json)
    (call m : json) : Prop :=
  ∃ id fn name args res content,
    find call "id" = Some (JString id) ∧ id ≠ "" ∧ find call "function" = Some fn ∧
    find fn "name" = Some (JString name) ∧ name ≠ "" ∧
    value_json fn "arguments" (JObject []) = Ok args ∧
    (execute name args = Ok res ∨
     ∃ what, execute name args = Throw what ∧ find res "status" = Some (JString "error") ∧
             find res "message" = Some (JString what) ∧ find res "tool" = Some (JString name)) ∧
    dump res = Ok content ∧
    m = JObject [("role", JString "tool"); ("tool_call_id", JString id);
                 ("content", JString content)].

Lemma value_nonempty j key s : value_string j key "" = Ok s → s ≠ "" → find j key = Some (JString s).
Proof. intros [?|[_ ->]]%value_string_inv ?; done. Qed.

Lemma tool_message_spec dump execute call m :
  tool_message dump execute call = Ok m → tool_answer dump execute call m.
Proof.
  unfold tool_message. intros H. exc_run H.
  exists a2, a, a0, a1, a3, a4. split_and!; eauto using value_nonempty.
  - apply value_json_inv in E as [?|[_ ->]]; [done|].
    apply value_string_inv in E0 as [?|[_ ->]]; done.
  - unfold try_catch in E3. destruct (execute a0 a1) as [res|what|]; simplify_eq/=; [by left|].
    right. injection E3 as <-. by exists what.
Qed.

(** The calls of a reply that are answered, with their position. *)
Definition answered (dump : json → exc string) (execute : nat → string → json → exc json)
    (calls messages : list json) : Prop :=
  ∃ taken : list (nat * json),
    taken `sublist_of` imap pair calls ∧
    Forall2 (λ kc m, tool_answer dump (execute kc.1) kc.2 m) taken messages ∧
    (∀ k call, calls !! k = Some call → (k, call) ∉ taken →
       ∃ what, tool_message dump (execute k) call = Throw what ∧ is_runtime_error what = false).

Lemma collect_spec dump execute (items : list (nat * json)) messages :
  collect_tool_messages ((λ kc, tool_message dump (execute kc.1) kc.2) <$> items) = Ok messages →
  ∃ taken, taken `sublist_of` items ∧
    Forall2 (λ kc m, tool_answer dump (execute kc.1) kc.2 m) taken messages ∧
    (∀ kc, kc ∈ items → kc ∉ taken → ∃ what, tool_message dump (execute kc.1) kc.2 = Throw what ∧
       is_runtime_error what = false).
Proof.
  revert messages. induction items as [|kc items IH]; intros messages H; simpl in H.
  { injection H as <-. exists []. split_and!; [done|constructor|by intros ? ?%not_elem_of_nil]. }
  destruct (tool_message dump (execute kc.1) kc.2) as [m|what|] eqn:Hm; [| |done].
  - exc_run H. destruct (IH _ E) as (taken & Hs & Hf & Hn). exists (kc :: taken). split_and!.
    + by constructor.
    + constructor; [by apply tool_message_spec|done].
    + intros kc' [->|Hin]%elem_of_cons Ht; [by destruct Ht; left|].
      apply Hn; [done|]. intros ?. by destruct Ht; right.
  - destruct (is_runtime_error what) eqn:Hr; [done|].
    destruct (IH _ H) as (taken & Hs & Hf & Hn). exists taken. split_and!; [by constructor|done|].
    intros kc' [->|Hin]%elem_of_cons Ht; [by exists what|by apply Hn].
Qed.

Lemma collect_answered dump execute calls messages :
  collect_tool_messages (imap (λ k, tool_message dump (execute k)) calls) = Ok messages →
  answered dump execute calls messages.
Proof.
  intros H.
  assert (imap (λ k, tool_message dump (execute k)) calls =
    (λ kc : nat * json, tool_message dump (execute kc.1) kc.2) <$> imap pair calls) as Heq.
  { by rewrite fmap_imap. }
  rewrite Heq in H. apply collect_spec in H as (taken & Hs & Hf & Hn).
  exists taken. split_and!; [done..|]. intros k call Hk Ht.
  apply (Hn (k, call)); [|done]. apply list_elem_of_lookup_2 with k.
  by rewrite list_lookup_imap, Hk.
Qed.

(** ** The rounds *)

Section rounds.
Context (parse : string → exc json) (dump : json → exc string).
Context (on_token : option (string → exc ())) (uuid : nat → string).
Context (p : VelixProcess) (max_chunks : Z) (mode user : string) (stream : bool).
Implicit Types (pn : Pending) (ex : Exchange) (r : LlmRun).

Abbreviation base := (base_payload p mode user stream).
Abbreviation payload_of := (request_payload base stream).
Abbreviation dispatch := (dispatch_llm_request parse on_token uuid p max_chunks).

Definition envelope_of (n : nat) (pn : Pending) (e : json) : Prop :=
  llm_envelope p (uuid (2 * n + 1)) (uuid (2 * n)) (payload_of pn) = Ok e.

(** The reply that the loop reads, which does not depend on what it did before. *)
Definition scheduler_reply (n : nat) (pn : Pending) (ex : Exchange) : exc json :=
  (dispatch n (payload_of pn) stream ex LlmRun_init).1.

(** [r] and [r'] differ in their tokens. *)
Definition same_but_tokens (r r' : LlmRun) : Prop :=
  lr_status r' = lr_status r ∧ lr_sent r' = lr_sent r.

Lemma stream_chunk_pure raw r r0 :
  (stream_chunk parse on_token raw r).1 = (stream_chunk parse on_token raw r0).1 ∧
  same_but_tokens r (stream_chunk parse on_token raw r).2.
Proof.
  unfold stream_chunk, st_catch, mbind, ST_bind, mret, ST_ret, lift, modify.
  repeat (case_match; simplify_eq/=; try done).
Qed.

Lemma receive_stream_pure reads remaining i r r0 :
  (receive_stream parse on_token reads remaining i r).1 =
    (receive_stream parse on_token reads remaining i r0).1 ∧
  same_but_tokens r (receive_stream parse on_token reads remaining i r).2.
Proof.
  revert i r r0. induction remaining as [|remaining IH]; intros i r r0; simpl; [done|].
  repeat (case_match; try done).
  pose proof (stream_chunk_pure raw r r0) as [Heq [Hst Hse]].
  unfold mbind, ST_bind.
  destruct (stream_chunk parse on_token raw r) as [[b|w|] r1] eqn:Hs1,
    (stream_chunk parse on_token raw r0) as [o0 r2] eqn:Hs2; simplify_eq/=.
  - destruct b; [|done]. destruct (IH (S i) r1 r2) as [-> [Hst' Hse']].
    split; [done|]. split; congruence.
  - done.
  - done.
Qed.

Lemma dispatch_spec n pn ex r res r' :
  dispatch n (payload_of pn) stream ex r = (res, r') →
  res = scheduler_reply n pn ex ∧ lr_status r' = lr_status r ∧
  ∃ sent, lr_sent r' = lr_sent r ++ sent ∧
    (sent = [] ∨ ∃ e, sent = [e] ∧ envelope_of n pn e) ∧
    (∀ reply, res = Ok reply → sent ≠ []).
Proof.
  intros H. unfold scheduler_reply.
  unfold dispatch_llm_request, mbind, ST_bind, lift, modify in *.
  assert (∀ o : exc json, (o, r) = (res, r') → (∀ a, o ≠ Ok a) →
    ∃ sent, lr_sent r' = lr_sent r ++ sent ∧
    (sent = [] ∨ ∃ e, sent = [e] ∧ envelope_of n pn e) ∧
    (∀ reply, res = Ok reply → sent ≠ [])) as Hnone.
  { intros o [= <- <-] Hno. exists []. rewrite app_nil_r. split_and!; [done|by left|].
    by intros reply ?%Hno. }
  destruct (ex_connect ex) as [[]|w|].
  2, 3: destruct (Hnone _ H) as (sent & Hs & He & Hr); [done|]; simplify_eq/=; eauto 10.
  destruct (llm_envelope _ _ _ _) as [e|w|] eqn:He.
  2, 3: destruct (Hnone _ H) as (sent & Hs & He' & Hr); [done|]; simplify_eq/=; eauto 10.
  simpl in H |- *.
  destruct (ex_send ex) as [[]|w|]; simpl in H |- *.
  2, 3: simplify_eq/=; split_and!; [done..|]; exists [e]; split_and!;
    [done|by right; exists e|done].
  assert (∀ l, l = lr_sent r ++ [e] → ∃ sent, l = lr_sent r ++ sent ∧
    (sent = [] ∨ ∃ e, sent = [e] ∧ envelope_of n pn e) ∧
    (∀ reply, res = Ok reply → sent ≠ [])) as Hone.
  { intros l Hl. exists [e]. split_and!; [done|by right; exists e|done]. }
  destruct (negb stream); simpl in H |- *.
  { simplify_eq/=. split_and!; [done..|]. by apply Hone. }
  destruct (receive_stream_pure (ex_reads ex) (Z.to_nat max_chunks) 0 (add_sent e r)
    (add_sent e LlmRun_init)) as [Heq [Hst Hse]].
  destruct (receive_stream _ _ _ _ _ (add_sent e r)) as [[raw|w|] r1],
    (receive_stream _ _ _ _ _ (add_sent e LlmRun_init)) as [o2 r2]; simplify_eq/=;
    split_and!; try done; by apply Hone.
Qed.

Context (serve : nat → json → Exchange) (execute : nat → nat → string → json → exc json).

(** The [n]-th reply is one the loop goes on from. *)
Definition replied (n : nat) (pn : Pending) (reply : json) : Prop :=
  scheduler_reply n pn (serve n (payload_of pn)) = Ok reply ∧
  value_string reply "status" "error" = Ok "ok".

Definition next_pending (reply : json) (pn : Pending) (messages : list json) : Pending := {|
  pn_convo_id := returned_convo_id reply (pn_convo_id pn);
  pn_system_message := ""; pn_user_message := ""; pn_tool_messages := messages |}.

(** The loop ends after the [n]-th reply, with [text]. *)
Definition final_reply (n : nat) (pn : Pending) (text : string) : Prop :=
  ∃ reply, replied n pn reply ∧ value_string reply "response" "" = Ok text ∧
    answered dump (execute n) (reply_calls reply) [].

Lemma llm_round_spec n pn r res r' :
  llm_round parse dump on_token uuid p max_chunks base stream n (serve n) (execute n) pn r =
    (res, r') →
  ∃ sent, lr_sent r' = lr_sent r ++ sent ∧
    (sent = [] ∨ ∃ e, sent = [e] ∧ envelope_of n pn e) ∧
    match res with
    | Ok (inl text) => sent ≠ [] ∧ lr_status r' = Running ∧ final_reply n pn text
    | Ok (inr pn') => sent ≠ [] ∧ lr_status r' = WaitingLlm ∧
        ∃ reply messages, replied n pn reply ∧ reply_calls reply ≠ [] ∧ messages ≠ [] ∧
          answered dump (execute n) (reply_calls reply) messages ∧
          pn' = next_pending reply pn messages
    | _ => True
    end.
Proof.
  intros H. unfold llm_round in H.
  assert (value_bool (payload_of pn) "stream" false = Ok stream) as Hstream.
  { unfold value_bool. rewrite (value_present _ _ _ _ (JBool stream)); [done|].
    by destruct (request_payload_spec p mode user stream pn) as (_ & ? & _). }
  unfold mbind at 1, ST_bind at 1, lift at 1 in H. rewrite Hstream in H.
  unfold mbind at 1, ST_bind at 1 in H.
  destruct (dispatch n (payload_of pn) stream (serve n (payload_of pn)) r) as [o r1] eqn:Hd.
  apply dispatch_spec in Hd as (-> & _ & sent & Hsent & He & Hne).
  destruct (scheduler_reply n pn (serve n (payload_of pn))) as [reply|w|] eqn:Hreply.
  2, 3: simplify_eq/=; by exists sent.
  specialize (Hne reply eq_refl).
  unfold st_catch, mbind, ST_bind, mret, ST_ret, lift, modify in H.
  exists sent. assert (lr_sent r' = lr_sent r1 ∧
    match res with
    | Ok (inl text) => lr_status r' = Running ∧ final_reply n pn text
    | Ok (inr pn') => lr_status r' = WaitingLlm ∧
        ∃ reply messages, replied n pn reply ∧ reply_calls reply ≠ [] ∧ messages ≠ [] ∧
          answered dump (execute n) (reply_calls reply) messages ∧
          pn' = next_pending reply pn messages
    | _ => True
    end) as [-> Hres]; [|by split_and!; [..|destruct res as [[]| |]; naive_solver]].
  destruct (value_string reply "status" "error") as [st|w|] eqn:Hst; [|by simplify_eq/=..].
  case_decide as Hok.
  { by destruct (value_string reply "error" ""); simplify_eq/=. }
  subst st.
  destruct (value_string reply "response" "") as [text|w|] eqn:Ht; [|by simplify_eq/=..].
  destruct (reply_calls reply) as [|call calls] eqn:Hcalls.
  { simplify_eq/=. split_and!; [done..|]. exists reply. rewrite Hcalls. split_and!; [done..|].
    exists []. split_and!; [done|constructor|done]. }
  destruct (find reply "assistant_message") as [[]|]; try by simplify_eq/=.
  destruct (collect_tool_messages _) as [messages|w|] eqn:Hm; [|by simplify_eq/=..].
  apply collect_answered in Hm. rewrite <- Hcalls in Hm.
  destruct messages as [|m messages]; simplify_eq/=.
  - split_and!; [done..|]. by exists reply.
  - split_and!; [done..|]. exists reply, (m :: messages). by rewrite Hcalls in *.
Qed.

Abbreviation loop := (llm_loop parse dump on_token uuid p max_chunks).

(** The requests from the [n]-th on, and how the loop ends. *)
Lemma llm_loop_spec max_iterations running remaining n pn r res r' :
  loop max_iterations base stream running serve execute remaining n pn r = (res, r') →
  ∃ sent pending, lr_sent r' = lr_sent r ++ sent ∧ (length sent ≤ remaining)%nat ∧
    pending 0%nat = pn ∧
    (∀ i e, sent !! i = Some e → envelope_of (n + i) (pending i) e) ∧
    (∀ i e, sent !! S i = Some e → ∃ reply messages,
       replied (n + i) (pending i) reply ∧ reply_calls reply ≠ [] ∧ messages ≠ [] ∧
       answered dump (execute (n + i)%nat) (reply_calls reply) messages ∧
       pending (S i) = next_pending reply (pending i) messages) ∧
    ∀ text, res = Ok text →
      (∃ k, length sent = S k ∧ lr_status r' = Running ∧
            final_reply (n + k) (pending k) text) ∨
      (lr_status r' = Error ∧
       text = "Failure: Agent state machine exceeded max " +:+ pretty max_iterations +:+
              " iterations." ∧
       (length sent = remaining ∨ running (n + length sent)%nat = false)).
Proof.
  revert n pn r. induction remaining as [|remaining IH]; intros n pn r H; simpl in H.
  { unfold mbind, ST_bind, mret, ST_ret, modify in H. simplify_eq/=. exists [], (λ _, pn).
    rewrite app_nil_r. split_and!; try done. intros text [= <-]. right. by split_and!; [..|left]. }
  destruct (running n) eqn:Hrun.
  2: { unfold mbind, ST_bind, mret, ST_ret, modify in H. simplify_eq/=. exists [], (λ _, pn).
    rewrite app_nil_r. split_and!; try done; [simpl; lia|].
    intros text [= <-]. right. split_and!; [done..|right]. by rewrite Nat.add_0_r. }
  unfold mbind at 1, ST_bind at 1 in H.
  destruct (llm_round _ _ _ _ _ _ _ _ _ _ _ _ r) as [o r1] eqn:Hround.
  apply llm_round_spec in Hround as (sent & Hsent & He & Hres).
  assert (length sent ≤ 1 ∧ ∀ i e, sent !! i = Some e → envelope_of (n + i) pn e)%nat
    as [Hlen He'].
  { destruct He as [->|(e & -> & He)]; simpl; [by split; [lia|]|]. split; [lia|].
    intros [|i] e' ?; simplify_eq/=. by rewrite Nat.add_0_r. }
  destruct o as [[text|pn']|w|].
  2: { destruct Hres as (Hne & Hst & reply & messages & Hrep & Hc & Hm & Ha & ->).
    destruct He as [->|(e & -> & He)]; [done|].
    destruct (IH _ _ _ H) as (sent' & pending & Hs' & Hl' & Hp0 & Hen & Hco & Hend).
    exists (e :: sent'), (λ i, if i is S i then pending i else pn).
    split_and!; [rewrite Hs', Hsent, <- app_assoc; done|simpl; lia|done|..].
    - intros [|i] e' Hi; simplify_eq/=; [by rewrite Nat.add_0_r|].
      rewrite Nat.add_succ_r. by apply Hen.
    - intros [|i] e' Hi.
      + exists reply, messages. rewrite Nat.add_0_r. by rewrite Hp0.
      + rewrite Nat.add_succ_r. by eapply Hco.
    - intros text Htext. destruct (Hend _ Htext) as [(k & Hk & Hst' & Hf)|(Hst' & Ht & Hk)].
      + left. exists (S k). simpl. rewrite Hk, Nat.add_succ_r. done.
      + right. split_and!; [done..|]. simpl. rewrite Nat.add_succ_r.
        destruct Hk; [left; lia|by right]. }
  all: injection H as <- <-; exists sent, (λ _, pn); split_and!; try done; try lia;
    try (by intros i e Hi%lookup_lt_Some; lia).
  intros text' [= <-]. destruct Hres as (Hne & Hst & Hf). left. exists 0%nat.
  destruct He as [->|(e & -> & _)]; [done|]. by rewrite Nat.add_0_r.
Qed.

(** The converse: the loop goes on from a reply with calls, and ends at one without. *)
Definition calls_on (n : nat) (pn pn' : Pending) : Prop :=
  ∃ reply kvs text messages,
    replied n pn reply ∧ value_string reply "response" "" = Ok text ∧
    find reply "assistant_message" = Some (JObject kvs) ∧
    collect_tool_messages (imap (λ k, tool_message dump (execute n k)) (reply_calls reply)) =
      Ok messages ∧ messages ≠ [] ∧ pn' = next_pending reply pn messages.

Lemma llm_round_goes_on n pn pn' r :
  calls_on n pn pn' →
  ∃ r', llm_round parse dump on_token uuid p max_chunks base stream n (serve n) (execute n) pn r =
    (Ok (inr pn'), r').
Proof.
  intros (reply & kvs & text & messages & [Hrep Hst] & Ht & Ha & Hm & Hne & ->).
  unfold llm_round.
  assert (value_bool (payload_of pn) "stream" false = Ok stream) as Hstream.
  { unfold value_bool. rewrite (value_present _ _ _ _ (JBool stream)); [done|].
    by destruct (request_payload_spec p mode user stream pn) as (_ & ? & _). }
  unfold mbind at 1, ST_bind at 1, lift at 1. rewrite Hstream.
  unfold mbind at 1, ST_bind at 1.
  destruct (dispatch n (payload_of pn) stream (serve n (payload_of pn)) r) as [o r1] eqn:Hd.
  apply dispatch_spec in Hd as (-> & _ & _). rewrite Hrep.
  unfold st_catch, mbind, ST_bind, mret, ST_ret, lift, modify. rewrite Hst, Ht, Ha.
  rewrite decide_False by naive_solver.
  destruct (reply_calls reply) as [|call calls]; [simpl in Hm; by injection Hm as <-|].
  rewrite Hm. destruct messages; [done|]. by eexists.
Qed.

Lemma llm_round_ends n pn reply text r :
  replied n pn reply → value_string reply "response" "" = Ok text → reply_calls reply = [] →
  ∃ r', llm_round parse dump on_token uuid p max_chunks base stream n (serve n) (execute n) pn r =
    (Ok (inl text), r') ∧ lr_status r' = Running.
Proof.
  intros [Hrep Hst] Ht Hc. unfold llm_round.
  assert (value_bool (payload_of pn) "stream" false = Ok stream) as Hstream.
  { unfold value_bool. rewrite (value_present _ _ _ _ (JBool stream)); [done|].
    by destruct (request_payload_spec p mode user stream pn) as (_ & ? & _). }
  unfold mbind at 1, ST_bind at 1, lift at 1. rewrite Hstream.
  unfold mbind at 1, ST_bind at 1.
  destruct (dispatch n (payload_of pn) stream (serve n (payload_of pn)) r) as [o r1] eqn:Hd.
  apply dispatch_spec in Hd as (-> & _ & _). rewrite Hrep.
  unfold st_catch, mbind, ST_bind, mret, ST_ret, lift, modify. rewrite Hst, Ht, Hc.
  rewrite decide_False by naive_solver. by eexists.
Qed.

Lemma llm_loop_ends max_iterations running remaining n pending m reply text r :
  (m < remaining)%nat → (∀ k, (k ≤ m)%nat → running (n + k)%nat = true) →
  (∀ k, (k < m)%nat → calls_on (n + k) (pending k) (pending (S k))) →
  replied (n + m) (pending m) reply → value_string reply "response" "" = Ok text →
  reply_calls reply = [] →
  ∃ r', loop max_iterations base stream running serve execute remaining n (pending 0%nat) r =
    (Ok text, r') ∧ lr_status r' = Running.
Proof.
  revert n pending m r. induction remaining as [|remaining IH]; [lia|].
  intros n pending m r Hm Hrun Hon Hrep Ht Hc. simpl.
  specialize (Hrun 0%nat) as Hrun0. rewrite Nat.add_0_r in Hrun0. rewrite Hrun0 by lia.
  unfold mbind at 1, ST_bind at 1. destruct m as [|m].
  - rewrite Nat.add_0_r in Hrep.
    destruct (llm_round_ends n (pending 0%nat) reply text r) as (r' & -> & Hr'); [done..|].
    by exists r'.
  - specialize (Hon 0%nat) as Hon0. rewrite Nat.add_0_r in Hon0.
    destruct (llm_round_goes_on n (pending 0%nat) (pending 1%nat) r) as (r1 & ->); [apply Hon0; lia|].
    apply (IH (S n) (λ k, pending (S k)) m); try done; [lia|..].
    + intros k Hk. rewrite Nat.add_succ_comm. apply Hrun. lia.
    + intros k Hk. rewrite Nat.add_succ_comm. apply Hon. lia.
    + by rewrite Nat.add_succ_comm.
Qed.
End rounds.

(** What an envelope holds of a request. *)
Record carries (p : VelixProcess) (c : LlmCall) (pn : Pending) (e : json) : Prop := {
  ca_type : find e "message_type" = Some (JString "LLM_REQUEST");
  ca_pid : find e "source_pid" = Some (JInt (vp_velix_pid p));
  ca_tree : find e "tree_id" = Some (JString (vp_tree_id p));
  ca_mode : find e "mode" = Some (JString (effective_mode p c));
  ca_user : find e "user_id" = (if decide (effective_mode p c = "simple") then None
                                else Some (JString (effective_user_id p c)));
  ca_convo : find e "convo_id" = Some (JString (pn_convo_id pn));
  ca_system : find e "system_message" = (if decide (pn_system_message pn = "") then None
                                         else Some (JString (pn_system_message pn)));
  ca_message : find e "user_message" = (if decide (pn_user_message pn = "") then None
                                        else Some (JString (pn_user_message pn)));
  ca_results : tool_results e = pn_tool_messages pn;
}.

Lemma envelope_carries uuid p c n pn e :
  envelope_of uuid p (effective_mode p c) (effective_user_id p c) (lc_stream c) n pn e →
  carries p c pn e.
Proof.
  intros He. unfold envelope_of in He.
  destruct (request_payload_spec p (effective_mode p c) (effective_user_id p c) (lc_stream c) pn)
    as (Hmode & Hstr & Hconvo & Huser & Hsys & Hmsg & Hres & _ & Hno).
  match type of He with llm_envelope _ ?u ?t ?j = _ =>
    destruct (llm_envelope_spec p u t j) as (e' & He' & _ & Hty & _ & _ & Htree & Hpid & _ & Hoth)
  end; [done|apply Hno; set_solver|].
  rewrite He' in He. injection He as ->.
  split; try done.
  6: { unfold tool_results in *. rewrite (Hoth "tool_message"), (Hoth "tool_messages");
       [done|by apply (bool_decide_unpack _)..]. }
  all: rewrite Hoth; [done|by apply (bool_decide_unpack _)].
Qed.

(** C11 The conversation that a call of the model has with the scheduler.  It sends at most
    [MAX_ITERATIONS] requests, all of one mode and for one user.  The first carries the
    caller's messages; every later one carries none, goes to the conversation that the reply
    before it named, and carries exactly the results of that reply's tool calls, in the order
    of the calls and each under the id of its call - the error of a call that failed
    included, and only calls whose members have the wrong type left out.  When the call returns,
    it returns the text of a reply none of whose tool calls is answered, or the failure text
    after the last allowed request or a shutdown. *)
Theorem llm_conversation parse dump on_token uuid p max_chunks max_iterations running serve execute
    c r res r' :
  call_llm_internal parse dump on_token uuid p max_chunks max_iterations running serve execute c r =
    (res, r') →
  let user := if decide (effective_user_id p c = "") then None
              else Some (effective_user_id p c) in
  let tool n k name args := execute n k name args user (effective_intent p c) in
  let replied := replied parse on_token uuid p max_chunks (effective_mode p c)
                   (effective_user_id p c) (lc_stream c) serve in
  ∃ sent pending, lr_sent r' = lr_sent r ++ sent ∧
    (length sent ≤ Z.to_nat max_iterations)%nat ∧
    pending 0%nat = first_pending c ∧
    (∀ i e, sent !! i = Some e → carries p c (pending i) e) ∧
    (∀ i e, sent !! S i = Some e → ∃ reply messages,
       replied i (pending i) reply ∧ reply_calls reply ≠ [] ∧ messages ≠ [] ∧
       answered dump (tool i) (reply_calls reply) messages ∧
       pending (S i) = next_pending reply (pending i) messages) ∧
    ∀ text, res = Ok text →
      (∃ k reply, length sent = S k ∧ lr_status r' = Running ∧ replied k (pending k) reply ∧
         value_string reply "response" "" = Ok text ∧
         answered dump (tool k) (reply_calls reply) []) ∨
      (lr_status r' = Error ∧
       text = "Failure: Agent state machine exceeded max " +:+ pretty max_iterations +:+
              " iterations." ∧
       (length sent = Z.to_nat max_iterations ∨ running (length sent) = false)).
Proof.
  intros H user tool replied0. unfold call_llm_internal in H.
  unfold mbind at 1, ST_bind at 1, modify at 1 in H.
  apply llm_loop_spec in H as (sent & pending & Hs & Hl & Hp & He & Hc & Hend).
  exists sent, pending. split_and!; try done.
  - intros i e Hi. eapply envelope_carries, He, Hi.
  - intros text Htext. destruct (Hend _ Htext) as [(k & Hk & Hst & reply & Hr & Ht & Ha)|Hf].
    + left. by exists k, reply.
    + by right.
Qed.

(** C32 A call ends with the model's answer when the scheduler gives one in time: if the process
    runs, and the replies before the [m]-th have tool calls some of which are answered, and the
    [m]-th has none, with [m] below [MAX_ITERATIONS], then the call returns its text. *)
Theorem llm_call_answers parse dump on_token uuid p max_chunks max_iterations running serve execute
    c r pending m reply text :
  let user := if decide (effective_user_id p c = "") then None
              else Some (effective_user_id p c) in
  let tool n k name args := execute n k name args user (effective_intent p c) in
  Z.of_nat m < max_iterations → (∀ k, (k ≤ m)%nat → running k = true) →
  pending 0%nat = first_pending c →
  (∀ k, (k < m)%nat →
     calls_on parse dump on_token uuid p max_chunks (effective_mode p c) (effective_user_id p c)
       (lc_stream c) serve tool k (pending k) (pending (S k))) →
  replied parse on_token uuid p max_chunks (effective_mode p c) (effective_user_id p c)
    (lc_stream c) serve m (pending m) reply →
  value_string reply "response" "" = Ok text → reply_calls reply = [] →
  ∃ r', call_llm_internal parse dump on_token uuid p max_chunks max_iterations running serve
          execute c r = (Ok text, r') ∧ lr_status r' = Running.
Proof.
  intros user tool Hm Hrun Hp Hon Hrep Ht Hc. unfold call_llm_internal. rewrite <- Hp.
  eapply (llm_loop_ends parse dump on_token uuid p max_chunks _ _ _ serve tool _ _ _ 0 pending m);
    try done. lia.
Qed.
