(* ===== verification/SdkContract.v ===== *)
(** * What the SDK and the services promise each other

    The messages of [Sdk] and [SdkLlm] handled by the models of the services they are sent to:
    registration and heartbeats by the supervisor, requests to the model by the scheduler, and
    the results of tools by the bus and the process that waits for them. *)

From S2P Require Import Prelude Json StringUtils ProcessRegistry Termination Supervisor Requests.
From S2P Require Import Bus Scheduler LlmRequest Sdk SdkLlm.

(** ** Registration *)

(** The fields of the message of registration. *)
Lemma registration_fields p intent mem :
  let m := registration p intent mem in
  value_string m "message_type" "" = Ok "REGISTER_PID" ∧
  find m "message_type" = Some (JString "REGISTER_PID") ∧
  value_json m "payload" (JObject []) =
    Ok (JObject [("register_intent", JString intent); ("role", JString (vp_role p));
                 ("os_pid", JInt (vp_os_pid p)); ("process_name", JString (vp_name p));
                 ("trace_id", JString (vp_entry_trace_id p)); ("status", JString "STARTING");
                 ("memory_mb", JFloat (d_of_Z mem))]) ∧
  value_json m "metadata" (JObject []) = Ok (JObject []) ∧
  find m "source_pid" = (if decide (intent = "JOIN_PARENT_TREE" ∧ vp_parent_pid p > 0)
                         then Some (JInt (vp_parent_pid p)) else None).
Proof. unfold registration. case_decide; by split_and!. Qed.

(** Every reply of the supervisor is [ok], or an error with a text. *)
Definition error_reply (why : string) (r : json) : Prop :=
  find r "status" = Some (JString "error") ∧ find r "error" = Some (JString why).

Lemma registered_error p r why :
  error_reply why r →
  registered p r = Throw ("VelixProcess supervisor registration failed: " +:+ why).
Proof.
  intros [Hs He]. unfold registered, value_string.
  rewrite (value_present _ _ _ _ _ Hs). simpl. by rewrite (value_present _ _ _ _ _ He).
Qed.

Lemma resolve_error_text ri role src os_pid S r :
  resolve_registration ri role src os_pid S = inr r → ∃ why, error_reply why r.
Proof. unfold resolve_registration. intros H. repeat case_match; simplify_eq/=; by eexists. Qed.

Lemma handle_register_pid_replies now m S r S' :
  handle_register_pid now m S = Ok (r, S') → is_ok r ∨ ∃ why, error_reply why r.
Proof.
  intros H. unfold handle_register_pid in H. exc_run H; try (by left); try (right; by eexists).
  right. by eapply resolve_error_text.
Qed.

Lemma register_replies now clock m S r S' eff :
  value_string m "message_type" "" = Ok "REGISTER_PID" →
  handle_message now clock m S = Ok (r, S', eff) → is_ok r ∨ ∃ why, error_reply why r.
Proof.
  intros Hty H. unfold handle_message in H.
  exc_step H. exc_step H; [right; exc_run H; by eexists|].
  exc_step H. exc_step H; [right; exc_run H; by eexists|].
  rewrite Hty in H. simpl in H.
  destruct (handle_register_pid _ _ _) as [[r0 S0]| |] eqn:Hh; [|done..].
  simplify_eq/=. by eapply handle_register_pid_replies.
Qed.

Lemma error_reply_not_ok why r : error_reply why r → ¬ is_ok r.
Proof. unfold is_ok, response_status. intros [-> _]. done. Qed.

(** What the process takes from an [ok] reply. *)
Lemma registered_ok p tree intent root handler q :
  - 2 ^ 31 ≤ p_pid q ≤ INT_MAX →
  ∃ p', registered p (JObject [("status", JString "ok"); ("tree_id", JString tree);
                               ("register_intent", JString intent); ("is_root", JBool root);
                               ("is_handler", JBool handler);
                               ("process", build_process_json q)]) = Ok p' ∧
    vp_velix_pid p' = p_pid q ∧ vp_tree_id p' = p_tree_id q ∧ vp_is_root p' = root ∧
    vp_is_handler p' = handler ∧ vp_parent_pid p' = vp_parent_pid p ∧ vp_user_id p' = vp_user_id p ∧
    vp_entry_trace_id p' = vp_entry_trace_id p ∧
    vp_max_memory_mb p' = 2048 ∧ vp_max_runtime_sec p' = 300.
Proof.
  intros Hr. eexists. split.
  - unfold registered. simpl. rewrite i32_id by done. done.
  - by split_and!.
Qed.

(** The placement the supervisor chooses for a registration of the SDK. *)
Lemma resolve_sdk ri role src os_pid S t parent root hd :
  resolve_registration ri role src os_pid S = inl (t, parent, root, hd) →
  hd = bool_decide (role = "handler") ∧
  root = bool_decide (role = "handler" ∨ ri = "NEW_TREE") ∧
  parent = (if decide (role = "handler") then -1 else src) ∧
  (role = "handler" ∨ ri = "NEW_TREE" ∨ 0 < src).
Proof.
  unfold resolve_registration. intros H.
  destruct (decide (role = "handler")) as [->|Hr].
  - rewrite (bool_decide_eq_true_2 ("handler" = "handler")) in H by done.
    simpl in H. repeat case_match; simplify_eq/=. split_and!; [done..|by left].
  - rewrite !(bool_decide_eq_false_2 (role = "handler")) in * by done. simpl in H.
    case_decide as Hri; [simplify_eq|].
    { split_and!; try done; [|by right; left]. by rewrite bool_decide_eq_true_2 by (by right). }
    repeat case_match; simplify_eq. split_and!; try done; [|right; right; lia].
    rewrite bool_decide_eq_false_2; [done|]. naive_solver.
Qed.

(** A process that joins is placed in the tree of its parent, which is registered and runs. *)
Lemma resolve_joins ri role src os_pid S t parent root hd :
  resolve_registration ri role src os_pid S = inl (t, parent, root, hd) →
  role ≠ "handler" → ri ≠ "NEW_TREE" →
  0 < src ∧ ∃ q, process_table (registry_ S) !! src = Some q ∧ t = p_tree_id q ∧
    is_terminal_status (p_status q) = false.
Proof.
  unfold resolve_registration, get_process. intros H Hr Hri.
  rewrite (bool_decide_eq_false_2 _ Hr), (decide_False (P := role = "handler")) in H by done.
  simpl in H. rewrite decide_False in H by done. repeat case_match; simplify_eq.
  split; [lia|]. eauto.
Qed.

Lemma registration_source p intent mem :
  - 2 ^ 31 ≤ vp_parent_pid p ≤ INT_MAX →
  value_int (registration p intent mem) "source_pid" (-1) =
    Ok (if decide (intent = "JOIN_PARENT_TREE" ∧ vp_parent_pid p > 0) then vp_parent_pid p else -1).
Proof.
  intros Hpar. destruct (registration_fields p intent mem) as (_ & _ & _ & _ & Hsrc).
  unfold value_int. case_decide.
  - rewrite (value_present _ _ _ _ _ Hsrc). simpl. by rewrite i32_id.
  - by apply value_absent.
Qed.

(** The parent that is stored for the one that is sent. *)
Lemma parent_of_registration role intent parent :
  (role = "handler" ∨ intent = "NEW_TREE" ∨
   0 < (if decide (intent = "JOIN_PARENT_TREE" ∧ parent > 0) then parent else -1)) →
  (if decide (role = "handler") then -1
   else if decide (intent = "JOIN_PARENT_TREE" ∧ parent > 0) then parent else -1) =
  (if decide (role ≠ "handler" ∧ intent = "JOIN_PARENT_TREE") then parent else -1).
Proof.
  intros Hpos. destruct (decide (role = "handler")) as [->|Hr].
  { by rewrite decide_False by naive_solver. }
  destruct Hpos as [?|Hpos]; [done|].
  destruct (decide (intent = "JOIN_PARENT_TREE" ∧ parent > 0)) as [[??]|Hn].
  - by rewrite decide_True.
  - rewrite decide_False; [done|]. intros [_ Hj]. destruct Hpos as [?|?]; [by rewrite Hj in *|lia].
Qed.

(** A registration that is answered [ok]: the process that is stored, and the answer. *)
Lemma registered_process now clock name role os_pid l mem S r S' eff :
  registry_wf (registry_ S) →
  - 2 ^ 31 ≤ os_pid ≤ INT_MAX → - 2 ^ 31 ≤ ln_parent_pid l ≤ INT_MAX →
  let p := launched name role os_pid l in
  let intent := validate_launch_intent role (ln_parent_pid l) (ln_intent l) in
  handle_message now clock (registration p intent mem) S = Ok (r, S', eff) → is_ok r →
  ∃ q, c_require_auth_token (config_ S) = false ∧ Requests.registration S S' r q ∧
    r = JObject [("status", JString "ok"); ("tree_id", JString (p_tree_id q));
                 ("register_intent", JString intent);
                 ("is_root", JBool (bool_decide (role = "handler" ∨ intent = "NEW_TREE")));
                 ("is_handler", JBool (bool_decide (role = "handler")));
                 ("process", build_process_json q)] ∧
    - 2 ^ 31 ≤ p_pid q ≤ INT_MAX ∧
    p_role q = role ∧ p_os_pid q = os_pid ∧ p_trace_id q = ln_entry_trace_id l ∧
    p_parent_pid q = (if decide (role ≠ "handler" ∧ intent = "JOIN_PARENT_TREE")
                      then ln_parent_pid l else -1) ∧
    (role ≠ "handler" → intent = "JOIN_PARENT_TREE" →
     ∃ parent, process_table (registry_ S) !! ln_parent_pid l = Some parent ∧
       p_tree_id q = p_tree_id parent ∧ is_terminal_status (p_status parent) = false).
Proof.
  intros Hwf Hos Hpar p intent H Hok.
  destruct (registration_fields p intent mem) as (Hty & Hfty & Hpl & Hmd & Hsrc).
  destruct (handle_message_ok_inv _ _ _ _ _ _ _ H Hok) as (ty & Hty' & _ & _ & Hauth & Hh).
  unfold has_type in Hty'. rewrite Hfty in Hty'. injection Hty' as <-.
  unfold typed_handler in Hh. rewrite decide_True in Hh by done.
  apply exc_fmap_Ok_inv in Hh as ([r0 S0] & Hh & Heq). simpl in Heq. injection Heq as -> -> ->.
  destruct (register_pid_cases _ _ _ _ _ Hwf Hh) as [[? _]|(_ & q & Hreg & _)]; [done|].
  assert (c_require_auth_token (config_ S) = false) as Htok.
  { unfold validate_auth in Hauth. destruct (c_require_auth_token _); [|done].
    rewrite Hmd in Hauth. exc_run Hauth. destruct n. injection E0 as <-. by left. }
  unfold handle_register_pid in Hh. rewrite Hpl in Hh.
  pose proof (registration_source p intent mem Hpar) as Hsp.
  exc_run Hh; try done.
  2: { match goal with H : resolve_registration _ _ _ _ _ = inr _ |- _ =>
         apply resolve_error_text in H as [why Hwhy] end.
       by destruct (error_reply_not_ok _ _ Hwhy). }
  rewrite Hsp in E2. injection E2 as <-. injection E0 as <-. injection E1 as <-.
  simpl in E3. rewrite i32_id in E3 by done. injection E3 as <-.
  injection E4 as <-. injection E5 as <-. injection E6 as <-.
  pose proof (resolve_joins _ _ _ _ _ _ _ _ _ Heqs) as Hjoin.
  apply resolve_sdk in Heqs as (-> & -> & -> & Hsrcpos).
  destruct (register_success _ _ _ _ _ _ _ _ _ _ _ _ _ Heqp0 Heqo) as (Hp3 & Htab & _ & _ & _ & Htree).
  assert (q = p3) as ->.
  { pose proof (rg_reply _ _ _ _ Hreg) as Hrep. injection Hrep as Hpid _ _ _ _ _.
    pose proof (rg_table _ _ _ _ Hreg) as Hq.
    assert (process_table r1 !! p_pid q = Some q) as Hlk.
    { destruct (decide (role = "handler")); simpl in Hq; rewrite Hq; by rewrite lookup_insert_eq. }
    rewrite Htab, Hpid, lookup_insert_eq in Hlk. by injection Hlk. }
  exists p3. split_and!; try done; [by rewrite Hp3|..].
  all: try (rewrite Hp3; simpl).
  - pose proof (wf_counters _ Hwf). lia.
  - destruct (decide (process_counter (registry_ S) > INT_MAX)) as [Hmax|]; [|lia].
    unfold register_process in Heqp0. rewrite decide_True in Heqp0 by done.
    injection Heqp0 as <- _. done.
  - done.
  - done.
  - done.
  - by apply parent_of_registration.
  - intros Hr Hj. destruct Hjoin as [Hpos Hjoin]; [done|by rewrite Hj|].
    case_decide; [|lia]. destruct Hjoin as (q & Hq & -> & Ht). exists q. split; [done|].
    split; [|done]. apply Htree; [by apply bool_decide_eq_false_2|].
    by eapply tree_name_nonempty, wf_process_tree.
Qed.

(** C4 A process and the supervisor agree on who it is.  Whatever the supervisor's state, a
    process that registers either gets an exception with the supervisor's reason, and nothing
    is stored, or it is in the process table under the pid it goes by, in the tree it believes
    to be in, with its own role, OS pid and trace, with its parent as parent exactly when it
    joins the parent's tree; it holds itself for a root, and for the handler, exactly when the
    supervisor does.  The second case does not arise while the supervisor requires a token.  The
    limits it holds are always 2048 MB and 300 seconds, whatever the supervisor enforces. *)
Theorem registration_agrees now clock name role os_pid l mem S r S' eff :
  registry_wf (registry_ S) →
  - 2 ^ 31 ≤ os_pid ≤ INT_MAX → - 2 ^ 31 ≤ ln_parent_pid l ≤ INT_MAX →
  let p := launched name role os_pid l in
  let intent := validate_launch_intent role (ln_parent_pid l) (ln_intent l) in
  handle_message now clock (registration p intent mem) S = Ok (r, S', eff) →
  (∃ why, registered p r =
            Throw ("VelixProcess supervisor registration failed: " +:+ why) ∧
          same_tables (registry_ S) (registry_ S')) ∨
  (∃ q p', c_require_auth_token (config_ S) = false ∧ registered p r = Ok p' ∧
     Requests.registration S S' r q ∧
     vp_velix_pid p' = p_pid q ∧ vp_tree_id p' = p_tree_id q ∧
     p_role q = role ∧ p_os_pid q = os_pid ∧ p_trace_id q = ln_entry_trace_id l ∧
     p_parent_pid q = (if decide (role ≠ "handler" ∧ intent = "JOIN_PARENT_TREE")
                       then ln_parent_pid l else -1) ∧
     vp_is_handler p' = bool_decide (role = "handler") ∧
     vp_is_root p' = bool_decide (role = "handler" ∨ intent = "NEW_TREE") ∧
     vp_max_memory_mb p' = 2048 ∧ vp_max_runtime_sec p' = 300).
Proof.
  intros Hwf Hos Hpar p intent H.
  destruct (registration_fields p intent mem) as (Hty & _).
  destruct (register_replies _ _ _ _ _ _ _ Hty H) as [Hok|[why Hwhy]].
  2: { left. exists why. split; [by apply registered_error|].
    eapply handle_message_error; [done|by eapply error_reply_not_ok]. }
  right. destruct (registered_process _ _ _ _ _ _ _ _ _ _ _ Hwf Hos Hpar H Hok)
    as (q & ? & ? & -> & Hrange & ? & ? & ? & ? & _).
  destruct (registered_ok p (p_tree_id q) intent
    (bool_decide (role = "handler" ∨ intent = "NEW_TREE")) (bool_decide (role = "handler"))
    q Hrange) as (p' & Hp' & ? & ? & ? & ? & _ & _ & _ & ? & ?).
  exists q, p'. by split_and!.
Qed.

(** ** Heartbeats *)

(** What the supervisor stores for the status of the process. *)
Definition heartbeat_status (st : Status) : ProcessStatus :=
  match st with Sdk.Running => RUNNING | WaitingLlm => WAITING_LLM | _ => STARTING end.

Lemma heartbeat_delivered now clock m pid st mem pl q S :
  sup_reachable S → c_require_auth_token (config_ S) = false → 0 < pid ≤ INT_MAX →
  process_table (registry_ S) !! pid = Some q → p_alive q = true →
  find m "message_type" = Some (JString "HEARTBEAT") → find m "pid" = Some (JInt pid) →
  find m "payload" = Some (JObject pl) →
  assoc "status" pl = Some (JString (process_status_to_string st)) →
  assoc "memory_mb" pl = Some (JFloat mem) →
  ∃ r S', handle_message now clock m S = Ok (r, S', []) ∧ is_ok r ∧
    tree_table (registry_ S') = tree_table (registry_ S) ∧
    process_table (registry_ S') =
      <[pid := if negb (is_terminal_status (p_status q)) && is_terminal_status st
               then terminated clock (set_heartbeat st mem now q)
               else set_heartbeat st mem now q]> (process_table (registry_ S)) ∧
    (is_terminal_status (p_status q) = false → is_terminal_status st = true →
     ∀ t, pid ∉ get_tree_processes t (registry_ S')).
Proof.
  intros Hreach Htok Hpid Hq Hal Hty Hp Hpl Hs Hm.
  assert (is_object m = true) as Hobj by (by destruct m).
  assert (handle_message now clock m S =
    (λ rs, (fst rs, snd rs, [])) <$> handle_heartbeat now clock m S) as Hrun.
  { unfold handle_message, validate_message_shape, validate_auth, lacks_positive_int.
    rewrite Hobj, Hty, Hp, Htok. simpl. rewrite i32_id by lia.
    rewrite bool_decide_eq_false_2 by lia. unfold value_string.
    rewrite (value_present _ _ _ _ _ Hty). done. }
  assert (∃ r, handle_heartbeat now clock m S =
    Ok (r, with_registry (heartbeat_stores clock now pid st mem q (registry_ S)) S) ∧ is_ok r)
    as (r & Hh & Hok).
  { unfold handle_heartbeat, value_int, value_json.
    rewrite (value_present _ _ _ _ _ Hp), (value_present _ _ _ _ _ Hpl). simpl.
    rewrite i32_id by lia. rewrite decide_False by lia.
    unfold value_string, value_double, value. rewrite Hs, Hm. simpl.
    unfold get_process. rewrite Hq. simpl.
    assert (is_valid_process_status_text (process_status_to_string st) = true) as ->
      by (apply valid_status_image; by exists st).
    rewrite andb_false_r, parse_to_string, decide_False by (by destruct st).
    eexists. split; [done|]. done. }
  pose proof (heartbeat_stores_spec clock now pid st mem q _ (wf_reachable _
    (sup_registry_reachable _ Hreach)) Hq) as (Htr & Htab & Hout).
  exists r. eexists. rewrite Hrun, Hh. split; [done|]. split; [done|]. simpl.
  rewrite Hal in Htab. split_and!; [done|done|]. intros ??. by apply Hout.
Qed.

(** The two kinds of heartbeat of a process the supervisor knows. *)
Theorem heartbeats_accepted now clock p st mem forced q S :
  sup_reachable S → c_require_auth_token (config_ S) = false → 0 < vp_velix_pid p ≤ INT_MAX →
  process_table (registry_ S) !! vp_velix_pid p = Some q → p_alive q = true →
  is_terminal_status (p_status q) = false →
  (∃ r S', handle_message now clock (heartbeat p st mem) S = Ok (r, S', []) ∧ is_ok r ∧
     tree_table (registry_ S') = tree_table (registry_ S) ∧
     process_table (registry_ S') =
       <[vp_velix_pid p := set_heartbeat (heartbeat_status st) (d_of_Z mem) now q]>
         (process_table (registry_ S))) ∧
  (∃ m r S', final_heartbeat p forced mem = Some m ∧
     handle_message now clock m S = Ok (r, S', []) ∧ is_ok r ∧
     process_table (registry_ S') !! vp_velix_pid p =
       Some (terminated clock (set_heartbeat (if forced then KILLED else FINISHED)
                                 (d_of_Z mem) now q)) ∧
     ∀ t, vp_velix_pid p ∉ get_tree_processes t (registry_ S')).
Proof.
  intros Hreach Htok Hpid Hq Hal Hterm. split.
  - edestruct (heartbeat_delivered now clock (heartbeat p st mem) (vp_velix_pid p)
      (heartbeat_status st) (d_of_Z mem)) as (r & S' & Hr & Hok & Htr & Htab & _); try done.
    { by destruct st. }
    exists r, S'. split_and!; try done. rewrite Htab.
    assert (is_terminal_status (heartbeat_status st) = false) as -> by (by destruct st).
    by rewrite andb_false_r.
  - unfold final_heartbeat. rewrite decide_True by lia. eexists.
    edestruct (heartbeat_delivered now clock (JObject
      [("message_type", JString "HEARTBEAT"); ("pid", JInt (vp_velix_pid p));
       ("payload", JObject [("memory_mb", JFloat (d_of_Z mem));
                            ("status", JString (if forced then "KILLED" else "FINISHED"))])])
      (vp_velix_pid p) (if forced then KILLED else FINISHED) (d_of_Z mem))
      as (r & S' & Hr & Hok & Htr & Htab & Hout); try done.
    { by destruct forced. }
    exists r, S'. split_and!; try done.
    + rewrite Htab, lookup_insert_eq, Hterm. by destruct forced.
    + apply Hout; [done|by destruct forced].
Qed.

(** ** Requests to the model *)

(** What the scheduler asks of a request, in the words of the SDK. *)
Definition has_input (pn : Pending) : Prop :=
  pn_user_message pn ≠ "" ∨ pn_system_message pn ≠ "" ∨ pn_tool_messages pn ≠ [].

Definition acceptable (mode user : string) (pn : Pending) : Prop :=
  (mode = "simple" ∧ pn_convo_id pn = "" ∧ pn_user_message pn ≠ "") ∨
  (mode = "conversation" ∧ user = "" ∧ has_input pn) ∨
  (mode = "user_conversation" ∧ user ≠ "" ∧ has_input pn).

Lemma sdk_check_mode p mode user stream pn e :
  let r := request_payload (base_payload p mode user stream) stream pn in
  is_object e → (∀ key, key ∉ ["message_type"; "request_id"; "trace_id"; "tree_id"; "source_pid";
                               "priority"] → find e key = find r key) →
  check_mode e = Ok tt ↔ acceptable mode user pn.
Proof.
  intros r Hobj Hoth.
  destruct (request_payload_spec p mode user stream pn)
    as (Hmode & _ & Hconvo & Huser & Hsys & Hmsg & _ & Hres & Hno). fold r in Hmode, Hconvo, Huser,
    Hsys, Hmsg, Hres, Hno.
  rewrite <- Hoth in Hmode, Hconvo, Huser, Hsys, Hmsg by (by apply (bool_decide_unpack _)).
  unfold contains in Hres.
  rewrite <- (Hoth "tool_message"), <- (Hoth "tool_messages") in Hres
    by (by apply (bool_decide_unpack _)).
  assert (find e "messages" = None ∧ find e "tool_result" = None) as [Hmsgs Htr].
  { rewrite !Hoth by (by apply (bool_decide_unpack _)). split; apply Hno; set_solver. }
  unfold check_mode, value_string. rewrite (value_present _ _ _ _ _ Hmode). simpl.
  rewrite (value_present _ _ _ _ _ Hconvo). simpl.
  unfold has_array, nonempty_string, contains. rewrite Hmsgs, Htr, Hmsg, Hsys. simpl.
  unfold acceptable, has_input.
  destruct (decide (mode = "simple")) as [->|Hs].
  - destruct (decide (pn_convo_id pn ≠ "")) as [Hc|Hc]; simpl; [naive_solver|].
    rewrite (value_absent get_string e "user_id" "" Hobj Huser). simpl.
    destruct (decide (pn_user_message pn = "")) as [Hu|Hu]; simpl.
    { split; [done|]. by intros [(_ & _ & ?)|[(? & _)|(? & _)]]. }
    rewrite bool_decide_eq_true_2 by done. simpl. split; [|done]. intros _. left.
    split_and!; [done|by apply dec_stable|done].
  - assert (value get_string e "user_id" "" = Ok user) as Hu
      by (by rewrite (value_present _ _ _ _ _ Huser)).
    rewrite Hu. simpl. rewrite orb_false_r, <- orb_assoc, Hres.
    assert (∀ s : string, bool_decide (is_Some (if decide (s = "") then None else Some (JString s)))
      = bool_decide (s ≠ "")) as Hsome.
    { intros s. destruct (decide (s = "")) as [->|Hse]; [done|].
      rewrite !bool_decide_eq_true_2; [done|done|by eexists]. }
    rewrite !Hsome, <- !bool_decide_or.
    destruct (decide (mode = "conversation" ∨ mode = "user_conversation")) as [Hm|Hm].
    2: { split; [done|]. intros [(? & _)|[(? & _)|(? & _)]]; naive_solver. }
    match goal with |- context [bool_decide ?P] => destruct (decide P) as [Hin|Hin] end.
    2: { rewrite bool_decide_eq_false_2 by done. simpl. split; [done|].
      intros [(? & _)|[(_ & _ & ?)|(_ & _ & ?)]]; exfalso; tauto. }
    rewrite bool_decide_eq_true_2 by done. simpl.
    destruct (decide (mode = "conversation")) as [->|Hmc].
    + destruct (decide (user ≠ "")) as [Hue|Hue]; split; try done.
      * intros [(? & _)|[(_ & ? & _)|(? & _)]]; done.
      * intros _. right. left. split_and!; [done|by apply dec_stable|tauto].
    + destruct (decide (user = "")) as [Hue|Hue]; split; try done.
      * intros [(? & _)|[(? & _)|(_ & ? & _)]]; done.
      * intros _. right. right. split_and!; [by destruct Hm|done|tauto].
Qed.

(** C34 The scheduler takes a request of the SDK exactly when its mode is one of three and fits the
    rest: a simple request has a user's message and no conversation, the others have an input,
    and a conversation has no user where a user's conversation has one.  What it takes is the
    SDK's request, in the SDK's tree. *)
Theorem sdk_request_accepted now promise uuid p mode user stream n pn e :
  vp_tree_id p ≠ "" → 0 < vp_velix_pid p ≤ INT_MAX →
  envelope_of uuid p mode user stream n pn e →
  ((∃ req, parse_request_payload now promise e = Ok req) ↔ acceptable mode user pn) ∧
  ∀ req, parse_request_payload now promise e = Ok req →
    payload req = e ∧ Scheduler.tree_id req = vp_tree_id p ∧
    Scheduler.source_pid req = vp_velix_pid p ∧ Scheduler.base_priority req = 1 ∧
    Scheduler.trace_id req = uuid (2 * n)%nat ∧
    queue_key req = queue_key_of (vp_tree_id p) mode (if decide (mode = "simple") then "" else user).
Proof.
  intros Htree Hpid He. unfold envelope_of in He.
  destruct (request_payload_spec p mode user stream pn)
    as (Hmode & _ & _ & Huser & _ & _ & _ & _ & Hno).
  match type of He with llm_envelope _ ?u ?t ?j = _ =>
    destruct (llm_envelope_spec p u t j) as (e' & He' & Hobj & Hty & Hrid & Htr & Htid & Hsp & Hpr & Hoth)
  end; [done|apply Hno; set_solver|].
  rewrite He' in He. injection He as ->.
  pose proof (sdk_check_mode p mode user stream pn e Hobj Hoth) as Hcheck.
  rewrite <- Hoth in Hmode, Huser by (by apply (bool_decide_unpack _)).
  assert (find e "payload" = None) as Hpay.
  { rewrite Hoth by (by apply (bool_decide_unpack _)). apply Hno. set_solver. }
  assert (value get_string e "user_id" "" = Ok (if decide (mode = "simple") then "" else user))
    as Hu.
  { destruct (decide (mode = "simple")).
    - by apply value_absent.
    - by rewrite (value_present _ _ _ _ _ Huser). }
  assert (∃ rid, parse_request_payload now promise e = (_ ← check_mode e;
    mret {| Scheduler.request_id := rid; Scheduler.trace_id := uuid (2 * n)%nat;
            Scheduler.tree_id := vp_tree_id p;
            queue_key := queue_key_of (vp_tree_id p) mode
                           (if decide (mode = "simple") then "" else user);
            Scheduler.source_pid := vp_velix_pid p; Scheduler.base_priority := 1;
            payload := e; enqueued_at := now; completion := promise |})) as [rid Hparse].
  { eexists. unfold parse_request_payload, unwrap_envelope, nonempty_string, has_integer,
      has_string, value_string, value_int.
    rewrite (value_present _ _ _ _ _ Hty). simpl. rewrite Hpay. simpl.
    rewrite Hrid, Htid, Hsp, Hmode. simpl. rewrite bool_decide_eq_true_2 by done. simpl.
    rewrite !(value_present _ _ _ _ _ Hsp), !(value_present _ _ _ _ _ Hrid),
      !(value_present _ _ _ _ _ Htr), !(value_present _ _ _ _ _ Htid),
      !(value_present _ _ _ _ _ Hpr), !(value_present _ _ _ _ _ Hmode). simpl.
    rewrite !i32_id by lia. rewrite bool_decide_eq_false_2 by lia. rewrite Hu. done. }
  rewrite Hparse, <- Hcheck. destruct (check_mode e) as [[]|w|]; simpl.
  - split; [split; [done|by eexists]|]. by intros req [= <-].
  - split; [split; [by intros [? ?]|done]|done].
  - split; [split; [by intros [? ?]|done]|done].
Qed.

(** The calls of [call_llm_internal] that no scheduler takes: one without a mode by a process
    that acts for a user and is not the handler, whose mode becomes [conversation], which must
    have no user; and, in a call of mode [simple], every request after the first, since it
    carries the results of tools and no user's message. *)
Lemma sdk_requests_refused now promise uuid p c n pn e :
  vp_tree_id p ≠ "" → 0 < vp_velix_pid p ≤ INT_MAX →
  envelope_of uuid p (effective_mode p c) (effective_user_id p c) (lc_stream c) n pn e →
  (lc_mode c = "" ∧ vp_is_handler p = false ∧ effective_user_id p c ≠ "") ∨
  (effective_mode p c = "simple" ∧ pn_user_message pn = "") →
  ¬ ∃ req, parse_request_payload now promise e = Ok req.
Proof.
  intros Htree Hpid He Hcase.
  destruct (sdk_request_accepted now promise uuid p _ _ _ n pn e Htree Hpid He) as [-> _].
  unfold acceptable. destruct Hcase as [(Hm & Hh & Hu)|[Hm Hmsg]].
  - assert (effective_mode p c = "conversation") as ->.
    { unfold effective_mode, resolve_effective_mode. rewrite Hm, Hh, andb_false_r. simpl.
      by rewrite decide_False by naive_solver. }
    by intros [(? & _)|[(_ & ? & _)|(? & _)]].
  - rewrite Hm. by intros [(_ & _ & ?)|[(? & _)|(? & _)]].
Qed.

(** ** Results of tools *)

(** The push that the bus makes of a result. *)
Definition result_push (source_pid target_pid : Z) (data : json) (trace : string) : json :=
  JObject [("message_type", JString "IPM_PUSH"); ("target_pid", JInt target_pid);
           ("trace_id", JString trace); ("payload", data); ("source_pid", JInt source_pid)].

(** The bus posts a result to the session of its target. *)
Lemma result_relayed dump ih sid B target tsid data trace text :
  0 < target ≤ INT_MAX → pid_sessions_ B !! target = Some tsid →
  dump (result_push (registered_pid_ (session_of sid B)) target data trace) = Ok text →
  bus_handle_message dump ih sid (relay_result target data trace) B =
    (Ok tt, enqueue_json tsid text B).
Proof.
  intros Hr Ht Hd. unfold bus_handle_message, resolve_target_pid, Bus.relay_message.
  unfold mbind, ST_bind, mret, ST_ret, lift, gets, modify. simpl.
  rewrite i32_id by lia. rewrite decide_True by lia. simpl. rewrite decide_True by lia.
  rewrite Ht. unfold result_push in Hd. by rewrite Hd.
Qed.

Lemma result_push_reply source target data trace :
  reply_for trace (BusMessage (result_push source target data trace)) = Some data.
Proof. unfold reply_for. simpl. by rewrite decide_True. Qed.

Lemma result_push_not_fatal source target data trace :
  fatal (BusMessage (result_push source target data trace)) = false.
Proof. done. Qed.

(** An operation after which the listener still reads. *)
Definition keeps_listening (op : RpcOp) : Prop :=
  match op with Deliver read => fatal read = false | Shutdown => False | _ => True end.

Lemma replies_app trace before after :
  Forall keeps_listening before →
  replies trace (before ++ after) = replies trace before ++ replies trace after.
Proof.
  induction 1 as [|op ops Hop _ IH]; [done|]. destruct op; simpl in Hop |- *; try done.
  rewrite Hop, IH. by rewrite (assoc_L (++)).
Qed.

(** A field that is a text, or is not there. *)
Definition text_or_none (v : option json) : Prop :=
  match v with None | Some (JString _) => True | Some _ => False end.

(** What a tool may report: an object whose status is a text, and its error where that says so. *)
Definition reportable (data : json) : Prop :=
  is_object data = true ∧ text_or_none (find data "status") ∧
  (find data "status" = Some (JString "error") → text_or_none (find data "error")).

#[export] Instance text_or_none_dec v : Decision (text_or_none v).
Proof. destruct v as [[]|]; simpl; apply _. Defined.

Definition says_terminated (data : json) : Prop :=
  find data "status" = Some (JString "error") ∧
  find data "error" = Some (JString "child_terminated").

Lemma value_string_object data key default :
  is_object data = true →
  value_string data key default =
    match find data key with None => Ok default | Some v => get_string v end.
Proof. by destruct data. Qed.

Lemma get_string_not_text v : ¬ text_or_none (Some v) → ∃ what, get_string v = Throw what.
Proof. destruct v; intros H; try (by destruct H); by eexists. Qed.

Lemma check_result_spec instruction data :
  (reportable data → ¬ says_terminated data → check_result instruction data = Ok data) ∧
  (¬ reportable data ∨ says_terminated data → ∃ what, check_result instruction data = Throw what).
Proof.
  unfold reportable, says_terminated, check_result.
  destruct (is_object data) eqn:Ho.
  2: { split; [naive_solver|]. intros _. destruct data; first [discriminate | eexists; reflexivity]. }
  rewrite !value_string_object by done.
  destruct (find data "status") as [st|]; simpl; [|split; [naive_solver|intros ?; exfalso; naive_solver]].
  destruct (decide (text_or_none (Some st))) as [Hst|Hst].
  2: { destruct (get_string_not_text st Hst) as [what ->]. split; [naive_solver|]. eexists; reflexivity. }
  destruct st as [| | | | |status|]; try done. simpl.
  case_decide as Herr; [subst|split; [naive_solver|intros ?; exfalso; naive_solver]].
  destruct (find data "error") as [er|]; simpl; [|split; [naive_solver|intros ?; exfalso; naive_solver]].
  destruct (decide (text_or_none (Some er))) as [Her|Her].
  2: { destruct (get_string_not_text er Her) as [what ->]. split; [naive_solver|]. eexists; reflexivity. }
  destruct er as [| | | | |error|]; try done. simpl.
  case_decide; [subst|split; [naive_solver|intros ?; exfalso; naive_solver]]. split; [naive_solver|]. intros _.
  destruct (find data "reason") as [reason|]; [destruct reason|]; simpl; eexists; reflexivity.
Qed.

(** C10 The result of a tool reaches the call that waits for it: the tool's process reports [data]
    under the trace it was launched with, the bus posts one frame to the caller's session, and
    the caller - whose launch was acknowledged, whose listener runs until it reads that frame,
    and who gets no later reply under the same trace - returns [data] if that is an object
    with a status that is a text or none (and an error that is a text or none, where the
    status is [error]), unless it says that the tool was terminated.  It throws in that case,
    and for any other data, whose type it does not take: that result is lost.  Whatever the
    other threads of the caller do, and whatever else the bus delivers. *)
Theorem tool_result_returned parse dump ih sid B target tsid data trace text
    p instruction args user intent limit attempts before after bus_wait s :
  let push := result_push (registered_pid_ (session_of sid B)) target data trace in
  let meanwhile := before ++ Deliver (BusMessage push) :: after in
  let request := launch_request p trace instruction args (tool_user p user)
                   (tool_intent p intent) in
  0 < target ≤ INT_MAX → pid_sessions_ B !! target = Some tsid →
  dump push = Ok text → parse text = Ok push →
  trace ≠ "" → is_running s = true →
  trace ∉ pending_response_traces s → response_map s !! trace = None →
  Forall (op_elsewhere trace) meanwhile → Forall keeps_listening before →
  replies trace after = [] → (∃ made, launch_tool limit (attempts request) = Ok made) →
  bus_handle_message dump ih sid (relay_result target data trace) B =
    (Ok tt, enqueue_json tsid text B) ∧
  ∃ msg, parse text = Ok msg ∧
    let result := (execute_tool_internal p instruction args user intent trace limit attempts
                     (before ++ Deliver (BusMessage msg) :: after) bus_wait s).1 in
    (reportable data → ¬ says_terminated data → result = Ok data) ∧
    (¬ reportable data ∨ says_terminated data → ∃ what, result = Throw what).
Proof.
  intros push meanwhile request Hr Ht Hd Hparse Hne Hrun Hp Hm Hops Hbefore Hafter [made Hl].
  split; [by apply result_relayed|]. exists push. split; [done|]. cbv zeta.
  rewrite (execute_tool_launched trace meanwhile s Hne Hrun Hp Hm Hops _ _ _ _ _ _ _ _ made Hl).
  unfold waited, meanwhile. rewrite replies_app by done. cbn [replies].
  unfold push. rewrite result_push_not_fatal, result_push_reply, Hafter. simpl.
  rewrite last_snoc. apply check_result_spec.
Qed.

(** ** Terminations *)

(** The bus has no case for the message. *)
Lemma termination_dropped dump ih sid target reason B :
  bus_handle_message dump ih sid (termination_msg target reason) B = (Ok tt, B).
Proof. done. Qed.

(** What the supervisor sends to the bus is the news of terminations only. *)
Definition only_terminations (eff : list effect) : Prop :=
  ∀ msg, SendBus msg ∈ eff → ∃ target reason, msg = termination_msg target reason.

Lemma only_terminations_nil : only_terminations [].
Proof. by intros ? ?%not_elem_of_nil. Qed.

Lemma only_terminations_app e1 e2 :
  only_terminations e1 → only_terminations e2 → only_terminations (e1 ++ e2).
Proof. intros H1 H2 msg [?|?]%elem_of_app; auto. Qed.
#[export] Hint Resolve only_terminations_nil only_terminations_app : velix.

Lemma only_terminations_signal os_pid sig : only_terminations (signal_effects os_pid sig).
Proof.
  intros msg. unfold signal_effects, send_signal_to_os_process.
  case_decide; [|by intros ?%not_elem_of_nil]. rewrite decide_False by lia. simpl.
  by intros ?%list_elem_of_singleton.
Qed.
#[export] Hint Resolve only_terminations_signal : velix.

Lemma kill_processes_terminations clock targets reason grace R :
  only_terminations (kill_processes clock targets reason grace R).1.
Proof.
  revert R. induction targets as [|t targets IH]; intros R; [auto with velix|].
  cbn [kill_processes kill_process].
  destruct (kill_processes _ _ _ _ _) as [e2 R2] eqn:E. cbn [fst].
  specialize (IH (terminate_process clock (tt_velix_pid t)
    (mark_process_killed (tt_velix_pid t) R))). rewrite E in IH.
  repeat apply only_terminations_app; auto with velix.
  - intros msg. unfold notify_bus_child_terminated. case_decide; [by intros ?%not_elem_of_nil|].
    intros [= ->]%list_elem_of_singleton. by eexists _, _.
  - intros msg [=]%list_elem_of_singleton.
Qed.
#[export] Hint Resolve kill_processes_terminations : velix.

Lemma enforce_limit_terminations b clock reason t grace R :
  only_terminations (enforce_limit b clock reason t grace R).1.
Proof.
  unfold enforce_limit, kill_tree_and_processes. destruct b; [|auto with velix].
  destruct (kill_tree t R) as [pids R1]. case_decide; auto with velix.
Qed.

Lemma enforce_limits_terminations cfg now_ms clock trees R :
  only_terminations (enforce_limits cfg now_ms clock trees R).1.
Proof.
  revert R. induction trees as [|[t created] trees IH]; intros R; simpl; [auto with velix|].
  destruct (enforce_tree_limits cfg now_ms clock t created R) as [e1 R1] eqn:E1.
  specialize (IH R1). destruct (enforce_limits cfg now_ms clock trees R1) as [e2 R2]. simpl in *.
  apply only_terminations_app; [|done]. revert E1. unfold enforce_tree_limits.
  case_decide; [intros [= <- _]; auto with velix|].
  repeat (match goal with |- context [enforce_limit ?b clock ?why t ?g ?r] =>
    pose proof (enforce_limit_terminations b clock why t g r);
    destruct (enforce_limit b clock why t g r) as [??] end; simpl in * ).
  intros [= <- _]. auto with velix.
Qed.

Lemma handler_monitor_terminations steady os S :
  only_terminations (handler_monitor steady os S).1.
Proof.
  unfold handler_monitor, spawn_handler_process.
  repeat case_match; simplify_eq/=; auto with velix; intros msg;
    rewrite ?elem_of_app, ?elem_of_cons, ?elem_of_nil; naive_solver.
Qed.

Lemma handle_message_terminations now clock m S r S' eff :
  handle_message now clock m S = Ok (r, S', eff) → only_terminations eff.
Proof.
  intros H. unfold handle_message in H.
  exc_run H; repeat match goal with p : json * Supervisor |- _ => destruct p end; simplify_eq/=;
    auto with velix.
  unfold handle_tree_kill in H. exc_run H; [auto with velix|].
  pose proof (enforce_limit_terminations true clock "tree_kill" a1
    (c_terminate_grace_ms (config_ S)) (registry_ S)) as Hk.
  simpl in Hk. by match goal with E : kill_tree_and_processes _ _ _ _ _ = _ |- _ => rewrite E in Hk end.
Qed.

(** C12 A caller is not told that the process it waits for was terminated.  Everything that the
    supervisor sends to the bus - for a request, in a round of the watchdog, when it stops - the
    bus drops, in any state, with no frame to any session: the only messages are those of
    terminated children, whose type the bus does not handle.  And a tool call whose launch
    was acknowledged and which gets no reply under its trace, as when its process was
    terminated before it reported, waits: it ends with the exception of its time limit, and
    not with that of a terminated tool, which only a reply that some process relays can cause. *)
Theorem termination_unreported dump ih sid B msg eff :
  (∃ now clock send send_error request reply S S',
     handle_client now clock send send_error request S = Ok (reply, S', eff)) ∨
  (∃ now_ms clock steady os S, eff = (watchdog_tick now_ms clock steady os S).1) ∨
  (∃ clock S, eff = (stop_kill_all clock S).1) →
  SendBus msg ∈ eff →
  bus_handle_message dump ih sid msg B = (Ok tt, B) ∧
  ∀ p instruction args user intent trace limit attempts meanwhile bus_wait s made,
    trace ≠ "" → is_running s = true →
    trace ∉ pending_response_traces s → response_map s !! trace = None →
    Forall (op_elsewhere trace) meanwhile → replies trace meanwhile = [] →
    launch_tool limit (attempts (launch_request p trace instruction args (tool_user p user)
      (tool_intent p intent))) = Ok made →
    (execute_tool_internal p instruction args user intent trace limit attempts meanwhile bus_wait
       s).1 = Throw ("Velix Package Timeout: " +:+ instruction +:+ " exceeded reactive limit of " +:+
                     pretty bus_wait +:+ " mins").
Proof.
  intros Heff Hin. split.
  2: { intros p instruction args user intent trace limit attempts meanwhile bus_wait s made
         Hne Hrun Hp Hm Hops Hnone Hl.
       rewrite (execute_tool_launched trace meanwhile s Hne Hrun Hp Hm Hops _ _ _ _ _ _ _ _ made Hl).
       unfold waited. by rewrite Hnone. }
  assert (only_terminations eff) as He.
  { destruct Heff as [(now & clock & send & send_error & request & reply & S & S' & H)|
      [(now_ms & clock & steady & os & S & ->)|(clock & S & ->)]].
    - apply handle_client_inv in H as [(m & r & _ & H)|[_ ->]]; [|auto with velix].
      by eapply handle_message_terminations.
    - unfold watchdog_tick.
      pose proof (kill_processes_terminations clock) as Hk.
      match goal with |- context [kill_processes clock ?ts ?why ?g ?R] =>
        specialize (Hk ts why g R); destruct (kill_processes clock ts why g R) as [e1 R1] end.
      match goal with |- context [enforce_limits ?cfg ?n clock ?trees ?R] =>
        pose proof (enforce_limits_terminations cfg n clock trees R);
        destruct (enforce_limits cfg n clock trees R) as [e2 R2] end.
      match goal with |- context [handler_monitor steady os ?S] =>
        pose proof (handler_monitor_terminations steady os S);
        destruct (handler_monitor steady os S) as [e3 S3] end.
      simpl in *. auto with velix.
    - unfold stop_kill_all.
      match goal with |- context [kill_processes clock ?ts ?why ?g ?R] =>
        pose proof (kill_processes_terminations clock ts why g R);
        destruct (kill_processes clock ts why g R) as [e1 R1] end. done. }
  destruct (He msg Hin) as (target & reason & ->). apply termination_dropped.
Qed.
