(* ===== verification/ExecContract.v ===== *)
(** * What the SDK, the executioner and the supervisor promise each other

    The request by which a process launches a tool, handled by the executioner; the environment
    that the tool is started in, read by the SDK; and the registration of the tool, handled by
    the supervisor. *)

From Stdlib Require Import Ascii.
From S2P Require Import Prelude Json ProcessRegistry Termination Supervisor Requests.
From S2P Require Import StringUtils Config Sessions Storage Paths Sha256 Runtime Executioner.
From S2P Require Import Preparation.
From S2P Require Import Sdk SdkContract.

(** ** Numbers in the environment *)

Lemma atoi_pretty n : 0 < n ≤ INT_MAX → atoi (pretty n) = Ok n.
Proof.
  intros Hn. pose proof (read_digits_pretty n ltac:(lia)) as Hr.
  pose proof (pretty_Z_digits n ltac:(lia)) as Hd. unfold atoi.
  destruct (pretty n) as [|c s] eqn:Hp; [simpl in Hr; lia|].
  simpl in Hd. apply andb_prop in Hd as [Hc _].
  cbn [ltrim]. rewrite isdigit_not_space by done.
  assert (match String c s with
    | String "-" s => (-1, s) | String "+" s => (1, s) | _ => (1, String c s) end =
    (1, String c s)) as ->.
  { clear Hr Hp. by destruct c as [[] [] [] [] [] [] [] []]. }
  rewrite Z.mul_1_l, Hr. by rewrite decide_True by lia.
Qed.

Lemma Ok_inj {A} (a b : A) : Ok a = Ok b → a = b.
Proof. by intros [= ->]. Qed.

(** ** The variables that an adapter sets *)

Definition adapter_variables : list string :=
  ["PYTHONUNBUFFERED"; "NODE_ENV"; "CARGO_TARGET_DIR"; "VELIX_RUNTIME"].

Lemma adapter_overrides os manifest workdir rt k :
  select_runtime_adapter os manifest workdir = Ok (inr rt) → k ∉ adapter_variables →
  rt_env_overrides rt !! k = None.
Proof.
  intros H Hk. unfold select_runtime_adapter in H. cbv zeta in H. exc_run H; try done.
  all: unfold adapter_variables in Hk; cbn [rt_env_overrides].
  all: rewrite ?lookup_insert_ne by set_solver; apply lookup_empty.
Qed.

(** ** A validated request *)

Section contract.
Context (config_ : ExecutionerConfig).
Context (parse : string → exc json) (dump : json → exc string).

(** The variables that the SDK reads. *)
Definition sdk_variables (tree_id text user_id intent trace_id name : string) (pid : Z) :
    list (string * string) := [
  ("VELIX_PARENT_PID", pretty pid); ("VELIX_INTENT", intent); ("VELIX_TRACE_ID", trace_id);
  ("VELIX_PROCESS_NAME", name);
  ("VELIX_TREE_ID", if decide (intent = "JOIN_PARENT_TREE") then tree_id else "");
  ("VELIX_PARAMS", text); ("VELIX_USER_ID", user_id)].

Definition sdk_names : list string :=
  ["VELIX_PARENT_PID"; "VELIX_INTENT"; "VELIX_TRACE_ID"; "VELIX_PROCESS_NAME";
   "VELIX_TREE_ID"; "VELIX_PARAMS"; "VELIX_USER_ID"].

Lemma sdk_names_free k : k ∈ sdk_names → k ∉ adapter_variables.
Proof.
  assert (Forall (λ k, k ∉ adapter_variables) sdk_names) as H by by apply (bool_decide_unpack _).
  rewrite Forall_forall in H. auto.
Qed.

Lemma environment_lookup w req intent trace_id name params pid path rt env text user_id k v :
  process_environment dump w req intent trace_id name params pid path rt = Ok env →
  dump params = Ok text → value_string req "user_id" "" = Ok user_id →
  (∀ k, k ∈ sdk_names → rt_env_overrides rt !! k = None) → k ∈ sdk_names →
  (∀ tree_id, (list_to_map (sdk_variables tree_id text user_id intent trace_id name pid) : Env) !! k
              = Some v) →
  env !! k = Some v.
Proof.
  intros He Hd Hu Hover Hk Hv. unfold process_environment in He.
  apply exc_bind_Ok_inv in He as (tree_id & Ht & He).
  apply exc_bind_Ok_inv in He as (text' & Hd' & He).
  apply exc_bind_Ok_inv in He as (user_id' & Hu' & He).
  rewrite Hd in Hd'. apply Ok_inj in Hd' as <-. rewrite Hu in Hu'. apply Ok_inj in Hu' as <-.
  apply Ok_inj in He as <-.
  rewrite lookup_union_r by auto. apply lookup_union_Some_l.
  rewrite <-(Hv tree_id). clear Hv Hover.
  unfold sdk_names in Hk. rewrite !elem_of_cons, elem_of_nil in Hk.
  destruct Hk as [->|[->|[->|[->|[->|[->|[->|[]]]]]]]]; unfold sdk_variables; by simplify_map_eq.
Qed.

(** ** A validated request *)

(** Follow one branch of a computation on the service that returned. *)
Local Ltac st_step H :=
  cbv beta zeta in H;
  lazymatch type of H with
  | (_ ≫= _) _ = (Ok _, _) =>
      let a := fresh "a" in let s := fresh "s" in let E := fresh "E" in
      apply st_bind_Ok_inv in H as (a & s & E & H)
  | mret _ _ = (Ok _, _) => unfold mret, ST_ret in H; simplify_eq
  | (if ?b then _ else _) _ = (Ok _, _) =>
      lazymatch type of b with bool => destruct b eqn:? | _ => destruct b end
  | match ?x with _ => _ end _ = (Ok _, _) => destruct x eqn:?
  end.
Local Ltac lift_step :=
  match goal with
  | H : lift _ _ = (Ok _, _) |- _ => apply st_lift_Ok_inv in H as [? ->]
  end.
Local Ltac st_run H := repeat (st_step H; repeat lift_step).

Lemma resolved_package w name force s pkg s' :
  resolve_package parse dump w name force s = (Ok (Some pkg), s') →
  pkg_cache s' !! name = Some pkg.
Proof.
  intros H. unfold resolve_package in H. apply st_bind_Ok_inv in H as (cached & s1 & Hc & H).
  injection Hc as <- <-. st_run H; try done.
  - by destruct force.
  - unfold modify in *. simplify_eq. simpl. by rewrite lookup_insert_eq.
Qed.

(** What is known of a request that goes on to the preparation of its package. *)
Definition validated (w : World) (req : json) (s : Service) (job : Job)
    (intent : string) (src_pid : Z) (params schema : json) (pkg : CachedPackage) : Prop :=
  value_string req "message_type" "" = Ok "EXEC_VELIX_PROCESS" ∧
  value_string req "trace_id" "" = Ok (jb_trace job) ∧
  value_string req "intent" "JOIN_PARENT_TREE" = Ok intent ∧
  value_int req "source_pid" (-1) = Ok src_pid ∧
  (∃ is_handler, value_bool req "is_handler" false = Ok is_handler ∧
                 intent_error intent is_handler src_pid = None) ∧
  value_string req "name" "" = Ok (jb_name job) ∧ jb_name job ≠ "" ∧
  value_json req "params" (JObject []) = Ok params ∧
  pkg_cache s !! jb_name job = Some pkg ∧ jb_key job = pk_cache_key pkg ∧
  value_json (pk_manifest pkg) "parameters" (JObject []) = Ok schema ∧
  validate_params params schema = Ok None ∧
  os_is_directory (w_os w) (jb_workdir job) = true ∧
  select_runtime_adapter (w_os w) (pk_manifest pkg) (jb_workdir job) = Ok (inr (jb_runtime job)) ∧
  process_environment dump w req intent (jb_trace job) (jb_name job) params src_pid (pk_path pkg)
    (jb_runtime job) = Ok (jb_env job).

Lemma job_validated w req s job s' :
  begin_request config_ parse dump w req s = (Ok (inr job), s') →
  ∃ intent src_pid params schema pkg, validated w req s' job intent src_pid params schema pkg.
Proof.
  intros H. unfold begin_request in H. st_run H; try done.
  apply resolved_package in E. apply dec_stable in n1 as ->.
  unfold prepare_job in H. st_run H; try done.
  rewrite negb_false_iff in *.
  eexists _, _, _, _, _. unfold validated. simpl. split_and!; eauto; by apply dec_stable.
Qed.
(** ** A tool of the SDK *)

(** The handler may ask for a new tree, and no other process does: the executioner never
    refuses what the SDK asks for. *)
Lemma sdk_intent_accepted p io : 0 < vp_velix_pid p →
  intent_error (tool_intent p io) (vp_is_handler p) (vp_velix_pid p) = None.
Proof.
  intros Hpos. unfold intent_error, tool_intent, is_supported_intent_value.
  destruct io as [i|], (vp_is_handler p); simpl; repeat case_decide; try naive_solver lia;
    case_bool_decide; naive_solver lia.
Qed.

Lemma tool_intent_supported p io :
  tool_intent p io = "JOIN_PARENT_TREE" ∨ tool_intent p io = "NEW_TREE".
Proof.
  unfold tool_intent, is_supported_intent_value.
  destruct io as [i|]; [|by left]. destruct (vp_is_handler p); simpl; [|by left].
  case_bool_decide; auto.
Qed.

Lemma launch_request_fields p trace name args user intent :
  let req := launch_request p trace name args user intent in
  value_string req "trace_id" "" = Ok trace ∧ value_string req "intent" "JOIN_PARENT_TREE" = Ok intent ∧
  value_int req "source_pid" (-1) = get_int (JInt (vp_velix_pid p)) ∧
  value_bool req "is_handler" false = Ok (vp_is_handler p) ∧
  value_string req "name" "" = Ok name ∧ value_json req "params" (JObject []) = Ok args ∧
  value_string req "user_id" "" = Ok user.
Proof. unfold launch_request. case_decide; subst; by split_and!. Qed.

(** What the started tool reads in its environment. *)
Lemma launched_environment w p trace name args user io s job s' :
  0 < vp_velix_pid p ≤ INT_MAX → (∀ text, dump args = Ok text → parse text = Ok args) →
  let req := launch_request p trace name args user (tool_intent p io) in
  begin_request config_ parse dump w req s = (Ok (inr job), s') →
  jb_env job !! "VELIX_PROCESS_NAME" = Some name ∧
  parse_environment_variables parse (λ k, jb_env job !! k) =
    Ok {| ln_parent_pid := vp_velix_pid p; ln_entry_trace_id := trace;
          ln_intent := tool_intent p io; ln_params := args; ln_user_id := user |}.
Proof.
  intros Hpid Hargs req H.
  apply job_validated in H as (intent & src & params & schema & pkg & _ & Htr & Hin & Hsrc & _ & Hname &
    _ & Hpar & _ & _ & _ & _ & _ & Hsel & Henv).
  destruct (launch_request_fields p trace name args user (tool_intent p io))
    as (Htr' & Hin' & Hsrc' & _ & Hname' & Hpar' & Hus').
  fold req in Htr', Hin', Hsrc', Hname', Hpar', Hus'.
  rewrite Htr' in Htr. apply Ok_inj in Htr. rewrite Hin' in Hin. apply Ok_inj in Hin.
  rewrite Hname' in Hname. apply Ok_inj in Hname. rewrite Hpar' in Hpar. apply Ok_inj in Hpar.
  rewrite Hsrc' in Hsrc. simpl in Hsrc. rewrite i32_id in Hsrc by lia. apply Ok_inj in Hsrc.
  rewrite <-Htr, <-Hin, <-Hname, <-Hpar, <-Hsrc in Henv.
  destruct (dump args) as [text|w'|] eqn:Hd.
  2,3: exfalso; revert Henv; unfold process_environment; rewrite Hd;
    destruct (value_string req "tree_id" ""); done.
  pose proof (λ k v, environment_lookup _ _ _ _ _ _ _ _ _ _ _ _ k v Henv Hd Hus'
    (λ k Hk, adapter_overrides _ _ _ _ _ Hsel (sdk_names_free k Hk))) as Hlook.
  unfold parse_environment_variables.
  rewrite (Hlook "VELIX_PROCESS_NAME" name), (Hlook "VELIX_PARENT_PID" (pretty (vp_velix_pid p))),
    (Hlook "VELIX_PARAMS" text), (Hlook "VELIX_TRACE_ID" trace), (Hlook "VELIX_INTENT" (tool_intent p io)),
    (Hlook "VELIX_USER_ID" user) by (by apply (bool_decide_unpack _)) || (intros; unfold sdk_variables; by simplify_map_eq).
  rewrite atoi_pretty by done. unfold mbind, exc_bind, try_catch. by rewrite (Hargs _ eq_refl).
Qed.
(** C5 A tool is registered as the child of the process that launched it.  Take a process [p] of the
    SDK with a pid, and a call of a tool with arguments that are read back from their text.  The
    check of the executioner on the intent refuses none of the intents that the SDK asks for,
    whether or not the rest of the request is accepted.  When the request is accepted, the tool
    started for it reads in its environment the parent, the trace, the intent, the arguments and
    the user of the request; and when the supervisor accepts the registration that it then sends
    (with an OS pid that fits an [int] and a role other than the handler's) it is stored with the
    trace of the call, as a child of [p] in the tree that [p] is registered in, or, where the
    handler asked for a new tree, without a parent. *)
Theorem tool_becomes_child p io args : 0 < vp_velix_pid p ≤ INT_MAX →
  (∀ text, dump args = Ok text → parse text = Ok args) →
  intent_error (tool_intent p io) (vp_is_handler p) (vp_velix_pid p) = None ∧
  ∀ w trace name user s job s' now clock role os_pid mem S r S' eff,
  begin_request config_ parse dump w
    (launch_request p trace name args user (tool_intent p io)) s = (Ok (inr job), s') →
  registry_wf (registry_ S) → - 2 ^ 31 ≤ os_pid ≤ INT_MAX → role ≠ "handler" →
  ∃ l, parse_environment_variables parse (λ k, jb_env job !! k) = Ok l ∧
    ln_parent_pid l = vp_velix_pid p ∧ ln_entry_trace_id l = trace ∧
    ln_intent l = tool_intent p io ∧ ln_params l = args ∧ ln_user_id l = user ∧
    (handle_message now clock
       (registration (launched name role os_pid l)
          (validate_launch_intent role (ln_parent_pid l) (ln_intent l)) mem) S = Ok (r, S', eff) →
     is_ok r →
     ∃ q p', registered (launched name role os_pid l) r = Ok p' ∧ Requests.registration S S' r q ∧
       p_os_pid q = os_pid ∧ p_trace_id q = trace ∧ vp_velix_pid p' = p_pid q ∧
       vp_tree_id p' = p_tree_id q ∧ vp_parent_pid p' = vp_velix_pid p ∧ vp_user_id p' = user ∧
       if decide (tool_intent p io = "JOIN_PARENT_TREE") then
         p_parent_pid q = vp_velix_pid p ∧ vp_is_root p' = false ∧
         ∃ parent, process_table (registry_ S) !! vp_velix_pid p = Some parent ∧
           p_tree_id q = p_tree_id parent
       else p_parent_pid q = -1 ∧ vp_is_root p' = true).
Proof.
  intros Hpid Hargs. split; [apply sdk_intent_accepted; lia|].
  intros w trace name user s job s' now clock role os_pid mem S r S' eff H Hwf Hos Hrole.
  destruct (launched_environment w p trace name args user io s job s' Hpid Hargs H) as [_ Henv].
  eexists. split; [exact Henv|]. do 5 (split; [done|]). set (l := Build_Launch _ _ _ _ _).
  assert (validate_launch_intent role (vp_velix_pid p) (tool_intent p io) = tool_intent p io) as Hint.
  { unfold validate_launch_intent. rewrite decide_False; [done|].
    destruct (tool_intent_supported p io); naive_solver. }
  intros Hreg Hok. destruct (registered_process now clock name role os_pid l mem S r S' eff)
    as (q & _ & Hr & -> & Hrange & _ & Hospid & Htrace & Hpar & Hjoin); try done; [simpl; lia|].
  change (ln_intent l) with (tool_intent p io) in *. change (ln_parent_pid l) with (vp_velix_pid p) in *.
  rewrite Hint in *.
  destruct (registered_ok (launched name role os_pid l) (p_tree_id q) (tool_intent p io)
    (bool_decide (role = "handler" ∨ tool_intent p io = "NEW_TREE")) (bool_decide (role = "handler"))
    q Hrange) as (p' & Hp' & Hp1 & Hp2 & Hroot & _ & Hp3 & Hp4 & _).
  exists q, p'. split_and!; try done. rewrite Hroot, Hpar.
  destruct (decide (tool_intent p io = "JOIN_PARENT_TREE")) as [Hj|Hj].
  - rewrite decide_True by done. split; [done|]. split; [|by destruct (Hjoin Hrole Hj) as (? & ? & ? & _); eauto].
    apply bool_decide_eq_false_2. rewrite Hj. naive_solver.
  - rewrite decide_False by (by intros [_ ?]). split; [done|]. apply bool_decide_eq_true_2.
    destruct (tool_intent_supported p io); [done|by right].
Qed.
End contract.

(** ** Parameters *)

(** What a schema asks of the parameters: those it requires, and the type of those it
    describes. *)
Definition params_conform (params props : json) (required : list json) : Prop :=
  (∀ k, JString k ∈ required → contains params k = true) ∧
  (∀ k sch v, find props k = Some sch → is_object sch → find params k = Some v →
     ∃ t, value_string sch "type" "string" = Ok t ∧ has_type t v = true).

Lemma missing_required_spec params required :
  match missing_required params required with
  | None => ∀ k, JString k ∈ required → contains params k = true
  | Some _ => ∃ k, JString k ∈ required ∧ contains params k = false
  end.
Proof.
  induction required as [|r required IH]; [by intros k ?%elem_of_nil|].
  assert (∀ o : option string,
    match o with None => ∀ k, JString k ∈ required → contains params k = true
                 | Some _ => ∃ k, JString k ∈ required ∧ contains params k = false end →
    (∀ k, r = JString k → contains params k = true) →
    match o with None => ∀ k, JString k ∈ r :: required → contains params k = true
                 | Some _ => ∃ k, JString k ∈ r :: required ∧ contains params k = false end) as Hr.
  { intros [why|] Ho Hk.
    - destruct Ho as (k & ? & ?). exists k. rewrite elem_of_cons. auto.
    - intros k. rewrite elem_of_cons. intros [<-|?]; auto. }
  destruct r; try (apply Hr; [done|intros ? [=]]).
  simpl. destruct (contains params s) eqn:Hc; [|exists s; rewrite elem_of_cons; auto].
  apply Hr; [done|]. by intros k [= ->].
Qed.

Lemma assoc_key k v kvs : assoc k kvs = Some v → k ∈ kvs.*1.
Proof.
  induction kvs as [|[k' v'] kvs IH]; simpl; [done|]. rewrite elem_of_cons.
  case_decide; [by left|]. auto.
Qed.

Lemma object_items_find props k sch :
  is_object props → (k, sch) ∈ object_items props ↔ find props k = Some sch.
Proof.
  intros Ho. destruct props as [| | | | | |kvs]; try done. simpl.
  rewrite list_elem_of_omap. split.
  - intros (k' & _ & H). destruct (assoc k' kvs) eqn:Ha; [|done]. by injection H as -> ->.
  - intros Ha. exists k. rewrite Ha. split; [|done]. unfold order_by_text.
    rewrite insertion_sort_perm, elem_of_remove_dups. by eapply assoc_key.
Qed.

Lemma check_types_spec params props :
  match check_types params props with
  | Ok None => ∀ k sch v, (k, sch) ∈ props → is_object sch → find params k = Some v →
      ∃ t, value_string sch "type" "string" = Ok t ∧ has_type t v = true
  | Ok (Some _) => ∃ k sch v t, (k, sch) ∈ props ∧ is_object sch ∧ find params k = Some v ∧
      value_string sch "type" "string" = Ok t ∧ has_type t v = false
  | Throw _ => ∃ k sch v, (k, sch) ∈ props ∧ is_object sch ∧ find params k = Some v ∧
      ∀ t, value_string sch "type" "string" ≠ Ok t
  | UB => False
  end.
Proof.
  induction props as [|[k sch] props IH]; [by intros ??? ?%elem_of_nil|].
  assert (∀ o : exc (option string),
    (∀ v, is_object sch → find params k = Some v →
       ∃ t, value_string sch "type" "string" = Ok t ∧ has_type t v = true) →
    o = check_types params props →
    match o with
    | Ok None => ∀ k' sch' v, (k', sch') ∈ (k, sch) :: props → is_object sch' → find params k' = Some v →
        ∃ t, value_string sch' "type" "string" = Ok t ∧ has_type t v = true
    | Ok (Some _) => ∃ k' sch' v t, (k', sch') ∈ (k, sch) :: props ∧ is_object sch' ∧
        find params k' = Some v ∧ value_string sch' "type" "string" = Ok t ∧ has_type t v = false
    | Throw _ => ∃ k' sch' v, (k', sch') ∈ (k, sch) :: props ∧ is_object sch' ∧
        find params k' = Some v ∧ ∀ t, value_string sch' "type" "string" ≠ Ok t
    | UB => False
    end) as Hrest.
  { intros o Hk ->. destruct (check_types params props) as [[why|]| |]; [| | |done].
    - destruct IH as (k' & sch' & v & t & ? & ?). exists k', sch', v, t. rewrite elem_of_cons. auto.
    - intros k' sch' v. rewrite elem_of_cons. intros [[= -> ->]|Hin]; [apply Hk|by apply IH].
    - destruct IH as (k' & sch' & v & ? & ?). exists k', sch', v. rewrite elem_of_cons. auto. }
  simpl. destruct (find params k) as [v|] eqn:Hf; [|by apply Hrest; [intros ? _ [=]|]].
  destruct (is_object sch) eqn:Ho; [|by apply Hrest; [intros ? []|]].
  destruct (value_string sch "type" "string") as [t|w|] eqn:Ht; simpl.
  - destruct (has_type t v) eqn:Hh; [apply Hrest; [intros ? _ [= <-]; eauto|done]|].
    exists k, sch, v, t. rewrite elem_of_cons. auto.
  - exists k, sch, v. rewrite elem_of_cons, Ht. naive_solver.
  - by eapply (value_string_defined sch "type" "string").
Qed.

(** C37 The validation of the parameters of a tool.  For a schema that is an object, whose
    properties are an object, the parameters are accepted exactly when every required one is
    given and every one that the schema describes has the type that it is given there (a
    description whose type is not a string makes the request fail with an exception); when a
    reason is given, a required parameter is missing or a described one has another type. *)
Theorem validate_params_spec params schema props required :
  is_object schema → value_json schema "properties" schema = Ok props → is_object props →
  value_json schema "required" (JArray []) = Ok required →
  match validate_params params schema with
  | Ok None => params_conform params props (elements_of required)
  | Ok (Some _) =>
      (∃ k, JString k ∈ elements_of required ∧ contains params k = false) ∨
      (∃ k sch v t, find props k = Some sch ∧ is_object sch ∧ find params k = Some v ∧
         value_string sch "type" "string" = Ok t ∧ has_type t v = false)
  | Throw _ => ∃ k sch, find props k = Some sch ∧ is_object sch ∧
      ∀ t, value_string sch "type" "string" ≠ Ok t
  | UB => False
  end.
Proof.
  intros Hs Hp Hop Hr. unfold validate_params. rewrite Hp, Hr.
  rewrite (Is_true_true_1 _ Hs). cbn [negb].
  rewrite !exc_bind_ok. pose proof (missing_required_spec params (elements_of required)) as Hm.
  destruct (missing_required _ _) as [why|]; [by left|].
  rewrite (Is_true_true_1 _ Hop).
  pose proof (check_types_spec params (object_items props)) as Hc.
  destruct (check_types _ _) as [[why|]| |]; [right| | |done].
  - destruct Hc as (k & sch & v & t & Hin%object_items_find & ?); [|done]. by exists k, sch, v, t.
  - split; [done|]. intros k sch v Hin. by apply Hc, object_items_find.
  - destruct Hc as (k & sch & v & Hin%object_items_find & ? & _ & ?); [|done]. by exists k, sch.
Qed.
