(* ===== verification/Scenarios.v ===== *)
(** * Concrete runs

    Small runs of each component, evaluated, at which the hypotheses of the theorems hold. *)

From S2P Require Import Prelude Json ProcessRegistry Termination Supervisor Requests.
From S2P Require Import Framing Bus Scheduler StringUtils Provider Sse LlmRequest Adapters Streams.

(** ** The registry: a root and its child *)

Definition demo_register (now os_pid : Z) (t : string) (parent : Z) (R : Registry) :=
  register_process now os_pid t parent "agent" "trace" RUNNING (d_of_Z 100) false R.

Definition demo_boot : Registry := registry_boot 1.
Definition demo_root : Registry := (demo_register 10 501 "" (-1) demo_boot).2.
Definition demo_child : Registry := (demo_register 20 502 "TREE_1" 1000 demo_root).2.

Definition demo_info (pid os_pid parent now : Z) : ProcessInfo :=
  new_process pid os_pid parent "TREE_1" "agent" "trace" RUNNING (d_of_Z 100) now.

Lemma demo_root_reachable : reg_reachable demo_root.
Proof. exists 1. apply rtc_once, step_register. vm_compute. done. Qed.

Lemma demo_child_reachable : reg_reachable demo_child.
Proof.
  eapply reg_reachable_steps; [exact demo_root_reachable|].
  apply rtc_once, step_register. vm_compute. done.
Qed.

Lemma demo_root_lookup : process_table demo_child !! 1000 = Some (demo_info 1000 501 (-1) 10).
Proof. vm_compute. reflexivity. Qed.

Lemma demo_child_lookup : process_table demo_child !! 1001 = Some (demo_info 1001 502 1000 20).
Proof. vm_compute. reflexivity. Qed.

Lemma registry_invariant_witness : registry_wf demo_child.
Proof. apply registry_invariant. exact demo_child_reachable. Defined.

Lemma register_process_spec_witness :
  1000 ∈ mm_get (tree_process_index demo_root) "TREE_1" ∧ process_table demo_boot !! 1000 = None.
Proof.
  destruct (register_process_spec demo_boot 10 501 "" (-1) "agent" "trace" RUNNING (d_of_Z 100)
    false) as (_ & _ & Hok & _).
  - exists 1. reflexivity.
  - vm_compute. reflexivity.
  - destruct Hok as (Hfree & _ & _ & Hin & _); [vm_compute; reflexivity|].
    split; [exact Hin|exact Hfree].
Defined.

Lemma get_tree_processes_scan_witness :
  get_tree_processes "TREE_1" demo_child ≡ₚ scan_tree_processes "TREE_1" demo_child.
Proof. apply get_tree_processes_scan. exact demo_child_reachable. Defined.

Lemma terminate_process_spec_witness :
  mm_get (process_children (terminate_process 30 1000 demo_child)) 1000 = ∅ ∧
  ∀ t, 1000 ∉ mm_get (tree_process_index (terminate_process 30 1000 demo_child)) t.
Proof.
  destruct (terminate_process_spec demo_child 30 1000 (demo_info 1000 501 (-1) 10))
    as (_ & Hnot & _ & Hch & _).
  - exact demo_child_reachable.
  - reflexivity.
  - exact demo_root_lookup.
  - reflexivity.
  - split; [exact Hch|exact Hnot].
Defined.

Lemma mark_tree_completed_spec_witness :
  (mark_tree_completed_if_done "TREE_1" demo_child).1 = false.
Proof.
  pose proof (mark_tree_completed_spec demo_child "TREE_1" demo_child_reachable) as H.
  destruct (mark_tree_completed_if_done "TREE_1" demo_child) as [done R'] eqn:E.
  destruct H as [_ _]. vm_compute in E. injection E as <- _. reflexivity.
Defined.

Definition demo_targets : list TerminationTarget :=
  targets_of_pids "TREE_1" [1000; 1001] demo_child.

Lemma kill_processes_leaves_zombies_witness :
  let R' := (kill_processes 30 demo_targets "tree_kill" 1500 demo_child).2 in
  zombie R' 1001 "TREE_1" ∧ (mark_tree_completed_if_done "TREE_1" R').1 = false.
Proof.
  destruct (kill_processes_leaves_zombies demo_child 30 demo_targets "tree_kill" 1500 1001
    (demo_info 1001 502 1000 20)
    (kill_processes 30 demo_targets "tree_kill" 1500 demo_child).2) as (Hz & _ & Hm).
  - exact demo_child_reachable.
  - exact demo_child_lookup.
  - reflexivity.
  - vm_compute. repeat constructor.
  - reflexivity.
  - split; [exact Hz|exact Hm].
Defined.

Lemma kill_processes_only_targets_witness :
  0 < 502 ∧ (SIGKILL = SIGTERM ∨ SIGKILL = SIGKILL) ∧ 502 ∈ tt_os_pid <$> demo_targets.
Proof.
  destruct (kill_processes_only_targets demo_child 30 demo_targets "tree_kill" 1500 502 SIGKILL)
    as [H _].
  - apply list_elem_of_In. vm_compute. tauto.
  - exact H.
Defined.

(** ** The supervisor: a handler and an agent *)

Definition register_msg (role intent : string) (source os_pid : Z) : json :=
  JObject [("message_type", JString "REGISTER_PID"); ("source_pid", JInt source);
           ("payload", JObject [("register_intent", JString intent); ("role", JString role);
                                ("os_pid", JInt os_pid); ("status", JString "RUNNING")])].

Definition heartbeat_msg (pid : Z) (status : string) : json :=
  JObject [("message_type", JString "HEARTBEAT"); ("pid", JInt pid);
           ("payload", JObject [("status", JString status)])].

Definition tree_kill_msg (t : string) : json :=
  JObject [("message_type", JString "TREE_KILL"); ("source_pid", JInt 1000);
           ("payload", JObject [("tree_id", JString t)])].

(** Both sends succeed. *)
Definition sent (reply : json) : option string := None.

(** The state after a request, when it is answered. *)
Definition served (now : Z) (m : json) (S : Supervisor) : Supervisor :=
  match handle_client now (now + 1) sent sent (Ok m) S with Ok (_, S1, _) => S1 | _ => S end.

Definition is_served (now : Z) (m : json) (S : Supervisor) : bool :=
  bool_decide (0 < now + 1) && bool_decide (process_counter (registry_ S) < 2 ^ 64 - 1) &&
  match handle_client now (now + 1) sent sent (Ok m) S with Ok _ => true | _ => false end.

Lemma served_reachable now m S :
  is_served now m S = true → sup_reachable S → sup_reachable (served now m S).
Proof.
  unfold is_served, served. intros H (now0 & cfg & Hs).
  apply andb_true_iff in H as [[Hc Hp]%andb_true_iff H].
  destruct (handle_client now (now + 1) sent sent (Ok m) S) as [[[r S1] eff]| |] eqn:E; try done.
  exists now0, cfg. eapply rtc_r; [exact Hs|].
  eapply sup_client; [by apply bool_decide_eq_true in Hc|by apply bool_decide_eq_true in Hp
    |exact E].
Qed.

Lemma init_reachable now cfg : sup_reachable (Supervisor_init now cfg).
Proof. by exists now, cfg. Qed.

Definition sup0 : Supervisor := Supervisor_init 1 default_config.
(** The handler registers as pid 1000, an agent as pid 1001 in its own tree. *)
Definition sup1 : Supervisor := served 1000 (register_msg "handler" "NEW_TREE" (-1) 501) sup0.
Definition sup2 : Supervisor := served 2000 (register_msg "agent" "NEW_TREE" (-1) 502) sup1.

Lemma sup1_reachable : sup_reachable sup1.
Proof. apply served_reachable; [vm_compute; reflexivity|apply init_reachable]. Qed.
Lemma sup2_reachable : sup_reachable sup2.
Proof. apply served_reachable; [vm_compute; reflexivity|apply sup1_reachable]. Qed.

Definition agent_info : ProcessInfo :=
  new_process 1001 502 (-1) "TREE_1" "agent" "" RUNNING d_zero 2000.
Definition handler_info : ProcessInfo :=
  new_process 1000 501 (-1) "TREE_HANDLER" "handler" "" RUNNING d_zero 1000.

Lemma sup2_agent : process_table (registry_ sup2) !! 1001 = Some agent_info.
Proof. vm_compute. reflexivity. Qed.
Lemma sup2_handler : process_table (registry_ sup2) !! 1000 = Some handler_info.
Proof. vm_compute. reflexivity. Qed.

Definition agent_tree : TreeInfo := {|
  t_tree_id := "TREE_1"; t_root_pid := 1001; t_created_at_ms := 2000; t_status := T_ACTIVE;
  t_llm_request_count := 0 |}.
Lemma sup2_tree : tree_table (registry_ sup2) !! "TREE_1" = Some agent_tree.
Proof. vm_compute. reflexivity. Qed.

Definition quiet : os_answers := {| kill_ret := 0; waitpid_ret := 0; fork_ret := -1 |}.

Lemma supervisor_refines_registry_witness : registry_wf (registry_ sup2).
Proof.
  destruct (supervisor_refines_registry sup1 sup2) as (_ & _ & H).
  - exact sup1_reachable.
  - unfold sup2, served.
    destruct (handle_client 2000 (2000 + 1) sent sent (Ok (register_msg "agent" "NEW_TREE" (-1) 502)) sup1)
      as [[[r S1] eff]|w|] eqn:E.
    + eapply sup_client; [| |exact E]; [reflexivity|vm_compute; reflexivity].
    + exfalso. vm_compute in E. discriminate E.
    + exfalso. vm_compute in E. discriminate E.
  - exact H.
Defined.

(** The agent that is silent for too long is gone after a tick, and all are when the supervisor
    stops. *)
Lemma supervisor_refines_live_set_witness :
  live_set (registry_ sup2) !! 1001 = Some "TREE_1" ∧
  live_set (registry_ (watchdog_tick 17001 17002 9 quiet sup2).2) !! 1001 = None ∧
  live_set (registry_ (stop_kill_all 5000 sup2).2) = ∅.
Proof.
  destruct (supervisor_refines_live_set sup2 sup2_reachable) as (_ & _ & Htick & Hstop).
  split; [|split; [|apply Hstop]].
  - apply lookup_live_set. exists agent_info. split; [exact sup2_agent|]. split; reflexivity.
  - apply eq_None_not_Some. intros [t Ht].
    apply Htick in Ht as (p & Hp & _ & _ & Hle & _). rewrite sup2_agent in Hp. injection Hp as <-.
    vm_compute in Hle. by apply Hle.
Defined.

(** An hour and more later, the agent still reports but its tree is too old. *)
Definition sup3 : Supervisor := served 3700000 (heartbeat_msg 1001 "RUNNING") sup2.
Lemma sup3_reachable : sup_reachable sup3.
Proof. apply served_reachable; [vm_compute; reflexivity|apply sup2_reachable]. Qed.

Lemma watchdog_enforces_limits_witness :
  tree_dead (registry_ (watchdog_tick 3700500 3700501 9 quiet sup3).2) "TREE_1".
Proof.
  apply (watchdog_enforces_limits sup3 3700500 3700501 9 quiet "TREE_1" agent_tree).
  - exact sup3_reachable.
  - discriminate.
  - vm_compute. reflexivity.
  - vm_compute. reflexivity.
Defined.

Lemma watchdog_timeout_exact_witness :
  is_alive (registry_ (watchdog_tick 17001 17002 9 quiet sup2).2) 1001 = false ∧
  is_alive (registry_after_timeouts 17000 sup2) 1001 = true.
Proof.
  destruct (watchdog_timeout_exact sup2 17001 17002 9 quiet 1001 agent_info)
    as (_ & Hdead & _); [exact sup2_reachable|exact sup2_agent|reflexivity|cbn; lia|lia
    |vm_compute; split; discriminate|].
  destruct (watchdog_timeout_exact sup2 17000 17002 9 quiet 1001 agent_info)
    as (Hiff & _); [exact sup2_reachable|exact sup2_agent|reflexivity|cbn; lia|lia
    |vm_compute; split; discriminate|].
  split; [apply Hdead; vm_compute; reflexivity|].
  destruct (is_alive (registry_after_timeouts 17000 sup2) 1001); [reflexivity|].
  destruct Hiff as [Hf _]. specialize (Hf eq_refl). vm_compute in Hf. discriminate Hf.
Defined.

Lemma watchdog_kills_fresh_heartbeat_witness :
  is_alive (registry_ (watchdog_tick 1999 2001 9 quiet sup2).2) 1001 = false.
Proof.
  apply (watchdog_kills_fresh_heartbeat sup2 1999 2001 9 quiet 1001 agent_info).
  - exact sup2_reachable.
  - exact sup2_agent.
  - reflexivity.
  - cbn; lia.
  - cbn; lia.
  - vm_compute; split; discriminate.
Defined.

(** The agent ends, and a tick completes its tree. *)
Definition sup4 : Supervisor := served 3000 (heartbeat_msg 1001 "FINISHED") sup2.
Definition sup5 : Supervisor := (watchdog_tick 4000 4001 9 quiet sup4).2.
Lemma sup5_reachable : sup_reachable sup5.
Proof.
  assert (sup_reachable sup4) as (now & cfg & H)
    by (apply served_reachable; [vm_compute; reflexivity|apply sup2_reachable]).
  exists now, cfg. eapply rtc_r; [exact H|apply sup_watchdog].
Qed.

Lemma completed_tree_relabelled_killed_witness :
  (∃ ti, tree_table (registry_ sup5) !! "TREE_1" = Some ti ∧ t_status ti = T_COMPLETED) ∧
  ∃ ti, tree_table (registry_ (watchdog_tick 3700000 3700001 9 quiet sup5).2) !! "TREE_1"
          = Some ti ∧ t_status ti = T_KILLED.
Proof.
  assert (tree_table (registry_ sup5) !! "TREE_1" =
    Some (set_tree_status T_COMPLETED agent_tree)) as Ht by (vm_compute; reflexivity).
  split; [exists (set_tree_status T_COMPLETED agent_tree); split; [exact Ht|reflexivity]|].
  apply (completed_tree_relabelled_killed sup5 3700000 3700001 9 quiet "TREE_1"
    (set_tree_status T_COMPLETED agent_tree)).
  - exact sup5_reachable.
  - discriminate.
  - exact Ht.
  - reflexivity.
  - cbn; lia.
  - lia.
  - vm_compute; split; discriminate.
  - vm_compute. reflexivity.
Defined.

(** ** Requests *)

Definition locked_config : SupervisorConfig := {|
  c_heartbeat_timeout_sec := 15; c_watchdog_interval_ms := 1000; c_terminate_grace_ms := 1500;
  c_require_auth_token := true; c_auth_token := "secret"; c_exempt_system_tree_limits := true;
  c_max_processes_per_tree := 64; c_max_tree_runtime_sec := 3600;
  c_max_memory_per_tree_mb := d_of_Z 2048; c_max_llm_requests_per_tree := 1000;
  c_conversation_enabled := true; c_max_active_process_convos_per_pid := 100;
  c_process_convo_ttl_sec := 86400; c_handler_binary := ""; c_handler_args := [];
  c_handler_auto_restart := true; c_handler_restart_delay_ms := 2000 |}.

Definition status_msg (token : string) : json :=
  JObject [("message_type", JString "TREE_STATUS");
           ("metadata", JObject [("auth_token", JString token)])].

Lemma auth_required_witness :
  ∃ metadata, find (status_msg "secret") "metadata" = Some metadata ∧
    find metadata "auth_token" = Some (JString "secret") ∧ "secret" ≠ "".
Proof.
  destruct (handle_message 5 6 (status_msg "secret") (Supervisor_init 1 locked_config))
    as [[[r S'] eff]|w|] eqn:E.
  - apply (auth_required (Supervisor_init 1 locked_config) 5 6 (status_msg "secret") r S' eff).
    + reflexivity.
    + exact E.
    + left. vm_compute in E. injection E as <- _ _. reflexivity.
  - exfalso. vm_compute in E. discriminate E.
  - exfalso. vm_compute in E. discriminate E.
Defined.

Lemma register_pid_spec_witness :
  ∃ r p, find r "process" = Some (build_process_json p) ∧ placed sup1 p ∧
    handle_register_pid 2000 (register_msg "agent" "NEW_TREE" (-1) 502) sup1 = Ok (r, sup2).
Proof.
  destruct (handle_register_pid 2000 (register_msg "agent" "NEW_TREE" (-1) 502) sup1)
    as [[r S']|w|] eqn:E.
  - assert (S' = sup2) as -> by (vm_compute in E; injection E as _ <-; vm_compute; reflexivity).
    destruct (register_pid_spec sup1 2000 (register_msg "agent" "NEW_TREE" (-1) 502) r sup2)
      as [Hok _]; [exact sup1_reachable|exact E|].
    destruct Hok as [p Hp]; [vm_compute in E; injection E as <-; reflexivity|].
    exists r, p. split; [exact (rg_reply _ _ _ _ Hp)|].
    split; [exact (rg_placed _ _ _ _ Hp)|reflexivity].
  - exfalso. vm_compute in E. discriminate E.
  - exfalso. vm_compute in E. discriminate E.
Defined.

Lemma handler_unique_witness : one_handler (registry_ sup2).
Proof. apply handler_unique. exact sup2_reachable. Defined.

Lemma handler_lockout_witness :
  let S' := (watchdog_tick 17000 17001 9 quiet sup2).2 in
  ∃ r, handle_register_pid 18000 (register_msg "handler" "NEW_TREE" (-1) 503) S' = Ok (r, S') ∧
       response_status r = Some (JString "error").
Proof.
  destruct (handle_register_pid 18000 (register_msg "handler" "NEW_TREE" (-1) 503)
    (watchdog_tick 17000 17001 9 quiet sup2).2) as [[r S1]|w|] eqn:E.
  - destruct (handler_lockout sup2 (watchdog_tick 17000 17001 9 quiet sup2).2 17000 17001 9 quiet
      1000 handler_info) with (now := 18000) (m := register_msg "handler" "NEW_TREE" (-1) 503)
      (r := r) (S'' := S1) as [Hr HS].
    + exact sup2_reachable.
    + exact sup2_handler.
    + reflexivity.
    + reflexivity.
    + vm_compute. reflexivity.
    + reflexivity.
    + eexists. split; reflexivity.
    + exact E.
    + cbv zeta. subst S1. exists r. split; [exact E|exact Hr].
  - exfalso. vm_compute in E. discriminate E.
  - exfalso. vm_compute in E. discriminate E.
Defined.

Lemma tree_kill_spec_witness :
  ∃ r S' eff, handle_tree_kill 3000 (tree_kill_msg "TREE_1") sup2 = Ok (r, S', eff) ∧
    is_ok r ∧ no_live (registry_ S') "TREE_1".
Proof.
  destruct (tree_kill_spec sup2 3000 (tree_kill_msg "TREE_1") "TREE_1" 1000)
    as (r & S' & eff & H & Hok & Hdead & _).
  - exact sup2_reachable.
  - reflexivity.
  - discriminate.
  - reflexivity.
  - exists r, S', eff. split; [exact H|split; [exact Hok|exact Hdead]].
Defined.

Lemma heartbeat_spec_witness :
  ∃ r S' mem, handle_heartbeat 3000 3001 (heartbeat_msg 1001 "FINISHED") sup2 = Ok (r, S') ∧
    mem = d_of_Z (-1) ∧
    process_table (registry_ S') !! 1001 =
      Some (terminated 3001 (set_heartbeat FINISHED mem 3000 agent_info)).
Proof.
  destruct (handle_heartbeat 3000 3001 (heartbeat_msg 1001 "FINISHED") sup2) as [[r S']|w|] eqn:E.
  - destruct (heartbeat_spec sup2 3000 3001 (heartbeat_msg 1001 "FINISHED") r S')
      as (pid & p & payload & st & mem & Hpid & _ & Hp & Hpl & _ & Hst & Hmem & _ & Ht & _).
    + exact sup2_reachable.
    + exact E.
    + vm_compute in E. injection E as <- _. reflexivity.
    + vm_compute in Hpid. injection Hpid as <-. rewrite sup2_agent in Hp. injection Hp as <-.
      injection Hpl as <-. rewrite (Hst FINISHED eq_refl) in Ht.
      assert (process_table (registry_ S') =
        <[1001 := terminated 3001 (set_heartbeat FINISHED mem 3000 agent_info)]>
          (process_table (registry_ sup2))) as Ht' by exact Ht.
      exists r, S', mem. split; [reflexivity|]. split; [exact (Hmem eq_refl)|].
      rewrite Ht'. apply lookup_insert_eq.
  - exfalso. vm_compute in E. discriminate E.
  - exfalso. vm_compute in E. discriminate E.
Defined.

(** ** Frames *)

Definition demo_payload : bytes := String.list_ascii_of_string "[1,2,3]".

(** The frame arrives in three pieces, the last of which holds the start of another. *)
Definition demo_socket : socket :=
  [Some (take 3 (make_frame demo_payload)); Some (take 5 (drop 3 (make_frame demo_payload)));
   Some (drop 8 (make_frame demo_payload) ++ [Ascii.zero])].

Lemma frame_roundtrip_witness :
  async_read_frame 100 (make_frame demo_payload ++ [Ascii.zero]) = Frame demo_payload [Ascii.zero].
Proof.
  destruct (frame_roundtrip demo_payload 100 [Ascii.zero]) as [H _].
  - vm_compute. reflexivity.
  - rewrite H. vm_compute. reflexivity.
Defined.

Lemma recv_raw_any_segmentation_witness :
  ∃ s', recv_raw 100 demo_socket = Ok (demo_payload, s') ∧ delivered s' = [Ascii.zero].
Proof.
  destruct (recv_raw_any_segmentation 100 demo_socket demo_payload [Ascii.zero])
    as (s' & Hs' & _ & Hd).
  - repeat constructor; eexists; (split; [reflexivity|discriminate]).
  - vm_compute. reflexivity.
  - vm_compute. split; [reflexivity|discriminate].
  - vm_compute. reflexivity.
  - exists s'. split; [exact Hs'|exact Hd].
Defined.

(** ** The bus, with a toy text format for its messages *)

Definition bus_register_msg (pid : Z) : json :=
  JObject [("message_type", JString "BUS_REGISTER"); ("pid", JInt pid);
           ("tree_id", JString "TREE_HANDLER"); ("is_root", JBool true)].
Definition bus_relay_msg (target : Z) : json :=
  JObject [("message_type", JString "IPM_RELAY"); ("target_pid", JInt target);
           ("source_pid", JInt 7); ("tree_id", JString "TREE_HANDLER")].
Definition bus_heartbeat_msg : json :=
  JObject [("message_type", JString "HEARTBEAT"); ("pid", JString "x")].

Definition toy_parse (text : string) : exc json :=
  if decide (text = "register") then Ok (bus_register_msg 1000)
  else if decide (text = "relay") then Ok (bus_relay_msg 1000)
  else if decide (text = "heartbeat") then Ok bus_heartbeat_msg
  else Throw "parse error".

Definition toy_dump (j : json) : exc string := Ok (type_name j).

Definition ran (r : exc Bus) (B : Bus) : Bus := match r with Ok B1 => B1 | _ => B end.

(** Session 1 connects and registers as pid 1000, and its reply is being written. *)
Definition bus1 : Bus := accept 1 Bus_init.
Definition bus2 : Bus := ran (on_read toy_parse toy_dump false 1 (Some "register") bus1) bus1.
Definition bus3 : Bus := run_task 1 bus2.

Lemma bus1_reachable : bus_reachable toy_parse toy_dump bus1.
Proof. apply rtc_once, bus_accept; reflexivity. Qed.

Lemma bus2_step : bus_step toy_parse toy_dump bus1 (Ok bus2).
Proof.
  pose proof (bus_read toy_parse toy_dump bus1 1 (set_reading true new_session) false
    (Some "register") eq_refl eq_refl) as H.
  unfold bus2. destruct (on_read toy_parse toy_dump false 1 (Some "register") bus1) eqn:E;
    [exact H|vm_compute in E; discriminate E|vm_compute in E; discriminate E].
Qed.

Lemma bus2_reachable : bus_reachable toy_parse toy_dump bus2.
Proof. eapply rtc_r; [exact bus1_reachable|exact bus2_step]. Qed.

Definition bus2_session : BusSession := {|
  write_queue_ := []; registered_pid_ := 1000; registered_tree_id_ := "TREE_HANDLER";
  registered_tree_root_ := true; closed_ := false;
  strand_ := [EnqueueFrame (make_frame (String.list_ascii_of_string "object"))];
  reading := true; writing := None; wire := [] |}.
Lemma bus2_lookup : sessions bus2 !! 1%nat = Some bus2_session.
Proof. vm_compute. reflexivity. Qed.

Lemma bus3_step : bus_step toy_parse toy_dump bus2 (Ok bus3).
Proof. eapply bus_task; [exact bus2_lookup|reflexivity]. Qed.
Lemma bus3_reachable : bus_reachable toy_parse toy_dump bus3.
Proof. eapply rtc_r; [exact bus2_reachable|exact bus3_step]. Qed.

Definition bus3_session : BusSession :=
  run_enqueue (make_frame (String.list_ascii_of_string "object")) (set_strand [] bus2_session).
Lemma bus3_lookup : sessions bus3 !! 1%nat = Some bus3_session.
Proof. vm_compute. reflexivity. Qed.

Lemma bus_fifo_witness : evolves bus2 bus3.
Proof.
  apply (bus_fifo toy_parse toy_dump bus2 bus3).
  - exact bus2_reachable.
  - exact bus3_step.
Defined.

Lemma close_during_write_ub_witness :
  ∃ B1, bus_step toy_parse toy_dump bus3 (Ok B1) ∧ bus_step toy_parse toy_dump B1 UB.
Proof.
  apply (close_during_write_ub toy_parse toy_dump bus3 1 bus3_session
    (make_frame (String.list_ascii_of_string "object"))).
  - exact bus3_reachable.
  - exact bus3_lookup.
  - reflexivity.
  - reflexivity.
  - reflexivity.
Defined.

Lemma relay_spec_witness :
  ∃ push, find push "source_pid" = Some (JInt 1000) ∧
          find push "target_pid" = Some (JInt 1000) ∧ toy_dump push = Ok "object".
Proof.
  destruct (bus_handle_message toy_dump false 1 (bus_relay_msg 1000) bus3) as [e B'] eqn:E.
  destruct (relay_spec toy_dump false 1 (bus_relay_msg 1000) bus3 e B')
    as [HB|(pid & target & push & text & Hpid & _ & _ & Hd & _ & Hsrc & Hk)].
  - reflexivity.
  - exact E.
  - exfalso. subst B'. vm_compute in E. discriminate E.
  - exists push. split.
    + rewrite Hsrc. vm_compute. reflexivity.
    + split; [rewrite Hk by discriminate; reflexivity|].
      unfold bus_handle_message in E. rewrite Hd.
      unfold toy_dump in Hd. destruct push; try discriminate Hsrc.
      simpl in Hd. injection Hd as <-. reflexivity.
Defined.

Lemma bus_register_spec_witness :
  handle_payload toy_parse toy_dump false 1 "register" bus1 =
    Ok (enqueue_json 1 "object"
          (with_maps (<[1000 := 1%nat]>) (<["TREE_HANDLER" := 1000]>)
             (on_session 1 (set_registration 1000 "TREE_HANDLER" true) bus1))).
Proof.
  apply (bus_register_spec toy_parse toy_dump false 1 (set_reading true new_session) "register"
    (bus_register_msg 1000) 1000 "TREE_HANDLER" true "object" bus1); reflexivity.
Defined.

(** The same process connects again, as session 2. *)
Definition bus4 : Bus := accept 2 bus3.
Definition bus5 : Bus := ran (on_read toy_parse toy_dump false 2 (Some "register") bus4) bus4.

Lemma stale_close_drops_root_witness :
  pid_sessions_ (close_on_strand 1 bus5) !! 1000 = Some 2%nat ∧
  (resolve_target_pid (bus_relay_msg (-1)) (-1) (close_on_strand 1 bus5)).1 = Ok (-1).
Proof.
  destruct (stale_close_drops_root bus5 1 2 bus3_session 1000 (bus_relay_msg (-1)))
    as (_ & _ & Hp & Hr).
  - vm_compute. reflexivity.
  - reflexivity.
  - reflexivity.
  - reflexivity.
  - reflexivity.
  - discriminate.
  - vm_compute. reflexivity.
  - vm_compute. reflexivity.
  - reflexivity.
  - split; [exact Hp|rewrite Hr; reflexivity].
Defined.

Lemma heartbeat_crash_witness :
  ∃ B1 w, bus_step toy_parse toy_dump bus3 (Ok B1) ∧ bus_step toy_parse toy_dump B1 (Throw w).
Proof.
  apply (heartbeat_crash toy_parse toy_dump bus3 1 bus3_session "heartbeat" bus_heartbeat_msg "x").
  - exact bus3_reachable.
  - exact bus3_lookup.
  - reflexivity.
  - reflexivity.
  - reflexivity.
  - reflexivity.
  - exists "object". reflexivity.
Defined.

(** ** The scheduler, with two workers and the scanning priority queue *)

Definition demo_request (id key : string) (priority now : Z) (promise : nat) : PendingRequest := {|
  Scheduler.request_id := id; Scheduler.trace_id := "trace"; Scheduler.tree_id := key;
  queue_key := key; Scheduler.source_pid := 1000; Scheduler.base_priority := priority;
  payload := JObject []; enqueued_at := now; completion := promise |}.

Definition req_a : PendingRequest := demo_request "a" "TREE_1" 1 100 0.
Definition req_b : PendingRequest := demo_request "b" "TREE_1" 1 200 1.
Definition req_c : PendingRequest := demo_request "c" "TREE_2" 2 9000100 2.

(** Two requests of a tree, the first in the hands of worker 0; then one of another. *)
Definition sched1 : Scheduler := submit 200 req_b (submit 100 req_a Scheduler_init).
Definition sched2 : Scheduler := worker_pick scan_pop 0 sched1.
Definition sched3 : Scheduler := submit 9000100 req_c sched2.

Lemma sched1_reachable : sched_reachable scan_pop 2 sched1.
Proof.
  eapply rtc_r; [apply rtc_once, (sched_submit _ _ _ 100 req_a)|].
  apply (sched_submit _ _ _ 200 req_b).
Qed.
Lemma sched2_step : sched_step scan_pop 2 sched1 sched2.
Proof. apply sched_pick; [lia|reflexivity]. Qed.
Lemma sched2_reachable : sched_reachable scan_pop 2 sched2.
Proof. eapply rtc_r; [exact sched1_reachable|exact sched2_step]. Qed.
Lemma sched3_reachable : sched_reachable scan_pop 2 sched3.
Proof. eapply rtc_r; [exact sched2_reachable|apply (sched_submit _ _ _ 9000100 req_c)]. Qed.

Lemma sched2_in_flight : in_flight sched2 = {[0%nat := req_a]}.
Proof. vm_compute. reflexivity. Qed.
Lemma sched3_in_flight : in_flight sched3 = {[0%nat := req_a]}.
Proof. vm_compute. reflexivity. Qed.

Lemma one_request_per_key_witness :
  in_flight sched2 !! 0%nat = Some req_a ∧ (size (in_flight sched2) ≤ 2)%nat ∧
  ∀ w r, in_flight sched2 !! w = Some r → queue_key r = "TREE_1" → w = 0%nat.
Proof.
  destruct (one_request_per_key scan_pop 2 sched2 sched2_reachable) as (Hone & Hsize & _).
  assert (in_flight sched2 !! 0%nat = Some req_a) as H0 by (rewrite sched2_in_flight; reflexivity).
  split; [exact H0|]. split; [exact Hsize|].
  intros w r Hw Hk. exact (Hone w 0%nat r req_a Hw H0 Hk).
Defined.

Lemma pick_finds_request_witness :
  pending sched3 "TREE_2" = [req_c] ∧
  ∃ out S', pick_next_request scan_pop sched3 = (Some out, S').
Proof.
  split; [vm_compute; reflexivity|].
  destruct (pick_finds_request scan_pop 2 sched3 "TREE_2") as (_ & out & S' & c & H & _).
  - exact sched3_reachable.
  - vm_compute. discriminate.
  - intros w r Hw. rewrite sched3_in_flight in Hw.
    apply lookup_singleton_Some in Hw as [_ <-]. discriminate.
  - exists out, S'. exact H.
Defined.

Lemma scheduler_fifo_witness :
  pending sched1 "TREE_1" = [req_a; req_b] ∧ pending sched2 "TREE_1" = [req_b] ∧
  queue_move sched1 sched2 "TREE_1".
Proof.
  split; [vm_compute; reflexivity|split; [vm_compute; reflexivity|]].
  apply (scheduler_fifo scan_pop 2).
  - exact sched1_reachable.
  - exact sched2_step.
Defined.

(** Two hours and a half later. *)
Lemma late_request_overtakes_witness :
  (pick_next_request scan_pop (submit (100 + 9000000) req_c
     (submit 100 req_a Scheduler_init))).1 = Some req_c.
Proof.
  apply (late_request_overtakes scan_pop 100 9000000 req_a req_c);
    first [discriminate|reflexivity|lia].
Defined.

(** Request [b] has the trace of [a], which worker 0 has in hand. *)
Lemma superseded_is_cancelled_witness :
  completions (worker_finish 400 0 (inr "timeout") (worker_check 0 (submit 300 req_b sched2)))
    !! 0%nat = Some (cancelled_response req_a).
Proof.
  destruct (superseded_is_cancelled 300 400 0 req_a req_b (inr "timeout") sched2)
    as (_ & H & _); [reflexivity|discriminate|discriminate|discriminate|discriminate
    |rewrite sched2_in_flight; reflexivity|vm_compute; reflexivity|].
  destruct H as (_ & H & _); [vm_compute; reflexivity|exact H].
Defined.

(** ** LLM requests *)

Definition say (role content : string) : json :=
  JObject [("role", JString role); ("content", JString content)].

Definition llm_envelope : json :=
  JObject [("message_type", JString "LLM_REQUEST"); ("trace_id", JString "t");
           ("payload", JObject [("request_id", JString "r"); ("tree_id", JString "TREE_HANDLER");
                                ("source_pid", JInt 1000); ("mode", JString "user_conversation");
                                ("user_id", JString "ada"); ("user_message", JString "hi")])].

Lemma parse_request_spec_witness :
  ∃ req user_id, parse_request_payload 5 0 llm_envelope = Ok req ∧
    value_string (payload req) "user_id" "" = Ok user_id ∧ queue_key req = "user_ada".
Proof.
  destruct (parse_request_payload 5 0 llm_envelope) as [req|w|] eqn:E.
  - destruct (parse_request_spec 5 0 llm_envelope req E) as (mode & u & _ & _ & _ & _ & Hu & _).
    exists req, u. split; [reflexivity|split; [exact Hu|]].
    vm_compute in E. injection E as <-. reflexivity.
  - exfalso. vm_compute in E. discriminate E.
  - exfalso. vm_compute in E. discriminate E.
Defined.

Definition demo_history : list json :=
  [say "user" "a question of some length"; say "assistant" "an answer of some length"].
Definition demo_turn : list json := [say "user" "and then?"].
Definition demo_payload_json : json :=
  JObject [("messages", JArray (demo_history ++ demo_turn)); ("max_tokens", JInt 8192)].

Lemma clamp_fits_witness :
  ∃ payload', clamp_max_tokens 1000 demo_payload_json = Ok payload' ∧
    request_limit payload' = Ok 897.
Proof.
  destruct (clamp_fits 1000 demo_payload_json (demo_history ++ demo_turn) 3 (JObject []) 8192 8192)
    as (payload' & m & H & Hm & _ & Hroom);
    [unfold INT_MAX; lia|reflexivity|vm_compute; reflexivity|reflexivity|reflexivity|reflexivity|].
  exists payload'. split; [exact H|]. assert (m = 897) as <- by exact Hroom. exact Hm.
Defined.

Lemma clamp_ignores_history_witness :
  estimate_request_tokens (JArray (demo_history ++ demo_turn)) =
  estimate_request_tokens (JArray demo_turn).
Proof.
  apply (clamp_ignores_history [say "user" "a question of some length"]
    (say "assistant" "an answer of some length") demo_turn [] 1000).
  - reflexivity.
  - constructor; [|constructor]. intros _. exists "user". split; [reflexivity|discriminate].
Defined.

Lemma chat_messages_spec_witness :
  ∃ msgs, chat_messages toy_dump (JArray [say "user" "hi"; JNull; say "system" "be brief"])
            = Ok (JArray msgs) ∧ length msgs = 2%nat.
Proof.
  destruct (chat_messages_spec toy_dump [say "user" "hi"; JNull; say "system" "be brief"]
    (JArray [say "system" "be brief"; say "user" "hi"])) as (msgs & Hm & Hall).
  - vm_compute. reflexivity.
  - exists msgs. split; [injection Hm as <-; vm_compute; reflexivity|injection Hm as <-; reflexivity].
Defined.

Lemma undo_spec_witness :
  ∃ counts, undo toy_dump (demo_history ++ demo_turn) = Ok ([], 3, counts) ∧
    Z.of_nat (length (@nil json)) + 3 = Z.of_nat (length (demo_history ++ demo_turn)).
Proof.
  destruct (undo toy_dump (demo_history ++ demo_turn)) as [[[kept removed] counts]|w|] eqn:E.
  - destruct (undo_spec toy_dump (demo_history ++ demo_turn) kept removed counts E) as [Hlen _].
    vm_compute in E. injection E as <- <- <-.
    exists (Some (0, 0)). split; [reflexivity|exact Hlen].
  - exfalso. vm_compute in E. discriminate E.
  - exfalso. vm_compute in E. discriminate E.
Defined.

(** ** Texts and streams *)

Lemma replace_all_spec_witness :
  ∃ pieces, "a--b--" = join pieces "--" ∧ replace_all "a--b--" "--" "+" = join pieces "+".
Proof.
  destruct (replace_all_spec "a--b--" "--" "+") as (pieces & H1 & H2 & _); [discriminate|].
  exists pieces. split; [exact H1|exact H2].
Defined.

Ltac line_ok := split; [reflexivity|let f := fresh in intros f; vm_compute; discriminate].

Definition demo_transport (body : list string) : transport :=
  {| tr_pieces := body; tr_broken := false; tr_status := 200 |}.

Lemma demo_event_ok : event_ok ("delta", ("hello", ["world"])).
Proof.
  split; [line_ok|split; [|discriminate]].
  constructor; [line_ok|constructor; [line_ok|constructor]].
Qed.

Definition demo_body : string :=
  "event: delta" +:+ nl +:+ "data: hello" +:+ nl +:+ "data: world" +:+ nl +:+ nl.

Lemma sse_roundtrip_witness :
  stream_events (total_callback (λ e seen, seen ++ [ev_data e]))
    (demo_transport [String.substring 0 17 demo_body; String.substring 17 40 demo_body]) [] =
    Ok ["hello" +:+ nl +:+ "world"].
Proof.
  apply (sse_roundtrip (λ e seen, seen ++ [ev_data e]) [("delta", ("hello", ["world"]))]).
  - constructor; [exact demo_event_ok|constructor].
  - vm_compute. reflexivity.
  - reflexivity.
  - reflexivity.
Defined.

(** A parser that knows some texts. *)
Definition demo_parse (known : list (string * json)) (s : string) : exc json :=
  match assoc s known with
  | Some j => Ok j
  | None => Throw "[json.exception.parse_error.101] parse error"
  end.

Definition anthropic_known : list (string * json) :=
  [("stop", JObject [("type", JString "message_stop")])].

Lemma anthropic_stream_fails_witness :
  anthropic_stream (demo_parse anthropic_known) toy_dump on_chunk
    (demo_transport [encode (data_event "" "stop")]) StreamState_init =
    Throw stream_network_error.
Proof.
  destruct (anthropic_stream_fails (demo_parse anthropic_known) toy_dump on_chunk
    [] "" "stop" (JObject [("type", JString "message_stop")]) ""
    (demo_transport [encode (data_event "" "stop")]) StreamState_init) as [H|H];
    [constructor|line_ok|line_ok|discriminate|discriminate|reflexivity|left; reflexivity
    |vm_compute; reflexivity| |exact H].
  exfalso. vm_compute in H. discriminate H.
Defined.

Definition error_known : list (string * json) :=
  [("oops", JObject [("error", JString "rate limited")])].

Lemma openai_stream_error_masked_witness :
  openai_stream (demo_parse error_known) toy_dump on_chunk
    (demo_transport [encode (data_event "" "oops")]) StreamState_init =
    Throw stream_network_error.
Proof.
  destruct (openai_stream_error_masked (demo_parse error_known) toy_dump on_chunk
    [] "" "oops" (JObject [("error", JString "rate limited")]) ""
    (demo_transport [encode (data_event "" "oops")]) StreamState_init) as [H|H];
    [constructor|line_ok|line_ok|discriminate|discriminate|reflexivity|reflexivity
    |vm_compute; reflexivity| |exact H].
  exfalso. vm_compute in H. discriminate H.
Defined.

(** Two calls whose fragments are interleaved. *)
Definition fragment (i : Z) (id name : option string) (args : string) : Fragment :=
  {| fr_index := i; fr_id := id; fr_name := name; fr_arguments := args |}.
Definition demo_steps : list (string * list Fragment) :=
  [("Let me ", [fragment 2 (Some "id2") (Some "f") ""]);
   ("see", [fragment 0 (Some "id0") (Some "g") "{"; fragment 2 None None "{}"]);
   ("", [fragment 0 None None "}"])].
Definition stream_known : list (string * json) :=
  zip ["one"; "two"; "three"] ((λ '(text, l), delta_json text l) <$> demo_steps) ++
  [("end", finish_json "tool_calls")].
Definition demo_stream : transport :=
  demo_transport [concat_strings (encode ∘ data_event "" <$>
    ["one"; "two"; "three"] ++ ["end"; "[DONE]"])].

Lemma demo_plain d : d ∈ ["one"; "two"; "three"; "end"] → plain d.
Proof.
  intros H. assert (line_ok d) as Hl.
  { repeat (apply elem_of_cons in H as [->|H]; [line_ok|]). by apply not_elem_of_nil in H. }
  repeat (apply elem_of_cons in H as [->|H]; [split; [done|]; split; [done|split; discriminate]|]).
  by apply not_elem_of_nil in H.
Qed.

Lemma openai_stream_calls_witness :
  ∃ st, openai_stream (demo_parse stream_known) toy_dump on_chunk demo_stream StreamState_init =
      Ok st ∧ agg_content st = "Let me see" ∧
    omap finish_call (partial_tool_calls st) =
      [finished_call {| tcs_id := "id0"; tcs_name := "g"; tcs_arguments := "{}" |};
       finished_call {| tcs_id := "id2"; tcs_name := "f"; tcs_arguments := "{}" |}].
Proof.
  destruct (openai_stream_calls (demo_parse stream_known) toy_dump demo_steps
    ["one"; "two"; "three"] ["end"; "[DONE]"] [0; 2] demo_stream)
    as (st & Hst & Hc & _ & Hcalls).
  - repeat constructor; (apply demo_plain; set_solver) || reflexivity.
  - constructor; [right; split; [apply demo_plain; set_solver|exists "tool_calls"; reflexivity]|].
    constructor; [left; reflexivity|constructor].
  - repeat constructor; simpl; unfold INT_MAX; lia.
  - repeat constructor; lia.
  - intros i. simpl. set_solver.
  - vm_compute. reflexivity.
  - reflexivity.
  - reflexivity.
  - exists st. split; [exact Hst|split; [exact Hc|exact Hcalls]].
Defined.

Definition ollama_known : list (string * json) :=
  [("one", ollama_call_json "f" []); ("two", ollama_call_json "g" []); ("end", ollama_done_json)].
Definition demo_dump (j : json) : exc string := Ok "{}".
Definition ollama_body : string := "one" +:+ nl +:+ "two" +:+ nl +:+ "end" +:+ nl.

Lemma ollama_calls_collide_witness :
  ∃ st, ollama_stream (demo_parse ollama_known) demo_dump Z.of_nat on_chunk
      (demo_transport [ollama_body]) StreamState_init = Ok st ∧
    length (omap finish_call (partial_tool_calls st)) = 1%nat.
Proof.
  destruct (ollama_calls_collide (demo_parse ollama_known) demo_dump Z.of_nat
    "one" "two" "end" "f" "g" [] [] "{}" "{}" (demo_transport [ollama_body]))
    as (st & Hst & Hcalls).
  - repeat constructor; try line_ok; try discriminate; vm_compute; discriminate.
  - reflexivity.
  - reflexivity.
  - reflexivity.
  - reflexivity.
  - reflexivity.
  - vm_compute. reflexivity.
  - reflexivity.
  - reflexivity.
  - exists st. split; [exact Hst|rewrite Hcalls; reflexivity].
Defined.

Definition whole_call (id name : string) : json :=
  JObject [("id", JString id);
           ("function", JObject [("name", JString name); ("arguments", JString "{}")])].
Definition two_calls : ChatResponse := {|
  rs_content := ""; rs_tool_calls := JArray [whole_call "a" "f"; whole_call "b" "g"];
  rs_has_tool_calls := true; rs_finish_reason := "tool_calls"; rs_usage := JObject [];
  rs_raw := JObject [] |}.
Definition demo_chat_request : ChatRequest := {|
  cr_model := "m"; cr_messages := JArray [say "user" "hi"]; cr_tools := JArray [];
  cr_tool_choice := JNull; cr_sampling_params := JObject []; cr_stream := true;
  cr_max_tokens := 10; cr_stop := []; cr_extra_body := JObject [] |}.

Lemma default_stream_merges_calls_witness :
  ∃ st, default_call_chat_stream on_chunk (λ _, Ok two_calls) demo_chat_request
      StreamState_init = Ok st ∧
    length (omap finish_call (partial_tool_calls st)) = 1%nat.
Proof.
  destruct (default_stream_merges_calls (λ _, Ok two_calls) demo_chat_request two_calls
    "a" "b" "f" "g" "{}" "{}") as (st & Hst & Hcalls);
    [reflexivity|reflexivity|reflexivity|discriminate|discriminate|discriminate|].
  exists st. split; [exact Hst|rewrite Hcalls; reflexivity].
Defined.

Definition mixed_messages : json :=
  JArray [JNull; say "agent" "done"; say "user" ""; say "robot" "hm"; say "tool" ""].

Lemma normalize_messages_spec_witness :
  normalize_messages_for_provider (JArray [say "assistant" "done"; say "tool" ""]) =
    Ok (JArray [say "assistant" "done"; say "tool" ""]).
Proof.
  destruct (normalize_messages_spec mixed_messages
    (JArray [say "assistant" "done"; say "tool" ""])) as [H _]; [vm_compute; reflexivity|].
  exact H.
Defined.
