(* ===== verification/SessionScenarios.v ===== *)
(** * Concrete runs of the sessions

    A storage provider that is a map in memory, which satisfies the interface, and small runs
    of [SessionIO], the session manager and the compacter over it, at which the hypotheses of
    the theorems hold. *)

From S2P Require Import Prelude Json StringUtils Provider Sse Scheduler LlmRequest ServiceConfig Adapters Sessions Storage Prompt Conversations Histories SessionManager Compaction SessionControl Inference.

(** ** A provider in memory *)

Definition created_by (pid : Z) (j : json) : bool :=
  match find j "creator_pid" with Some (JInt p) => bool_decide (p = pid) | _ => false end.

Abbreviation Memory := (gmap string json).

#[export] Instance memory_provider : IStorageProvider Memory := {|
  upsert_conversation j s := id ← value_string j "convo_id" ""; mret (true, <[id := j]> s);
  Storage.get_conversation id s := Ok (s !! id);
  Storage.delete_conversation id pid s := (true, delete id s);
  delete_all_proc_convos pid s := filter (λ kv, created_by pid kv.2 = false) s;
  list_proc_convo_ids pid s := (filter (λ kv, created_by pid kv.2 = true) (map_to_list s)).*1;
  list_proc_creator_pids s := omap (λ kv, match find kv.2 "creator_pid" with
    | Some (JInt pid) => if decide (0 < pid) then Some pid else None
    | _ => None end) (map_to_list s);
  upsert_super_user _ s := (true, s);
  Storage.delete_super_user _ s := (true, s);
  list_super_users _ := [];
  upsert_session_index_entry _ _ _ s := (true, s);
  delete_session_index_entry _ _ s := (true, s);
  list_session_index_entries _ _ := [];
  append_snapshot _ _ s := Ok (true, s);
  snapshot_count _ _ := 0;
  delete_snapshots _ s := (Ok true, s);
  delete_snapshots_for_super_user _ s := (true, s) |}.

Lemma created_by_true pid j : created_by pid j = true ↔ find j "creator_pid" = Some (JInt pid).
Proof.
  unfold created_by. destruct (find j "creator_pid") as [[]|]; try done.
  rewrite bool_decide_eq_true. split; [by intros ->|by intros [= ->]].
Qed.

Lemma upsert_memory c (s : Memory) :
  upsert_conversation (conversation_json c) s =
    Ok (true, <[cv_convo_id c := conversation_json c]> s).
Proof. done. Qed.

#[export, refine] Instance memory_store : ConversationStore Memory := {|
  storable := conversation_typed; nameable _ := True |}.
Proof.
  - done.
  - done.
  - intros c s s' _. rewrite upsert_memory. intros [= <-]. cbn. f_equal. apply lookup_insert_eq.
  - intros c s b s' id _. rewrite upsert_memory. intros [= <- <-] _ [?|?]; [done|]. cbn.
    f_equal. by apply lookup_insert_ne.
  - intros id pid s s' _ [= <-]. left. cbn. f_equal. apply lookup_delete_eq.
  - intros id pid s b s' id' _ _ [= <- <-] [?|?]; [done|]. cbn.
    f_equal. by apply lookup_delete_ne.
  - intros pid s id _. cbn. destruct (filter _ s !! id) as [j|] eqn:Hf; [left|by right].
    by apply map_lookup_filter_Some in Hf as [-> _].
  - by intros id sid j s b s' _ _ [= <- <-].
Defined.

#[export, refine] Instance memory_owned_store : OwnedStore Memory := {}.
Proof.
  - intros pid s id _. cbn.
    destruct (filter (λ kv, created_by pid kv.2 = false) s !! id) as [j|] eqn:Hf.
    + left. by apply map_lookup_filter_Some in Hf as [-> _].
    + apply map_lookup_filter_None in Hf as [->|Hf]; [by left|].
      destruct (s !! id) as [j|] eqn:Hj; [|by left]. right.
      exists j. split; [done|]. apply created_by_true. specialize (Hf j eq_refl). simpl in Hf.
      by destruct (created_by pid j).
  - intros id pid s j _ [= Hj] Hpid%created_by_true. simpl.
    apply list_elem_of_fmap. exists (id, j). split; [done|].
    apply list_elem_of_filter. by split; [|apply elem_of_map_to_list].
  - intros pid s Hpid. apply list_elem_of_omap in Hpid as ([id j] & _ & H).
    destruct (find _ _) as [[]|]; try done. case_decide; by simplify_eq.
Defined.

(** ** Conversations *)

Definition no_file (path : string) : option string := None.
Definition no_json (text : string) : exc json := Throw "no file is read".
Definition no_match (pattern text : string) : option bool := Some false.
Definition no_skills : exc json := Ok (JArray []).

Lemma memory_storable c : conversation_ok c → nameable (cv_convo_id c) → storable c.
Proof. intros Hc _. apply Hc. Qed.

Lemma memory_nameable (rand pid : Z) : nameable (generate_process_convo_id rand pid).
Proof. done. Qed.

Lemma memory_files id c :
  load_convo_from_path no_json no_file (user_convo_path "memory/sessions" id) = Ok c →
  cv_convo_id c ≠ "" → named id c.
Proof. unfold load_convo_from_path. simpl. by intros [= <-]. Qed.

Definition io0 : SessionIO Memory := {| storage_ := ∅; convo_cache_ := ∅ |}.
Definition opened (now : Z) (io : SessionIO Memory) : SessionIO Memory :=
  (get_or_create_user_convo no_json no_file "memory/sessions" now "bob_s1" io).2.
Definition told (now : Z) (role content : string) (io : SessionIO Memory) : SessionIO Memory :=
  (append_message now "bob_s1" role content 0 (JObject []) io).2.
Definition io1 : SessionIO Memory := opened 10 io0.
Definition io2 : SessionIO Memory := told 20 "user" "hello" io1.
Definition io3 : SessionIO Memory := told 30 "assistant" "good morning" io2.

Lemma io0_ok : io_ok io0.
Proof. split; [apply map_Forall_empty|]. intros id _. by left. Qed.

Lemma opened_step now io P :
  is_long now →
  io_step no_json no_file no_match no_skills "memory/sessions" (io, P) (opened now io, P).
Proof. intros ?. by apply (step_operation _ _ _ _ _ (opened now)), op_user_convo. Qed.

Lemma told_step now role content io P :
  is_long now → content ≠ "" →
  io_step no_json no_file no_match no_skills "memory/sessions"
    (io, P) (told now role content io, P).
Proof. intros ??. by apply (step_operation _ _ _ _ _ (told now role content)), op_append. Qed.

Lemma io_ok_step io io' P :
  io_ok io → io_step no_json no_file no_match no_skills "memory/sessions" (io, []) (io', P) →
  io_ok io'.
Proof.
  intros Hio Hs. eapply io_step_ok in Hs; [apply Hs|..]; try done.
  - apply memory_storable.
  - apply memory_files.
Qed.

Lemma io1_ok : io_ok io1.
Proof. eapply io_ok_step; [apply io0_ok|by apply opened_step]. Qed.

Lemma io2_ok : io_ok io2.
Proof. eapply io_ok_step; [apply io1_ok|by apply told_step]. Qed.

Lemma io3_ok : io_ok io3.
Proof. eapply io_ok_step; [apply io2_ok|by apply told_step]. Qed.

Definition convo_in (io : SessionIO Memory) : Conversation :=
  default not_found (convo_cache_ io !! "bob_s1").

Lemma session_io_typed_witness :
  Storage.get_conversation "bob_s1" (storage_ io3) =
    Ok (Some (conversation_json (convo_in io3))) ∧
  named "bob_s1" (convo_in io3) ∧ length (cv_messages (convo_in io3)) = 2%nat.
Proof.
  destruct (session_io_typed memory_storable no_json no_file no_match no_skills "memory/sessions"
    memory_nameable memory_files io0 io3 [] io0_ok) as [Hcache _].
  { eapply rtc_l; [by apply (opened_step 10)|].
    eapply rtc_l; [by apply (told_step 20 "user" "hello")|].
    eapply rtc_l; [by apply (told_step 30 "assistant" "good morning")|]. reflexivity. }
  split; [vm_compute; reflexivity|]. split; [|reflexivity].
  apply (Hcache "bob_s1"). vm_compute. reflexivity.
Defined.

Lemma store_refines_map_witness :
  Storage.get_conversation "bob_s1" (<["bob_s1" := conversation_json (convo_in io1)]> ∅ : Memory)
    = Ok (Some (conversation_json (convo_in io1))).
Proof.
  destruct (store_refines_map (∅ : Memory) ∅ (<["bob_s1" := conversation_json (convo_in io1)]> ∅)
    {["bob_s1" := convo_in io1]}) as [_ H].
  - intros id _. done.
  - apply rtc_once. apply (call_upsert (convo_in io1) ∅ true _ ∅); [|vm_compute; reflexivity].
    apply memory_storable; [|done]. apply (io_cache io1 io1_ok "bob_s1"). vm_compute. reflexivity.
  - apply (H "bob_s1"). done.
Defined.

Lemma append_message_spec_witness :
  lookup_convo "bob_s1" (invalidate_conversation_cache "bob_s1" io3).2 = Ok (convo_in io3) ∧
  cv_turn_count (convo_in io3) = 2.
Proof.
  split; [|reflexivity].
  destruct (append_message_spec memory_storable 30 "bob_s1" "assistant" "good morning" 0
    (JObject []) io2 true io3 io2_ok) as [_ H]; [done|done|vm_compute; reflexivity|].
  destruct (H eq_refl) as (c & Hc & _ & Hlater & _). etrans; [exact Hlater|].
  assert (c = convo_in io2) as -> by (vm_compute in Hc; injection Hc as <-; reflexivity).
  reflexivity.
Defined.

Definition user_request : json :=
  JObject [("mode", JString "user_conversation"); ("source_pid", JInt 7);
           ("is_handler", JBool true); ("user_id", JString "bob_s1");
           ("convo_id", JString "bob_s1"); ("user_message", JString "and now?")].
Definition normalized : exc json * SessionIO Memory :=
  normalize_llm_request no_json no_file no_match no_skills "memory/sessions" 40 0 user_request io3.
Definition request4 : json := match normalized.1 with Ok j => j | _ => JNull end.
Definition io4 : SessionIO Memory := normalized.2.

Lemma user_request_nameable j : request_nameable j.
Proof. by intros ? ?. Qed.

Lemma io4_ok : io_ok io4.
Proof.
  eapply io_ok_step; [apply io3_ok|]. apply (step_operation _ _ _ _ _ (λ io,
    (normalize_llm_request no_json no_file no_match no_skills "memory/sessions" 40 0
       user_request io).2)). by apply op_normalize.
Qed.

Lemma request_owner_witness :
  find request4 "convo_id" = Some (JString "bob_s1") ∧
  cv_user_id (convo_in io4) = "bob" ∧ cv_creator_pid (convo_in io4) = -1.
Proof.
  destruct (request_owner memory_storable no_json no_file no_match no_skills "memory/sessions"
    memory_nameable memory_files 40 0 user_request io3 request4 io4 io3_ok)
    as [_ H]; [apply user_request_nameable|done|done|vm_compute; reflexivity|].
  destruct (H eq_refl) as (id & c & _ & Hid & _ & Hfind & Hc & Hpid & Huser).
  vm_compute in Hid. injection Hid as <-. split; [exact Hfind|].
  assert (convo_in io4 = c) as -> by (unfold convo_in; by rewrite Hc).
  split; [rewrite Huser; reflexivity|exact Hpid].
Defined.

Definition built : exc json * SessionIO Memory :=
  build_conversation_messages_safely no_file no_match no_skills 50 request4 io4.
Definition built_json : json := match built.1 with Ok j => j | _ => JNull end.

Lemma built_found : lookup_convo "bob_s1" built.2 = Ok (convo_in built.2).
Proof. vm_compute. reflexivity. Qed.

Lemma Ok_eq {A} (x y : A) : Ok x = Ok y → x = y.
Proof. by intros [= ->]. Qed.

Lemma texts_sendable l :
  forallb (λ m, match find m "content" with Some (JString "") => false | _ => true end) l = true →
  Forall sendable l.
Proof.
  intros H. apply Forall_forall. intros m Hm role _ Hc. rewrite forallb_forall in H.
  specialize (H m). rewrite <-list_elem_of_In in H. apply H in Hm. by rewrite Hc in Hm.
Qed.

Lemma built_messages_spec_witness :
  ∃ l, built_json = JArray l ∧
    said <$> l = [("system", DEFAULT_VELIX_IDENTITY); ("user", "hello");
                  ("assistant", "good morning"); ("user", "and now?")] ∧
    normalize_messages_for_provider built_json = Ok built_json.
Proof.
  destruct (built_messages_spec no_file no_match no_skills 50 request4 io4 built_json built.2)
    as (id & c & l & mode & inputs & before & Hid & Hmode & Hin & Hc & Hout & Hsaid & Hl & Hn);
    [apply io4_ok|apply user_request_nameable|done|vm_compute; reflexivity|].
  exists l. split; [exact Hout|]. split.
  2: { vm_compute in Hid. injection Hid as <-. rewrite built_found in Hc.
       apply Hn. rewrite <-(Ok_eq _ _ Hc). apply texts_sendable. vm_compute. reflexivity. }
  vm_compute in Hout. injection Hout as <-. reflexivity.
Defined.

Lemma cleanup_spec_witness :
  ∃ io', cleanup no_json no_file 100000000000 io3 = (Ok tt, io') ∧
    Storage.get_conversation "bob_s1" (storage_ io') =
      Ok (Some (conversation_json (convo_in io3))).
Proof.
  eexists. split; [vm_compute; reflexivity|].
  eapply (cleanup_spec no_json no_file 100000000000 86400000 io3).
  - done.
  - apply (io_cache io3 io3_ok "bob_s1"). vm_compute. reflexivity.
  - reflexivity.
  - vm_compute. reflexivity.
  - vm_compute. reflexivity.
  - left. reflexivity.
Defined.

Definition input4 : BuildInput :=
  match build_input request4 with
  | Ok input => input
  | _ => {| bi_convo_id := ""; bi_mode := ""; bi_prompt := ""; bi_override := false;
            bi_inputs := [] |}
  end.
Definition io5 : SessionIO Memory := told 60 "assistant" "one moment" io4.
Definition stored : exc json * SessionIO Memory :=
  build_store no_file no_match no_skills 70 input4 (convo_in io4) io5.
Definition stored_json : json := match stored.1 with Ok j => j | _ => JNull end.

Lemma build_loses_append_witness :
  said <$> cv_messages (convo_in io5) =
    [("user", "hello"); ("assistant", "good morning"); ("assistant", "one moment")] ∧
  said <$> cv_messages (convo_in stored.2) =
    [("user", "hello"); ("assistant", "good morning"); ("user", "and now?")].
Proof.
  destruct (build_loses_append memory_storable no_file no_match no_skills 60 70 input4
    (convo_in io4) io4 io4 "assistant" "one moment" 0 (JObject []) io5 stored_json stored.2)
    as (c2 & c3 & Hc2 & _ & Hc3 & _);
    [apply io4_ok|done|done|vm_compute; reflexivity|vm_compute; reflexivity|
     vm_compute; reflexivity|].
  assert (convo_in io5 = c2) as -> by (vm_compute in Hc2; injection Hc2 as <-; reflexivity).
  assert (convo_in stored.2 = c3) as -> by (vm_compute in Hc3; injection Hc3 as <-; reflexivity).
  vm_compute in Hc2, Hc3. injection Hc2 as <-. injection Hc3 as <-. split; reflexivity.
Defined.

(** ** Compaction *)

Definition full_usage : ContextUsage := {|
  session_tokens := 90; system_prompt_tokens := 1; tool_schema_tokens := 1; request_tokens := 1;
  total_context_tokens := 93; max_context_tokens := 100; context_fill_pct := d_zero |}.

Definition bob_item : QueueItem :=
  {| qi_session_id := "bob_s1"; qi_usage := full_usage; qi_threshold := d_0_7 |}.

Lemma bob_wanted : compaction_wanted "bob_s1" full_usage d_0_7 = Some bob_item.
Proof. vm_compute. reflexivity. Qed.

(** A second request for a session that is queued. *)
Definition queue2 : CompactionQueue :=
  enqueue bob_item (enqueue bob_item (set_needing (union {["bob_s1"]}) CompactionQueue_init)).

Lemma compaction_exclusive_witness : queued_ids queue2 = ["bob_s1"] ∧ NoDup (queued_ids queue2).
Proof.
  split; [reflexivity|]. apply (compaction_exclusive queue2).
  eapply rtc_l; [exact (queue_mark _ _ _ _ _ bob_wanted)|].
  eapply rtc_l; [exact (queue_enqueue _ _ _ _ _ bob_wanted)|].
  eapply rtc_l; [exact (queue_enqueue _ _ _ _ _ bob_wanted)|]. reflexivity.
Defined.

Definition stopping_queue : CompactionQueue := {|
  queue_ := [bob_item]; queued_sessions_ := {["bob_s1"]}; stopping_ := true; worker_ := Waiting;
  sessions_needing_compaction_ := {["bob_s1"]} |}.

Lemma worker_returns_witness :
  ∃ q', worker_run stopping_queue ["bob_s1"] q' ∧ worker_ q' = Returned ∧ queue_ q' = [].
Proof.
  destruct (worker_returns stopping_queue eq_refl) as (_ & q' & Hrun & Hret & Hempty).
  exists q'. split; [exact Hrun|]. split; [exact Hret|apply Hempty; discriminate].
Defined.

(** The scheduler answers the second request, after a timeout. *)
Definition ask2 (attempt : nat) (request : json) : exc json :=
  match attempt with
  | 1%nat => Throw "Recv timeout"
  | _ => Ok (JObject [("status", JString "ok"); ("response", JString "they greeted")])
  end.

Definition keep_one : CompacterConfig :=
  mkCompacterConfig true 1 300 d_0_2 d_0_9 30000 2 250 "TREE_HANDLER" kCompacterInternalPid.

Definition summarise (history : list json) : exc CompactResult :=
  compact_history_if_needed ask2 (λ _, "COMPACT-1") "now" keep_one history.

Definition three_turns : list json :=
  [JObject [("role", JString "user"); ("content", JString "hello")];
   JObject [("role", JString "assistant"); ("content", JString "good morning")];
   JObject [("role", JString "user"); ("content", JString "and now?")]].

Definition summarised : CompactResult :=
  match summarise three_turns with Ok r => r | _ => skipped [] "" end.

Lemma compact_history_spec_witness :
  cr_compacted summarised = true ∧ cr_summary summarised = "they greeted" ∧
  ∃ older recent, three_turns = older ++ recent ∧ length recent = 1%nat ∧
    cr_history summarised = summary_message "now" "they greeted" older :: recent.
Proof.
  split; [vm_compute; reflexivity|]. split; [vm_compute; reflexivity|].
  destruct (compact_history_spec ask2 (λ _, "COMPACT-1") "now" keep_one three_turns summarised)
    as [_ H]; [vm_compute; split; congruence|vm_compute; reflexivity|vm_compute; discriminate|
      vm_compute; reflexivity|].
  destruct H as (older & recent & attempt & Hh & Hlen & _ & _ & Hr & _); [vm_compute; reflexivity|].
  exists older, recent. split; [exact Hh|]. split; [|exact Hr].
  apply Nat2Z.inj. rewrite Hlen. reflexivity.
Defined.

Lemma summarise_well history : Z.of_nat (length history) < 2 ^ 64 → compacts_well summarise history.
Proof. apply compacter_compacts_well. vm_compute. split; congruence. Qed.

Definition io6 : SessionIO Memory := told 75 "user" "and now?" (told 74 "assistant" "well" io3).
Definition guarded6 : exc AutoCompactGuardResult * SessionIO Memory :=
  run_auto_compact_guard summarise 80 "bob_s1" full_usage d_0_7 io6.
Definition guard_result6 : AutoCompactGuardResult :=
  match guarded6.1 with Ok g => g | _ => guard_skipped "" end.

Lemma io6_ok : io_ok io6.
Proof.
  eapply io_ok_step; [|by apply told_step]. eapply io_ok_step; [apply io3_ok|by apply told_step].
Qed.

Lemma compaction_spec_witness :
  ∃ summary retained cc, retained `sublist_of` cv_messages (convo_in io6) ∧
    cv_messages cc = seed_messages summary ++ retained ∧ cv_user_id cc = "bob" ∧
    convo_cache_ guarded6.2 !! "bob_s1" = None.
Proof.
  destruct (compaction_spec summarise memory_storable 80 "bob_s1" full_usage d_0_7 io6 guard_result6
    guarded6.2) as (c & r & s & retained & cc & Hc & _ & _ & Hsub & _ & Hm & _ & Huser & _ & _ &
    Hcache & _).
  - apply io6_ok.
  - done.
  - intros c Hc. apply summarise_well. vm_compute in Hc. injection Hc as <-. vm_compute. reflexivity.
  - vm_compute. reflexivity.
  - vm_compute. reflexivity.
  - assert (c = convo_in io6) as -> by (vm_compute in Hc; injection Hc as <-; reflexivity).
    exists (mc_summary r), retained, cc. split; [exact Hsub|]. split; [exact Hm|].
    split; [rewrite Huser; reflexivity|exact Hcache].
Defined.

Definition compacting : exc ManagerCompactResult * SessionIO Memory :=
  on_storage (compact summarise 80 "bob_s1" (objects (cv_messages (convo_in io6))) true)
    (told 81 "user" "wait" io6).
Definition compacted6 : ManagerCompactResult :=
  match compacting.1 with
  | Ok r => r
  | _ => {| mc_session_id := ""; mc_summary := ""; mc_compacted := false;
            mc_compact_reason := ""; mc_tokens_before := 0; mc_tokens_after := 0;
            mc_compacted_conversation := JNull |}
  end.
Definition written : exc AutoCompactGuardResult * SessionIO Memory :=
  guard_write "bob_s1" (convo_in io6) compacted6 compacting.2.
Definition write_result : AutoCompactGuardResult :=
  match written.1 with Ok g => g | _ => guard_skipped "" end.

Lemma compaction_loses_messages_witness :
  ∃ c4, lookup_convo "bob_s1" written.2 = Ok c4 ∧
    (∀ m, m ∈ cv_messages c4 →
       m ∈ seed_messages (mc_summary compacted6) ∨ m ∈ cv_messages (convo_in io6)) ∧
    forallb (λ m, negb (bool_decide (said m = ("user", "wait")))) (cv_messages c4) = true.
Proof.
  destruct (compaction_loses_messages summarise memory_storable 80 81 "bob_s1" (convo_in io6) io6
    io6 "user" "wait" 0 (JObject []) (told 81 "user" "wait" io6) compacted6 compacting.2
    write_result written.2) as (c2 & c4 & _ & _ & Hc4 & Hm).
  - apply io6_ok.
  - done.
  - done.
  - vm_compute. reflexivity.
  - apply summarise_well. vm_compute. reflexivity.
  - vm_compute. reflexivity.
  - vm_compute. reflexivity.
  - vm_compute. reflexivity.
  - vm_compute. reflexivity.
  - intros cc Hcc. vm_compute in Hcc. injection Hcc as <-. vm_compute. reflexivity.
  - exists c4. split; [exact Hc4|]. split; [exact Hm|].
    vm_compute in Hc4. injection Hc4 as <-. vm_compute. reflexivity.
Defined.

Lemma session_control_replies_witness :
  (handle_session_control summarise (λ _, Ok "") ∅ 90 1000
     (JObject [("action", JString "rename"); ("user_id", JString "bob")]) io3).1 =
  Ok (JObject [("message_type", JString "SESSION_RESPONSE"); ("action", JString "rename");
               ("error", JString "Unknown SESSION_CONTROL action: 'rename'")]).
Proof.
  pose proof (session_control_replies summarise (λ _, Ok "") ∅ 90 1000
    (JObject [("action", JString "rename"); ("user_id", JString "bob")]) "rename" "bob" "" io3
    eq_refl eq_refl eq_refl) as H.
  destruct (handle_session_control _ _ _ _ _ _ _) as [r io']. destruct H as [_ H].
  destruct H as [_ ->]; [vm_compute; set_solver|]. reflexivity.
Defined.

(** ** Turns of a session *)

Definition model_answer : json :=
  JObject [("choices", JArray [JObject [
             ("message", JObject [("content", JString "hi bob")]);
             ("finish_reason", JString "stop")]]);
           ("usage", JObject [("completion_tokens", JInt 3)])].

Definition answers (text : string) : exc json := Ok model_answer.
Definition no_text (j : json) : exc string := Ok "".
Definition post_ok (r : HttpRequest) : option (Z * string) := Some (200, "answer").
Definition post_fails (r : HttpRequest) : option (Z * string) := None.
Definition no_stream (r : HttpRequest) : transport :=
  {| tr_pieces := []; tr_broken := true; tr_status := 0 |}.
Definition zero_clock (k : nat) : Z := 0.
Definition an_uuid (k : nat) : string := "0123456789".

Definition test_cfg : SchedulerConfig := {|
  sc_active_adapter := "openai";
  sc_adapter_cfg := {| active_adapter := "openai"; base_url := "http://127.0.0.1:8033/v1";
    api_key := ""; ac_host := ""; ac_base_path := ""; chat_endpoint := "/chat/completions";
    ac_model := "m"; ac_port := 8033; use_https := false; timeout_ms := 60000;
    stop_tokens := []; enable_tools := false; enable_streaming := false;
    stream_idle_timeout_ms := 0 |};
  model_info := {| model_name := "m"; model_type := "unknown"; mc_active_adapter := "openai";
    context_length := 100000; max_simultaneous_llm_requests := 2; mc_enabled := true |};
  auto_compact_threshold := d_0_7; max_llm_keys := 2; max_client_threads := 64;
  scheduler_wait_timeout_ms := 65000; executioner_port := 5172; supervisor_port := 5173 |}.

Definition asks (request_id text : string) : PendingRequest := {|
  Scheduler.request_id := request_id; trace_id := "t1"; tree_id := "TREE_HANDLER";
  queue_key := "user_bob_s1"; source_pid := 7; base_priority := 1;
  payload := JObject [("mode", JString "user_conversation"); ("user_id", JString "bob_s1");
                      ("source_pid", JInt 7); ("user_message", JString text)];
  enqueued_at := 0; completion := 0 |}.

Definition input_of (text : string) : PendingInput :=
  {| pi_role := "user"; pi_content := text; pi_extra := JObject [] |}.

Lemma asks_session request_id text :
  text ≠ "" → session_request (asks request_id text) "bob_s1" "" false [input_of text].
Proof.
  intros Hne. split; try done. unfold pending_inputs, asks. simpl. unfold value_string, value.
  simpl. by rewrite decide_False.
Qed.

Definition prepared (now : Z) (req : PendingRequest) (io : SessionIO Memory) :
    exc (string * json) * SessionIO Memory :=
  prepare no_json no_file no_match no_skills "memory/sessions" now now 0 req io.
Definition ok_or {A} (d : A) (r : exc A) : A := match r with Ok a => a | _ => d end.
Definition request_of (now : Z) (req : PendingRequest) (io : SessionIO Memory) : json :=
  (ok_or ("", JNull) (prepared now req io).1).2.
Definition asked (now : Z) (req : PendingRequest) (io : SessionIO Memory) : exc (json * ChatRequest) :=
  provider_request no_text (JArray []) test_cfg (tree_id req) (request_of now req io).

Definition no_request : ChatRequest := {|
  cr_model := ""; cr_messages := JNull; cr_tools := JNull; cr_tool_choice := JNull;
  cr_sampling_params := JNull; cr_stream := false; cr_max_tokens := 0; cr_stop := [];
  cr_extra_body := JNull |}.
Definition sent_request (now : Z) (req : PendingRequest) (io : SessionIO Memory) : json * ChatRequest :=
  ok_or (JNull, no_request) (asked now req io).

Definition answer_to (now : Z) (req : PendingRequest) (io : SessionIO Memory) :
    exc (ChatResponse * list string) :=
  run_chat_once answers no_text zero_clock false post_ok no_stream
    (make_adapter (sc_active_adapter test_cfg)) (sc_adapter_cfg test_cfg) (sent_request now req io).2.

Definition completed (now : Z) (req : PendingRequest) (io : SessionIO Memory) :
    exc json * SessionIO Memory :=
  complete answers no_text an_uuid 5 now req (sent_request now req io).1
    (ok_or (ChatResponse_init, []) (answer_to now req io)).1 (prepared now req io).2.

Lemma memory_accepting : accepting (St:=Memory).
Proof. intros c s _. by eexists. Qed.

Abbreviation test_served := (served no_json no_file no_match no_skills "memory/sessions"
  answers no_text zero_clock false post_ok no_stream an_uuid 5 (JArray []) test_cfg).
Abbreviation test_run := (session_run no_json no_file no_match no_skills "memory/sessions"
  answers no_text zero_clock false post_ok no_stream an_uuid 5 (JArray []) test_cfg).

Definition messages_of (request : ChatRequest) : list json :=
  match cr_messages request with JArray l => l | _ => [] end.

Definition answered (now : Z) (req : PendingRequest) (io : SessionIO Memory) :
    ChatResponse * list string := ok_or (ChatResponse_init, []) (answer_to now req io).
Definition reply_of (now : Z) (req : PendingRequest) (io : SessionIO Memory) : json :=
  ok_or JNull (completed now req io).1.

(** A turn in which every stage succeeds. *)
Lemma served_in now req inputs io :
  is_long now → session_request req "bob_s1" "" false inputs → io_ok (prepared now req io).2 →
  prepared now req io = (Ok ("user_conversation", request_of now req io), (prepared now req io).2) →
  asked now req io = Ok (sent_request now req io) →
  cr_messages (sent_request now req io).2 = JArray (messages_of (sent_request now req io).2) →
  answer_to now req io = Ok (answered now req io) →
  normalized_tool_calls answers no_text an_uuid (answered now req io).1 = Ok [] →
  completed now req io = (Ok (reply_of now req io), (completed now req io).2) →
  test_served "bob_s1" io
    {| t_prompt := ""; t_override := false; t_inputs := said_input <$> inputs;
       t_asked := Some (said <$> messages_of (sent_request now req io).2);
       t_answer := turn_of (rs_content (answered now req io).1) [] |}
    (completed now req io).2.
Proof.
  intros Hnow Hreq Hok Hp Ha Hm Hr Hcalls Hc.
  eapply (served_intro no_json no_file no_match no_skills "memory/sessions" answers no_text
    zero_clock false post_ok no_stream an_uuid 5 (JArray []) test_cfg "bob_s1" io _
    (completed now req io).2 now now now 0 req "" false inputs "user_conversation"
    (request_of now req io) (prepared now req io).2 (prepared now req io).2
    (sent_request now req io).1 (sent_request now req io).2 _ (answered now req io).1
    (answered now req io).2 [] (reply_of now req io)).
  - exact Hnow.
  - exact Hnow.
  - exact Hreq.
  - exact Hp.
  - split; [exact Hok|reflexivity].
  - rewrite <-surjective_pairing. exact Ha.
  - exact Hm.
  - rewrite <-surjective_pairing. exact Hr.
  - exact Hcalls.
  - exact Hc.
  - reflexivity.
Qed.

Lemma prepared_ok now req inputs io :
  is_long now → session_request req "bob_s1" "" false inputs → io_ok io →
  is_Some (convo_cache_ io !! "bob_s1") →
  prepared now req io = (Ok ("user_conversation", request_of now req io), (prepared now req io).2) →
  io_ok (prepared now req io).2.
Proof.
  intros Hnow Hreq Hio [c Hc] Hp.
  destruct (prepare_open no_json no_file no_match no_skills "memory/sessions" memory_storable
    now now 0 req "bob_s1" "" false inputs c io "user_conversation" (request_of now req io)
    (prepared now req io).2 Hio I Hnow Hreq Hc Hp) as (_ & _ & _ & Hok & _).
  exact Hok.
Qed.

Definition first_request : PendingRequest := asks "r1" "what now?".
Definition second_request : PendingRequest := asks "r2" "and then?".
Definition io7 : SessionIO Memory := (completed 40 first_request io3).2.
Definition io8 : SessionIO Memory := (completed 50 second_request io7).2.

Lemma first_prepared_ok : io_ok (prepared 40 first_request io3).2.
Proof.
  apply (prepared_ok 40 first_request [input_of "what now?"]).
  - done.
  - by apply asks_session.
  - apply io3_ok.
  - vm_compute. by eexists.
  - vm_compute. reflexivity.
Qed.

Lemma first_served :
  test_served "bob_s1" io3
    {| t_prompt := ""; t_override := false; t_inputs := [("user", "what now?")];
       t_asked := Some (said <$> messages_of (sent_request 40 first_request io3).2);
       t_answer := [("assistant", "hi bob")] |} io7.
Proof.
  apply (served_in 40 first_request [input_of "what now?"] io3).
  - done.
  - by apply asks_session.
  - apply first_prepared_ok.
  - vm_compute. reflexivity.
  - vm_compute. reflexivity.
  - vm_compute. reflexivity.
  - vm_compute. reflexivity.
  - vm_compute. reflexivity.
  - vm_compute. reflexivity.
Qed.

Lemma io7_ok : io_ok io7.
Proof.
  destruct (complete_spec no_json no_file no_match "memory/sessions"
    memory_storable answers no_text an_uuid 5 40 first_request
    (sent_request 40 first_request io3).1 (answered 40 first_request io3).1 "bob_s1"
    (convo_in (prepared 40 first_request io3).2) (prepared 40 first_request io3).2
    (reply_of 40 first_request io3) io7) as (_ & _ & _ & _ & _ & _ & Hok & _).
  - apply memory_accepting.
  - apply first_prepared_ok.
  - done.
  - done.
  - vm_compute. reflexivity.
  - vm_compute. reflexivity.
  - vm_compute. reflexivity.
  - vm_compute. reflexivity.
  - exact Hok.
Qed.

Lemma second_served :
  test_served "bob_s1" io7
    {| t_prompt := ""; t_override := false; t_inputs := [("user", "and then?")];
       t_asked := Some (said <$> messages_of (sent_request 50 second_request io7).2);
       t_answer := [("assistant", "hi bob")] |} io8.
Proof.
  apply (served_in 50 second_request [input_of "and then?"] io7).
  - done.
  - by apply asks_session.
  - apply (prepared_ok 50 second_request [input_of "and then?"]).
    + done.
    + by apply asks_session.
    + apply io7_ok.
    + vm_compute. by eexists.
    + vm_compute. reflexivity.
  - vm_compute. reflexivity.
  - vm_compute. reflexivity.
  - vm_compute. reflexivity.
  - vm_compute. reflexivity.
  - vm_compute. reflexivity.
  - vm_compute. reflexivity.
Qed.

Lemma io8_ok : io_ok io8.
Proof.
  destruct (complete_spec no_json no_file no_match "memory/sessions"
    memory_storable answers no_text an_uuid 5 50 second_request
    (sent_request 50 second_request io7).1 (answered 50 second_request io7).1 "bob_s1"
    (convo_in (prepared 50 second_request io7).2) (prepared 50 second_request io7).2
    (reply_of 50 second_request io7) io8) as (_ & _ & _ & _ & _ & _ & Hok & _).
  - apply memory_accepting.
  - apply (prepared_ok 50 second_request [input_of "and then?"]).
    + done.
    + by apply asks_session.
    + apply io7_ok.
    + vm_compute. by eexists.
    + vm_compute. reflexivity.
  - done.
  - done.
  - vm_compute. reflexivity.
  - vm_compute. reflexivity.
  - vm_compute. reflexivity.
  - vm_compute. reflexivity.
  - exact Hok.
Qed.

(** A third request, with a prompt that replaces the system's messages; its answer is lost. *)
Definition prompted_request : PendingRequest := {|
  Scheduler.trace_id := "t-3"; request_id := "r3"; Scheduler.tree_id := "TREE_HANDLER";
  queue_key := "user_bob_s1"; source_pid := 7; base_priority := 1;
  payload := JObject [("mode", JString "user_conversation"); ("user_id", JString "bob_s1");
                      ("source_pid", JInt 7); ("user_message", JString "and now?");
                      ("system_message", JString "be brief");
                      ("system_prompt_override", JBool true)];
  enqueued_at := 0; completion := 0 |}.
Definition io9 : SessionIO Memory := (prepared 60 prompted_request io8).2.

Lemma prompted_session :
  session_request prompted_request "bob_s1" "be brief" true [input_of "and now?"].
Proof. by split. Qed.

Definition lost_turn : Turn := {|
  t_prompt := "be brief"; t_override := true; t_inputs := [("user", "and now?")];
  t_asked := None; t_answer := [] |}.

Lemma third_prepared : prepared 60 prompted_request io8 =
  (Ok ("user_conversation", request_of 60 prompted_request io8), io9).
Proof. vm_compute. reflexivity. Qed.

Lemma third_served : test_served "bob_s1" io8 lost_turn io9.
Proof.
  eapply (served_failed no_json no_file no_match no_skills "memory/sessions" answers no_text
    zero_clock false post_ok no_stream an_uuid 5 (JArray []) test_cfg "bob_s1" io8 _ io9 60 60 0
    prompted_request "be brief" true [input_of "and now?"] _ _ true).
  - done.
  - apply prompted_session.
  - exact third_prepared.
  - by left.
  - reflexivity.
Qed.

Lemma io9_ok : io_ok io9.
Proof.
  destruct (prepare_open no_json no_file no_match no_skills "memory/sessions" memory_storable
    60 60 0 prompted_request "bob_s1" "be brief" true [input_of "and now?"] (convo_in io8) io8
    "user_conversation" (request_of 60 prompted_request io8) io9 io8_ok I)
    as (_ & _ & _ & Hok & _).
  - done.
  - apply prompted_session.
  - vm_compute. reflexivity.
  - exact third_prepared.
  - exact Hok.
Qed.

Lemma session_is_its_turns_witness :
  ∃ c', convo_cache_ io9 !! "bob_s1" = Some c' ∧
    said <$> cv_messages c' =
      [("user", "hello"); ("assistant", "good morning"); ("user", "what now?");
       ("assistant", "hi bob"); ("user", "and then?"); ("assistant", "hi bob");
       ("system", "be brief"); ("user", "and now?")].
Proof.
  assert (test_run "bob_s1" io3
    [{| t_prompt := ""; t_override := false; t_inputs := [("user", "what now?")];
        t_asked := Some (said <$> messages_of (sent_request 40 first_request io3).2);
        t_answer := [("assistant", "hi bob")] |};
     {| t_prompt := ""; t_override := false; t_inputs := [("user", "and then?")];
        t_asked := Some (said <$> messages_of (sent_request 50 second_request io7).2);
        t_answer := [("assistant", "hi bob")] |}; lost_turn] io9) as Hrun.
  { eapply run_turn; [split; [apply io3_ok|reflexivity]|apply first_served|].
    eapply run_turn; [split; [apply io7_ok|reflexivity]|apply second_served|].
    eapply run_turn; [split; [apply io8_ok|reflexivity]|apply third_served|].
    apply run_done. split; [apply io9_ok|reflexivity]. }
  destruct (session_is_its_turns no_json no_file no_match no_skills "memory/sessions"
    memory_storable answers no_text zero_clock false post_ok no_stream an_uuid 5 (JArray [])
    test_cfg "bob_s1" io3 _ io9 (convo_in io3) memory_accepting I io3_ok
    ltac:(vm_compute; reflexivity) Hrun) as [(c' & Hc' & Hs) _].
  exists c'. split; [exact Hc'|]. rewrite Hs. vm_compute. reflexivity.
Defined.

(** The provider cannot be reached; the client tries again. *)
Definition retried : PendingRequest := asks "r3" "what now?".
Definition io_failed : SessionIO Memory := (prepared 40 first_request io3).2.

Lemma retry_repeats_input_witness :
  ∃ l, cr_messages (sent_request 60 retried io_failed).2 = JArray l ∧
    tail (said <$> l) = [("user", "hello"); ("assistant", "good morning");
                         ("user", "what now?"); ("user", "what now?")].
Proof.
  destruct (retry_repeats_input no_json no_file no_match no_skills "memory/sessions"
    memory_storable answers no_text zero_clock false post_fails no_stream an_uuid 5 (JArray []) ∅
    test_cfg 40 40 50 0 first_request true "bob_s1" false [input_of "what now?"] (convo_in io3) io3
    "user_conversation" (request_of 40 first_request io3) io_failed 60 60 0 retried io_failed
    "user_conversation" (request_of 60 retried io_failed) (prepared 60 retried io_failed).2
    (sent_request 60 retried io_failed).1 (sent_request 60 retried io_failed).2)
    as (_ & l & Hl & Hs).
  - apply io3_ok.
  - done.
  - done.
  - done.
  - by apply asks_session.
  - by apply asks_session.
  - vm_compute. reflexivity.
  - vm_compute. reflexivity.
  - left. eexists. vm_compute. reflexivity.
  - apply first_prepared_ok.
  - reflexivity.
  - vm_compute. reflexivity.
  - vm_compute. reflexivity.
  - exists l. split; [exact Hl|]. rewrite Hs. vm_compute. reflexivity.
Defined.
