(* ===== verification/SdkScenarios.v ===== *)
(** * Concrete runs of the SDK

    An agent launches a tool in its tree, gets its result over the bus, and talks to the model:
    the hypotheses of the theorems of [Sdk], [SdkLlm] and [SdkContract] at work. *)

From S2P Require Import Prelude Json StringUtils ProcessRegistry Termination Supervisor Requests.
From S2P Require Import Bus Scheduler LlmRequest Sdk SdkLlm SdkContract Scenarios.

(** ** Registration *)

Definition tool_launch : Launch := {|
  ln_parent_pid := 1001; ln_entry_trace_id := "t-1"; ln_intent := "JOIN_PARENT_TREE";
  ln_params := JObject []; ln_user_id := "" |}.

Definition tool_process : VelixProcess := launched "grep" "tool" 700 tool_launch.
Definition tool_registration : json := registration tool_process "JOIN_PARENT_TREE" 12.

(** What the supervisor makes of it. *)
Definition tool_reply : json :=
  match handle_message 3000 3001 tool_registration sup2 with Ok (r, _, _) => r | _ => JNull end.
Definition sup_tool : Supervisor :=
  match handle_message 3000 3001 tool_registration sup2 with Ok (_, S1, _) => S1 | _ => sup2 end.

Lemma tool_registers :
  handle_message 3000 3001 tool_registration sup2 = Ok (tool_reply, sup_tool, []).
Proof. vm_compute. reflexivity. Qed.

Lemma registration_agrees_witness :
  ∃ q p', registered tool_process tool_reply = Ok p' ∧ vp_velix_pid p' = p_pid q ∧
    vp_tree_id p' = p_tree_id q ∧ p_parent_pid q = 1001 ∧ vp_is_root p' = false ∧
    process_table (registry_ sup_tool) !! p_pid q = Some q.
Proof.
  destruct (registration_agrees 3000 3001 "grep" "tool" 700 tool_launch 12 sup2 tool_reply
    sup_tool []) as [(why & Hwhy & _)|(q & p' & _ & Hp & Hreg & Hpid & Htree & _ & _ & _ & Hpar &
    _ & Hroot & _)].
  - apply (wf_reachable _ (sup_registry_reachable _ sup2_reachable)).
  - vm_compute. split; discriminate.
  - vm_compute. split; discriminate.
  - exact tool_registers.
  - exfalso. vm_compute in Hwhy. discriminate Hwhy.
  - exists q, p'. split_and!; [exact Hp|exact Hpid|exact Htree|rewrite Hpar; reflexivity|
      rewrite Hroot; vm_compute; reflexivity|].
    rewrite (rg_table _ _ _ _ Hreg). apply lookup_insert_eq.
Defined.

(** The agent and the tool, as the SDK knows them once they are registered. *)
Definition process_of (name role : string) (pid parent : Z) (user : string) : VelixProcess := {|
  vp_name := name; vp_role := role; vp_tree_id := "TREE_1"; vp_user_id := user;
  vp_params := JObject []; vp_os_pid := 502; vp_velix_pid := pid; vp_parent_pid := parent;
  vp_entry_trace_id := ""; vp_is_root := true; vp_is_handler := false;
  vp_max_memory_mb := 2048; vp_max_runtime_sec := 300 |}.

Definition agent : VelixProcess := process_of "agent" "agent" 1001 (-1) "".
Definition alices_agent : VelixProcess := process_of "agent" "agent" 1001 (-1) "alice".

Lemma heartbeats_accepted_witness :
  ∃ r S', handle_message 4000 4001 (heartbeat agent Sdk.Error 64) sup2 = Ok (r, S', []) ∧
    process_table (registry_ S') !! 1001 =
      Some (set_heartbeat STARTING (d_of_Z 64) 4000 agent_info).
Proof.
  destruct (heartbeats_accepted 4000 4001 agent Sdk.Error 64 false agent_info sup2)
    as [(r & S' & Hr & _ & _ & Htab) _].
  - exact sup2_reachable.
  - reflexivity.
  - vm_compute. split; [reflexivity|discriminate].
  - exact sup2_agent.
  - reflexivity.
  - reflexivity.
  - exists r, S'. split; [exact Hr|]. rewrite Htab. apply lookup_insert_eq.
Defined.

(** ** Launching a tool *)

Definition acked : Attempt := {|
  at_send := Ok tt; at_reads := [(true, inr None); (true, inl (JObject [("status", JString "ok")]))] |}.
Definition silent : Attempt := {| at_send := Ok tt; at_reads := [(true, inr None)] |}.

(** The first acknowledgement is lost, and the tool is launched a second time. *)
Definition lost_ack (i : nat) : Attempt := if decide (i = O) then silent else acked.

Lemma launch_tool_spec_witness : launch_tool 3 lost_ack = Ok 2%nat.
Proof.
  destruct (launch_tool_spec 3 lost_ack) as (k & Hk & Hbefore & Hend).
  - intros [|j]; vm_compute; discriminate.
  - assert (k = 1%nat) as ->.
    { destruct k as [|[|k]]; [|reflexivity|].
      - destruct Hend as [[Ha _]|(e & He & Hlast & _)].
        + vm_compute in Ha. discriminate Ha.
        + vm_compute in He. injection He as <-. vm_compute in Hlast.
          specialize (Hlast eq_refl). discriminate Hlast.
      - destruct (Hbefore 1%nat) as (e & He & _); [lia|]. vm_compute in He. discriminate He. }
    destruct Hend as [[_ H]|(e & He & _)]; [exact H|]. vm_compute in He. discriminate He.
Defined.

(** The reply of the tool, and one for a call that is not this one's. *)
Definition found : json := JObject [("status", JString "ok"); ("found", JInt 3)].
Definition push_t1 : json := result_push 1002 1001 found "t-1".
Definition push_t2 : json := result_push 1003 1001 JNull "t-2".

Definition meanwhile_t1 : list RpcOp :=
  [Deliver (BusMessage push_t2); Begin "t-2"; Deliver BusTimeout; Deliver (BusMessage push_t1);
   Deliver (BusMessage push_t2); Take "t-2"].

Lemma meanwhile_elsewhere : Forall (op_elsewhere "t-1") meanwhile_t1.
Proof. repeat constructor; discriminate. Qed.

Lemma execute_tool_spec_witness :
  (execute_tool_internal agent "grep" JNull None None "t-1" 3 (λ _, lost_ack) meanwhile_t1 60
     Rpc_init).1 = Ok found.
Proof.
  destruct (execute_tool_internal agent "grep" JNull None None "t-1" 3 (λ _, lost_ack)
    meanwhile_t1 60 Rpc_init) as [result s'] eqn:E.
  destruct (execute_tool_spec agent "grep" JNull None None "t-1" 3 (λ _, lost_ack)
    meanwhile_t1 60 Rpc_init s' result) as [_ Hres].
  - discriminate.
  - reflexivity.
  - set_solver.
  - reflexivity.
  - exact meanwhile_elsewhere.
  - exact E.
  - vm_compute in E. injection E as <- _. discriminate.
  - assert (launch_tool 3 lost_ack = Ok 2%nat) as Hl by (vm_compute; reflexivity).
    rewrite Hl in Hres. destruct Hres as [_ ->]. vm_compute. reflexivity.
Defined.

(** The bus knows the agent's session. *)
Definition bus_agent : Bus :=
  with_maps (<[1001 := 7%nat]>) id bus3.

Definition push_parse (text : string) : exc json :=
  if decide (text = "push") then Ok (result_push 1000 1001 found "t-1") else Throw "parse error".
Definition push_dump (j : json) : exc string := Ok "push".

Lemma tool_result_returned_witness :
  ∃ msg, push_parse "push" = Ok msg ∧
    (execute_tool_internal agent "grep" JNull None None "t-1" 3 (λ _, lost_ack)
       ([Deliver (BusMessage push_t2)] ++ Deliver (BusMessage msg) :: [Shutdown]) 60
       Rpc_init).1 = Ok found.
Proof.
  destruct (tool_result_returned push_parse push_dump false 1 bus_agent 1001 7 found "t-1" "push"
    agent "grep" JNull None None 3 (λ _, lost_ack) [Deliver (BusMessage push_t2)] [Shutdown] 60
    Rpc_init) as [_ (msg & Hmsg & Hres)].
  - vm_compute. split; [reflexivity|discriminate].
  - reflexivity.
  - reflexivity.
  - vm_compute. reflexivity.
  - discriminate.
  - reflexivity.
  - set_solver.
  - reflexivity.
  - repeat constructor.
  - repeat constructor.
  - reflexivity.
  - exists 2%nat. vm_compute. reflexivity.
  - exists msg. split; [exact Hmsg|]. apply Hres.
    + split_and!; [reflexivity|exact I|by vm_compute].
    + by intros [H _].
Defined.

(** The supervisor stops while the tool runs: the agent is not told. *)
Definition tool_target : TerminationTarget := {|
  tt_velix_pid := 1002; tt_os_pid := 700; tt_tree_id := "TREE_1"; tt_trace_id := "t-1";
  tt_parent_pid := 1001 |}.

Lemma termination_unreported_witness :
  bus_handle_message push_dump false 1 (termination_msg tool_target "supervisor_shutdown") bus_agent =
    (Ok tt, bus_agent) ∧
  (execute_tool_internal agent "grep" JNull None None "t-1" 3 (λ _, lost_ack)
     [Deliver (BusMessage push_t2); Deliver BusTimeout] 60 Rpc_init).1 =
    Throw "Velix Package Timeout: grep exceeded reactive limit of 60 mins".
Proof.
  destruct (termination_unreported push_dump false 1 bus_agent
    (termination_msg tool_target "supervisor_shutdown")
    (stop_kill_all 5000 sup_tool).1) as [Hdropped Hwaits].
  - right. right. by exists 5000, sup_tool.
  - apply (list_elem_of_lookup_2 _ 3). vm_compute. reflexivity.
  - split; [exact Hdropped|]. etrans; [eapply Hwaits|reflexivity].
    + discriminate.
    + reflexivity.
    + set_solver.
    + reflexivity.
    + repeat constructor; discriminate.
    + reflexivity.
    + vm_compute. reflexivity.
Defined.

(** ** A call of the model with one tool *)

Definition ask : LlmCall := call_llm "c-1" "how many?" "" "" "".

Definition demo_uuid (n : nat) : string := "0123456789ab".

Definition grep_call : json :=
  JObject [("id", JString "call-1");
           ("function", JObject [("name", JString "grep"); ("arguments", JObject [])])].

Definition reply_0 : json :=
  JObject [("status", JString "ok"); ("response", JString "");
           ("tool_calls", JArray [grep_call]); ("assistant_message", JObject [])].
Definition reply_1 : json :=
  JObject [("status", JString "ok"); ("response", JString "three"); ("convo_id", JString "c-1")].

Definition llm_parse (text : string) : exc json :=
  if decide (text = "r0") then Ok reply_0
  else if decide (text = "r1") then Ok reply_1 else Throw "parse error".
Definition llm_dump (j : json) : exc string := Ok "text".

Definition llm_serve (n : nat) (payload : json) : Exchange := {|
  ex_connect := Ok tt; ex_send := Ok tt;
  ex_reads := λ _, {| sr_running := true; sr_late := false;
                      sr_read := ReadRaw (if decide (n = O) then "r0" else "r1") |} |}.

Definition llm_execute (n k : nat) (name : string) (args : json) (user intent : option string) :
  exc json := Ok found.

Definition grep_answer : json :=
  JObject [("role", JString "tool"); ("tool_call_id", JString "call-1");
           ("content", JString "text")].

Definition llm_run : exc string * LlmRun :=
  call_llm_internal llm_parse llm_dump None demo_uuid agent 10 5 (λ _, true) llm_serve llm_execute
    ask LlmRun_init.

Definition llm_requests : list json := lr_sent llm_run.2.

(** The second request carries the answer of the tool, and no message of the user. *)
Lemma llm_conversation_witness :
  ∃ e, llm_requests !! 1%nat = Some e ∧ tool_results e = [grep_answer] ∧
       find e "user_message" = None ∧ llm_run.1 = Ok "three".
Proof.
  destruct llm_run as [res r'] eqn:E.
  destruct (llm_conversation llm_parse llm_dump None demo_uuid agent 10 5 (λ _, true) llm_serve
    llm_execute ask LlmRun_init res r' E) as (sent & pending & Hsent & _ & _ & Hcar & Hcont & _).
  assert (lr_sent r' = llm_requests) as Hr by (unfold llm_requests; by rewrite E).
  simpl in Hsent. rewrite Hr in Hsent.
  assert (∃ e0 e1, llm_requests = [e0; e1]) as (e0 & e1 & Hreq) by (vm_compute; by eexists _, _).
  assert (sent !! 1%nat = Some e1) as H1 by (by rewrite <- Hsent, Hreq).
  destruct (Hcar 1%nat e1 H1) as [_ _ _ _ _ _ _ Hmsg Hres].
  destruct (Hcont 0%nat e1 H1) as (reply & messages & _ & _ & _ & _ & Hp1).
  rewrite Hp1 in Hmsg, Hres. simpl in Hmsg, Hres.
  exists e1. split_and!.
  - by rewrite Hreq.
  - vm_compute in Hreq. injection Hreq as _ <-. vm_compute. reflexivity.
  - exact Hmsg.
  - vm_compute in E. injection E as <- _. reflexivity.
Defined.

Definition llm_pending (k : nat) : Pending :=
  if decide (k = O) then first_pending ask
  else next_pending reply_0 (first_pending ask) [grep_answer].

Lemma llm_call_answers_witness :
  ∃ r', call_llm_internal llm_parse llm_dump None demo_uuid agent 10 5 (λ _, true) llm_serve
          llm_execute ask LlmRun_init = (Ok "three", r') ∧ lr_status r' = Sdk.Running.
Proof.
  apply (llm_call_answers llm_parse llm_dump None demo_uuid agent 10 5 (λ _, true) llm_serve
    llm_execute ask LlmRun_init llm_pending 1 reply_1 "three").
  - reflexivity.
  - reflexivity.
  - reflexivity.
  - intros [|k] Hk; [|lia]. exists reply_0, [], "", [grep_answer].
    split_and!; [split; vm_compute; reflexivity|vm_compute; reflexivity..|discriminate|].
    vm_compute. reflexivity.
  - split; vm_compute; reflexivity.
  - vm_compute. reflexivity.
  - reflexivity.
Defined.

(** ** The scheduler's answer to requests of the SDK *)

Definition envelope (p : VelixProcess) (c : LlmCall) (n : nat) (pn : Pending) : json :=
  match SdkLlm.llm_envelope p (demo_uuid (2 * n + 1)) (demo_uuid (2 * n))
          (request_payload (call_base p c) (lc_stream c) pn) with
  | Ok e => e
  | _ => JNull
  end.

Lemma sdk_request_accepted_witness :
  ∃ req, parse_request_payload 9 0 (envelope agent ask 0 (first_pending ask)) = Ok req ∧
         Scheduler.tree_id req = "TREE_1" ∧ Scheduler.source_pid req = 1001.
Proof.
  destruct (sdk_request_accepted 9 0 demo_uuid agent (effective_mode agent ask)
    (effective_user_id agent ask) false 0 (first_pending ask)
    (envelope agent ask 0 (first_pending ask))) as [[_ Hok] Hreq].
  - discriminate.
  - vm_compute. split; [reflexivity|discriminate].
  - vm_compute. reflexivity.
  - destruct Hok as [req Hr].
    + right. left. split_and!; [vm_compute; reflexivity|reflexivity|left; discriminate].
    + exists req. destruct (Hreq req Hr) as (_ & Ht & Hp & _). split_and!; [exact Hr|exact Ht|exact Hp].
Defined.

Lemma sdk_requests_refused_witness :
  ¬ ∃ req, parse_request_payload 9 0 (envelope alices_agent ask 0 (first_pending ask)) = Ok req.
Proof.
  apply (sdk_requests_refused 9 0 demo_uuid alices_agent ask 0 (first_pending ask)).
  - discriminate.
  - vm_compute. split; [reflexivity|discriminate].
  - vm_compute. reflexivity.
  - left. split_and!; [reflexivity|reflexivity|discriminate].
Defined.
