(* ===== verification/DiskScenarios.v ===== *)
(** * Concrete runs of the default provider

    A disk on which everything works, and one on which a text is cut short, listed in the order
    of the names, with a printer and a reader of the few texts that the runs need, at which the
    hypotheses of the theorems of DiskStore.v hold. *)

From Stdlib Require Import Ascii.
From S2P Require Import Prelude Json StringUtils Prompt Conversations SessionManager Sessions Storage JsonStorage DiskStore.

Definition all_works : System := {|
  works := λ _ _ _, true; reaches := λ _ text _, String.length text; left_over := λ _ _, [] |}.

Lemma all_works_whole : writes_whole all_works.
Proof. intros p text d. reflexivity. Qed.

Definition by_name (X : gset string) : list string := elements X.

Lemma by_name_iff X x : x ∈ by_name X ↔ x ∈ X.
Proof. apply elem_of_elements. Qed.

Definition session_of (id : string) : Conversation := new_user_convo 10 id.

Definition index_json (entries : list json) : json :=
  JObject [("users", JObject [("bob", JArray entries)])].
Definition bob_entry : json := index_entry "bob_s1" "plans".

Definition known_ids : list string := ["bob_s1"; "bob_s2"; "bob_smith_s1"].

(** The texts: a conversation's is its id, and cannot be made once there are messages. *)
Definition print_json (j : json) : option string :=
  match find j "convo_id", find j "messages" with
  | Some (JString id), Some (JArray []) => if decide (id ∈ known_ids) then Some id else None
  | None, _ => Some (if user_entries "bob" j is Some (_ :: _) then "index" else "empty index")
  | _, _ => None
  end.

Definition scan_json (text : string) : option json :=
  if decide (text = "") then None
  else if decide (text = "index") then Some (index_json [bob_entry])
  else if decide (text = "empty index") then Some (index_json [])
  else if decide (text ∈ known_ids) then Some (conversation_json (session_of text))
  else None.

Definition above : path := ["memory"].
Definition root_dir : path := above ++ ["sessions"].

Lemma root_dir_plain : Forall plain (above ++ ["sessions"]).
Proof. by apply (bool_decide_unpack _). Qed.

Lemma root_dir_name : "sessions" ≠ "session_index" ∧ "sessions" ≠ "agentfiles".
Proof. done. Qed.

#[local] Instance a_provider : IStorageProvider Disk :=
  JsonStorageProvider all_works by_name scan_json print_json root_dir.
#[local] Instance a_store : ConversationStore Disk :=
  json_store all_works by_name scan_json print_json root_dir all_works_whole.

(** No room for the whole of the session [bob_s2]. *)
Definition tight : System := {|
  works := λ _ _ _, true;
  reaches := λ p text _, if decide (p = user_convo_path root_dir "bob_s2") then 3%nat
                         else String.length text;
  left_over := λ _ _, [] |}.

Definition tight_provider : IStorageProvider Disk :=
  JsonStorageProvider tight by_name scan_json print_json root_dir.
Abbreviation upsert_tight := (@upsert_conversation Disk tight_provider).

Definition disk0 : Disk := JsonStorageProvider_init all_works root_dir {| files := ∅; dirs := ∅ |}.

(** The session [id] is written. *)
Definition saved (id : string) (d : Disk) : Disk :=
  match upsert_tight (conversation_json (session_of id)) d with
  | Ok (_, d) => d
  | _ => d
  end.

Definition disk1 : Disk := saved "bob_s1" disk0.
Definition disk2 : Disk := saved "bob_smith_s1" disk1.
Definition disk3 : Disk := saved "bob_s2" disk2.
Definition disk4 : Disk := (@Storage.delete_super_user Disk tight_provider "bob" disk3).2.

Lemma known_cases id : id ∈ known_ids → id = "bob_s1" ∨ id = "bob_s2" ∨ id = "bob_smith_s1".
Proof. unfold known_ids. rewrite !elem_of_cons, elem_of_nil. tauto. Qed.

Lemma cut_unknown id n :
  id ∈ known_ids → (n < String.length id)%nat → scan_json (String.substring 0 n id) = None.
Proof.
  intros [->|[->| ->]]%known_cases Hn; simpl in Hn;
    repeat (destruct n as [|n]; [by vm_compute|try lia]).
Qed.

Lemma bob_storable id :
  id ∈ known_ids → json_storable scan_json print_json root_dir (session_of id).
Proof.
  intros Hid.
  assert (∀ text, print_json (conversation_json (session_of id)) = Some text → text = id) as Htext.
  { intros text. unfold print_json. simpl. case_decide; [|done]. by intros [= ->]. }
  apply json_ok_storable.
  - by apply known_cases in Hid as [->|[->| ->]]; apply new_user_convo_ok.
  - by apply known_cases in Hid as [->|[->| ->]]; apply (bool_decide_unpack _).
  - intros text ->%Htext. unfold scan_json.
    by apply known_cases in Hid as [->|[->| ->]].
  - intros text n ->%Htext. by apply cut_unknown.
Qed.

(** What the calls answer; the disks are not compared. *)
Definition wrote (r : exc (bool * Disk)) : bool := match r with Ok (b, _) => b | _ => false end.

Lemma saved_true id d :
  wrote (upsert_tight (conversation_json (session_of id)) d) = true →
  upsert_tight (conversation_json (session_of id)) d = Ok (true, saved id d).
Proof.
  unfold saved. destruct (upsert_tight _ d) as [[b d']| |]; cbn; [|done..]. by intros ->.
Qed.

Lemma saved_bob : upsert_tight (conversation_json (session_of "bob_s1")) disk0 = Ok (true, disk1).
Proof. apply saved_true. by vm_compute. Qed.

Lemma saved_smith :
  upsert_tight (conversation_json (session_of "bob_smith_s1")) disk1 = Ok (true, disk2).
Proof. apply saved_true. by vm_compute. Qed.

(** Cut short, and answered [true]. *)
Lemma saved_cut : upsert_tight (conversation_json (session_of "bob_s2")) disk2 = Ok (true, disk3).
Proof. apply saved_true. by vm_compute. Qed.

Lemma deleted_bob :
  @Storage.delete_super_user Disk tight_provider "bob" disk3 =
    ((@Storage.delete_super_user Disk tight_provider "bob" disk3).1, disk4).
Proof. apply surjective_pairing. Qed.

Abbreviation upserted_tight := (upserted tight print_json above "sessions").

Definition map1 : gmap string Conversation := (upserted_tight (session_of "bob_s1") disk0 ∅).2.
Definition map2 : gmap string Conversation :=
  (upserted_tight (session_of "bob_smith_s1") disk1 map1).2.
Definition map3 : gmap string Conversation := (upserted_tight (session_of "bob_s2") disk2 map2).2.
Definition map4 : gmap string Conversation :=
  filter (λ '(_, c), of_user "bob" c → left_in above "sessions" (user_dir root_dir "bob") disk4 c) map3.

(** What is in the map, along the run. *)
Definition in_map (m : gmap string Conversation) (id : string) : bool := bool_decide (is_Some (m !! id)).

Lemma map3_ids :
  in_map map3 "bob_s1" = true ∧ in_map map3 "bob_s2" = false ∧ in_map map3 "bob_smith_s1" = true.
Proof. by vm_compute. Qed.

Lemma map4_bob : map4 !! "bob_s1" = None.
Proof. by vm_compute. Qed.

Lemma map4_smith : map4 !! "bob_smith_s1" = Some (session_of "bob_smith_s1").
Proof. by vm_compute. Qed.

#[local] Opaque disk0 disk1 disk2 disk3 disk4.

Abbreviation step := (disk_step tight by_name scan_json print_json above "sessions").

Lemma write_step id d d' m :
  id ∈ known_ids → upsert_tight (conversation_json (session_of id)) d = Ok (true, d') →
  step (d, m) (d', (upserted_tight (session_of id) d m).2).
Proof.
  intros Hid H. apply (disk_upsert tight by_name scan_json print_json above "sessions"
    (session_of id) d true d' m); [by apply bob_storable|exact H].
Qed.

Lemma bob_steps : rtc step (disk0, ∅) (disk4, map4).
Proof.
  apply (rtc_l _ _ (disk1, map1)); [apply write_step; [set_solver|apply saved_bob]|].
  apply (rtc_l _ _ (disk2, map2)); [apply write_step; [set_solver|apply saved_smith]|].
  apply (rtc_l _ _ (disk3, map3)); [apply write_step; [set_solver|apply saved_cut]|].
  apply rtc_once. apply (disk_delete_user tight by_name scan_json print_json above "sessions"
    "bob" disk3 (@Storage.delete_super_user Disk tight_provider "bob" disk3).1 disk4 map3);
    [by apply (bool_decide_unpack _)|apply deleted_bob].
Qed.

Lemma disk0_holds : holds tight by_name scan_json print_json above "sessions" disk0 ∅.
Proof. apply init_holds, root_dir_plain. Qed.


(** *** Snapshots *)

Definition snapped (now : Z) (text : string) (d : Disk) : exc () * Disk :=
  save_snapshot now "bob_s1" [JString text] d.

Definition disk5 : Disk := (snapped 20 "one" disk1).2.

Lemma snapshots_numbered_witness :
  exists_ (snapshot_path root_dir "bob_s1" 1) disk1 = false ∧
  snapshot_count "bob_s1" disk5 = 1 ∧
  exists_ (snapshot_path root_dir "bob_s1" 2) disk5 = false.
Proof.
  assert (snapshot_count "bob_s1" disk1 = 0 ∧ snapshot_count "bob_s1" disk5 = 1) as [H0 H1]
    by by vm_compute.
  assert (∀ (now : Z) (text : string) d, snapshot_count "bob_s1" d < INT_MAX →
    exists_ (snapshot_path root_dir "bob_s1" (snapshot_count "bob_s1" d + 1)) d = false) as Hfree.
  { intros now text d Hd.
    apply (snapshots_numbered all_works by_name scan_json print_json above "sessions" now "bob_s1"
      [JString text] d (snapped now text d).1 (snapped now text d).2);
      [by apply (bool_decide_unpack _)|done|apply surjective_pairing]. }
  pose proof (Hfree 20 "one" disk1) as F0. pose proof (Hfree 30 "two" disk5) as F1.
  rewrite H0 in F0. rewrite H1 in F1. split_and!; [by apply F0|done|by apply F1].
Defined.

(** *** A text that cannot be made *)

(** The session with a message. *)
Definition told_session : Conversation :=
  let c := session_of "bob_s1" in {|
    cv_convo_id := cv_convo_id c; cv_user_id := cv_user_id c; cv_creator_pid := cv_creator_pid c;
    cv_state := cv_state c; cv_created_at_ms := cv_created_at_ms c;
    cv_last_activity_ms := 20; cv_turn_count := 1; cv_current_context_tokens := 1;
    cv_total_tokens_used := 1; cv_messages := [new_message 20 "user" "hello" (JObject [])];
    cv_metadata := cv_metadata c |}.

Lemma disk1_ok : disk_ok disk1.
Proof.
  apply (upsert_conversation_ok tight by_name scan_json print_json above "sessions"
    root_dir_plain (session_of "bob_s1") disk0 true disk1).
  - apply bob_storable. set_solver.
  - apply saved_bob.
  - apply (hd_disk _ _ _ _ _ _ _ _ disk0_holds).
Qed.

Lemma unwritable_conversation_lost_witness :
  Storage.get_conversation "bob_s1" disk1 = Ok (Some (conversation_json (session_of "bob_s1"))) ∧
  ∃ d, upsert_conversation (conversation_json told_session) disk1 = Ok (false, d) ∧
    Storage.get_conversation "bob_s1" d = Ok None.
Proof.
  split; [by vm_compute|].
  refine (unwritable_conversation_lost all_works by_name scan_json print_json above "sessions"
    told_session (conversation_json (session_of "bob_s1")) disk1 (λ _ _ _, eq_refl) _
    disk1_ok _ _ _ _ _).
  - by vm_compute.
  - split; simpl; try (unfold INT_MAX; lia). by repeat constructor.
  - by apply (bool_decide_unpack _).
  - by vm_compute.
  - by vm_compute.
  - by vm_compute.
Defined.

(** *** A session that is deleted *)

(** [bob] has one session, which is in the index. *)
Definition disk6 : Disk := with_files <[session_index_path root_dir := "index"]> disk1.
Definition deletion : exc bool * Disk := delete_session "bob_s1" disk6.
Definition listing : exc (list string) * Disk := list_sessions "bob" deletion.2.

Lemma deleted_session_returns_witness :
  deletion.1 = Ok true ∧ Storage.get_conversation "bob_s1" deletion.2 = Ok None ∧
  listing.1 = Ok ["bob_s1"] ∧ "bob_s1" ∈ ["bob_s1"].
Proof.
  assert (deletion.1 = Ok true) as Hd by by vm_compute.
  assert (listing.1 = Ok ["bob_s1"]) as Hl by by vm_compute.
  split_and!; [done|by vm_compute|done|].
  apply (deleted_session_returns all_works by_name scan_json print_json above "sessions"
    root_dir_plain root_dir_name (λ X x, proj1 (by_name_iff X x))
    eq_refl "bob_s1" "plans" disk6 true deletion.2 ["bob_s1"] listing.2
    all_works_whole (λ X x, proj2 (by_name_iff X x))).
  - done.
  - by apply (bool_decide_unpack _).
  - apply (bool_decide_eq_true_1 _). by vm_compute.
  - by vm_compute.
  - exists "empty index". split; by vm_compute.
  - rewrite <-Hd. apply surjective_pairing.
  - rewrite <-Hl. apply surjective_pairing.
Defined.
