(* ===== verification/ExecScenarios.v ===== *)
(** * Concrete runs of the executioner

    Two requests for one tool served together, from their validation to the launch, and the
    registration of the tool that an agent launched: the hypotheses of the theorems of
    [Preparation] and [ExecContract] at work. *)

From Stdlib Require Import Ascii.
From S2P Require Import Prelude Json ProcessRegistry Termination Supervisor Requests.
From S2P Require Import StringUtils Config Sessions Storage Paths Sha256 Runtime Executioner Preparation.
From S2P Require Import Sdk SdkContract ExecContract Scenarios SdkScenarios.

(** ** The world *)

Definition grep_manifest : json := JObject [
  ("name", JString "grep"); ("runtime", JString "cpp");
  ("run", JObject [("command", JString "./grep")]);
  ("prepare", JArray [JObject [("command", JString "make")]]);
  ("parameters", JObject [
     ("properties", JObject [("status", JObject [("type", JString "string")])]);
     ("required", JArray [JString "status"])])].

(** A document is written as its status. *)
Definition exec_dump (j : json) : exc string :=
  match value_string j "status" "" with
  | Ok s => Ok (String "=" s)
  | Throw w => Throw w
  | UB => Throw ""
  end.

Definition exec_parse (text : string) : exc json :=
  match text with
  | String "=" s => Ok (JObject [("status", JString s)])
  | String "M" _ => Ok grep_manifest
  | _ => Throw "[json.exception.parse_error.101] unexpected end of input"
  end.

Definition exec_os : OS := {|
  os_run_sync := λ _ _, inl "no such command";
  os_run_with_timeout := λ command _ _ _ _,
    inr {| exit_code := 0; stdout_content := ""; stderr_content := "";
           success := bool_decide (command = "make"); timed_out := false |};
  os_spawn := λ _ _ _ _, inr (700, "");
  os_exists := λ _, false;
  os_is_file := λ _, false;
  os_is_directory := λ _, true |}.

Definition exec_world : World := {|
  w_os := exec_os;
  w_manifest := λ p, if decide (p = "tools/grep") then Some "M" else None;
  w_package_files := λ _, [(["main.cpp"], "int main() {}")];
  w_cache_ages := [];
  w_port := λ _ n, n;
  w_config := λ _ n, n;
  w_limits := {| max_tool_output_chars := 4000; max_file_read_bytes := 32768 |};
  w_cwd := "/velix";
  w_absolute := λ p, "/velix/" +:+ p;
  w_pythonpath := None |}.

Definition exec_args : json := JObject [("status", JString "go")].
Definition exec_request (trace : string) : json :=
  launch_request agent trace "grep" exec_args "" (tool_intent agent None).

(** ** Two requests *)

Definition exec_begin (trace : string) (s : Service) : exc (json + Job) * Service :=
  begin_request ExecutionerConfig_init exec_parse exec_dump exec_world (exec_request trace) s.

Definition job_of (r : exc (json + Job) * Service) : Job :=
  match r.1 with
  | Ok (inr job) => job
  | _ => {| jb_name := ""; jb_key := ""; jb_force := false; jb_steps := []; jb_env := ∅;
            jb_workdir := ""; jb_trace := "";
            jb_runtime := {| rt_runtime := ""; rt_version := ""; rt_run_command := "";
                             rt_run_args := []; rt_injected_prepare_steps := [];
                             rt_env_overrides := ∅ |} |}
  end.

Definition fleet0 : Fleet := Fleet_init ∅.
Definition begun1 := exec_begin "t-1" (service_ fleet0).
Definition job1 : Job := job_of begun1.
Definition fleet1 : Fleet := set_thread 1 (Validated job1) begun1.2 fleet0.
Definition begun2 := exec_begin "t-2" (service_ fleet1).
Definition job2 : Job := job_of begun2.
Definition fleet2 : Fleet := set_thread 2 (Validated job2) begun2.2 fleet1.
Definition entered1 := enter (jb_key job1) (service_ fleet2).
Definition fleet3 : Fleet := set_thread 1 (Checking job1 0) entered1.2 fleet2.
Definition entered2 := enter (jb_key job2) (service_ fleet3).
Definition fleet4 : Fleet := set_thread 2 (Waiting job2 0) entered2.2 fleet3.

Definition free_locks (n : nat) : string + () := inr tt.
Definition all_open (n : nat) : bool := true.

Definition checked := check_cache exec_parse exec_dump free_locks all_open job1 0 (service_ fleet4).
Definition fleet5 : Fleet := set_thread 1 (Building job1 0) checked.2 fleet4.
Definition built := prepare_package ExecutionerConfig_init exec_dump free_locks all_open job1 0
  (prepared_by exec_os job1) (service_ fleet5).
Definition fleet6 : Fleet := set_thread 1 (Launching job1) built.2 fleet5.
Definition fleet7 : Fleet := set_thread 2 (Launching job2) (service_ fleet6) fleet6.
Definition fleet8 : Fleet := set_thread 2 (Done (launch_job exec_os job2)) (service_ fleet7) fleet7.

Lemma exec_parse_defined text : exec_parse text ≠ UB.
Proof. unfold exec_parse. by repeat case_match. Qed.

Lemma exec_dump_defined j : exec_dump j ≠ UB.
Proof. unfold exec_dump. by case_match. Qed.

Lemma exec_parse_empty : ∃ what, exec_parse "" = Throw what.
Proof. by eexists. Qed.

Lemma exec_parse_status j text : exec_dump j = Ok text →
  ∃ j', exec_parse text = Ok j' ∧ value_string j' "status" "" = value_string j "status" "".
Proof.
  unfold exec_dump. destruct (value_string j "status" "") as [s|w|] eqn:Hs; [|done..].
  intros [= <-]. by eexists.
Qed.

Lemma begun1_job : begun1 = (Ok (inr job1), begun1.2).
Proof. vm_compute. reflexivity. Qed.
Lemma begun2_job : begun2 = (Ok (inr job2), begun2.2).
Proof. vm_compute. reflexivity. Qed.

Abbreviation exec_step := (step ExecutionerConfig_init exec_parse exec_dump).
Abbreviation exec_steps := (steps ExecutionerConfig_init exec_parse exec_dump).

Lemma two_begin : exec_steps fleet0 [] fleet2.
Proof.
  apply (steps_more _ _ _ _ [] fleet1 []); [apply (steps_more _ _ _ _ [] fleet0 []); [constructor|]|].
  - apply (step_validate _ _ _ _ 1 exec_world (exec_request "t-1")); [done|exact begun1_job].
  - apply (step_validate _ _ _ _ 2 exec_world (exec_request "t-2")); [done|exact begun2_job].
Qed.

Lemma one_waits : exec_steps fleet0 [] fleet4.
Proof.
  apply (steps_more _ _ _ _ [] fleet3 []); [apply (steps_more _ _ _ _ [] fleet2 []); [apply two_begin|]|].
  - apply (step_enter _ _ _ fleet2 1 job1 0 true); [done|]. vm_compute. reflexivity.
  - apply (step_enter _ _ _ fleet3 2 job2 0 false); [done|]. vm_compute. reflexivity.
Qed.

Lemma one_leader_per_key_witness :
  (∃ t', leads fleet4 t' (jb_key job2) 0) ∨
  ∃ st, slots (service_ fleet4) !! 0%nat = Some st ∧ settled st.
Proof.
  exact (proj2 (one_leader_per_key ExecutionerConfig_init exec_parse exec_dump exec_parse_defined
    exec_dump_defined exec_parse_empty exec_parse_status ∅ [] fleet4 one_waits) 2%nat job2 0%nat eq_refl).
Defined.

Lemma waiting_released_witness :
  can_go_on ExecutionerConfig_init exec_parse exec_dump fleet4 2 job2 0 ∨
  ∃ t' job', t' ≠ 2%nat ∧ jb_key job' = jb_key job2.
Proof.
  destruct (waiting_released ExecutionerConfig_init exec_parse exec_dump exec_parse_defined
    exec_dump_defined exec_parse_empty exec_parse_status ∅ [] fleet4 2%nat job2 0%nat
    one_waits eq_refl) as [H|(t' & job' & Hne & Hk & _)].
  - left. exact H.
  - right. exists t', job'. split; [exact Hne|exact Hk].
Defined.

Lemma both_launch : exec_steps fleet0 ([Prepared job1 exec_os] ++ [Launched job2]) fleet8.
Proof.
  apply (steps_more _ _ _ _ [Prepared job1 exec_os] fleet7 [Launched job2]).
  2: { apply (step_launch _ _ _ fleet7 2 job2 exec_os). done. }
  apply (steps_more _ _ _ _ [Prepared job1 exec_os] fleet6 []).
  2: { apply (step_wake _ _ _ fleet6 2 job2 0 Ready); [done| |done]. vm_compute. reflexivity. }
  apply (steps_more _ _ _ _ [] fleet5 [Prepared job1 exec_os]).
  2: { apply (step_build _ _ _ fleet5 1 job1 0 free_locks all_open exec_os Proceed); [done|].
       vm_compute. reflexivity. }
  apply (steps_more _ _ _ _ [] fleet4 []); [apply one_waits|].
  apply (step_check _ _ _ fleet4 1 job1 0 free_locks all_open MustPrepare); [done|].
  vm_compute. reflexivity.
Qed.

(** The second request is launched after the preparation that the first has led. *)
Lemma launched_after_preparation_witness :
  was_prepared exec_parse ∅ [Prepared job1 exec_os] (jb_key job2).
Proof.
  exact (launched_after_preparation ExecutionerConfig_init exec_parse exec_dump exec_parse_defined
    exec_dump_defined exec_parse_empty exec_parse_status ∅ _ fleet8 [Prepared job1 exec_os] job2 []
    both_launch eq_refl).
Defined.

(** ** The tool registers *)

Definition grep_launch : Launch := {|
  ln_parent_pid := 1001; ln_entry_trace_id := "t-1"; ln_intent := "JOIN_PARENT_TREE";
  ln_params := exec_args; ln_user_id := "" |}.
Definition grep_registered := handle_message 3000 3001
  (registration (launched "grep" "tool" 700 grep_launch) "JOIN_PARENT_TREE" 12) sup2.
Definition grep_reply : json := match grep_registered with Ok (r, _, _) => r | _ => JNull end.
Definition sup_grep : Supervisor := match grep_registered with Ok (_, S1, _) => S1 | _ => sup2 end.

Lemma tool_becomes_child_witness :
  ∃ l, parse_environment_variables exec_parse (λ k, jb_env job1 !! k) = Ok l ∧ ln_params l = exec_args ∧
  ∃ q, Requests.registration sup2 sup_grep grep_reply q ∧ p_trace_id q = "t-1" ∧ p_parent_pid q = 1001.
Proof.
  destruct (tool_becomes_child ExecutionerConfig_init exec_parse exec_dump agent None exec_args)
    as [_ Hchild].
  { vm_compute. split; [reflexivity|discriminate]. }
  { intros text Htext. vm_compute in Htext. injection Htext as <-. reflexivity. }
  destruct (Hchild exec_world "t-1" "grep" "" (service_ fleet0) job1 begun1.2 3000 3001 "tool" 700 12 sup2
    grep_reply sup_grep []) as (l & Hl & _ & _ & _ & Hargs & _ & Hreg).
  - exact begun1_job.
  - apply (wf_reachable _ (sup_registry_reachable _ sup2_reachable)).
  - vm_compute. split; discriminate.
  - discriminate.
  - exists l. split; [exact Hl|]. split; [exact Hargs|].
    assert (l = grep_launch) as ->.
    { enough (Ok l = Ok grep_launch) as H by (by injection H). rewrite <-Hl. vm_compute. reflexivity. }
    destruct Hreg as (q & p' & _ & Hq & _ & Ht & _ & _ & _ & _ & Hpar & _).
    + vm_compute. reflexivity.
    + vm_compute. reflexivity.
    + exists q. split; [exact Hq|]. split; [exact Ht|exact Hpar].
Defined.

(** ** Parameters *)

Definition grep_schema : json :=
  match value_json grep_manifest "parameters" JNull with Ok j => j | _ => JNull end.
Definition grep_properties : json := JObject [("status", JObject [("type", JString "string")])].

Lemma validate_params_spec_witness :
  params_conform exec_args grep_properties [JString "status"].
Proof.
  pose proof (validate_params_spec exec_args grep_schema grep_properties (JArray [JString "status"])
    I eq_refl I eq_refl) as H.
  replace (validate_params exec_args grep_schema) with (Ok (None : option string)) in H
    by (vm_compute; reflexivity).
  exact H.
Defined.
