(* ===== verification/FileScenarios.v ===== *)
(** * Concrete runs of the file tools

    A file that is patched, one that is read in two pages, and one that two agents append to:
    the hypotheses of the theorems of [FileTools] at work. *)

From Stdlib Require Import Ascii.
From S2P Require Import Prelude Json StringUtils Paths FileText FileTools.

(** A host on which every call succeeds. *)
Definition sound_host : Host := {|
  h_getenv := λ _, None; h_cwd := "/work"; h_canonical := λ p, Some p; h_list := λ _, [];
  h_tree := λ _, []; h_is_directory := λ _, false; h_readable := λ _, true;
  h_size_known := λ _, true; h_mkdir := λ _, None; h_open_tmp := true; h_write_tmp := None; h_flush := None;
  h_rename := None; h_open := None; h_lock := true; h_seek := None; h_write := λ n, inr n |}.

Definition one_file (p content : string) : Files :=
  {| names := {[p := 0%nat]}; contents := {[0%nat := content]}; next_inode := 1 |}.

Lemma one_file_wf p content : fs_wf (one_file p content).
Proof.
  split; simpl.
  - intros q r i [<- _]%lookup_singleton_Some [<- _]%lookup_singleton_Some. done.
  - intros q i [_ <-]%lookup_singleton_Some. lia.
  - intros q i [_ <-]%lookup_singleton_Some. rewrite lookup_singleton_eq. by eexists.
Qed.

(** ** A patch *)

Definition notes : Files := one_file "/work/notes" "one two".
Definition patch_run := patch_file sound_host "./notes" "two" "2" 5000 notes.
Definition patch_reply : json := match patch_run.1 with Ok r => r | _ => JNull end.

Lemma patch_run_ok : patch_run = (Ok patch_reply, patch_run.2).
Proof. vm_compute. reflexivity. Qed.


(** ** Pages *)

Definition three_lines : string := "a" +:+ String line_end ("b" +:+ String line_end "c").

Definition letters : Files := one_file "/work/f" three_lines.

Lemma pages_cover_witness :
  concat_strings (read_pages sound_host "f" false 2 524288 letters 3 1) =
    snoc three_lines line_end.
Proof.
  apply (pages_cover sound_host "f" false 2 524288 letters three_lines).
  - split; [discriminate|]. repeat split; vm_compute; try reflexivity; discriminate.
  - discriminate.
  - reflexivity.
  - vm_compute. discriminate.
Defined.

(** ** Two appends *)

Definition append_c : Work := Append "f" "c".
Definition append_d : Work := Append "f" "d".
Definition log_file : Files := one_file "f" "ab".

Definition appends0 : Desk :=
  {| files := log_file; locks := ∅; agents := {[0%nat := Waiting append_c; 1%nat := Waiting append_d]} |}.
(** The second agent goes first; the first one waits for its lock, and writes nothing. *)
Definition d_written : Written := {| by_agent := 1; to_path := "f"; text := "d" |}.

Lemma appends_run : ∃ d, desk_run appends0 [d_written] d ∧
  agents d !! 1%nat = Some (Finished append_d (Some 1%nat)) ∧ content_at "f" (files d) = Some "abd".
Proof.
  eexists. split.
  - assert (desk_run appends0 [] appends0) as H by constructor.
    eapply desk_more in H; [|eapply (do_open_append _ 0); reflexivity].
    eapply desk_more in H; [|eapply (do_open_append _ 1); reflexivity].
    eapply desk_more in H; [|eapply (do_lock _ 1); reflexivity].
    eapply desk_more in H; [|eapply (do_seek _ 1); reflexivity].
    eapply desk_more in H; [|eapply (do_append _ 1 _ _ _ _ 1); [reflexivity|simpl; lia]].
    eapply desk_more in H; [|eapply (do_unlock _ 1); reflexivity].
    exact H.
  - split; reflexivity.
Qed.

Lemma appends_serialise_witness :
  ∃ d, content_at "f" (files d) = Some "abd" ∧
    default "" (content_at "f" (files d)) = "ab" +:+ appended "f" [d_written] ∧
    written_by 1 [d_written] = [d_written].
Proof.
  destruct appends_run as (d & Hrun & Ha & Hf).
  destruct (appends_serialise appends0 [d_written] d) as (Hc & Hd & _).
  - apply one_file_wf.
  - intros a st Ha'. unfold appends0 in Ha'. cbn [agents] in Ha'.
    apply lookup_insert_Some in Ha' as [[_ <-]|[_ Ha']]; [by exists "f", "c"|].
    apply lookup_singleton_Some in Ha' as [_ <-]. by exists "f", "d".
  - exact Hrun.
  - exists d. split; [exact Hf|]. split; [exact (Hc "f")|]. exact (proj2 (Hd _ _ _ _ Ha)).
Defined.
