(* ===== verification/SkillScenarios.v ===== *)
(** * Concrete runs of the skill registry and the thread pool

    A directory with two skills, one of which is shown as it was written and suggested for part of
    its name, and a pool of one worker that is given two tasks: the hypotheses of the theorems of
    [Skills], [AgentTools] and [ThreadPool] at work. *)

From Stdlib Require Import Ascii.
From S2P Require Import Prelude Json StringUtils FileText Skills AgentTools ThreadPool.

Definition search_skill : SkillMetadata :=
  {| sm_name := "web_search"; sm_description := "Find it: - everywhere "; sm_author := "";
     sm_version := "1.0"; sm_tags := ["web"; "look - up"]; sm_visibility := "public";
     sm_assets := JObject [] |}.

Definition skill_disk : SkillDisk :=
  {| current_path := "/v";
     path_exists p := Ok (bool_decide (p ∈ ["/v/skills"; "/v/config"; "/v/skills/web_search/SKILL.md";
                                            "/v/skills/notes/SKILL.md"]));
     is_directory p := Ok (bool_decide (p = "/v/skills"));
     directory_names _ := Ok ["web_search"; "notes"; "not a name"];
     read_skill p :=
       if decide (p = "/v/skills/web_search/SKILL.md") then Some (skill_text search_skill "Body.")
       else Some "Notes.";
     last_write_time _ := Ok 7 |}.

Definition notes_skill : SkillInfo :=
  {| si_metadata := default_metadata "notes"; si_preview := "Notes."; si_last_mtime := 7 |}.
Definition search_info : SkillInfo :=
  {| si_metadata := search_skill; si_preview := "Body."; si_last_mtime := 7 |}.

Definition loaded_registry : SkillRegistry :=
  {| cached_skills_ := <["notes" := notes_skill]> (<["web_search" := search_info]> ∅);
     full_content_cache_ := ∅; last_cache_time_ := 0 |}.

Lemma suggestions_spec_witness :
  load_from_skills_directory skill_disk 0 = Ok loaded_registry ∧
  ∃ l, get_skill_suggestions loaded_registry "Web-Se" d_0_55 3 = Ok (take 3 l) ∧
    "web_search" ∈ sg_name <$> l.
Proof.
  assert (load_from_skills_directory skill_disk 0 = Ok loaded_registry) as Hload by reflexivity.
  split; [exact Hload|].
  assert (∀ name, is_Some (cached_skills_ loaded_registry !! name) → (String.length name ≤ 64)%nat) as Hshort.
  { intros name [i Hi]. simpl in Hi. apply lookup_insert_Some in Hi as [[<- _]|[_ Hi]]; [simpl; lia|].
    apply lookup_insert_Some in Hi as [[<- _]|[_ Hi]]; [simpl; lia|]. by rewrite lookup_empty in Hi. }
  destruct (suggestions_spec skill_disk 0 loaded_registry "Web-Se" "web se" 3 Hload Hshort eq_refl)
    as (l & Hl & _ & _ & _ & Hin); [simpl; lia|].
  exists l. split; [exact Hl|]. by apply (Hin "web_search" search_info "web search").
Defined.

Lemma skill_view_shows_witness :
  ∃ shown, shown_as "Body." 100 shown ∧ shown = "Body." ∧
  skill_view_run skill_disk 0 5 (JObject [("skill_name", JString "web_search");
    ("mode", JString "body"); ("max_chars", JInt 100)]) =
  Ok (JObject [("status", JString "ok"); ("body", JString shown)]).
Proof.
  destruct (skill_view_shows skill_disk 0 5 loaded_registry "/v" "web_search" search_skill "Body."
    "body" 100) as (shown & Hshown & Hview).
  1-3, 6-7: reflexivity.
  1-2: discriminate.
  - done.
  - split; [done|by repeat constructor|]. repeat constructor; done.
  - by left.
  - by right; right.
  - done.
  - exists shown. split; [exact Hshown|]. split; [|exact Hview].
    destruct Hshown as [[_ ->]|(? & ? & H & _)]; [reflexivity|]. by vm_compute in H.
Defined.

(** ** The thread pool *)

Definition always_returns (task : nat) : Outcome := Returns.

Definition one_worker : ThreadPool nat := mk_pool [Checking] [] false 0 2 0 false false.

(** Two tasks are submitted, the first one is taken. *)
Definition two_submitted : ThreadPool nat := mk_pool [Running 7%nat] [8%nat] false 1 2 2 false false.

Definition pool_run : list (Event (Task:=nat)) := [Submit 7%nat true; Submit 8%nat true; Take 7%nat].

Lemma pool_run_steps : steps always_returns pool_run one_worker two_submitted.
Proof.
  change pool_run with ((([] ++ [Submit 7%nat true]) ++ [Submit 8%nat true]) ++ [Take 7%nat]).
  apply steps_snoc with (mk_pool [Checking] [7%nat; 8%nat] false 2 2 2 false false); [|done|].
  - apply steps_snoc with (mk_pool [Checking] [7%nat] false 1 2 1 false false); [|done|].
    + apply steps_snoc with one_worker; [apply steps_nil|done|]. by apply step_submit.
    + by apply step_submit.
  - by apply (step_take always_returns 0 7%nat [8%nat]
      (mk_pool [Checking] [7%nat; 8%nat] false 2 2 2 false false)).
Qed.

Lemma pool_is_bounded_fifo_witness :
  new_pool 1 2 = Ok one_worker ∧ accepted pool_run = started pool_run ++ tasks_ two_submitted.
Proof.
  split; [reflexivity|].
  by apply (pool_is_bounded_fifo always_returns 1 2 one_worker pool_run two_submitted);
    [|reflexivity|apply pool_run_steps].
Defined.

Lemma pool_comes_to_rest_witness : Acc (λ b a, internal_step always_returns a b) two_submitted.
Proof.
  by apply (pool_comes_to_rest always_returns 1 2 one_worker pool_run two_submitted);
    [| |reflexivity|apply pool_run_steps].
Defined.
